(* ===== verification/_CoqProject ===== *)
-Q . S2P
Prelude.v
GoStrings.v
GoFloats.v
GoErrors.v
Effects.v
Redis.v
Pg.v
Kafka.v
KafkaConsumer.v
RateLimit.v
Outbox.v
Domain.v
Events.v
Idempotency.v
OrderDb.v
MarketBlock.v
OrderService.v
BlockQueue.v
ErrorMap.v
OrderCorrect.v
Concurrent.v
Compensation.v
Auth.v
SpotDb.v
MarketView.v
MarketPoller.v
Config.v
Loading.v
DbPool.v
Wiring.v
Deadlines.v
DevToken.v
Readiness.v
Server.v
Logging.v
Observability.v
Tracer.v
Metrics.v
Breaker.v
Lifecycle.v
Injection.v
ConsumerCorrect.v
CompensationLive.v
EndToEnd.v
