(* ===== verification/Prelude.v ===== *)
(** * Verification of spot-order-grpc

    Two Go services.  The spot service keeps markets in Postgres, serves them
    through Redis caches over gRPC and announces their changes on Kafka.  The
    order service takes orders for markets: it asks the spot service whether a
    market may be traded, writes the order and its event in one transaction,
    makes repeated requests idempotent through Redis, and cancels the active
    orders of markets that become unavailable.  Both write their events to an
    outbox table, from which a worker of their own sends them to Kafka.  This
    library models their Go code, with the SQL statements and Lua scripts it
    runs, and proves what it promises.  "src" stands for the repository.

    ** How the code is modelled

    A Go function that calls Postgres, Redis, Kafka, the clock or the UUID
    generator is a function of a [world] (Effects): the component's state and
    an environment that answers every question of the run: whether a call
    succeeds, fails before its effect or fails after it, whether a context has
    ended, what the clocks say.  Theorems quantify over the environment, and so
    over every pattern of failures.  State is a product of parts found by the
    classes [Has] and [Apart], so that one definition runs in every service.
    Errors are trees with errors.Is and errors.As (GoErrors).  Integers are Z
    with Go's wrap-around where a sum may leave 64 bits (Prelude).

    Library code is a class with its documented laws: the Redis commands
    ([Redis], [RedisLaws]), Postgres time precision and collation ([PgTypes],
    [Collation]), protobuf ([ProtoCodec], [PbTime]), JSON, SHA-256, decimals,
    UUIDs ([GoLib]), JWT ([JwtLib]), gRPC statuses ([StatusLib]), the circuit
    breaker, token buckets, protovalidate, the health server, viper, pgxpool and
    the metrics registry.  Each class has
    a concrete instance, with which the witnesses evaluate.

    ** Files

    Foundations.  Prelude: integers, lists, automation.  GoStrings: the parts of
    strings, strconv and time that are used.  GoFloats: float64.  GoErrors: error
    values (shared/errors).  Effects: worlds, the monad, weakest preconditions.
    Redis: the server and shared/infrastructure/cache.  Pg: pools and
    transactions.

    Kafka: messages and the producer (shared/infrastructure/kafka/producer);
    [Module Async] is the client's goroutines and channels as a step relation.
    KafkaConsumer: middlewares, dead letters, the claim and session loops
    (shared/infrastructure/kafka/consumer).

    Outbox: both services' outbox stores and workers.  [step] is what any
    number of writers and workers may commit; [OrderWorker] and [SpotWorker]
    are the two workers over [EventPublisher].

    Order service.  Domain: enumerations, decimals, NUMERIC(18, 8).  Events:
    events, DTOs and mappers, of both services.  RateLimit: the per-user
    limiter's script.  Idempotency: scripts, store, adapter and service.
    OrderDb: orders, inbox and outbox tables and their stores.  MarketBlock:
    the block-state script.  OrderService: CreateOrder, GetOrderStatus, the
    block queue and the gRPC handlers.  BlockQueue: the goroutines around that
    queue, its mutex, wait group and channel.  OrderCorrect: the theorems about
    orders.
    Compensation: services/order/compensation_service.go and its inbox
    transaction.  ConsumerCorrect: the market consumer end to end.  Auth: roles,
    tokens, refresh rotation and the auth interceptors.

    Spot service.  SpotDb: markets, cursors and outbox.  MarketView: the viewer,
    its caches and the handlers.  MarketPoller: the poller, its transaction and
    its restart loop.

    Both.  ErrorMap: the error interceptor, the spot client and what its breaker
    counts.  Config: records, validators and the settings of each component;
    Loading: the files and the environment they are read from, both Load and
    LoadMigrate.  DbPool: pools, the migrator and the main functions that
    migrate.  Wiring: the providers of both services, that is, what the
    configuration becomes in sarama, go-redis, gRPC and each component.
    Deadlines: the contexts the services derive.  DevToken: the developers'
    login.  Readiness: the monitor and its hooks.  Server: validation, recovery,
    per-method limits and the chain of interceptors.  Logging: the logger, its
    levels, the fields of contexts and the logging interceptor.  Observability:
    the tracing and metrics interceptors and the whole chain.  Tracer: the
    tracer and the attributes of spans.  Metrics: every declared metric.
    Breaker: the callbacks of the circuit breakers and the order client.
    Lifecycle: every hook and whole runs of a service.  Injection: every
    constructor and invocation given to fx, and the container.

    Across components.  Concurrent: any number of CreateOrder requests,
    interleaved call by call.  CompensationLive: what the compensation and the
    block state come to when nothing fails.  EndToEnd: a change of a market from
    the spot service's table to the orders and the block state of the order
    service.

    ** How the parts meet

    OrderService is proved against the interface [MarketViewer]; ErrorMap's spot
    client implements it.  The outbox workers are proved against
    [EventPublisher], whose instances are the two producers, and against
    [HasOutbox], which both databases provide.  ConsumerCorrect runs the
    consumer of KafkaConsumer around the compensation of Compensation.
    Server puts the interceptors of ErrorMap and Auth around the handlers of
    OrderService, Auth and MarketView, and Observability those of Logging and
    its own around Server's.  Wiring builds every component from a validated
    configuration and shows that the settings fit together, across components,
    as their theorems ask.  EndToEnd runs the poller, the spot service's
    outbox worker, the consumer and the compensation after each other, with
    Kafka's promise that records are handed over in order; [Concurrent.step] is
    [CreateOrder] cut at its calls, and its iteration is [CreateOrder].
    Injection's applications are the declarations of both services, from which
    the container builds the hooks that Lifecycle runs; what an activity holds
    on to is computed from them.  Every move of a BlockQueue thread is an
    operation of the atomic queue that OrderService uses.

    ** What is proved

    End to end: when nothing fails, a market that the spot service disables or
    deletes has no active orders in the order service after one poll, one batch
    and one claim, and its block state is the announced one.  Identifiers are
    fresh, times are in range, and the outbox holds nothing else.

    Orders (OrderCorrect): at most one order per request and only for a market
    answered as enabled; the order and its event are one commit; a repeated
    request gets the first one's answer, and recovery only the caller's own
    order; status queries reveal no other user's orders; the handler rejects
    everything the database could not store.  (What recovery may answer is said
    apart from its query, by [OrderCorrect.recovery_answer].)  Concurrent
    requests with one key place at most one order while the key lives, unless
    a reply is lost (Concurrent; [lost_commit_two_orders] shows why that is
    excluded).

    Compensation: atomic, exactly once, and exactly the active orders of the
    market.  Consumer: a mark moves the group's offset, past every message
    before it; while claims go no further than a message they left, all that
    the offset has passed is processed or in the dead-letter topic, and marks
    are in order.  [ConsumerCorrect.stopped_claim_passes_over] shows that the
    condition is needed.

    Outbox: rows stay well formed, a claim is exclusive, published rows are in
    the log, retries are bounded, and pending rows drain when nothing fails:
    each is sent exactly once and is published afterwards.
    What the workers do refines a protocol in which the publisher's answer
    decides what becomes of each claimed row ([Outbox.worker_refines_protocol]).

    Poller: it never passes an update without an event, and a poll commits a
    prefix of the pending updates with its cursor.  Viewer: pages are complete
    and in order and caches invisible; a caller only sees what its role may see.

    Redis scripts: idempotency keys are exclusive, a refresh token works once, a
    block state is a last-writer-wins register, the limiter a fixed-window
    counter.  Boundaries: market events and request hashes round-trip, error
    mapping answers from a table, and [Server.server_gate] says which
    requests reach a handler, as whom.  Operation: in whatever order fx builds
    them, the services can be assembled and their hooks come in a safe order;
    readiness is a function of the probe history; a stop tells the parts of a
    service to end one after the other, closes nothing an activity can still
    reach, and always has a step to take that waits for nobody who was not told;
    the block queue never sends on a closed channel, and its Close leaves no
    task behind.
    Pools are closed on every path; every request is counted once, under the
    code its caller gets, and observing changes no reply; a breaker opens after
    exactly MaxFailures failures in a row of its callee; the producer's client
    answers every publication and wakes every waiter when it closes.

    ** Bounds and fuel

    [poll_loop] and the poller's [Run_loop] and [restart_loop] take fuel; the
    prefix and never-skip theorems hold for every amount, and
    [MarketPoller.poll_complete] shows that fuel above the number of pending
    updates lets a poll return, with all of them announced.  Loops driven from outside
    (tickers, selects, claims, sessions, restarts) are functions of the list of
    what happened.  The claims of a session run one after another: those of
    different partitions share nothing but the stores.  The retry loops recurse on their number of attempts, and
    [GoStrings] on the string.  [Injection.closure] and [start] take as much
    fuel as there are parameters and constructors, and [well_wired] checks that
    the closure is closed.

    ** Not modelled

    Sockets and drivers; the SQL files of the migrations, which show in the
    constraints of Pg, OrderDb and SpotDb; which function sets which attribute
    of its span; what clients of the health service see while a service stops;
    CheckHealth, which nothing calls; and of fx everything but the rules of
    construction that Injection states.  Logs and metrics are modelled where a
    component is about them (Logging, Observability, Metrics, Breaker) and left
    out of the other functions, whose results they do not change.  Panics inside handlers of the
    two services are replies in Server and results in KafkaConsumer.  Deadlines
    are times in Deadlines and answers of the environment elsewhere.
    Concurrency inside one process is modelled where components share state:
    the producer's client, the block queue, workers on one table, scripts on one
    Redis, requests that create orders, and the activities of a service; two requests of one
    process otherwise meet only in the databases, where each statement or
    script is one step. *)

From stdpp Require Export base tactics option list numbers strings gmap.
From stdpp Require Import sorting.
From Stdlib Require Export ZArith Lia.

#[export] Set Default Goal Selector "!".

(** ** Notations and automation *)

Declare Scope go_scope.
Delimit Scope go_scope with go.

Create HintDb go.
Create Rewrite HintDb go_rw.

(** Split every [match]/[if] of a hypothesis or of the goal, dropping the
    contradictory branches. *)
Ltac split_match_hyp H :=
  repeat (match type of H with
          | context [match ?x with _ => _ end] =>
              let E := fresh "E" in destruct x eqn:E
          end; simplify_eq/=).

Ltac split_match :=
  repeat (match goal with
          | |- context [match ?x with _ => _ end] =>
              let E := fresh "E" in destruct x eqn:E
          end; simplify_eq/=).

(** ** Fixed-width integers of Go *)

Section Width.
Local Open Scope Z_scope.

Definition wrap_u (w : Z) (x : Z) : Z := x mod 2 ^ w.

Definition wrap_s (w : Z) (x : Z) : Z :=
  (x + 2 ^ (w - 1)) mod 2 ^ w - 2 ^ (w - 1).

Definition max_u64 : Z := 2 ^ 64 - 1.
Definition max_i64 : Z := 2 ^ 63 - 1.
Definition min_i64 : Z := - 2 ^ 63.

Definition in_u64 (x : Z) : Prop := 0 <= x <= max_u64.
Definition in_i64 (x : Z) : Prop := min_i64 <= x <= max_i64.

Lemma wrap_u_small w x : 0 <= x < 2 ^ w -> wrap_u w x = x.
Proof. intros. by apply Z.mod_small. Qed.

Lemma wrap_u_bound w x : 0 <= w -> 0 <= wrap_u w x < 2 ^ w.
Proof. intros. apply Z.mod_pos_bound. lia. Qed.

Lemma wrap_s_small w x :
  - 2 ^ (w - 1) <= x < 2 ^ w - 2 ^ (w - 1) -> wrap_s w x = x.
Proof. intros. unfold wrap_s. rewrite Z.mod_small; lia. Qed.

Lemma wrap_s64_small x : in_i64 x -> wrap_s 64 x = x.
Proof. unfold in_i64, min_i64, max_i64. intros. apply wrap_s_small. lia. Qed.

Lemma wrap_s64_bound x : in_i64 (wrap_s 64 x).
Proof.
  unfold in_i64, wrap_s, min_i64, max_i64.
  pose proof (Z.mod_pos_bound (x + 2 ^ (64 - 1)) (2 ^ 64)). lia.
Qed.
End Width.

#[export] Hint Rewrite wrap_u_small wrap_s64_small using lia : go_rw.

(** ** Lists *)

(** The first [n] elements of a list for a Z-typed length, as Go slices it. *)
Definition len {A} (l : list A) : Z := Z.of_nat (length l).

Lemma len_app {A} (l1 l2 : list A) : len (l1 ++ l2) = (len l1 + len l2)%Z.
Proof. unfold len. rewrite length_app. lia. Qed.

Lemma len_nonneg {A} (l : list A) : (0 <= len l)%Z.
Proof. unfold len. lia. Qed.
#[export] Hint Resolve len_nonneg : go.

Lemma take_app_drop_take {A} (n m : nat) (l : list A) :
  take n l ++ take m (drop n l) = take (n + m) l.
Proof.
  rewrite <- (take_drop n (take (n + m) l)), take_take, Nat.min_l by lia.
  by rewrite take_drop_commute, Nat.add_comm.
Qed.

Lemma pair_snd {A B} (x : A * B) a : x.1 = a -> x = (a, x.2).
Proof. destruct x; simpl; congruence. Qed.

Lemma elem_of_values `{Countable K} {A} (m : gmap K A) a :
  a ∈ (map_to_list m).*2 <-> exists k, m !! k = Some a.
Proof.
  rewrite list_elem_of_fmap. split.
  - intros ([k a'] & -> & Hin%elem_of_map_to_list). by exists k.
  - intros [k Hk]. exists (k, a). split; [done|]. by apply elem_of_map_to_list.
Qed.

Section Filter.
Context {A : Type} (P : A -> Prop) `{!forall x, Decision (P x)}.

Lemma filter_all l : Forall P l -> filter P l = l.
Proof. induction 1 as [|x l Hx _ IH]; [done|]. rewrite filter_cons, decide_True by done. by rewrite IH. Qed.

Lemma filter_none l : Forall (λ x, ~ P x) l -> filter P l = [].
Proof. induction 1 as [|x l Hx _ IH]; [done|]. by rewrite filter_cons, decide_False by done. Qed.
End Filter.

(** Go's [for _, x := range l]: a left-to-right fold with an early exit. *)
Section FoldUntil.
Context {A S E : Type} (f : A -> S -> S + E).

Fixpoint fold_until (l : list A) (s : S) : S + E :=
  match l with
  | [] => inl s
  | x :: l => match f x s with
              | inl s' => fold_until l s'
              | inr e => inr e
              end
  end.
End FoldUntil.

(** Deduplication keeping the first occurrence, as the loops with a [seen] map
    do. *)
Fixpoint dedup {A} `{EqDecision A} (seen l : list A) : list A :=
  match l with
  | [] => []
  | x :: l => if decide (x ∈ seen) then dedup seen l else x :: dedup (x :: seen) l
  end.

Section Dedup.
Context {A : Type} `{EqDecision A}.
Implicit Types l seen : list A.

Lemma elem_of_dedup x l seen : x ∈ dedup seen l <-> x ∈ l /\ x ∉ seen.
Proof.
  revert seen; induction l as [|y l IH]; intros seen; simpl; [set_solver|].
  case_decide; rewrite ?elem_of_cons, IH, ?not_elem_of_cons.
  - split; [tauto|]. intros [[->|?] ?]; tauto.
  - destruct (decide (x = y)) as [->|]; tauto.
Qed.

Lemma NoDup_dedup l seen : NoDup (dedup seen l).
Proof.
  revert seen; induction l as [|y l IH]; intros seen; simpl; [constructor|].
  case_decide; [done|]. constructor; [|done].
  rewrite elem_of_dedup. set_solver.
Qed.

Lemma dedup_NoDup_id l seen : NoDup l -> (forall x, x ∈ l -> x ∉ seen) -> dedup seen l = l.
Proof.
  revert seen; induction l as [|y l IH]; intros seen Hnd Hs; simpl; [done|].
  apply NoDup_cons in Hnd as [Hy Hnd].
  rewrite decide_False by set_solver. f_equal. apply IH; set_solver.
Qed.

Lemma dedup_seen_perm l seen seen' :
  (forall x, x ∈ seen <-> x ∈ seen') -> dedup seen l = dedup seen' l.
Proof.
  revert seen seen'; induction l as [|y l IH]; intros seen seen' Hs; simpl; [done|].
  rewrite (decide_ext (y ∈ seen) (y ∈ seen')) by apply Hs.
  case_decide; [by apply IH|]. f_equal. apply IH. intros x. rewrite !elem_of_cons. by rewrite Hs.
Qed.

Lemma dedup_length l seen : length (dedup seen l) <= length l.
Proof.
  revert seen; induction l as [|y l IH]; intros seen; simpl; [lia|].
  case_decide; simpl; pose proof (IH seen); pose proof (IH (y :: seen)); lia.
Qed.
End Dedup.

(** ** Sorted lists *)

Lemma StronglySorted_filter {A} (R : A -> A -> Prop) (P : A -> Prop) `{!forall x, Decision (P x)} l :
  StronglySorted R l -> StronglySorted R (filter P l).
Proof.
  induction 1 as [|x l _ IH Hx]; [constructor|]. rewrite filter_cons. case_decide; [|done].
  constructor; [done|]. rewrite Forall_forall in Hx |- *. intros y Hy. apply Hx.
  by apply list_elem_of_filter in Hy as [_ Hy].
Qed.

Lemma StronglySorted_take {A} (R : A -> A -> Prop) n l : StronglySorted R l -> StronglySorted R (take n l).
Proof.
  intros H. revert n. induction H as [|x l _ IH Hx]; intros [|n]; simpl; [constructor..|].
  constructor; [apply IH|]. rewrite Forall_forall in Hx |- *. intros y Hy. apply Hx.
  by eapply (subseteq_take n l).
Qed.
