(* ===== verification/GoStrings.v ===== *)
(** * The parts of Go's [strings], [strconv] and [time] the program uses

    A Go string is its byte sequence, here a [string] (a list of [ascii]).
    [strings.TrimSpace], [ToUpper] and [ToLower] are modelled on their ASCII
    part: the six ASCII white-space bytes and the letters a-z/A-Z.  Integers
    are [Z]; [parse_int] keeps the int64 range check of [strconv.ParseInt]. *)

From S2P Require Import Prelude.
From Stdlib Require Export Ascii.
From Stdlib Require Import DecimalString DecimalZ DecimalPos DecimalFacts.
Local Open Scope string_scope.

(** ** Bytes *)

Definition byte_in (lo hi : N) (c : ascii) : bool :=
  bool_decide (lo <= Ascii.N_of_ascii c)%N && bool_decide (Ascii.N_of_ascii c <= hi)%N.

Definition is_digit (c : ascii) : bool := byte_in 48 57 c.

Definition is_space (c : ascii) : bool := byte_in 9 13 c || byte_in 32 32 c.

Definition upper_byte (c : ascii) : ascii :=
  if byte_in 97 122 c then Ascii.ascii_of_N (Ascii.N_of_ascii c - 32) else c.

Definition lower_byte (c : ascii) : ascii :=
  if byte_in 65 90 c then Ascii.ascii_of_N (Ascii.N_of_ascii c + 32) else c.

(** ** package strings *)

Fixpoint str_map (f : ascii -> ascii) (s : string) : string :=
  match s with
  | "" => ""
  | String c s => String (f c) (str_map f s)
  end.

Definition ToUpper : string -> string := str_map upper_byte.
Definition ToLower : string -> string := str_map lower_byte.

Fixpoint trim_left (p : ascii -> bool) (s : string) : string :=
  match s with
  | "" => ""
  | String c s' => if p c then trim_left p s' else s
  end.

Definition str_rev (s : string) : string :=
  String.string_of_list_ascii (rev (String.list_ascii_of_string s)).

Definition trim_right (p : ascii -> bool) (s : string) : string :=
  str_rev (trim_left p (str_rev s)).

Definition TrimSpace (s : string) : string := trim_right is_space (trim_left is_space s).

Fixpoint HasPrefix (s prefix : string) : bool :=
  match prefix, s with
  | "", _ => true
  | String p prefix, String c s => bool_decide (p = c) && HasPrefix s prefix
  | _, "" => false
  end.

Lemma HasPrefix_nil s : HasPrefix s "" = true.
Proof. by destruct s. Qed.

Fixpoint str_drop (n : nat) (s : string) : string :=
  match n, s with
  | 0, _ => s
  | S n, "" => ""
  | S n, String _ s => str_drop n s
  end.

Definition TrimPrefix (s prefix : string) : string :=
  if HasPrefix s prefix then str_drop (String.length prefix) s else s.

Fixpoint Contains (s sub : string) : bool :=
  HasPrefix s sub || match s with "" => false | String _ s => Contains s sub end.

Fixpoint str_mem (c : ascii) (s : string) : bool :=
  match s with
  | "" => false
  | String d s => bool_decide (c = d) || str_mem c s
  end.

(** Everything before and after the first occurrence of the byte [c]. *)
Fixpoint cut (c : ascii) (s : string) : option (string * string) :=
  match s with
  | "" => None
  | String d s =>
      if bool_decide (c = d) then Some ("", s)
      else '(a, b) ← cut c s; Some (String d a, b)
  end.

(** [strings.SplitN(s, c, 2)]: one part without the separator, else two. *)
Definition SplitN2 (c : ascii) (s : string) : list string :=
  match cut c s with
  | None => [s]
  | Some (a, b) => [a; b]
  end.

(** [strings.Split(s, c)] for a one-byte separator. *)
Fixpoint split_on (c : ascii) (s : string) : string * list string :=
  match s with
  | "" => ("", [])
  | String d s =>
      let '(h, t) := split_on c s in
      if bool_decide (c = d) then ("", h :: t) else (String d h, t)
  end.

Definition Split (c : ascii) (s : string) : list string :=
  let '(h, t) := split_on c s in h :: t.

Fixpoint str_forall (p : ascii -> bool) (s : string) : bool :=
  match s with
  | "" => true
  | String c s => p c && str_forall p s
  end.

Lemma split_on_no_sep c s : str_mem c s = false -> split_on c s = (s, []).
Proof.
  induction s as [|d s IH]; simpl; [done|].
  intros [Hd Hs]%orb_false_iff. by rewrite IH, Hd.
Qed.

Lemma split_on_app c a b :
  str_mem c a = false -> str_mem c b = false -> split_on c (a +:+ String c b) = (a, [b]).
Proof.
  intros Ha Hb; induction a as [|d a IH]; simpl in *.
  - rewrite split_on_no_sep by done. by rewrite bool_decide_true.
  - apply orb_false_iff in Ha as [Hd Ha]. by rewrite IH, Hd.
Qed.

(** Splitting one joined pair gives the pair back. *)
Lemma Split_pair c a b :
  str_mem c a = false -> str_mem c b = false -> Split c (a +:+ String c b) = [a; b].
Proof. intros. unfold Split. by rewrite split_on_app. Qed.

Lemma cut_app c a b : str_mem c a = false -> cut c (a +:+ String c b) = Some (a, b).
Proof.
  induction a as [|d a IH]; simpl; [by rewrite bool_decide_true|].
  intros [Hd Ha]%orb_false_iff. by rewrite Hd, IH.
Qed.

Lemma str_app_colon (a b : string) : (a +:+ ":" +:+ b = a +:+ String ":" b)%string.
Proof. done. Qed.

Lemma cut_None c s : cut c s = None <-> str_mem c s = false.
Proof.
  induction s as [|d s IH]; simpl; [done|].
  destruct (bool_decide (c = d)); simpl; [done|].
  destruct (cut c s) as [[a b]|]; simpl; naive_solver.
Qed.

Lemma str_mem_forall c p s : str_forall p s = true -> p c = false -> str_mem c s = false.
Proof.
  induction s as [|d s IH]; simpl; [done|].
  intros [Hd Hs]%andb_true_iff Hc. rewrite IH by done.
  rewrite bool_decide_false by congruence. done.
Qed.

(** ** package strconv *)

(** [strconv.FormatInt(z, 10)] and [strconv.Itoa]. *)
Definition itoa (z : Z) : string := NilZero.string_of_int (Z.to_int z).

Definition in_i64b (z : Z) : bool := bool_decide (min_i64 <= z <= max_i64)%Z.

(** [strconv.ParseInt(s, 10, 64)]: an optional sign, at least one digit, and
    the range check. *)
Definition parse_int (s : string) : option Z :=
  z ← match s with
      | String "+" s => (λ u, Z.of_int (Decimal.Pos u)) <$> NilZero.uint_of_string s
      | _ => Z.of_int <$> NilZero.int_of_string s
      end;
  if in_i64b z then Some z else None.

Lemma nilempty_digits u : str_forall is_digit (NilEmpty.string_of_uint u) = true.
Proof. induction u; simpl; done. Qed.

Lemma nilzero_digits u : str_forall is_digit (NilZero.string_of_uint u) = true.
Proof. destruct u; try apply nilempty_digits; try done. Qed.

Definition is_int_byte (c : ascii) : bool := is_digit c || bool_decide (c = "-"%char).

Lemma str_forall_impl p q s :
  (forall c, p c = true -> q c = true) -> str_forall p s = true -> str_forall q s = true.
Proof.
  intros Hpq; induction s as [|c s IH]; simpl; [done|].
  intros [? ?]%andb_true_iff. by rewrite Hpq, IH.
Qed.

Lemma itoa_bytes z : str_forall is_int_byte (itoa z) = true.
Proof.
  assert (Hd : forall u, str_forall is_int_byte (NilZero.string_of_uint u) = true).
  { intros u. eapply str_forall_impl; [|apply nilzero_digits].
    intros c Hc. unfold is_int_byte. by rewrite Hc. }
  unfold itoa, NilZero.string_of_int. destruct (Z.to_int z); simpl; [done|].
  by rewrite Hd.
Qed.

Lemma trim_left_id p s : str_forall (λ c, negb (p c)) s = true -> trim_left p s = s.
Proof. destruct s as [|c s]; simpl; [done|]. by destruct (p c). Qed.

Lemma str_forall_list p s :
  str_forall p s = true <-> Forall (λ c, p c = true) (String.list_ascii_of_string s).
Proof.
  induction s as [|c s IH]; simpl; [done|].
  rewrite andb_true_iff, IH, Forall_cons. done.
Qed.

Lemma trim_right_id p s : str_forall (λ c, negb (p c)) s = true -> trim_right p s = s.
Proof.
  intros Hs. unfold trim_right, str_rev. rewrite trim_left_id.
  - rewrite String.list_ascii_of_string_of_list_ascii, rev_involutive.
    apply String.string_of_list_ascii_of_string.
  - apply str_forall_list. rewrite String.list_ascii_of_string_of_list_ascii.
    apply Forall_rev. by apply str_forall_list.
Qed.

Lemma TrimSpace_itoa z : TrimSpace (itoa z) = itoa z.
Proof.
  assert (Hs : str_forall (λ c, negb (is_space c)) (itoa z) = true).
  { eapply str_forall_impl; [|apply itoa_bytes].
    intros [[] [] [] [] [] [] [] []]; vm_compute; done. }
  unfold TrimSpace. rewrite trim_left_id by done. by apply trim_right_id.
Qed.

Lemma itoa_not_plus z s : itoa z <> String "+" s.
Proof.
  intros H. pose proof (itoa_bytes z) as Hb. rewrite H in Hb. simpl in Hb. done.
Qed.

Lemma int_of_itoa z : NilZero.int_of_string (itoa z) = Some (Z.to_int z).
Proof.
  unfold itoa. apply NilZero.isi; destruct z as [|p|p]; simpl; try done;
    intros [=]; by apply (DecimalPos.Unsigned.to_uint_nonnil p).
Qed.

Lemma parse_int_itoa z : in_i64 z -> parse_int (itoa z) = Some z.
Proof.
  intros Hz.
  assert (Hraw : parse_int (itoa z) =
    (z ← Z.of_int <$> NilZero.int_of_string (itoa z); if in_i64b z then Some z else None)).
  { unfold parse_int. pose proof (itoa_not_plus z) as Hp.
    destruct (itoa z) as [|c s]; [done|].
    destruct (decide (c = "+"%char)) as [->|Hc]; [by destruct (Hp s)|].
    destruct c as [[] [] [] [] [] [] [] []]; done. }
  rewrite Hraw, int_of_itoa. simpl. rewrite DecimalZ.of_to.
  unfold in_i64b. by rewrite bool_decide_true.
Qed.

(** ** package time *)

(** Times are nanoseconds since the Unix epoch; this is [time.Time{}]. *)
Definition zero_time : Z := -62135596800000000000.

(** time.Second. *)
Definition second : Z := 1000000000.

(** *** time.Duration.String *)

Section Duration.
Local Open Scope Z_scope.

Fixpoint zero_pad (n : nat) (s : string) : string :=
  match n with
  | O => s
  | S n => if bool_decide (String.length s < S n)%nat then String "0" (zero_pad n s) else s
  end.

(** [v / 10^prec] as an integer part and a fraction with its trailing zeros
    dropped ([fmtFrac]). *)
Definition fmt_frac (v : Z) (prec : nat) : string * Z :=
  let p := 10 ^ Z.of_nat prec in
  let digits := trim_right (λ c, bool_decide (c = "0"%char)) (zero_pad prec (itoa (v mod p))) in
  ((if bool_decide (digits = "") then "" else "." +:+ digits), v / p).

Definition duration_string (d : Z) : string :=
  let u := Z.abs d in
  let sign := if d <? 0 then "-" else "" in
  if u =? 0 then "0s"
  else if u <? 1000000000 then
    if u <? 1000 then sign +:+ itoa u +:+ "ns"
    else if u <? 1000000 then
      let '(f, i) := fmt_frac u 3 in sign +:+ itoa i +:+ f +:+ "µs"
    else let '(f, i) := fmt_frac u 6 in sign +:+ itoa i +:+ f +:+ "ms"
  else
    let '(f, secs) := fmt_frac u 9 in
    let s := itoa (secs mod 60) +:+ f +:+ "s" in
    let mins := secs / 60 in
    if mins =? 0 then sign +:+ s
    else
      let hours := mins / 60 in
      let ms := itoa (mins mod 60) +:+ "m" +:+ s in
      if hours =? 0 then sign +:+ ms else sign +:+ itoa hours +:+ "h" +:+ ms.

Example duration_hour : duration_string 3600000000000 = "1h0m0s".
Proof. reflexivity. Qed.
Example duration_ms : duration_string 300000000 = "300ms".
Proof. reflexivity. Qed.
Example duration_frac : duration_string 1500000000 = "1.5s".
Proof. reflexivity. Qed.
End Duration.

(** ** A text codec for the closed instances

    The program's wire formats (JSON, protobuf) are parameters of the model;
    where a closed instance needs one, it writes the number a value encodes
    to. *)
Section TextCodec.
Context {A : Type} `{Countable A}.

Definition text_encode (a : A) : string := itoa (Zpos (encode a)).

Definition text_decode (s : string) : option A :=
  i ← NilZero.int_of_string s;
  match Z.of_int i with Zpos p => decode p | _ => None end.

Lemma text_decode_encode a : text_decode (text_encode a) = Some a.
Proof.
  unfold text_decode, text_encode. rewrite int_of_itoa.
  cbn [mbind option_bind]. rewrite DecimalZ.of_to. apply decode_encode.
Qed.

Lemma text_encode_nonempty a : text_encode a <> "".
Proof.
  intros Heq. pose proof (text_decode_encode a) as Hd. rewrite Heq in Hd.
  unfold text_decode in Hd. simpl in Hd. done.
Qed.
End TextCodec.
