(* ===== verification/GoFloats.v ===== *)
(** * float64

    What the program computes in float64: products, quotients and sums, and the
    conversions from and to int64.  The values are those of the Standard
    Library's IEEE 754 specification with 53 bits of precision. *)

From S2P Require Import Prelude GoStrings.
From Stdlib Require Export SpecFloat.
Local Open Scope Z_scope.

Definition float_mul : spec_float -> spec_float -> spec_float := SFmul 53 1024.
Definition float_div : spec_float -> spec_float -> spec_float := SFdiv 53 1024.
Definition float_add : spec_float -> spec_float -> spec_float := SFadd 53 1024.

(** float64(z) *)
Definition float_of (z : Z) : spec_float := binary_normalize 53 1024 z 0 false.

(** int64(f): the part before the point.  What Go makes of NaN, of infinities
    and of what does not fit depends on the machine; here it is zero. *)
Definition int64_of (f : spec_float) : Z :=
  let z := match f with
           | S754_finite sign m e => (if sign then -1 else 1) * (if 0 <=? e then Z.pos m * 2 ^ e else Z.pos m / 2 ^ (- e))
           | _ => 0
           end in
  if (min_i64 <=? z) && (z <=? max_i64) then z else 0.

(** time.Duration.Seconds *)
Definition Seconds (d : Z) : spec_float :=
  float_add (float_of (Z.quot d second)) (float_div (float_of (Z.rem d second)) (float_of second)).

Example int64_of_third : int64_of (float_div (float_of 100) (float_of 3)) = 33.
Proof. vm_compute. reflexivity. Qed.

Example int64_of_negative : int64_of (float_div (float_of (-100)) (float_of 3)) = -33.
Proof. vm_compute. reflexivity. Qed.
