(* ===== verification/GoErrors.v ===== *)
(** * Error values (shared/errors, shared/errors/service, shared/errors/repository,
      shared/infrastructure/kafka/consumer/errors.go)

    A Go error is the tree its [Unwrap] methods describe: package-level
    sentinels made with [errors.New], the typed errors of the repository, gRPC
    status errors, driver errors, and the wrappers of [fmt.Errorf] and
    [errors.Join].  [errors_Is] and [errors_As] are the standard library's
    walks over that tree, with the [Is] methods of the typed errors. *)

From S2P Require Import Prelude GoStrings.
Local Open Scope string_scope.

(** ** Library boundary: google/uuid and the texts of library errors *)

(** A UUID is its 128-bit big-endian value, so that comparing the 16 bytes is
    comparing numbers; [uuid.Nil] is 0. *)
Definition UUID := N.
Definition uuid_Nil : UUID := 0%N.

(** ** Sentinels *)

Inductive sentinel :=
| ErrCacheNotFound                                        (* shared/errors *)
| Repo_ErrMarketStoreIsEmpty | Repo_ErrMarketsNotFound | Repo_ErrMarketCacheCorrupted
| ErrOrderProcessing | ErrMarketsNotFound | ErrMarketsUnavailable
| ErrNilContext | ErrInvalidPagination | ErrUserRoleNotSpecified
| ErrSpotUnavailable | ErrSpotUnauthenticated | ErrSpotPermissionDenied
| ErrSpotRateLimited | ErrSpotInternalFailure
| ErrMissingMetadata | ErrMissingAuthToken | ErrInvalidToken | ErrTokenExpired
| ErrInvalidTokenType | ErrMissingTokenSubject | ErrInvalidSubject
| ErrMissingTokenSessionID | ErrInternalAuthContext | ErrSignAccessTokenFailed
| ErrBuildTokenClaimsFailed | ErrSessionValidationFailed | ErrMissingUserRoles
| ErrInvalidUserRoles | ErrInvalidUserIDInToken | ErrInvalidJTI | ErrTokenRevoked
| ErrSaveTokenFailed | ErrSignRefreshTokenFailed
| ErrMessageHandledByDLQ | ErrRestartConsumerSession | ErrSkipMessage | ErrStopConsumeClaim
| ErrProducerUnavailable
| CtxCanceled | CtxDeadlineExceeded                       (* package context *)
| PgxErrNoRows | PgxErrTxClosed | RedisNil                (* drivers *)
| BreakerErrOpenState | BreakerErrTooManyRequests | SaramaErrClosedConsumerGroup.

#[export] Instance sentinel_eq_dec : EqDecision sentinel.
Proof. solve_decision. Defined.

(** The library functions on UUIDs and the texts of the libraries' own errors
    ([status.Error], [*pgconn.PgError] and their sentinels). *)
Class GoLib := {
  uuid_string : UUID -> string;
  uuid_parse : string -> option UUID;
  status_text : Z -> string -> string;
  lib_sentinel_text : sentinel -> string
}.

(** Documented behaviour of google/uuid the program relies on: [Parse] inverts
    [String], the text form has no [:] and no [|], and the empty string is not a UUID. *)
Class UuidLaws (U : GoLib) := {
  uuid_parse_string u : uuid_parse (uuid_string u) = Some u;
  uuid_string_no_colon u : str_mem ":" (uuid_string u) = false;
  uuid_string_no_bar u : str_mem "|" (uuid_string u) = false;
  uuid_parse_empty : uuid_parse "" = None
}.

(** ** Errors *)

Inductive error :=
| ESentinel (s : sentinel)
| EMsg (msg : string)                      (* errors.New / fmt.Errorf without %w *)
| ENotFound (ID : UUID)                    (* shared.ErrNotFound *)
| EAlreadyExists (ID : UUID)               (* shared.ErrAlreadyExists *)
| EMarketNotFound (ID : UUID)              (* shared.ErrMarketNotFound *)
| ELimitExceeded (Limit Window : Z)        (* service.ErrLimitExceeded *)
| EUnavailable (ID : UUID)                 (* service.ErrUnavailable *)
| EDisabled (ID : UUID)                    (* service.ErrDisabled *)
| EStatus (code : Z) (msg : string)        (* a gRPC status error *)
| EPg (code constraint msg : string)       (* *pgconn.PgError *)
| ETooLarge (Size Limit : Z)               (* consumer.MessageTooLargeError *)
| ERetryExhausted (e : error) (RetryCount : Z)
| ENonRetryable (e : error)
| EWrap (pre : string) (e : error) (post : string)   (* fmt.Errorf("pre%wpost") *)
| EJoin (sep : string) (e1 e2 : error).              (* errors.Join; two %w verbs *)

#[export] Instance error_eq_dec : EqDecision error.
Proof. solve_decision. Defined.

(** The nodes of the tree in the order [errors.Is] and [errors.As] visit
    them. *)
Fixpoint error_nodes (e : error) : list error :=
  e :: match e with
       | ERetryExhausted e _ | ENonRetryable e | EWrap _ e _ => error_nodes e
       | EJoin _ e1 e2 => error_nodes e1 ++ error_nodes e2
       | _ => []
       end.

Definition errors_As (p : error -> bool) (e : error) : option error :=
  match filter (λ x, p x = true) (error_nodes e) with
  | x :: _ => Some x
  | [] => None
  end.

Definition is_NotFound e := match e with ENotFound _ => true | _ => false end.
Definition is_AlreadyExists e := match e with EAlreadyExists _ => true | _ => false end.
Definition is_MarketNotFound e := match e with EMarketNotFound _ => true | _ => false end.
Definition is_LimitExceeded e := match e with ELimitExceeded _ _ => true | _ => false end.
Definition is_Unavailable e := match e with EUnavailable _ => true | _ => false end.
Definition is_Disabled e := match e with EDisabled _ => true | _ => false end.

Definition has (p : error -> bool) (e : error) : bool := existsb p (error_nodes e).

(** [x == target || x.Is(target)] for one node: sentinels compare by identity,
    the typed errors match any target holding an error of their type. *)
Definition node_Is (target x : error) : bool :=
  match x with
  | ESentinel s => match target with ESentinel t => bool_decide (s = t) | _ => false end
  | ENotFound _ => has is_NotFound target
  | EAlreadyExists _ => has is_AlreadyExists target
  | EMarketNotFound _ => has is_MarketNotFound target
  | ELimitExceeded _ _ => has is_LimitExceeded target
  | EUnavailable _ => has is_Unavailable target
  | EDisabled _ => has is_Disabled target
  | _ => false
  end.

Definition errors_Is (e target : error) : bool := has (node_Is target) e.

(** The targets the code compares with. *)
Definition Repo_ErrOrderNotFound : error := ENotFound uuid_Nil.
Definition Repo_ErrOrderAlreadyExists : error := EAlreadyExists uuid_Nil.
Definition Repo_ErrMarketNotFound : error := EMarketNotFound uuid_Nil.
Definition ErrOrderNotFound : error := ENotFound uuid_Nil.
Definition ErrOrderAlreadyExists : error := EAlreadyExists uuid_Nil.
Definition ErrMarketNotFound : error := EMarketNotFound uuid_Nil.
Definition ErrRateLimitExceeded : error := ELimitExceeded 0 0.
Definition ErrMarketUnavailable : error := EUnavailable uuid_Nil.
Definition ErrMarketDisabled : error := EDisabled uuid_Nil.

Definition is_sent (s : sentinel) (e : error) : bool := errors_Is e (ESentinel s).

(** [fmt.Errorf("%s: %w", op, e)]. *)
Definition wrap (op : string) (e : error) : error := EWrap (op +:+ ": ") e "".
(** [errors.Join(e1, e2)]. *)
Definition join (e1 e2 : error) : error := EJoin (String "010" "") e1 e2.
(** [fmt.Errorf("%w: %w", e1, e2)]. *)
Definition wrap2 (e1 e2 : error) : error := EJoin ": " e1 e2.

(** consumer.IsControlFlowError and consumer.IsNonRetryableError. *)
Definition IsControlFlowError (e : error) : bool :=
  is_sent ErrSkipMessage e || is_sent ErrRestartConsumerSession e ||
  is_sent ErrMessageHandledByDLQ e || is_sent ErrStopConsumeClaim e.

Definition is_TooLarge e := match e with ETooLarge _ _ => true | _ => false end.
Definition is_NonRetryable e := match e with ENonRetryable _ => true | _ => false end.
Definition is_RetryExhausted e := match e with ERetryExhausted _ _ => true | _ => false end.

Definition IsNonRetryableError (e : error) : bool :=
  has is_TooLarge e || has is_NonRetryable e || IsControlFlowError e.

(** ** Error() *)

Section Text.
Context `{U : GoLib}.

Definition sentinel_text (s : sentinel) : string :=
  match s with
  | ErrCacheNotFound => "cache not found"
  | Repo_ErrMarketStoreIsEmpty => "market store is empty"
  | Repo_ErrMarketsNotFound => "markets cache not found"
  | Repo_ErrMarketCacheCorrupted => "market cache corrupted"
  | ErrOrderProcessing => "order is already being processed"
  | ErrMarketsNotFound => "markets not found"
  | ErrMarketsUnavailable => "markets are temporarily unavailable"
  | ErrNilContext => "outbox worker: nil context"
  | ErrInvalidPagination => "invalid pagination parameters"
  | ErrUserRoleNotSpecified => "user role not specified"
  | ErrSpotUnavailable => "spot service unavailable"
  | ErrSpotUnauthenticated => "spot service unauthenticated"
  | ErrSpotPermissionDenied => "spot service permission denied"
  | ErrSpotRateLimited => "spot service rate limited"
  | ErrSpotInternalFailure => "spot service internal failure"
  | ErrMissingMetadata => "missing metadata"
  | ErrMissingAuthToken => "missing authorization token"
  | ErrInvalidToken => "invalid token"
  | ErrTokenExpired => "token expired"
  | ErrInvalidTokenType => "invalid token type"
  | ErrMissingTokenSubject => "subject not found in token"
  | ErrInvalidSubject => "invalid subject in token"
  | ErrMissingTokenSessionID => "session_id not found in token"
  | ErrInternalAuthContext => "internal auth context error"
  | ErrSignAccessTokenFailed => "failed to sign access token"
  | ErrBuildTokenClaimsFailed => "failed to build token claims"
  | ErrSessionValidationFailed => "failed to validate session"
  | ErrMissingUserRoles => "user_roles not found in token"
  | ErrInvalidUserRoles => "invalid user_roles in token"
  | ErrInvalidUserIDInToken => "invalid user_id in token"
  | ErrInvalidJTI => "invalid refresh token jti"
  | ErrTokenRevoked => "refresh token revoked or not found"
  | ErrSaveTokenFailed => "failed to save refresh token"
  | ErrSignRefreshTokenFailed => "failed to sign refresh token"
  | ErrMessageHandledByDLQ => "message handled by dlq"
  | ErrRestartConsumerSession => "restart consumer session"
  | ErrSkipMessage => "skip message"
  | ErrStopConsumeClaim => "stop consume claim"
  | ErrProducerUnavailable => "kafka producer unavailable"
  | CtxCanceled => "context canceled"
  | CtxDeadlineExceeded => "context deadline exceeded"
  | _ => lib_sentinel_text s
  end.

Fixpoint error_text (e : error) : string :=
  match e with
  | ESentinel s => sentinel_text s
  | EMsg m => m
  | ENotFound id => "resource with id=" +:+ uuid_string id +:+ " not found"
  | EAlreadyExists id => "resource with id=" +:+ uuid_string id +:+ " already exists"
  | EMarketNotFound id => "market with id=" +:+ uuid_string id +:+ " not found"
  | ELimitExceeded l w =>
      "rate limit exceeded: " +:+ itoa l +:+ " requests per " +:+ duration_string w
  | EUnavailable id => "market with id=" +:+ uuid_string id +:+ " is temporarily unavailable"
  | EDisabled id => "market with id=" +:+ uuid_string id +:+ " is disabled"
  | EStatus c m => status_text c m
  | EPg _ _ m => m
  | ETooLarge s l => "kafka message too large: " +:+ itoa s +:+ " > " +:+ itoa l
  | ERetryExhausted e _ | ENonRetryable e => error_text e
  | EWrap pre e post => pre +:+ error_text e +:+ post
  | EJoin sep e1 e2 => error_text e1 +:+ sep +:+ error_text e2
  end.
End Text.

(** ** Laws of Is and As *)

Lemma has_wrap p pre e post :
  (p (EWrap pre e post) = false) -> has p (EWrap pre e post) = has p e.
Proof. intros H. unfold has. simpl. by rewrite H. Qed.

Lemma errors_Is_EWrap pre e post t : errors_Is (EWrap pre e post) t = errors_Is e t.
Proof. by apply has_wrap. Qed.

Lemma errors_Is_wrap op e t : errors_Is (wrap op e) t = errors_Is e t.
Proof. apply errors_Is_EWrap. Qed.

Lemma errors_Is_EJoin sep e1 e2 t :
  errors_Is (EJoin sep e1 e2) t = errors_Is e1 t || errors_Is e2 t.
Proof. unfold errors_Is, has. simpl. by rewrite existsb_app. Qed.

Lemma errors_Is_RetryExhausted e n t : errors_Is (ERetryExhausted e n) t = errors_Is e t.
Proof. done. Qed.

Lemma errors_Is_NonRetryable e t : errors_Is (ENonRetryable e) t = errors_Is e t.
Proof. done. Qed.

#[export] Hint Rewrite errors_Is_EWrap errors_Is_wrap errors_Is_EJoin
  errors_Is_RetryExhausted errors_Is_NonRetryable : go_rw.

Lemma errors_As_Some p e x : errors_As p e = Some x -> p x = true /\ x ∈ error_nodes e.
Proof.
  unfold errors_As. destruct (filter _ _) as [|y l] eqn:E; intros [= <-].
  assert (Hy : y ∈ filter (λ x, p x = true) (error_nodes e)) by (rewrite E; set_solver).
  by apply list_elem_of_filter in Hy.
Qed.

Lemma errors_As_None p e : errors_As p e = None <-> has p e = false.
Proof.
  unfold errors_As, has. destruct (filter _ _) as [|y l] eqn:E.
  - split; [intros _|done]. apply not_true_is_false. intros [x [Hx Hp]]%existsb_exists.
    assert (Hin : x ∈ filter (λ x, p x = true) (error_nodes e)).
    { apply list_elem_of_filter. split; [done|]. by apply list_elem_of_In. }
    rewrite E in Hin. set_solver.
  - split; [done|]. intros Hn.
    assert (Hy : y ∈ filter (λ x, p x = true) (error_nodes e)) by (rewrite E; set_solver).
    apply list_elem_of_filter in Hy as [Hp Hy].
    assert (existsb p (error_nodes e) = true); [|congruence].
    apply existsb_exists. exists y. by rewrite <- list_elem_of_In.
Qed.

(** ** Results of fallible calls *)

Inductive result (A : Type) := Ok (a : A) | Err (e : error).
Arguments Ok {A} a.
Arguments Err {A} e.

Definition is_Ok {A} (r : result A) : bool := match r with Ok _ => true | Err _ => false end.

Definition map_err {A} (f : error -> error) (r : result A) : result A :=
  match r with Ok a => Ok a | Err e => Err (f e) end.

Definition res_map {A B} (f : A -> B) (r : result A) : result B :=
  match r with Ok a => Ok (f a) | Err e => Err e end.

Definition res_bind {A B} (r : result A) (f : A -> result B) : result B :=
  match r with Ok a => f a | Err e => Err e end.

(** ** A concrete library, for the closed instances *)

Definition DecLib : GoLib := {|
  uuid_string u := "u" +:+ itoa (Z.of_N u);
  uuid_parse s := match s with
                  | String "u" s => Z.to_N <$> (Z.of_int <$> DecimalString.NilZero.int_of_string s)
                  | _ => None
                  end;
  status_text c m := "rpc error: code = " +:+ itoa c +:+ " desc = " +:+ m;
  lib_sentinel_text _ := "library error"
|}.

Lemma DecLib_laws : UuidLaws DecLib.
Proof.
  split.
  - intros u.
    change (Z.to_N <$> (Z.of_int <$> DecimalString.NilZero.int_of_string (itoa (Z.of_N u))) = Some u).
    rewrite int_of_itoa. simpl. by rewrite DecimalZ.of_to, N2Z.id.
  - intros u. change (str_mem ":" (itoa (Z.of_N u)) = false). eapply str_mem_forall; [apply itoa_bytes|done].
  - intros u. change (str_mem "|" (itoa (Z.of_N u)) = false). eapply str_mem_forall; [apply itoa_bytes|done].
  - done.
Qed.
