(* ===== verification/Effects.v ===== *)
(** * Effects: state, clocks, identifiers and failing calls

    A Go function that talks to Postgres, Redis, Kafka, the clock or the UUID
    generator is a function of a [world]: the component state [St] and the
    environment, which answers the [n]-th question of the run.  A call to a
    remote system is one [call]: the environment decides whether it succeeds,
    fails before the request took effect, or fails after it did (the reply was
    lost).  Theorems quantify over the environment, hence over every pattern of
    failures, cancellations, clock readings and generated identifiers.

    [wp m Q w] is the weakest precondition of a run; the lemmas of this file
    walk through a function one call at a time. *)

From S2P Require Import Prelude GoStrings GoErrors.

(** ** Worlds *)

Inductive fault :=
| FNone                   (* the call is carried out and answered *)
| FBefore (e : error)     (* it fails and has no effect *)
| FAfter (e : error).     (* it takes effect and the caller sees the error *)

Record env := Env {
  e_fault : nat -> fault;
  e_ctx : nat -> option error;       (* ctx.Err() *)
  e_now : nat -> Z;                  (* time.Now(), nanoseconds *)
  e_rnow : nat -> Z;                 (* the Redis server's clock, milliseconds *)
  e_dbnow : nat -> Z;                (* the Postgres server's clock, nanoseconds *)
  e_uuid : nat -> UUID;              (* uuid.New() *)
  e_tick : nat                       (* questions asked so far *)
}.

Definition tick (e : env) : env :=
  Env (e_fault e) (e_ctx e) (e_now e) (e_rnow e) (e_dbnow e) (e_uuid e) (S (e_tick e)).

Record world (St : Type) := World { w_env : env; w_st : St }.
Arguments World {St} _ _.
Arguments w_env {St} _.
Arguments w_st {St} _.

(** ** Parts of a state

    A function works in any state that has the parts it uses: [Has X St] is the
    access to the part [X], and [Apart X Y St] says that writing [X] does not
    touch [Y]. *)
Class Has (X St : Type) := {
  prj : St -> X;
  upd : X -> St -> St;
  prj_upd x s : prj (upd x s) = x
}.

Class Apart (X Y St : Type) `{Has X St} `{Has Y St} :=
  prj_apart : forall (x : X) (s : St), prj (X := Y) (upd x s) = prj s.

#[export] Instance Has_self X : Has X X := {
  prj x := x; upd x _ := x; prj_upd _ _ := eq_refl }.

#[export] Instance Has_fst X Y : Has X (X * Y) := {
  prj := fst; upd x s := (x, s.2); prj_upd _ _ := eq_refl }.

#[export] Instance Has_snd X Y Z `{Has X Z} : Has X (Y * Z) := {
  prj s := prj s.2; upd x s := (s.1, upd x s.2); prj_upd _ _ := prj_upd _ _ }.

#[export] Instance Apart_fst_snd X Y Z `{Has Z Y} : Apart X Z (X * Y).
Proof. by intros x s. Qed.

#[export] Instance Apart_snd_fst X Y Z `{Has Z Y} : Apart Z X (X * Y).
Proof. by intros z s. Qed.

#[export] Instance Apart_snd_snd X Y Z T `{Has Y T} `{Has Z T} `{!Apart Y Z T} :
  Apart Y Z (X * T).
Proof. intros y s. apply (prj_apart (X := Y) (Y := Z) (St := T) y s.2). Qed.

#[export] Hint Rewrite @prj_upd @prj_apart : go_rw.

(** ** The monad *)

Definition M (St A : Type) : Type := world St -> A * world St.

Definition mret {St A} (a : A) : M St A := λ w, (a, w).

Definition mbind {St A B} (m : M St A) (k : A -> M St B) : M St B :=
  λ w, let '(a, w') := m w in k a w'.

Notation "'let!' x := m 'in' k" := (mbind m (λ x, k))
  (at level 200, x pattern, m at level 100, k at level 200,
   format "'[v' 'let!'  x  :=  m  'in' '/' k ']'") : go_scope.

Notation "m ;;! k" := (mbind m (λ _, k))
  (at level 199, right associativity, format "'[v' m  ;;! '/' k ']'") : go_scope.

(** [x, err := m; if err != nil { return f(err) }]. *)
Notation "'try!' x := m 'else' f 'in' k" :=
  (mbind m (λ r, match r with Ok x => k | Err e => mret (Err (f e)) end))
  (at level 200, x pattern, m at level 100, f at level 100, k at level 200,
   format "'[v' 'try!'  x  :=  m  'else'  f  'in' '/' k ']'") : go_scope.

Open Scope go_scope.

Section Ops.
Context {St : Type}.

Definition get : M St St := λ w, (w_st w, w).
Definition put (s : St) : M St unit := λ w, (tt, World (w_env w) s).
Definition modify (f : St -> St) : M St unit := λ w, (tt, World (w_env w) (f (w_st w))).

Definition ask {X} (q : env -> nat -> X) : M St X :=
  λ w, (q (w_env w) (e_tick (w_env w)), World (tick (w_env w)) (w_st w)).

Definition time_Now : M St Z := ask e_now.
Definition uuid_New : M St UUID := ask e_uuid.
Definition ctx_Err : M St (option error) := ask e_ctx.

(** One remote call whose effect is [op] of the reading of the server's clock
    [q]; it sees the fault the environment chose. *)
Definition call {A} (q : env -> nat -> Z) (op : Z -> fault -> St -> result A * St) :
    M St (result A) :=
  λ w, let '(r, s) := op (q (w_env w) (e_tick (w_env w)))
                         (e_fault (w_env w) (e_tick (w_env w))) (w_st w) in
       (r, World (tick (w_env w)) s).

(** The usual shape: carried out, or not, or carried out and unanswered. *)
Definition faulty {A} (op : St -> result A * St) (f : fault) (s : St) : result A * St :=
  match f with
  | FNone => op s
  | FBefore e => (Err e, s)
  | FAfter e => (Err e, (op s).2)
  end.

(** [for _, x := range l { ... }] where the body may return early. *)
Fixpoint for_each {X R} (l : list X) (body : X -> M St (option R)) : M St (option R) :=
  match l with
  | [] => mret None
  | x :: l => let! r := body x in
              match r with Some v => mret (Some v) | None => for_each l body end
  end.

(** ** Weakest preconditions *)

Definition wp {A} (m : M St A) (Q : A -> world St -> Prop) (w : world St) : Prop :=
  Q (m w).1 (m w).2.

Context {A B : Type}.
Implicit Types (w : world St) (m : M St A).

Lemma wp_ret (a : A) Q w : Q a w -> wp (mret a) Q w.
Proof. done. Qed.

Lemma wp_bind m (k : A -> M St B) Q w :
  wp m (λ a w', wp (k a) Q w') w -> wp (mbind m k) Q w.
Proof. unfold wp, mbind. by destruct (m w). Qed.

Lemma wp_mono m (Q Q' : A -> world St -> Prop) w :
  wp m Q w -> (forall a w', Q a w' -> Q' a w') -> wp m Q' w.
Proof. unfold wp. auto. Qed.

Lemma wp_conj m (Q Q' : A -> world St -> Prop) w :
  wp m Q w -> wp m Q' w -> wp m (λ a w', Q a w' /\ Q' a w') w.
Proof. by unfold wp. Qed.

(** Calls: the continuation has to hold for whatever the environment
    answers. *)
Lemma wp_call q (op : Z -> fault -> St -> result A * St) Q w :
  (forall t f, (t = q (w_env w) (e_tick (w_env w))) ->
     f = e_fault (w_env w) (e_tick (w_env w)) ->
     Q (op t f (w_st w)).1 (World (tick (w_env w)) (op t f (w_st w)).2)) ->
  wp (call q op) Q w.
Proof.
  intros H. unfold wp, call. specialize (H _ _ eq_refl eq_refl).
  by destruct (op _ _ _).
Qed.

Lemma wp_ask {X} (q : env -> nat -> X) Q w :
  Q (q (w_env w) (e_tick (w_env w))) (World (tick (w_env w)) (w_st w)) -> wp (ask q) Q w.
Proof. done. Qed.

Lemma wp_get Q w : Q (w_st w) w -> wp get Q w.
Proof. done. Qed.

Lemma wp_modify f Q w : Q tt (World (w_env w) (f (w_st w))) -> wp (modify f) Q w.
Proof. done. Qed.
End Ops.

(** A loop whose body keeps [I] when it goes on and establishes [Q] when it
    returns. *)
Lemma wp_for_each {St X R} (l : list X) (body : X -> M St (option R))
    (I : list X -> world St -> Prop) (Q : R -> world St -> Prop) w :
  I [] w ->
  (forall done x rest w, l = done ++ x :: rest -> I done w ->
     wp (body x) (λ r w', match r with Some v => Q v w' | None => I (done ++ [x]) w' end) w) ->
  wp (for_each l body) (λ r w', match r with Some v => Q v w' | None => I l w' end) w.
Proof.
  intros H0 Hstep.
  enough (Hgen : forall rest done w, l = done ++ rest -> I done w ->
    wp (for_each rest body) (λ r w', match r with Some v => Q v w' | None => I l w' end) w)
    by (by apply (Hgen l [])).
  intros rest; induction rest as [|x rest IH]; intros done w' Hl HI; simpl.
  - rewrite app_nil_r in Hl. subst. by apply wp_ret.
  - apply wp_bind. eapply wp_mono; [by eapply Hstep|].
    intros [v|] w'' H; [by apply wp_ret|].
    apply (IH (done ++ [x])); [|done]. by rewrite <- app_assoc.
Qed.

(** ** State-only specifications

    Most properties speak about the component state before and after: [st_spec]
    relates them for every environment. *)
Definition st_spec {St A} (m : M St A) (R : St -> A -> St -> Prop) : Prop :=
  forall w, wp m (λ a w', R (w_st w) a (w_st w')) w.

Lemma st_spec_wp {St A} (m : M St A) R Q w :
  st_spec m R -> (forall a w', R (w_st w) a (w_st w') -> Q a w') -> wp m Q w.
Proof. intros H HQ. eapply wp_mono; [apply H|]. simpl. eauto. Qed.

(** [m] leaves the projection [p] of the state alone. *)
Definition frames {St A X} (p : St -> X) (m : M St A) : Prop :=
  st_spec m (λ s _ s', p s' = p s).

Section Frames.
Context {St X : Type} (p : St -> X).

Lemma frames_ret {A} (a : A) : frames p (mret a).
Proof. by intros w. Qed.

Lemma frames_bind {A B} (m : M St A) (k : A -> M St B) :
  frames p m -> (forall a, frames p (k a)) -> frames p (mbind m k).
Proof.
  intros Hm Hk w. apply wp_bind. eapply wp_mono; [apply Hm|].
  simpl. intros a w' <-. eapply wp_mono; [apply Hk|]. simpl. congruence.
Qed.

Lemma frames_call {A} q (op : Z -> fault -> St -> result A * St) :
  (forall t f s, p (op t f s).2 = p s) -> frames p (call q op).
Proof. intros H w. apply wp_call. simpl. auto. Qed.

Lemma frames_ask {Y} (q : env -> nat -> Y) : frames p (ask q).
Proof. by intros w. Qed.

Lemma frames_get : frames p get.
Proof. by intros w. Qed.

Lemma frames_modify f : (forall s, p (f s) = p s) -> frames p (modify f).
Proof. intros H w. apply H. Qed.

Lemma frames_for_each {Y R} (l : list Y) (body : Y -> M St (option R)) :
  (forall x, frames p (body x)) -> frames p (for_each l body).
Proof.
  intros H. induction l as [|x l IH]; simpl; [apply frames_ret|].
  apply frames_bind; [done|]. intros [v|]; [apply frames_ret|done].
Qed.

Lemma faulty_frame {A} (op : St -> result A * St) :
  (forall s, p (op s).2 = p s) -> forall f s, p (faulty op f s).2 = p s.
Proof. intros H [] s; simpl; auto. Qed.

(** Whatever holds before a call and after its operation holds after the
    call. *)
Lemma faulty_inv {A} (op : St -> result A * St) (P : St -> Prop) s :
  P s -> P (op s).2 -> forall f, P (faulty op f s).2.
Proof. by intros ?? []. Qed.
End Frames.

Create HintDb frames.
#[export] Hint Resolve frames_ret frames_bind frames_ask frames_get frames_for_each : frames.

(** Walk through a function for a [frames] goal. *)
Ltac frame_step :=
  match goal with
  | |- frames _ (mret _) => apply frames_ret
  | |- frames _ (mbind _ _) => apply frames_bind; [|intros]
  | |- frames _ (ask _) => apply frames_ask
  | |- frames _ time_Now => apply frames_ask
  | |- frames _ uuid_New => apply frames_ask
  | |- frames _ ctx_Err => apply frames_ask
  | |- frames _ get => apply frames_get
  | |- frames _ (for_each _ _) => apply frames_for_each; intros
  | |- frames _ (match ?x with _ => _ end) => destruct x
  | |- frames _ _ => solve [eauto with frames]
  end.
Ltac frame_solve := repeat frame_step.

(** One step of a [wp] goal. *)
Ltac wp_step :=
  match goal with
  | |- wp (mret _) _ _ => apply wp_ret
  | |- wp (mbind _ _) _ _ => apply wp_bind
  | |- wp (ask _) _ _ => apply wp_ask
  | |- wp time_Now _ _ => apply wp_ask
  | |- wp uuid_New _ _ => apply wp_ask
  | |- wp ctx_Err _ _ => apply wp_ask
  | |- wp get _ _ => apply wp_get
  | |- wp (modify _) _ _ => apply wp_modify
  end.
Ltac wp_steps := repeat (wp_step; simpl).

(** Runs in which no call fails and no context ends. *)
Definition no_faults (e : env) : Prop :=
  (forall n, e_fault e n = FNone) /\ (forall n, e_ctx e n = None).

Lemma no_faults_tick e : no_faults e -> no_faults (tick e).
Proof. done. Qed.
#[export] Hint Resolve no_faults_tick : go.

(** ** The environment only advances *)

Definition ticks {St A} (m : M St A) : Prop :=
  forall w, exists n, w_env (m w).2 = Nat.iter n tick (w_env w).

Section Ticks.
Context {St : Type}.

Lemma ticks_ret {A} (a : A) : ticks (St := St) (mret a).
Proof. intros w. by exists 0. Qed.

Lemma ticks_bind {A B} (m : M St A) (k : A -> M St B) :
  ticks m -> (forall a, ticks (k a)) -> ticks (mbind m k).
Proof.
  intros Hm Hk w. unfold mbind. destruct (m w) as [a w'] eqn:E.
  destruct (Hm w) as [n Hn]. rewrite E in Hn. simpl in Hn.
  destruct (Hk a w') as [k' Hk']. exists (k' + n). by rewrite Hk', Hn, Nat.iter_add.
Qed.

Lemma ticks_call {A} q (op : Z -> fault -> St -> result A * St) : ticks (call q op).
Proof. intros w. exists 1. unfold call. by destruct (op _ _ _). Qed.

Lemma ticks_ask {X} (q : env -> nat -> X) : ticks (St := St) (ask q).
Proof. intros w. by exists 1. Qed.

Lemma ticks_get : ticks (St := St) get.
Proof. intros w. by exists 0. Qed.

Lemma ticks_modify f : ticks (St := St) (modify f).
Proof. intros w. by exists 0. Qed.

Lemma ticks_for_each {X R} (l : list X) (body : X -> M St (option R)) :
  (forall x, ticks (body x)) -> ticks (for_each l body).
Proof.
  intros H. induction l as [|x l IH]; simpl; [apply ticks_ret|].
  apply ticks_bind; [done|]. intros [v|]; [apply ticks_ret|done].
Qed.

Lemma ticks_wp {A} (m : M St A) w :
  ticks m -> wp m (λ _ w', exists n, w_env w' = Nat.iter n tick (w_env w)) w.
Proof. intros H. apply H. Qed.
End Ticks.

Create HintDb ticks.
#[export] Hint Resolve ticks_ret ticks_ask ticks_get ticks_modify ticks_call : ticks.

Ltac tick_step :=
  match goal with
  | |- ticks (mret _) => apply ticks_ret
  | |- ticks (mbind _ _) => apply ticks_bind; [|intros]
  | |- ticks (ask _) => apply ticks_ask
  | |- ticks (call _ _) => apply ticks_call
  | |- ticks (modify _) => apply ticks_modify
  | |- ticks (for_each _ _) => apply ticks_for_each; intros
  | |- ticks (match ?x with _ => _ end) => destruct x
  | |- ticks _ => solve [eauto with ticks]
  end.
Ltac tick_solve := repeat tick_step.

Lemma no_faults_ticks n e : no_faults e -> no_faults (Nat.iter n tick e).
Proof. induction n; simpl; auto with go. Qed.

(** A clock of the environment reads the same functions after any run. *)
Lemma iter_tick_clocks n e :
  e_rnow (Nat.iter n tick e) = e_rnow e /\ e_now (Nat.iter n tick e) = e_now e /\
  e_uuid (Nat.iter n tick e) = e_uuid e /\ e_tick (Nat.iter n tick e) = n + e_tick e.
Proof. induction n as [|n (?&?&?&IH)]; simpl; [done|]. by rewrite IH. Qed.

(** A fault-free run whose Redis clock does not go back. *)
Definition calm (e : env) : Prop :=
  no_faults e /\ forall m n, m <= n -> (e_rnow e m <= e_rnow e n)%Z.

Lemma calm_tick e : calm e -> calm (tick e).
Proof. done. Qed.

Lemma calm_ticks n e : calm e -> calm (Nat.iter n tick e).
Proof. by induction n. Qed.

(** Environments in which a call that took effect is answered: an error means
    that nothing happened. *)
Definition answered (e : env) : Prop := forall n x, e_fault e n <> FAfter x.

Lemma answered_tick e : answered (tick e) <-> answered e.
Proof. done. Qed.

Lemma answered_ticks n e : answered (Nat.iter n tick e) <-> answered e.
Proof. by induction n. Qed.

Lemma no_faults_answered e : no_faults e -> answered e.
Proof. intros [Hf _] n x. by rewrite Hf. Qed.

(** The environment of the closed instances: nothing fails, the clocks read 0,
    and the identifiers count up from 1. *)
Definition quiet_env : env :=
  Env (λ _, FNone) (λ _, None) (λ _, 0%Z) (λ _, 0%Z) (λ _, 0%Z) (λ n, N.of_nat (S n)) 0.

Lemma quiet_env_no_faults : no_faults quiet_env.
Proof. done. Qed.
