(* ===== verification/Redis.v ===== *)
(** * The Redis boundary and shared/infrastructure/cache

    Redis is a server: its commands are the operations of the class [Redis]
    over an abstract keyspace, and [RedisLaws] states their documented effect
    through [view], the live value and expiry of a key at a time.  The Lua
    scripts of the program are definitions over these commands (a script is
    atomic, so it is one [call]); [MemRedis] is a concrete keyspace that
    satisfies the laws. *)

From S2P Require Import Prelude GoStrings GoErrors Effects.
Local Open Scope Z_scope.

Class Redis (R : Type) := {
  view : R -> Z -> string -> option (string * option Z);  (* value, absolute expiry in ms *)
  GET : Z -> string -> R -> option string;
  EXISTS : Z -> string -> R -> Z;
  SET : Z -> string -> string -> R -> R;
  SETPX : Z -> string -> string -> Z -> R -> option R;    (* None: invalid expire time *)
  DEL : Z -> string -> R -> R;
  PTTL : Z -> string -> R -> Z;
  INCR : Z -> string -> R -> option (Z * R);              (* None: not an int64 *)
  PEXPIRE : Z -> string -> Z -> R -> R;
  px_of_duration : Z -> Z          (* the client's milliseconds of a positive duration *)
}.

(** The live part of an entry as time passes. *)
Definition alive (t : Z) (v : option (string * option Z)) : option (string * option Z) :=
  match v with
  | Some (_, Some e) => if bool_decide (t < e) then v else None
  | _ => v
  end.

Class RedisLaws (R : Type) `{Redis R} := {
  view_later r t t' k : t <= t' -> view r t' k = alive t' (view r t k);
  GET_view t k r : GET t k r = fst <$> view r t k;
  EXISTS_view t k r : EXISTS t k r = match view r t k with Some _ => 1 | None => 0 end;
  PTTL_view t k r :
    PTTL t k r = match view r t k with
                 | None => -2 | Some (_, None) => -1 | Some (_, Some e) => e - t end;
  SET_view t k v r t' k' :
    t <= t' -> view (SET t k v r) t' k' = if decide (k = k') then Some (v, None) else view r t' k';
  SETPX_view t k v px r r' t' k' :
    SETPX t k v px r = Some r' -> t <= t' ->
    view r' t' k' = if decide (k = k') then alive t' (Some (v, Some (t + px))) else view r t' k';
  SETPX_ok t k v px r : 0 < px <-> is_Some (SETPX t k v px r);
  DEL_view t k r t' k' :
    t <= t' -> view (DEL t k r) t' k' = if decide (k = k') then None else view r t' k';
  INCR_new t k r :
    view r t k = None ->
    exists r', INCR t k r = Some (1, r') /\
      forall t' k', t <= t' ->
        view r' t' k' = if decide (k = k') then Some (itoa 1, None) else view r t' k';
  INCR_old t k r n e :
    view r t k = Some (itoa n, e) -> in_i64 n -> n < max_i64 ->
    exists r', INCR t k r = Some (n + 1, r') /\
      forall t' k', t <= t' ->
        view r' t' k' = if decide (k = k') then alive t' (Some (itoa (n + 1), e)) else view r t' k';
  INCR_other t k r n r' t' k' :
    INCR t k r = Some (n, r') -> k <> k' -> t <= t' -> view r' t' k' = view r t' k';
  PEXPIRE_view t k px r t' k' :
    t <= t' ->
    view (PEXPIRE t k px r) t' k' =
      if decide (k = k') then alive t' ((λ '(v, _), (v, Some (t + px))) <$> view r t k)
      else view r t' k';
  px_of_duration_pos d : 0 < d -> 0 < px_of_duration d;
  px_of_duration_ms d : 0 < Z.quot d 1000000 -> px_of_duration d = Z.quot d 1000000
}.

(** ** A concrete keyspace *)

Module MemRedis.
Notation store := (gmap string (string * option Z)).

Definition mview (r : store) (t : Z) (k : string) : option (string * option Z) :=
  alive t (r !! k).

Definition set_entry (k : string) (e : option (string * option Z)) (r : store) : store :=
  match e with Some e => <[k := e]> r | None => delete k r end.

Definition mincr (t : Z) (k : string) (r : store) : option (Z * store) :=
  match mview r t k with
  | None => Some (1, <[k := (itoa 1, None)]> r)
  | Some (v, e) =>
      n ← parse_int v;
      if bool_decide (n < max_i64) then Some (n + 1, <[k := (itoa (n + 1), e)]> r) else None
  end.

#[export] Instance mem_redis : Redis store := {
  view := mview;
  GET t k r := fst <$> mview r t k;
  EXISTS t k r := match mview r t k with Some _ => 1 | None => 0 end;
  SET t k v r := <[k := (v, None)]> r;
  SETPX t k v px r := if bool_decide (0 < px) then Some (<[k := (v, Some (t + px))]> r) else None;
  DEL t k r := delete k r;
  PTTL t k r := match mview r t k with
                | None => -2 | Some (_, None) => -1 | Some (_, Some e) => e - t end;
  INCR := mincr;
  PEXPIRE t k px r := set_entry k ((λ '(v, _), (v, Some (t + px))) <$> mview r t k) r;
  px_of_duration d := Z.max 1 (d / 1000000)
}.

Lemma mview_set k k' e r t :
  mview (set_entry k e r) t k' = if decide (k = k') then alive t e else mview r t k'.
Proof.
  unfold mview, set_entry. destruct e as [e|]; case_decide; subst; by simplify_map_eq/=.
Qed.

Lemma mview_insert k k' e r t :
  mview (<[k := e]> r) t k' = if decide (k = k') then alive t (Some e) else mview r t k'.
Proof. apply (mview_set k k' (Some e)). Qed.

Lemma alive_alive t t' e : t <= t' -> alive t' (alive t e) = alive t' e.
Proof.
  intros Ht. destruct e as [[v [x|]]|]; simpl; try done.
  case_bool_decide; simpl; [done|]. case_bool_decide; [lia|done].
Qed.

#[export] Instance mem_redis_laws : RedisLaws store.
Proof.
  split; simpl; intros.
  - unfold mview. by rewrite alive_alive.
  - done.
  - done.
  - done.
  - by rewrite mview_insert.
  - case_bool_decide; simplify_eq. by rewrite mview_insert.
  - case_bool_decide; split; [done|done|done|intros [? [=]]].
  - apply (mview_set k k' None).
  - unfold mincr. rewrite H. eexists; split; [done|]. intros. by rewrite mview_insert.
  - unfold mincr. rewrite H, parse_int_itoa by done. simpl.
    rewrite bool_decide_true by done. eexists; split; [done|]. intros.
    by rewrite mview_insert.
  - unfold mincr in H. destruct (mview r t k) as [[v e]|]; simplify_eq/=.
    + destruct (parse_int v) as [m|]; simplify_eq/=. case_bool_decide; simplify_eq.
      by rewrite mview_insert, decide_False.
    + by rewrite mview_insert, decide_False.
  - by rewrite mview_set.
  - lia.
  - assert (0 < d).
    { destruct (Z.lt_ge_cases 0 d) as [|Hle]; [done|].
      pose proof (Z.quot_le_mono d 0 1000000 ltac:(lia) Hle) as Hq. change (Z.quot 0 1000000) with 0 in Hq. lia. }
    rewrite Z.quot_div_nonneg in * by lia. lia.
Qed.
End MemRedis.

(** ** shared/infrastructure/cache: the client wrapper *)

Section Cache.
Context {St R : Type} `{Redis R} `{HR : !Has R St}.
Local Open Scope string_scope.

(** A round trip to Redis: a command that may answer with an error. *)
Definition redis_call {A} (cmd : Z -> R -> result A * R) : M St (result A) :=
  call e_rnow (λ t, faulty (λ s, let '(a, r) := cmd t (prj s) in (a, upd r s))).

Definition cache_Get (key : string) : M St (result string) :=
  let! r := redis_call (λ t r, (Ok (GET t key r), r)) in
  mret match r with
       | Err e => Err (wrap ("failed to get key " +:+ key) e)
       | Ok None => Err (ESentinel ErrCacheNotFound)
       | Ok (Some v) => Ok v
       end.

(** [redis.Set] with a duration: a positive ttl is sent in milliseconds, 0 as
    no expiry. *)
Definition cache_SetWithTTL (key value : string) (ttl : Z) : M St (result unit) :=
  let! r := redis_call (λ t r,
      if bool_decide (0 < ttl) then
        match SETPX t key value (px_of_duration ttl) r with
        | Some r' => (Ok tt, r')
        | None => (Err (EMsg "ERR invalid expire time"), r)
        end
      else (Ok tt, SET t key value r)) in
  mret (map_err (wrap ("failed to set key " +:+ key +:+ " with ttl")) r).

Definition cache_Set (key value : string) : M St (result unit) :=
  let! r := redis_call (λ t r, (Ok tt, SET t key value r)) in
  mret (map_err (wrap ("failed to set key " +:+ key)) r).

Definition cache_Delete (key : string) : M St (result unit) :=
  let! r := redis_call (λ t r, (Ok tt, DEL t key r)) in
  mret (map_err (wrap ("failed to delete key " +:+ key)) r).

Definition cache_Exists (key : string) : M St (result bool) :=
  let! r := redis_call (λ t r, (Ok (EXISTS t key r), r)) in
  mret match r with
       | Err e => Err (wrap ("failed to check if key " +:+ key +:+ " exists") e)
       | Ok n => Ok (bool_decide (0 < n))
       end.

(** [EXPIRE]: the client rounds the duration as it does for [SET]. *)
Definition cache_Expire (key : string) (ttl : Z) : M St (result unit) :=
  let! r := redis_call (λ t r, (Ok tt, PEXPIRE t key (px_of_duration ttl) r)) in
  mret (map_err (wrap ("failed to set expiration for key " +:+ key)) r).

(** A Redis call runs its command at the server's clock, or fails. *)
Lemma wp_redis_call {A} (cmd : Z -> R -> result A * R) Q w :
  (forall e, Q (Err e) (World (tick (w_env w)) (w_st w))) ->
  (forall t r, t = e_rnow (w_env w) (e_tick (w_env w)) ->
     r = (cmd t (prj (w_st w))).1 \/ (exists e, r = Err e) ->
     Q r (World (tick (w_env w)) (upd (cmd t (prj (w_st w))).2 (w_st w)))) ->
  wp (redis_call cmd) Q w.
Proof.
  intros He Hok. apply wp_call. intros t f Ht _. simpl.
  specialize (Hok t). destruct (cmd t (prj (w_st w))) as [a r'] eqn:E. simpl in *.
  destruct f as [|e|e]; simpl; rewrite ?E; simpl; [by apply Hok; [|left]|done|].
  apply Hok; [done|]. right. by exists e.
Qed.

Lemma wp_redis_call_ok {A} (cmd : Z -> R -> result A * R) Q w :
  no_faults (w_env w) ->
  (forall t, t = e_rnow (w_env w) (e_tick (w_env w)) ->
     Q (cmd t (prj (w_st w))).1 (World (tick (w_env w)) (upd (cmd t (prj (w_st w))).2 (w_st w)))) ->
  wp (redis_call cmd) Q w.
Proof.
  intros [Hf _] Hok. apply wp_call. intros t f Ht ->. rewrite Hf. simpl.
  specialize (Hok t Ht). by destruct (cmd t (prj (w_st w))).
Qed.

(** Whatever Redis does, a projection of the state that does not look at it is
    unchanged. *)
Lemma frames_redis_call {A Y} `{HY : !Has Y St} `{!Apart R Y St}
    (cmd : Z -> R -> result A * R) : frames (prj (X := Y)) (redis_call cmd).
Proof.
  apply frames_call. intros t. apply faulty_frame.
  intros s. destruct (cmd t (prj s)). apply prj_apart.
Qed.

(** The wrapper's calls when nothing fails, with a part [Y] of the state that
    is not Redis. *)
Context {Y : Type} `{HY : !Has Y St} `{HA : !Apart R Y St} `{!RedisLaws R}.

Definition rnow (w : world St) : Z := e_rnow (w_env w) (e_tick (w_env w)).

Lemma wp_cache_Get_ok key (Q : result string -> world St -> Prop) w :
  no_faults (w_env w) ->
  (forall w', w_env w' = tick (w_env w) -> prj (X := R) (w_st w') = prj (w_st w) ->
     prj (X := Y) (w_st w') = prj (w_st w) ->
     Q match GET (rnow w) key (prj (w_st w)) with
       | Some v => Ok v | None => Err (ESentinel ErrCacheNotFound) end w') ->
  wp (cache_Get key) Q w.
Proof.
  intros Hnf HQ. unfold cache_Get. apply wp_bind, wp_redis_call_ok; [done|]. intros t ->.
  apply wp_ret. simpl. specialize (HQ (World (tick (w_env w)) (upd (prj (X := R) (w_st w)) (w_st w)))).
  fold (rnow w). destruct (GET (rnow w) key (prj (w_st w))); apply HQ; try done; simpl;
    [apply prj_upd|apply prj_apart|apply prj_upd|apply prj_apart].
Qed.

Lemma wp_cache_Delete_ok key (Q : result unit -> world St -> Prop) w :
  no_faults (w_env w) ->
  (forall w', w_env w' = tick (w_env w) -> prj (X := Y) (w_st w') = prj (w_st w) ->
     prj (X := R) (w_st w') = DEL (rnow w) key (prj (w_st w)) -> Q (Ok tt) w') ->
  wp (cache_Delete key) Q w.
Proof.
  intros Hnf HQ. unfold cache_Delete. apply wp_bind, wp_redis_call_ok; [done|]. intros t ->.
  apply wp_ret. simpl. apply HQ; [done|apply prj_apart|]. simpl. by rewrite prj_upd.
Qed.

(** The key holds the value, or has expired; the others are as before. *)
Definition stored (key value : string) (t : Z) (r r' : R) : Prop :=
  forall t' k, t <= t' ->
    if decide (key = k) then GET t' k r' = Some value \/ GET t' k r' = None
    else view r' t' k = view r t' k.

Lemma wp_cache_SetWithTTL_ok key value ttl (Q : result unit -> world St -> Prop) w :
  no_faults (w_env w) ->
  (forall w', w_env w' = tick (w_env w) -> prj (X := Y) (w_st w') = prj (w_st w) ->
     stored key value (rnow w) (prj (w_st w)) (prj (w_st w')) -> Q (Ok tt) w') ->
  wp (cache_SetWithTTL key value ttl) Q w.
Proof.
  intros Hnf HQ. unfold cache_SetWithTTL. apply wp_bind, wp_redis_call_ok; [done|]. intros t ->.
  apply wp_ret. fold (rnow w). case_bool_decide as Httl.
  - destruct (proj1 (SETPX_ok (rnow w) key value (px_of_duration ttl) (prj (w_st w)))) as [r' Hr'].
    { by apply px_of_duration_pos. }
    rewrite Hr'. simpl. apply HQ; [done|apply prj_apart|]. simpl. rewrite prj_upd.
    intros t' k Ht'. rewrite GET_view. erewrite SETPX_view by done. case_decide; [|done]. simpl.
    case_bool_decide; [by left|by right].
  - simpl. apply HQ; [done|apply prj_apart|]. simpl. rewrite prj_upd.
    intros t' k Ht'. rewrite GET_view, SET_view by done. case_decide; [|done]. by left.
Qed.
End Cache.

#[export] Hint Resolve frames_redis_call : frames.
