(* ===== verification/Pg.v ===== *)
(** * The Postgres boundary: pools and transactions

    The tables a service owns (declared by its migrations) are one value [D];
    a SQL statement of the source is a function on them.  The server keeps the
    committed tables and at most one open transaction of the running request:
    its working copy becomes the committed tables on COMMIT and is dropped on
    ROLLBACK; after a failed statement a transaction accepts nothing but a
    rollback. *)

From S2P Require Import Prelude GoStrings GoErrors Effects.
Local Open Scope string_scope.

(** ** Column types and query answers

    [pg_time] is the instant a TIMESTAMPTZ column holds for a Go time (the
    column has microseconds); [pg_any_order] is the order in which the server
    returns rows when the query asks for none. *)
Class PgTypes := {
  pg_time : Z -> Z;
  pg_any_order : forall A : Type, list A -> list A
}.
Arguments pg_any_order {_} {A} l.

(** Documented behaviour: the stored instant is the given one to within a
    microsecond, and every row of the answer is returned once. *)
Class PgTypesLaws (P : PgTypes) := {
  pg_time_bound t : (pg_time t <= t < pg_time t + 1000)%Z;
  pg_time_idemp t : pg_time (pg_time t) = pg_time t;
  pg_time_mono t t' : (t <= t')%Z -> (pg_time t <= pg_time t')%Z;
  pg_any_order_perm A (l : list A) : pg_any_order l ≡ₚ l
}.

(** Truncation to microseconds and rows in storage order. *)
Definition MicroPg : PgTypes := {| pg_time t := (t / 1000 * 1000)%Z; pg_any_order A l := l |}.

Lemma MicroPg_laws : PgTypesLaws MicroPg.
Proof.
  split; simpl.
  - intros t. pose proof (Z.div_mod t 1000). pose proof (Z.mod_pos_bound t 1000). lia.
  - intros t. by rewrite Z.div_mul.
  - intros t t' Ht. apply Z.mul_le_mono_nonneg_r; [lia|]. by apply Z.div_le_mono.
  - done.
Qed.

(** ** Connections and transactions *)

Inductive tx_state (D : Type) :=
| TxNone
| TxOpen (now : Z) (d : D)    (* NOW() is the time the transaction began *)
| TxAborted.
Arguments TxNone {D}.
Arguments TxOpen {D} now d.
Arguments TxAborted {D}.

Record pg (D : Type) := Pg { pg_db : D; pg_tx : tx_state D }.
Arguments Pg {D} _ _.
Arguments pg_db {D} _.
Arguments pg_tx {D} _.

Definition ErrInFailedTransaction : error := EPg "25P02" "" "current transaction is aborted".
Definition ErrTxCommitRollback : error := EMsg "commit unexpectedly resulted in rollback".

(** A SQL statement: for the value of NOW(), its answer and the tables after
    it. *)
Definition stmt (D A : Type) : Type := Z -> D -> result A * D.

Section Ops.
Context {D : Type}.

Definition pg_begin (t : Z) (f : fault) (p : pg D) : result unit * pg D :=
  match f with
  | FNone => (Ok tt, Pg (pg_db p) (TxOpen t (pg_db p)))
  | FBefore e | FAfter e => (Err e, p)
  end.

Definition pg_exec {A} (s : stmt D A) (t : Z) (f : fault) (p : pg D) : result A * pg D :=
  match pg_tx p with
  | TxNone => (Err (ESentinel PgxErrTxClosed), p)
  | TxAborted => (Err ErrInFailedTransaction, p)
  | TxOpen now d =>
      match f with
      | FNone => let '(a, d') := s now d in
                 (a, Pg (pg_db p) (match a with Ok _ => TxOpen now d' | Err _ => TxAborted end))
      | FBefore e | FAfter e => (Err e, Pg (pg_db p) TxAborted)
      end
  end.

Definition pg_commit (t : Z) (f : fault) (p : pg D) : result unit * pg D :=
  match pg_tx p with
  | TxNone => (Err (ESentinel PgxErrTxClosed), p)
  | TxAborted => (Err ErrTxCommitRollback, Pg (pg_db p) TxNone)
  | TxOpen _ d =>
      match f with
      | FNone => (Ok tt, Pg d TxNone)
      | FBefore e => (Err e, Pg (pg_db p) TxNone)
      | FAfter e => (Err e, Pg d TxNone)
      end
  end.

Definition pg_rollback (t : Z) (f : fault) (p : pg D) : result unit * pg D :=
  match pg_tx p with
  | TxNone => (Err (ESentinel PgxErrTxClosed), p)
  | _ => (match f with FNone => Ok tt | FBefore e | FAfter e => Err e end, Pg (pg_db p) TxNone)
  end.

(** A statement on a pooled connection: its own transaction. *)
Definition pg_pool {A} (s : stmt D A) (t : Z) (p : pg D) : result A * pg D :=
  let '(a, d') := s t (pg_db p) in
  (a, Pg (match a with Ok _ => d' | Err _ => pg_db p end) (pg_tx p)).

(** Only COMMIT and pooled statements change the committed tables. *)
Lemma pg_begin_db t f p : pg_db (pg_begin t f p).2 = pg_db p.
Proof. by destruct f. Qed.
Lemma pg_exec_db {A} (s : stmt D A) t f p : pg_db (pg_exec s t f p).2 = pg_db p.
Proof. unfold pg_exec. destruct (pg_tx p) as [|now d|]; simpl; try done.
  destruct f; try done. by destruct (s now d). Qed.
Lemma pg_rollback_db t f p : pg_db (pg_rollback t f p).2 = pg_db p.
Proof. unfold pg_rollback. by destruct (pg_tx p), f. Qed.
Lemma pg_rollback_tx t f p : pg_tx (pg_rollback t f p).2 = TxNone.
Proof. unfold pg_rollback. by destruct (pg_tx p) eqn:?, f; simpl. Qed.
End Ops.

#[export] Hint Rewrite @pg_begin_db @pg_exec_db @pg_rollback_db @pg_rollback_tx : go_rw.

Section Calls.
Context {St D : Type} `{HD : !Has (pg D) St}.

Definition lift_pg {A} (op : Z -> fault -> pg D -> result A * pg D) : M St (result A) :=
  call e_dbnow (λ t f s, let '(a, p) := op t f (prj s) in (a, upd p s)).

Definition tx_Begin : M St (result unit) := lift_pg pg_begin.
Definition tx_Exec {A} (s : stmt D A) : M St (result A) := lift_pg (pg_exec s).
Definition tx_Commit : M St (result unit) := lift_pg pg_commit.
Definition tx_Rollback : M St (result unit) := lift_pg pg_rollback.
Definition pool_Exec {A} (s : stmt D A) : M St (result A) :=
  lift_pg (λ t, faulty (pg_pool s t)).

(** The committed tables. *)
Definition db_of (s : St) : D := pg_db (prj s).
Definition tx_of (s : St) : tx_state D := pg_tx (prj s).

Lemma wp_lift_pg {A} (op : Z -> fault -> pg D -> result A * pg D) Q w :
  (forall t f, Q (op t f (prj (w_st w))).1
                 (World (tick (w_env w)) (upd (op t f (prj (w_st w))).2 (w_st w)))) ->
  wp (lift_pg op) Q w.
Proof.
  intros H. apply wp_call. intros t f _ _. specialize (H t f). simpl.
  by destruct (op t f (prj (w_st w))).
Qed.

Lemma wp_lift_pg_ok {A} (op : Z -> fault -> pg D -> result A * pg D) Q w :
  no_faults (w_env w) ->
  (forall t, Q (op t FNone (prj (w_st w))).1
    (World (tick (w_env w)) (upd (op t FNone (prj (w_st w))).2 (w_st w)))) ->
  wp (lift_pg op) Q w.
Proof.
  intros [Hf _] H. apply wp_call. intros t f _ ->. rewrite Hf. specialize (H t). simpl.
  by destruct (op t FNone (prj (w_st w))).
Qed.

(** What a run does to the database part, for any environment. *)
Lemma spec_lift_pg {A} (op : Z -> fault -> pg D -> result A * pg D) :
  st_spec (lift_pg op)
    (λ s a s', exists t f, a = (op t f (prj s)).1 /\ prj s' = (op t f (prj s)).2).
Proof. intros w. apply wp_lift_pg. intros t f. exists t, f.
  split; [done|]. simpl. apply prj_upd. Qed.

Lemma wp_pg {A} (op : Z -> fault -> pg D -> result A * pg D) Q w :
  (forall t f w', prj (w_st w') = (op t f (prj (w_st w))).2 -> Q (op t f (prj (w_st w))).1 w') ->
  wp (lift_pg op) Q w.
Proof. intros H. apply wp_lift_pg. intros t f. apply H. simpl. apply prj_upd. Qed.

(** The same with what the environment chose. *)
Lemma wp_pg_env {A} (op : Z -> fault -> pg D -> result A * pg D) Q w :
  (forall t f w', f = e_fault (w_env w) (e_tick (w_env w)) -> w_env w' = tick (w_env w) ->
     prj (w_st w') = (op t f (prj (w_st w))).2 -> Q (op t f (prj (w_st w))).1 w') ->
  wp (lift_pg op) Q w.
Proof.
  intros H. apply wp_call. intros t f _ Hf. simpl.
  destruct (op t f (prj (w_st w))) as [a p] eqn:E.
  specialize (H t f (World (tick (w_env w)) (upd p (w_st w))) Hf eq_refl).
  rewrite E in H. apply H. simpl. apply prj_upd.
Qed.

(** A statement inside the open transaction. *)
Lemma wp_tx_Exec {A} (s : stmt D A) (Q : result A -> world St -> Prop) w d0 now d :
  prj (w_st w) = Pg d0 (TxOpen now d) ->
  (forall e w', w_env w' = tick (w_env w) -> prj (w_st w') = Pg d0 TxAborted -> Q (Err e) w') ->
  (forall a d' w', w_env w' = tick (w_env w) -> s now d = (Ok a, d') ->
     prj (w_st w') = Pg d0 (TxOpen now d') -> Q (Ok a) w') ->
  wp (tx_Exec s) Q w.
Proof.
  intros Hp He Hok. apply wp_pg_env. intros t f w' _ Henv Hw. rewrite Hp in *. unfold pg_exec in *. simpl in *.
  destruct f as [|e|e]; simpl in *; [|by apply He..].
  destruct (s now d) as [[a|e] d'] eqn:E; simpl in *; [by eapply Hok|by apply He].
Qed.

(** COMMIT of the open transaction. *)
Lemma wp_commit (Q : result unit -> world St -> Prop) w d0 now d :
  prj (w_st w) = Pg d0 (TxOpen now d) ->
  (forall w', w_env w' = tick (w_env w) -> prj (w_st w') = Pg d TxNone -> Q (Ok tt) w') ->
  (forall e w', w_env w' = tick (w_env w) -> prj (w_st w') = Pg d0 TxNone -> Q (Err e) w') ->
  (forall e w', w_env w' = tick (w_env w) -> ~ answered (w_env w) ->
     prj (w_st w') = Pg d TxNone -> Q (Err e) w') ->
  wp (tx_Commit) Q w.
Proof.
  intros Hp Hok He Hl. apply wp_pg_env. intros t f w' Hf Henv Hw. rewrite Hp in *.
  unfold pg_commit in *. simpl in *. destruct f as [|e|e]; simpl in *; [by apply Hok|by apply He|].
  apply Hl; [done| |done]. intros Ha. by apply (Ha (e_tick (w_env w)) e).
Qed.

(** An aborted transaction refuses every statement. *)
Lemma wp_tx_Exec_aborted {A} (s : stmt D A) (Q : result A -> world St -> Prop) w d0 :
  prj (w_st w) = Pg d0 TxAborted ->
  (forall e w', w_env w' = tick (w_env w) -> prj (w_st w') = Pg d0 TxAborted -> Q (Err e) w') ->
  wp (tx_Exec s) Q w.
Proof.
  intros Hp HQ. apply wp_pg_env. intros t f w' _ Henv Hw. rewrite Hp in *. by apply HQ.
Qed.

(** ROLLBACK, whatever the transaction's state. *)
Lemma wp_tx_Rollback (Q : result unit -> world St -> Prop) w :
  (forall r w', db_of (w_st w') = db_of (w_st w) -> tx_of (w_st w') = TxNone -> Q r w') ->
  wp tx_Rollback Q w.
Proof.
  intros HQ. apply wp_pg. intros t f w' Hw.
  apply HQ; unfold db_of, tx_of; rewrite Hw; [apply pg_rollback_db|apply pg_rollback_tx].
Qed.

(** BEGIN on an idle connection. *)
Lemma wp_tx_Begin (Q : result unit -> world St -> Prop) w d :
  prj (w_st w) = Pg d TxNone ->
  (forall now w', w_env w' = tick (w_env w) -> prj (w_st w') = Pg d (TxOpen now d) -> Q (Ok tt) w') ->
  (forall e w', w_env w' = tick (w_env w) -> prj (w_st w') = Pg d TxNone -> Q (Err e) w') ->
  wp tx_Begin Q w.
Proof.
  intros Hp Hok He. apply wp_pg_env. intros t f w' _ Henv Hw. rewrite Hp in *. simpl in *.
  destruct f; simpl in *; [by eapply Hok|by apply He|by apply He].
Qed.

(** The calls of a transaction when nothing fails. *)
Lemma wp_tx_Begin_ok (Q : result unit -> world St -> Prop) w d :
  no_faults (w_env w) -> prj (w_st w) = Pg d TxNone ->
  (forall now w', w_env w' = tick (w_env w) -> prj (w_st w') = Pg d (TxOpen now d) -> Q (Ok tt) w') ->
  wp tx_Begin Q w.
Proof.
  intros [Hf _] Hp HQ. apply wp_pg_env. intros t f w' -> He Hw. rewrite Hf, Hp in Hw |- *. simpl in *. by eapply HQ.
Qed.

Lemma wp_tx_Exec_ok {A} (s : stmt D A) (Q : result A -> world St -> Prop) w d0 now d a d' :
  no_faults (w_env w) -> prj (w_st w) = Pg d0 (TxOpen now d) -> s now d = (Ok a, d') ->
  (forall w', w_env w' = tick (w_env w) -> prj (w_st w') = Pg d0 (TxOpen now d') -> Q (Ok a) w') ->
  wp (tx_Exec s) Q w.
Proof.
  intros [Hf _] Hp Hs HQ. apply wp_pg_env. intros t f w' -> He Hw. rewrite Hf, Hp in Hw |- *.
  unfold pg_exec in *. simpl in *. rewrite Hs in Hw |- *. simpl in *. by apply HQ.
Qed.

Lemma wp_tx_Commit_ok (Q : result unit -> world St -> Prop) w d0 now d :
  no_faults (w_env w) -> prj (w_st w) = Pg d0 (TxOpen now d) ->
  (forall w', w_env w' = tick (w_env w) -> prj (w_st w') = Pg d TxNone -> Q (Ok tt) w') ->
  wp tx_Commit Q w.
Proof.
  intros [Hf _] Hp HQ. apply wp_pg_env. intros t f w' -> He Hw. rewrite Hf, Hp in Hw |- *. simpl in *. by apply HQ.
Qed.

(** A query on a pooled connection, whatever the environment: the rows or the
    environment's error. *)
Lemma wp_pool_read {A} (s : stmt D A) (Q : result A -> world St -> Prop) w :
  (forall now d, (s now d).2 = d) ->
  (forall r w', prj (X := pg D) (w_st w') = prj (w_st w) -> w_env w' = tick (w_env w) ->
     (exists now, r = (s now (db_of (w_st w))).1) \/
     (exists n e, r = Err e /\ (e_fault (w_env w) n = FBefore e \/ e_fault (w_env w) n = FAfter e)) ->
     Q r w') ->
  wp (pool_Exec s) Q w.
Proof.
  intros Hs HQ. apply wp_pg_env. intros t f w' Hf He Hw.
  assert (Hp : pg_pool s t (prj (w_st w)) = ((s t (db_of (w_st w))).1, prj (w_st w))).
  { unfold pg_pool, db_of. specialize (Hs t (pg_db (prj (w_st w)))).
    destruct (s t (pg_db (prj (w_st w)))) as [a d]. simpl in *. subst. by destruct a, (prj (w_st w)). }
  destruct f as [|e|e]; simpl in *; rewrite ?Hp in *; simpl in *; (apply HQ; [done|done|]).
  - left. by exists t.
  - right. exists (e_tick (w_env w)), e. by split; [|left].
  - right. exists (e_tick (w_env w)), e. by split; [|right].
Qed.

Lemma frames_lift_pg {A Y} `{HY : !Has Y St} `{!Apart (pg D) Y St}
    (op : Z -> fault -> pg D -> result A * pg D) : frames (prj (X := Y)) (lift_pg op).
Proof. apply frames_call. intros t f s. destruct (op t f (prj s)). apply prj_apart. Qed.

(** The committed tables across the calls that never write them. *)
Lemma frames_db_lift {A} (op : Z -> fault -> pg D -> result A * pg D) :
  (forall t f p, pg_db (op t f p).2 = pg_db p) -> frames db_of (lift_pg op).
Proof.
  intros Hop. apply frames_call. intros t f s. specialize (Hop t f (prj s)).
  unfold db_of. destruct (op t f (prj s)). simpl in *. by rewrite prj_upd.
Qed.

Lemma frames_db_Begin : frames db_of tx_Begin.
Proof. apply frames_db_lift, pg_begin_db. Qed.
Lemma frames_db_Exec {A} (s : stmt D A) : frames db_of (tx_Exec s).
Proof. apply frames_db_lift, pg_exec_db. Qed.
Lemma frames_db_Rollback : frames db_of tx_Rollback.
Proof. apply frames_db_lift, pg_rollback_db. Qed.

(** A function that frames the whole database part frames the tables. *)
Lemma frames_db_of {A} (m : M St A) : frames (prj (X := pg D)) m -> frames db_of m.
Proof.
  intros H w. eapply wp_mono; [apply H|]. unfold db_of. simpl. by intros _ w' ->.
Qed.
End Calls.

#[export] Hint Resolve frames_lift_pg frames_db_Begin frames_db_Exec frames_db_Rollback : frames.
