(* ===== verification/Kafka.v ===== *)
(** * Kafka: messages and the producer
      (shared/infrastructure/kafka/message.go, kafka/producer)

    [Section Producer] is the producer as its callers see it: one call that
    appends a record or fails, possibly after the record was appended.
    [Module Async] is what [producer.Client] does inside: requests handed to
    the asynchronous sarama producer, the acknowledgement loop, the waiters and
    [Close], as a step relation over the client, its channels and the broker. *)

From S2P Require Import Prelude GoStrings GoErrors Effects.
Local Open Scope string_scope.
Local Open Scope list_scope.

(** ** kafka.Message *)

(** Byte slices are Go strings; a header map is a finite map. *)
Record Message := {
  msg_Headers : gmap string string;
  msg_Timestamp : Z;
  msg_BlockTimestamp : Z;
  msg_Key : string;
  msg_Value : string;
  msg_Topic : string;
  msg_Partition : Z;
  msg_Offset : Z
}.

(** A message literal with a topic, a key and a value. *)
Definition NewMessage (topic key value : string) : Message :=
  {| msg_Headers := ∅; msg_Timestamp := 0; msg_BlockTimestamp := 0; msg_Key := key;
     msg_Value := value; msg_Topic := topic; msg_Partition := 0; msg_Offset := 0 |}.

(** HeadersCarrier. *)
Definition carrier_Get (c : gmap string string) (key : string) : string := default "" (c !! key).
Definition carrier_Set (c : gmap string string) (key value : string) : gmap string string :=
  <[key := value]> c.
Definition carrier_Keys (c : gmap string string) : list string := (map_to_list c).*1.

(** ** The broker *)

(** The records of all topics in the order the broker appended them. *)
Record krecord := {
  kr_topic : string; kr_key : string; kr_value : string; kr_headers : gmap string string
}.

#[export] Instance krecord_eq_dec : EqDecision krecord.
Proof. solve_decision. Defined.

Record kafka := Kafka { k_log : list krecord }.

(** OpenTelemetry's propagator, which adds the trace headers to a carrier. *)
Class Otel := { otel_Inject : gmap string string -> gmap string string }.

Definition IdOtel : Otel := {| otel_Inject h := h |}.

Definition publish_topic (defaultTopic : string) (m : Message) : string :=
  if bool_decide (msg_Topic m = "") then defaultTopic else msg_Topic m.

Definition producer_record `{Otel} (defaultTopic : string) (m : Message) : krecord :=
  {| kr_topic := publish_topic defaultTopic m; kr_key := msg_Key m; kr_value := msg_Value m;
     kr_headers := otel_Inject (msg_Headers m) |}.

Definition kafka_append (r : krecord) (k : kafka) : result unit * kafka :=
  (Ok tt, Kafka (k_log k ++ [r])).

Section Producer.
Context {St : Type} `{Otel} `{HK : !Has kafka St}.

(** Client.publish: enqueue the message and wait for its outcome.  What the
    caller can observe is one call: acknowledged; failed without an effect
    (the context ended before the message was queued, the producer is closing,
    or the broker rejected it); or failed although the record was appended. *)
Definition client_publish (defaultTopic : string) (m : Message) : M St (result unit) :=
  let! c := ctx_Err in
  match c with
  | Some e => mret (Err e)
  | None =>
      call e_now (λ _, faulty (λ s,
        let '(r, k) := kafka_append (producer_record defaultTopic m) (prj s) in (r, upd k s)))
  end.

Definition producer_SendMessage (topic : string) (m : Message) : M St (result unit) :=
  client_publish topic m.

Definition producer_Send (topic key value : string) : M St (result unit) :=
  producer_SendMessage topic (NewMessage "" key value).

Lemma wp_client_publish topic m Q w :
  (forall e, Q (Err e) (World (tick (w_env w)) (w_st w))) ->
  (forall e, Q (Err e) (World (tick (tick (w_env w))) (w_st w))) ->
  (forall r, r = Ok tt \/ (exists e, r = Err e) ->
     Q r (World (tick (tick (w_env w)))
            (upd (Kafka (k_log (prj (w_st w)) ++ [producer_record topic m])) (w_st w)))) ->
  wp (client_publish topic m) Q w.
Proof.
  intros H1 H2 H3. unfold client_publish. wp_steps.
  destruct (e_ctx _ _) as [e|]; [by apply wp_ret|].
  apply wp_call. intros t f _ _. destruct f as [|e|e]; simpl.
  - apply H3. by left.
  - apply H2.
  - apply H3. right. by exists e.
Qed.

(** An acknowledged message is in the broker's log, after what was there. *)
Lemma publish_spec topic m :
  st_spec (client_publish topic m) (λ s r s',
    match r with
    | Ok _ => k_log (prj s') = k_log (prj s) ++ [producer_record topic m]
    | Err _ => k_log (prj s') = k_log (prj s) \/
               k_log (prj s') = k_log (prj s) ++ [producer_record topic m]
    end).
Proof.
  intros w. apply wp_client_publish; simpl; [by left..|].
  intros r [->|[e ->]]; rewrite prj_upd; simpl; [done|by right].
Qed.

Lemma publish_no_faults topic m Q w :
  no_faults (w_env w) ->
  Q (Ok tt) (World (tick (tick (w_env w)))
            (upd (Kafka (k_log (prj (w_st w)) ++ [producer_record topic m])) (w_st w))) ->
  wp (client_publish topic m) Q w.
Proof.
  intros [Hf Hc] HQ. unfold client_publish. wp_steps. rewrite Hc.
  apply wp_call. intros t f _ ->. simpl. by rewrite Hf.
Qed.

Lemma ticks_client_publish topic m : ticks (client_publish topic m).
Proof. unfold client_publish, ctx_Err. tick_solve. Qed.

Lemma frames_client_publish {Y} `{HY : !Has Y St} `{!Apart kafka Y St} topic m :
  frames (prj (X := Y)) (client_publish topic m).
Proof.
  unfold client_publish. frame_step; [frame_solve|]. case_match; [frame_solve|].
  apply frames_call. intros t. apply faulty_frame. intros s. apply prj_apart.
Qed.
End Producer.

#[export] Hint Resolve frames_client_publish : frames.

(** ** Inside producer.Client *)

Module Async.
Section Async.
Context `{Otel}.

(** publishRequest: [rq_result] is [Some] once [done] is closed. *)
Record request := {
  rq_default : string; rq_msg : Message; rq_result : option (result unit)
}.

(** [once.Do]: only the first result is kept. *)
Definition finish (r : result unit) (q : request) : request :=
  match rq_result q with
  | Some _ => q
  | None => {| rq_default := rq_default q; rq_msg := rq_msg q; rq_result := Some r |}
  end.

Definition isDone (q : request) : bool :=
  match rq_result q with Some _ => true | None => false end.

(** Where the goroutine that called [publish] stands. *)
Inductive phase :=
| Enqueueing                       (* in the select of enqueue *)
| Waiting                          (* in the select of waitPublishResult *)
| Returned (r : result unit)
| Panicked.                        (* sent on a closed channel *)

(** The client, the channels it shares with sarama, and the broker; requests
    are numbered. *)
Record client := Client {
  c_closing : bool;
  c_closed : bool;
  c_input : list nat;                        (* handed to Input() *)
  c_acks : list (nat * option error);        (* on Successes() and Errors() *)
  c_reqs : gmap nat (request * phase);
  c_log : list (nat * krecord)
}.

Definition init : client := Client false false [] [] ∅ [].

Definition set_req (i : nat) (q : request) (p : phase) (c : client) : client :=
  Client (c_closing c) (c_closed c) (c_input c) (c_acks c) (<[i := (q, p)]> (c_reqs c)) (c_log c).

Definition set_chans (inp : list nat) (acks : list (nat * option error))
    (log : list (nat * krecord)) (c : client) : client :=
  Client (c_closing c) (c_closed c) inp acks (c_reqs c) log.

(** The cases of the two selects. *)
Inductive enqueue_case :=
| ECtx (e : error)      (* <-ctx.Done() *)
| EClosing              (* <-c.closing *)
| ESend                 (* Input() <- message *)
| ESendClosed.          (* the same once sarama has closed its input *)

Inductive wait_case :=
| WDone                 (* <-request.done *)
| WCtx (e : error)      (* <-ctx.Done() *)
| WClosed.              (* <-c.closed *)

Definition record_of (q : request) : krecord := producer_record (rq_default q) (rq_msg q).

Definition ack_result (e : option error) : result unit :=
  match e with None => Ok tt | Some e => Err e end.

Definition unavailable : result unit := Err (ESentinel ErrProducerUnavailable).

(** publish up to its call of enqueue; [None] where a step is not enabled. *)
Definition publish (i : nat) (topic : string) (m : Message) (ctxErr : option error) (c : client) :
    option client :=
  match c_reqs c !! i with
  | Some _ => None
  | None =>
      let q := {| rq_default := topic; rq_msg := m; rq_result := None |} in
      Some (set_req i q (match ctxErr with Some e => Returned (Err e) | None => Enqueueing end) c)
  end.

(** sarama closes its input after [AsyncClose], when nothing is in flight; a
    send on a closed channel panics. *)
Definition enqueue (i : nat) (case : enqueue_case) (c : client) : option client :=
  match c_reqs c !! i with
  | Some (q, Enqueueing) =>
      match case with
      | ECtx e => Some (set_req i (finish (Err e) q) (Returned (Err e)) c)
      | EClosing => if c_closing c then Some (set_req i (finish unavailable q) (Returned unavailable) c) else None
      | ESend => if c_closed c then None
                 else Some (set_req i q Waiting (set_chans (c_input c ++ [i]) (c_acks c) (c_log c) c))
      | ESendClosed => if c_closing c && bool_decide (c_input c = []) then Some (set_req i q Panicked c) else None
      end
  | _ => None
  end.

Definition waitPublishResult (i : nat) (case : wait_case) (c : client) : option client :=
  match c_reqs c !! i with
  | Some (q, Waiting) =>
      match case with
      | WDone => match rq_result q with Some r => Some (set_req i q (Returned r) c) | None => None end
      | WCtx e => Some (set_req i q (Returned (Err e)) c)
      | WClosed =>
          if c_closed c then
            match rq_result q with
            | Some r => Some (set_req i q (Returned r) c)
            | None => Some (set_req i (finish unavailable q) (Returned unavailable) c)
            end
          else None
      end
  | _ => None
  end.

(** sarama settles the [k]-th queued message; it acknowledges one on
    Successes() only when the broker appended it. *)
Definition broker (k : nat) (appended : bool) (e : option error) (c : client) : option client :=
  match c_input c !! k with
  | None => None
  | Some i =>
      match c_reqs c !! i, appended, e with
      | None, _, _ | _, false, None => None
      | Some (q, _), _, _ =>
          Some (set_chans (delete k (c_input c)) (c_acks c ++ [(i, e)])
                 (c_log c ++ if appended then [(i, record_of q)] else []) c)
      end
  end.

(** handleSuccess and handleError: both finish the request. *)
Definition handle_ack (k : nat) (c : client) : option client :=
  match c_acks c !! k with
  | None => None
  | Some (i, e) =>
      let c' := set_chans (c_input c) (delete k (c_acks c)) (c_log c) c in
      match c_reqs c !! i with
      | None => Some c'
      | Some (q, p) => Some (set_req i (finish (ack_result e) q) p c')
      end
  end.

(** runAckLoop leaves its loop when both channels are closed and drained, and
    closes [closed]. *)
Definition leave_loop (c : client) : option client :=
  match c_input c, c_acks c with
  | [], [] => if c_closing c then Some (Client (c_closing c) true [] [] (c_reqs c) (c_log c)) else None
  | _, _ => None
  end.

(** Close up to the wait for the loop. *)
Definition Close (c : client) : option client :=
  Some (Client true (c_closed c) (c_input c) (c_acks c) (c_reqs c) (c_log c)).

Inductive action :=
| APublish (i : nat) (topic : string) (m : Message) (ctxErr : option error)
| AEnqueue (i : nat) (case : enqueue_case)
| AWait (i : nat) (case : wait_case)
| ABroker (k : nat) (appended : bool) (e : option error)
| AAckLoop (k : nat)
| AExit
| AClose.

Definition step (c : client) (a : action) : option client :=
  match a with
  | APublish i topic m ctxErr => publish i topic m ctxErr c
  | AEnqueue i case => enqueue i case c
  | AWait i case => waitPublishResult i case c
  | ABroker k appended e => broker k appended e c
  | AAckLoop k => handle_ack k c
  | AExit => leave_loop c
  | AClose => Close c
  end.

Fixpoint run (c : client) (l : list action) : option client :=
  match l with
  | [] => Some c
  | a :: l => c' ← step c a; run c' l
  end.

(** *** Invariant *)

Definition logged (i : nat) (c : client) : list krecord :=
  (filter (λ x : nat * krecord, x.1 = i) (c_log c)).*2.

Record req_inv (i : nat) (q : request) (p : phase) (c : client) : Prop := {
  ri_fresh : p = Enqueueing ->
    i ∉ c_input c /\ i ∉ (c_acks c).*1 /\ logged i c = [] /\ rq_result q = None;
  ri_input : i ∈ c_input c -> logged i c = [] /\ i ∉ (c_acks c).*1;
  ri_log : logged i c = [] \/ logged i c = [record_of q];
  ri_ack : (i, None) ∈ c_acks c -> logged i c = [record_of q];
  ri_result : rq_result q = Some (Ok tt) -> logged i c = [record_of q];
  ri_returned : p = Returned (Ok tt) -> logged i c = [record_of q]
}.

Record inv (c : client) : Prop := {
  inv_nodup : NoDup (c_input c);
  inv_none i : c_reqs c !! i = None -> i ∉ c_input c /\ i ∉ (c_acks c).*1 /\ logged i c = [];
  inv_some i q p : c_reqs c !! i = Some (q, p) -> req_inv i q p c
}.

Lemma inv_init : inv init.
Proof. split; [constructor|set_solver|set_solver]. Qed.

(** Updating one request keeps the invariant when the request's own part
    holds afterwards; the channels and the log are unchanged. *)
Lemma inv_set_req i q p c :
  inv c -> req_inv i q p c -> inv (set_req i q p c).
Proof.
  intros [Hnd Hn Hs] Hi. split; [done| |]; simpl; intros j.
  - intros [Hj ?]%lookup_insert_None. by apply Hn.
  - intros q' p' [[-> [= <- <-]]|[? Hj]]%lookup_insert_Some.
    + by destruct Hi; split.
    + by destruct (Hs _ _ _ Hj); split.
Qed.

Lemma record_of_finish r q : record_of (finish r q) = record_of q.
Proof. unfold finish. by destruct (rq_result q). Qed.

Lemma finish_Ok r q :
  rq_result (finish r q) = Some (Ok tt) -> rq_result q = Some (Ok tt) \/ r = Ok tt.
Proof. unfold finish. destruct (rq_result q) eqn:E; simpl; naive_solver. Qed.

(** Finishing a request with an error, or with a success already logged, and
    moving it to a phase other than [Enqueueing]. *)
Lemma inv_finish i q p r p' c :
  inv c -> c_reqs c !! i = Some (q, p) -> p' <> Enqueueing ->
  (r = Ok tt -> logged i c = [record_of q]) ->
  (p' = Returned (Ok tt) -> logged i c = [record_of q]) ->
  inv (set_req i (finish r q) p' c).
Proof.
  intros Hi Hq Hp Hr Hp'. apply inv_set_req; [done|].
  destruct (inv_some _ Hi _ _ _ Hq) as [? ? ? ? Hres ?].
  split; rewrite ?record_of_finish; try done.
  by intros [?| ->]%finish_Ok; [apply Hres|apply Hr].
Qed.

Lemma inv_move i q p p' c :
  inv c -> c_reqs c !! i = Some (q, p) -> p' <> Enqueueing ->
  (p' = Returned (Ok tt) -> logged i c = [record_of q]) -> inv (set_req i q p' c).
Proof.
  intros Hi Hq Hp Hp'. apply inv_set_req; [done|].
  destruct (inv_some _ Hi _ _ _ Hq). by split.
Qed.

Lemma inv_send i q c :
  inv c -> c_reqs c !! i = Some (q, Enqueueing) ->
  inv (set_req i q Waiting (set_chans (c_input c ++ [i]) (c_acks c) (c_log c) c)).
Proof.
  intros [Hnd Hn Hs] Hq.
  destruct (ri_fresh _ _ _ _ (Hs _ _ _ Hq) eq_refl) as (Hin & Hack & Hlog & Hres).
  split; simpl.
  - apply NoDup_app. split_and!; [done| |apply NoDup_singleton].
    intros x Hx ->%list_elem_of_singleton. done.
  - intros j [Hj ?]%lookup_insert_None. destruct (Hn _ Hj) as (?&?&?).
    split_and!; [set_solver|done|done].
  - intros j q' p' [[-> [= <- <-]]|[? Hj]]%lookup_insert_Some.
    + destruct (Hs _ _ _ Hq). split; try done.
    + destruct (Hs _ _ _ Hj) as [Hf Hi]. split; try done; simpl.
      * intros Hp. destruct (Hf Hp) as (?&?&?&?). split_and!; [set_solver|done..].
      * intros Hij. apply Hi. set_solver.
Qed.

Lemma elem_of_delete_nodup (l : list nat) k i j :
  NoDup l -> l !! k = Some i -> j ∈ delete k l <-> j ∈ l /\ j <> i.
Proof.
  intros Hnd Hk. pose proof (delete_Permutation l k i Hk) as Hp.
  rewrite Hp in Hnd. apply NoDup_cons in Hnd as [Hi _].
  assert (Hj : j ∈ l <-> j ∈ i :: delete k l) by by rewrite <- Hp.
  rewrite Hj, elem_of_cons. naive_solver.
Qed.

Lemma inv_broker k i q p appended e c :
  inv c -> c_input c !! k = Some i -> c_reqs c !! i = Some (q, p) ->
  (appended = false -> e <> None) ->
  inv (set_chans (delete k (c_input c)) (c_acks c ++ [(i, e)])
         (c_log c ++ if appended then [(i, record_of q)] else []) c).
Proof.
  intros [Hnd Hn Hs] Hk Hq He.
  assert (Hdel := λ j, elem_of_delete_nodup _ _ _ j Hnd Hk).
  assert (Hi : i ∈ c_input c) by (by eapply list_elem_of_lookup_2).
  destruct (ri_input _ _ _ _ (Hs _ _ _ Hq) Hi) as [Hlog Hack].
  set (l := if appended then [(i, record_of q)] else []).
  assert (Hl : forall j, j <> i -> (filter (λ x : nat * krecord, x.1 = j) l).*2 = []).
  { intros j Hj. subst l. destruct appended; [|done].
    rewrite filter_cons, filter_nil. simpl. by rewrite decide_False. }
  assert (Hother : forall j inp acks, j <> i -> logged j (set_chans inp acks (c_log c ++ l) c) = logged j c).
  { intros j inp acks Hj. unfold logged. simpl.
    rewrite filter_app, fmap_app, Hl, app_nil_r; done. }
  assert (Hself : forall inp acks, logged i (set_chans inp acks (c_log c ++ l) c) =
    if appended then [record_of q] else []).
  { intros. unfold logged in *. simpl. rewrite filter_app, fmap_app, Hlog. subst l.
    destruct appended; [|done]. rewrite filter_cons, filter_nil. simpl. by rewrite decide_True. }
  split; simpl.
  - rewrite (delete_Permutation _ _ _ Hk) in Hnd. by apply NoDup_cons in Hnd as [_ ?].
  - intros j Hj. destruct (Hn _ Hj) as (?&?&?). assert (j <> i) by congruence.
    rewrite Hother, Hdel, fmap_app by done. set_solver.
  - intros j q' p' Hj. destruct (decide (j = i)) as [->|Hji].
    + rewrite Hq in Hj. injection Hj as <- <-. destruct (Hs _ _ _ Hq) as [Hf _ _ Ha Hr Hp].
      split; simpl; rewrite ?Hself.
      * intros ?. by destruct Hf.
      * rewrite Hdel. naive_solver.
      * destruct appended; auto.
      * rewrite elem_of_app, list_elem_of_singleton. intros [?|[= <-]].
        -- destruct Hack. by apply (list_elem_of_fmap_2 fst _ (i, None)).
        -- destruct appended; [done|]. by destruct (He eq_refl).
      * intros ?%Hr. by rewrite Hlog in H0.
      * intros ?%Hp. by rewrite Hlog in H0.
    + destruct (Hs _ _ _ Hj) as [Hf Hin Hlg Ha Hr Hp]. split; simpl; rewrite ?Hother by done.
      * intros ?. destruct Hf as (?&?&?&?); [done|]. rewrite Hdel, fmap_app. set_solver.
      * rewrite Hdel, fmap_app. intros [??]. destruct Hin; [done|]. set_solver.
      * done.
      * rewrite elem_of_app, list_elem_of_singleton. intros [?|[=]]; [auto|congruence].
      * done.
      * done.
Qed.

Lemma inv_drop_ack k x c :
  inv c -> c_acks c !! k = Some x ->
  inv (set_chans (c_input c) (delete k (c_acks c)) (c_log c) c).
Proof.
  intros [Hnd Hn Hs] Hk.
  assert (Hsub : forall y, y ∈ delete k (c_acks c) -> y ∈ c_acks c).
  { intros y Hy. rewrite (delete_Permutation _ _ _ Hk), elem_of_cons. by right. }
  assert (Hsub1 : forall j, j ∈ (delete k (c_acks c)).*1 -> j ∈ (c_acks c).*1).
  { intros j. rewrite !list_elem_of_fmap. naive_solver. }
  split; simpl; [done| |].
  - intros j Hj. destruct (Hn _ Hj) as (?&?&?). naive_solver.
  - intros j q p Hj. destruct (Hs _ _ _ Hj) as [Hf Hi ? Ha ? ?]. split; simpl; try done.
    + intros ?. destruct Hf as (?&?&?&?); naive_solver.
    + intros ?. destruct Hi; naive_solver.
    + intros ?. by apply Ha, Hsub.
Qed.

Lemma ack_in_ids (c : client) k i e : c_acks c !! k = Some (i, e) -> i ∈ (c_acks c).*1.
Proof. intros Hk. apply (list_elem_of_fmap_2 fst _ (i, e)). by eapply list_elem_of_lookup_2. Qed.

Lemma inv_publish i topic m ctxErr c c' :
  inv c -> publish i topic m ctxErr c = Some c' -> inv c'.
Proof.
  intros Hc. unfold publish. destruct (c_reqs c !! i) eqn:E; [done|]. intros [= <-].
  apply inv_set_req; [done|]. destruct (inv_none _ Hc _ E) as (?&?&?).
  split; simpl; try done; [by left| |by destruct ctxErr].
  intros Hx. by apply (list_elem_of_fmap_2 fst) in Hx.
Qed.

Lemma inv_enqueue i case c c' : inv c -> enqueue i case c = Some c' -> inv c'.
Proof.
  intros Hc Hst. unfold enqueue in Hst. split_match_hyp Hst; simplify_eq.
  - by eapply inv_finish.
  - by eapply inv_finish.
  - by apply inv_send.
  - by eapply inv_move.
Qed.

Lemma inv_wait i case c c' : inv c -> waitPublishResult i case c = Some c' -> inv c'.
Proof.
  intros Hc Hst. unfold waitPublishResult in Hst. split_match_hyp Hst; simplify_eq.
  - eapply inv_move; [done..|]. intros [= ->]. by apply (ri_result _ _ _ _ (inv_some _ Hc _ _ _ E)).
  - by eapply inv_move.
  - eapply inv_move; [done..|]. intros [= ->]. by apply (ri_result _ _ _ _ (inv_some _ Hc _ _ _ E)).
  - by eapply inv_finish.
Qed.

Lemma inv_handle_ack k c c' : inv c -> handle_ack k c = Some c' -> inv c'.
Proof.
  intros Hc Hst. unfold handle_ack in Hst. split_match_hyp Hst; simplify_eq; [|by eapply inv_drop_ack].
  destruct (inv_some _ Hc _ _ _ E0) as [Hf _ _ Ha _ Hp].
  assert (Hi := ack_in_ids _ _ _ _ E).
  eapply inv_finish; [by eapply inv_drop_ack|done| | |by intros ?%Hp].
  - intros ->. by destruct (Hf eq_refl) as (_&?&_).
  - destruct o; simpl; [done|]. intros _. apply Ha. by eapply list_elem_of_lookup_2.
Qed.

Lemma inv_leave_loop c c' : inv c -> leave_loop c = Some c' -> inv c'.
Proof.
  intros [? Hn Hs] Hst. unfold leave_loop in Hst. split_match_hyp Hst; simplify_eq.
  split; simpl; [constructor| |].
  - intros i Hi. destruct (Hn i Hi) as (?&?&?). split_and!; [by apply not_elem_of_nil..|done].
  - intros i q p Hq. destruct (Hs i q p Hq) as [Hf ? ? ? ? ?]. split; simpl; try done.
    + intros ?. destruct Hf as (?&?&?&?); [done|]. split_and!; [by apply not_elem_of_nil..|done|done].
    + by intros ?%not_elem_of_nil.
    + by intros ?%not_elem_of_nil.
Qed.

Lemma inv_step c a c' : inv c -> step c a = Some c' -> inv c'.
Proof.
  intros Hc. destruct a; simpl; intros Hst.
  - by eapply inv_publish.
  - by eapply inv_enqueue.
  - by eapply inv_wait.
  - unfold broker in Hst. split_match_hyp Hst; simplify_eq;
      [by eapply (inv_broker k _ _ _ true)|by eapply (inv_broker k _ _ _ false)].
  - by eapply inv_handle_ack.
  - by eapply inv_leave_loop.
  - injection Hst as <-. destruct Hc as [? Hn Hs]. split; simpl; [done|apply Hn|].
    intros i q p Hq. by destruct (Hs i q p Hq).
Qed.

Lemma inv_run l : forall c c', inv c -> run c l = Some c' -> inv c'.
Proof.
  induction l as [|a l IH]; intros c c' Hc; simpl; [by intros [= <-]|].
  destruct (step c a) as [c1|] eqn:Ha; simpl; [|done]. intros. by eapply IH, H0; eapply inv_step.
Qed.

(** A request keeps its first result. *)
Lemma step_result c a c' i q p r :
  step c a = Some c' -> c_reqs c !! i = Some (q, p) -> rq_result q = Some r ->
  exists q' p', c_reqs c' !! i = Some (q', p') /\ rq_result q' = Some r.
Proof.
  intros Hst Hq Hr.
  assert (Hset : forall j q' p' r' d, c_reqs d = c_reqs c ->
    c_reqs c !! j = Some (q', p') -> forall p2,
    exists q2 p3, c_reqs (set_req j (finish r' q') p2 d) !! i = Some (q2, p3) /\ rq_result q2 = Some r).
  { intros j q' p' r' d Hd Hj p2. simpl. rewrite Hd. destruct (decide (i = j)) as [->|].
    - rewrite Hq in Hj. injection Hj as <- <-. rewrite lookup_insert_eq.
      eexists _, _. split; [done|]. unfold finish. by rewrite Hr.
    - rewrite lookup_insert_ne by done. by eexists _, _. }
  assert (Hset2 : forall j q' p' d, c_reqs d = c_reqs c ->
    c_reqs c !! j = Some (q', p') -> forall p2,
    exists q2 p3, c_reqs (set_req j q' p2 d) !! i = Some (q2, p3) /\ rq_result q2 = Some r).
  { intros j q' p' d Hd Hj p2. simpl. rewrite Hd. destruct (decide (i = j)) as [->|].
    - rewrite Hq in Hj. injection Hj as <- <-. rewrite lookup_insert_eq. by eexists _, _.
    - rewrite lookup_insert_ne by done. by eexists _, _. }
  destruct a; unfold step, publish, enqueue, waitPublishResult, broker, handle_ack, leave_loop, Close in Hst;
    split_match_hyp Hst; simplify_eq/=; try (by eauto); try (by eexists _, _).
  rewrite lookup_insert_ne by congruence. by eexists _, _.
Qed.

Definition reachable (c : client) : Prop := exists l, run init l = Some c.

Lemma reachable_inv c : reachable c -> inv c.
Proof. intros [l Hl]. by eapply inv_run, Hl; apply inv_init. Qed.

Lemma step_closing c a c' :
  (c_closed c = true -> c_closing c = true) -> step c a = Some c' ->
  c_closed c' = true -> c_closing c' = true.
Proof.
  intros Hc Hst.
  destruct a; unfold step, publish, enqueue, waitPublishResult, broker, handle_ack, leave_loop, Close in Hst;
    split_match_hyp Hst; simplify_eq/=; auto; congruence.
Qed.

Lemma reachable_closing c : reachable c -> c_closed c = true -> c_closing c = true.
Proof.
  intros [l Hl]. revert Hl. assert (H0 : c_closed init = true -> c_closing init = true) by done.
  generalize dependent init.
  induction l as [|a l IH]; intros c0 H0; simpl; [by intros [= <-]|].
  destruct (step c0 a) as [c1|] eqn:Ha; simpl; [|done]. apply IH. by eapply step_closing.
Qed.

(** A waiting request does not panic. *)
Lemma step_no_panic c a c' i q :
  c_reqs c !! i = Some (q, Waiting) -> step c a = Some c' ->
  exists q' p', c_reqs c' !! i = Some (q', p') /\ p' <> Panicked.
Proof.
  intros Hq Hst.
  assert (Hset : forall j q' p' d, c_reqs d = c_reqs c -> (j = i -> p' <> Panicked) ->
    exists q2 p2, c_reqs (set_req j q' p' d) !! i = Some (q2, p2) /\ p2 <> Panicked).
  { intros j q' p' d Hd Hp. simpl. rewrite Hd. destruct (decide (j = i)) as [->|].
    - rewrite lookup_insert_eq. eauto.
    - rewrite lookup_insert_ne by done. by eexists _, _. }
  destruct a; unfold step, publish, enqueue, waitPublishResult, broker, handle_ack, leave_loop, Close in Hst;
    split_match_hyp Hst; simplify_eq; try (by eexists _, _); apply Hset; try done; congruence.
Qed.

(** The goroutine of request [i] has left [publish] with the answer [r]. *)
Definition returned (c : client) (i : nat) (r : result unit) : Prop :=
  exists q, c_reqs c !! i = Some (q, Returned r).

Definition request_record (c : client) (i : nat) : option krecord :=
  (λ '(q, _), record_of q) <$> c_reqs c !! i.

(** Whatever the interleaving of publishers, the acknowledgement loop,
    cancellations, broker failures and [Close], a [publish] that returned nil
    has its record in the broker's log exactly once, and one that returned an
    error has it at most once: the asynchronous client implements the
    three-outcome call [client_publish]. *)
Theorem publish_outcomes c i r :
  reachable c -> returned c i r ->
  exists rec, request_record c i = Some rec /\
    match r with
    | Ok _ => logged i c = [rec]
    | Err _ => logged i c = [] \/ logged i c = [rec]
    end.
Proof.
  intros Hc%reachable_inv [q Hq]. unfold request_record. rewrite Hq. simpl.
  destruct (inv_some _ Hc _ _ _ Hq) as [_ _ Hlog _ _ Hret].
  eexists; split; [done|]. destruct r as [[]|e]; [by apply Hret|done].
Qed.

(** C40 Once the acknowledgement loop has exited, nobody is left waiting: every
    [publish] still in one of its selects can return at once, with the result
    it was given if there is one and with an error otherwise.A [publish]
    that has not handed its message over may instead panic on sarama's closed
    input; one that waits for its result never does. *)
Theorem close_releases_waiters c i q p :
  reachable c -> c_closed c = true -> c_reqs c !! i = Some (q, p) ->
  (exists r, p = Returned r) \/ p = Panicked \/
  exists a c' r, step c a = Some c' /\ returned c' i r /\
    (rq_result q = Some r \/ (rq_result q = None /\ r = unavailable)) /\
    (p = Waiting -> forall a' c'', step c a' = Some c'' -> exists q' p', c_reqs c'' !! i = Some (q', p') /\ p' <> Panicked).
Proof.
  intros Hr Hcl Hq. pose proof (reachable_closing _ Hr Hcl) as Hclosing.
  destruct p as [| |r|]; [right; right|right; right|left; by exists r|by right; left].
  - destruct (ri_fresh _ _ _ _ (inv_some _ (reachable_inv _ Hr) _ _ _ Hq) eq_refl) as (_&_&_&Hn).
    exists (AEnqueue i EClosing). simpl. unfold enqueue. rewrite Hq, Hclosing. eexists _, _. split; [done|].
    split; [|split; [by right|done]]. eexists. simpl. by rewrite lookup_insert_eq.
  - exists (AWait i WClosed). simpl. unfold waitPublishResult. rewrite Hq, Hcl.
    assert (Hp : Waiting = Waiting -> forall a' c'', step c a' = Some c'' ->
      exists q' p', c_reqs c'' !! i = Some (q', p') /\ p' <> Panicked) by (intros _ a' c'' Hst; by apply (step_no_panic c a' c'' i q)).
    destruct (rq_result q) as [r|] eqn:E; (eexists _, _; split; [done|]; split; [|split; [auto|done]]);
      eexists; simpl; by rewrite lookup_insert_eq.
Qed.
End Async.

(** *** Closed instances *)

Section Witness.
#[local] Existing Instance IdOtel.

Definition demo_run (l : list action) : client := default init (run init l).

Definition demo_acked : list action :=
  [APublish 0 "t" (NewMessage "" "k" "v") None; AEnqueue 0 ESend; ABroker 0 true None;
   AAckLoop 0; AWait 0 WDone].

Lemma publish_outcomes_witness :
  exists rec, request_record (demo_run demo_acked) 0 = Some rec /\
              logged 0 (demo_run demo_acked) = [rec].
Proof.
  apply (publish_outcomes (demo_run demo_acked) 0 (Ok tt)).
  - exists demo_acked. vm_compute. reflexivity.
  - eexists. vm_compute. reflexivity.
Defined.

(** A message the broker never sees before the loop exits. *)
Definition demo_closed : list action :=
  [APublish 0 "t" (NewMessage "" "k" "v") None; AClose; AExit].

(** The same goroutine may meet the closed input. *)
Example demo_panic :
  snd <$> c_reqs (demo_run (demo_closed ++ [AEnqueue 0 ESendClosed])) !! 0 = Some Panicked.
Proof. by vm_compute. Qed.

Lemma close_releases_waiters_witness :
  let c := demo_run demo_closed in
  exists q, c_reqs c !! 0 = Some (q, Enqueueing) /\
  ((exists r, Enqueueing = Returned r) \/ Enqueueing = Panicked \/
   exists a c' r, step c a = Some c' /\ returned c' 0 r /\
     (rq_result q = Some r \/ (rq_result q = None /\ r = unavailable)) /\
     (Enqueueing = Waiting -> forall a' c'', step c a' = Some c'' ->
        exists q' p', c_reqs c'' !! 0 = Some (q', p') /\ p' <> Panicked)).
Proof.
  cbv zeta. eexists. split; [vm_compute; reflexivity|].
  apply (close_releases_waiters (demo_run demo_closed) 0).
  - exists demo_closed. vm_compute. reflexivity.
  - vm_compute. reflexivity.
  - vm_compute. reflexivity.
Defined.
End Witness.
End Async.
