(* ===== verification/KafkaConsumer.v ===== *)
(** * The Kafka consumer (shared/infrastructure/kafka/consumer)

    Middlewares around a message handler, dead-letter messages, the loop over
    a claimed partition and the loops that restart it.  A handler returns an
    error or panics.  The session of sarama keeps the messages that were
    marked and the offsets of the group, which a mark moves forward; which arm a [select] takes, how often a session is started and
    how it ends are inputs.  A retry's delay shows in the answer of the context
    after it; its length is [retryDelay]. *)

From S2P Require Import Prelude GoStrings GoFloats GoErrors Effects Kafka.
Local Open Scope string_scope.
Local Open Scope list_scope.
Local Open Scope Z_scope.

(** ** Byte strings *)

(** unicode/utf8.Valid. *)
Definition continuation (c : ascii) : bool := byte_in 128 191 c.

Definition lead2 (c c1 : ascii) : bool := byte_in 194 223 c && continuation c1.

Definition lead3 (c c1 : ascii) : bool :=
  (byte_in 224 224 c && byte_in 160 191 c1) || (byte_in 225 236 c && continuation c1) ||
  (byte_in 237 237 c && byte_in 128 159 c1) || (byte_in 238 239 c && continuation c1).

Definition lead4 (c c1 : ascii) : bool :=
  (byte_in 240 240 c && byte_in 144 191 c1) || (byte_in 241 243 c && continuation c1) ||
  (byte_in 244 244 c && byte_in 128 143 c1).

Fixpoint utf8_Valid (s : string) : bool :=
  match s with
  | "" => true
  | String c s =>
      if byte_in 0 127 c then utf8_Valid s
      else match s with
      | "" => false
      | String c1 s =>
          if lead2 c c1 then utf8_Valid s
          else match s with
          | "" => false
          | String c2 s =>
              if lead3 c c1 && continuation c2 then utf8_Valid s
              else match s with
              | "" => false
              | String c3 s => lead4 c c1 && continuation c2 && continuation c3 && utf8_Valid s
              end
          end
      end
  end.

Fixpoint str_take (n : nat) (s : string) : string :=
  match n, s with
  | S n, String c s => String c (str_take n s)
  | _, _ => ""
  end.

Definition slen (s : string) : Z := Z.of_nat (String.length s).

(** The loop of truncateUTF8Bytes: drop bytes until what is left is valid. *)
Fixpoint trim_invalid (n : nat) (data : string) : string :=
  let truncated := str_take n data in
  match n with
  | O => truncated
  | S n => if negb (utf8_Valid truncated) then trim_invalid n data else truncated
  end.

Definition truncateUTF8Bytes (data : string) (limit : Z) : string :=
  if limit <=? 0 then ""
  else if slen data <=? limit then data
  else trim_invalid (Z.to_nat limit) data.

(** ** Dead-letter messages *)

Definition dlqErrorMaxBytes : Z := 2 * 1024.

Definition dlqEssentialHeaders : gset string := list_to_set
  ["traceparent"; "dlq-original-topic"; "dlq-original-partition"; "dlq-original-offset";
   "dlq-attempts-total"; "dlq-error"; "dlq-payload-intact"; "dlq-metadata-trimmed";
   "dlq-original-message-size"; "dlq-original-payload-size"].

Definition headers_size (headers : gmap string string) : Z :=
  map_fold (λ key value size, size + (slen key + slen value)) 0 headers.

Definition messageSize (message : Message) : Z :=
  slen (msg_Key message) + slen (msg_Value message) + headers_size (msg_Headers message).

Definition shouldTruncate (message : Message) (maxBytes : Z) : bool :=
  (0 <? maxBytes) && (maxBytes <? messageSize message).

Definition with_headers (headers : gmap string string) (message : Message) : Message := {|
  msg_Headers := headers; msg_Timestamp := msg_Timestamp message;
  msg_BlockTimestamp := msg_BlockTimestamp message; msg_Key := msg_Key message;
  msg_Value := msg_Value message; msg_Topic := msg_Topic message;
  msg_Partition := msg_Partition message; msg_Offset := msg_Offset message |}.

Definition trimDLQHeadersToEssential (message : Message) : Message :=
  with_headers (filter (λ kv, kv.1 ∈ dlqEssentialHeaders) (msg_Headers message)) message.

Definition newDLQMessage (message : Message) (headers : gmap string string) : Message := {|
  msg_Headers := headers; msg_Timestamp := msg_Timestamp message;
  msg_BlockTimestamp := msg_BlockTimestamp message; msg_Key := msg_Key message;
  msg_Value := msg_Value message; msg_Topic := ""; msg_Partition := msg_Partition message;
  msg_Offset := msg_Offset message |}.

Section Dlq.
Context `{U : GoLib}.

Definition buildDLQHeaders (message : Message) (lastError : error) (retryCount : Z) :
    gmap string string :=
  <["dlq-payload-intact" := "false"]>
  (<["dlq-error" := truncateUTF8Bytes (error_text lastError) dlqErrorMaxBytes]>
  (<["dlq-attempts-total" := itoa retryCount]>
  (<["dlq-original-offset" := itoa (msg_Offset message)]>
  (<["dlq-original-partition" := itoa (msg_Partition message)]>
  (<["dlq-original-topic" := msg_Topic message]> (msg_Headers message)))))).

Definition map_headers (f : gmap string string -> gmap string string) (m : Message) : Message :=
  with_headers (f (msg_Headers m)) m.

(** A missing header reads as nil, which truncates to itself. *)
Definition buildDLQMessage (message : Message) (lastError : error) (retryCount maxMessageBytes : Z) :
    Message :=
  let dlqMessage := newDLQMessage message (buildDLQHeaders message lastError retryCount) in
  if negb (shouldTruncate dlqMessage maxMessageBytes) then dlqMessage
  else
    let dlqMessage := map_headers (λ h,
      <["dlq-original-payload-size" := itoa (slen (msg_Value message))]>
      (<["dlq-original-message-size" := itoa (messageSize message)]>
      (<["dlq-metadata-trimmed" := "true"]> h))) dlqMessage in
    let dlqMessage := trimDLQHeadersToEssential dlqMessage in
    let dlqMessage :=
      if shouldTruncate dlqMessage maxMessageBytes then
        map_headers (λ h, <["dlq-error" :=
          truncateUTF8Bytes (carrier_Get h "dlq-error") 256]> h) dlqMessage
      else dlqMessage in
    if shouldTruncate dlqMessage maxMessageBytes then map_headers (delete "dlq-error") dlqMessage
    else dlqMessage.
End Dlq.

(** ** Handlers and middlewares *)

Inductive returned := Returns (err : option error) | Panics (value : string).

Definition MessageHandler (St : Type) : Type := Message -> M St returned.
Definition Middleware (St : Type) : Type := MessageHandler St -> MessageHandler St.

(** DLQPublisher.SendMessage. *)
Definition DLQPublisher (St : Type) : Type := Message -> M St (result unit).

Section Middlewares.
Context {St : Type} `{U : GoLib}.

Definition PanicRecoveryMiddleware : Middleware St := λ next msg,
  let! r := next msg in
  mret match r with
       | Panics value => Returns (Some (EMsg ("panic recovered in kafka handler: " +:+ value)))
       | Returns err => Returns err
       end.

(** How long a retry waits: [random] is rand.Float64(), from 0 to below 1, and
    [coin] is rand.IntN(2). *)
Definition retryDelay (random : spec_float) (coin backoff attempt : Z) (jitter : spec_float) : Z :=
  let base := wrap_s 64 (backoff * wrap_s 64 (attempt + 1)) in
  if (base <=? 0) || SFleb jitter (float_of 0) then base
  else
    let delta := int64_of (float_mul (float_mul random jitter) (float_of base)) in
    if coin =? 0 then wrap_s 64 (base - delta) else wrap_s 64 (base + delta).

(** RetryMiddleware's bounds for the jitter. *)
Definition clamp_jitter (jitter : spec_float) : spec_float :=
  let jitter := if SFltb jitter (float_of 0) then float_of 0 else jitter in
  if SFltb (float_of 1) jitter then float_of 1 else jitter.

(** [n] rounds are left; the context may end while the delay runs. *)
Fixpoint retry_rounds (n : nat) (attempt maxRetries : Z) (next : MessageHandler St)
    (message : Message) : M St returned :=
  match n with
  | O => mret (Returns None)
  | S n =>
      let! r := next message in
      match r with
      | Panics value => mret (Panics value)
      | Returns None => mret (Returns None)
      | Returns (Some err) =>
          if IsNonRetryableError err then mret (Returns (Some err))
          else if attempt <? maxRetries then
            let! c := ctx_Err in
            match c with
            | Some e => mret (Returns (Some (wrap2 (ESentinel ErrStopConsumeClaim) e)))
            | None => retry_rounds n (attempt + 1) maxRetries next message
            end
          else mret (Returns (Some (ERetryExhausted err maxRetries)))
      end
  end.

Definition RetryMiddleware (maxRetries : Z) : Middleware St := λ next message,
  let maxRetries := Z.max 0 maxRetries in
  retry_rounds (Z.to_nat (wrap_s 64 (maxRetries + 1))) 0 maxRetries next message.

Definition sendToDLQ (message : Message) (dlqPublisher : option (DLQPublisher St)) (lastErr : error)
    (retryCount maxMessageBytes : Z) : M St error :=
  let! c := ctx_Err in
  match c, dlqPublisher with
  | Some e, _ => mret (wrap2 (ESentinel ErrStopConsumeClaim) e)
  | None, None => mret lastErr
  | None, Some publisher =>
      let! r := publisher (buildDLQMessage message lastErr retryCount maxMessageBytes) in
      mret match r with
           | Err dlqError => dlqError
           | Ok _ => ESentinel ErrMessageHandledByDLQ
           end
  end.

Definition DLQMiddleware (dlqPublisher : option (DLQPublisher St)) (maxMessageBytes : Z) :
    Middleware St := λ next message,
  let! r := next message in
  match r with
  | Panics value => mret (Panics value)
  | Returns None => mret (Returns None)
  | Returns (Some err) =>
      if IsControlFlowError err then mret (Returns (Some err))
      else
        let '(retryCount, err) :=
          match errors_As is_RetryExhausted err with
          | Some (ERetryExhausted e n) => (wrap_s 64 (n + 1), e)
          | _ => (0, err)
          end in
        if IsControlFlowError err then mret (Returns (Some err))
        else
          let! e := sendToDLQ message dlqPublisher err retryCount maxMessageBytes in
          mret (Returns (Some e))
  end.

(** The first middleware is the outermost. *)
Definition applyMiddlewares (handler : MessageHandler St) (middlewares : list (Middleware St)) :
    MessageHandler St :=
  foldr (λ m h, m h) handler middlewares.

(** consumer.New. *)
Definition New (middlewares : list (Middleware St)) : list (Middleware St) :=
  PanicRecoveryMiddleware :: middlewares.
End Middlewares.

(** ** The group handler *)

(** sarama.ConsumerMessage; header pointers and header keys may be nil. *)
Record ConsumerMessage := {
  cm_Headers : list (option (option string * string));
  cm_Timestamp : Z;
  cm_BlockTimestamp : Z;
  cm_Key : string;
  cm_Value : string;
  cm_Topic : string;
  cm_Partition : Z;
  cm_Offset : Z
}.

Definition partition_of (m : ConsumerMessage) : string * Z := (cm_Topic m, cm_Partition m).

(** What the group knows of the consumed messages: the calls of MarkMessage, in
    order, and for each partition the offset from which a later session goes
    on. *)
Record session := { se_marked : list ConsumerMessage; se_offsets : gmap (string * Z) Z }.

(** sarama's MarkMessage marks the offset after the message, and so everything
    before it in the partition; a mark never moves the offset back. *)
Definition mark_message (m : ConsumerMessage) (s : session) : session := {|
  se_marked := se_marked s ++ [m];
  se_offsets :=
    partial_alter (λ o, Some match o with
                             | Some o => Z.max o (cm_Offset m + 1)
                             | None => cm_Offset m + 1
                             end) (partition_of m) (se_offsets s) |}.

Definition extractHeaders (headers : list (option (option string * string))) : gmap string string :=
  foldl (λ result header,
    match header with
    | Some (Some key, value) => <[key := value]> result
    | _ => result
    end) ∅ headers.

Definition received (message : ConsumerMessage) : Message := {|
  msg_Headers := extractHeaders (cm_Headers message); msg_Timestamp := cm_Timestamp message;
  msg_BlockTimestamp := cm_BlockTimestamp message; msg_Key := cm_Key message;
  msg_Value := cm_Value message; msg_Topic := cm_Topic message;
  msg_Partition := cm_Partition message; msg_Offset := cm_Offset message |}.

(** The arms of the select in ConsumeClaim. *)
Inductive claim_arm :=
| ArmMessage (message : ConsumerMessage)
| ArmClosed                                  (* the message channel is closed *)
| ArmDone.                                   (* the session's context is done *)

Section Group.
Context {St : Type} `{HS : !Has session St}.

Definition MarkMessage (message : ConsumerMessage) : M St unit :=
  modify (λ s, upd (mark_message message (prj s)) s).

(** What ConsumeClaim does with the handler's error. *)
Inductive verdict := Mark | Leave | Fail (err : error).

Definition judge (err : option error) : verdict :=
  match err with
  | None => Mark
  | Some err =>
      if is_sent ErrMessageHandledByDLQ err then Mark
      else if is_sent ErrSkipMessage err then Mark
      else if is_sent ErrRestartConsumerSession err then Fail err
      else if is_sent ErrStopConsumeClaim err then Leave
      else if IsNonRetryableError err then Mark
      else Fail err
  end.

Definition handleMessageResult (message : ConsumerMessage) (err : option error) :
    M St (option error) :=
  match judge err with
  | Mark => MarkMessage message ;;! mret None
  | Leave => mret None
  | Fail err => mret (Some err)
  end.

(** The context and the span of startMessageProcessing are tracing only. *)
Definition handleMessage (handler : MessageHandler St) (message : ConsumerMessage) : M St returned :=
  let! r := handler (received message) in
  match r with
  | Panics value => mret (Panics value)
  | Returns err => let! e := handleMessageResult message err in mret (Returns e)
  end.

(** [None] while the loop waits for the next arm. *)
Fixpoint ConsumeClaim (handler : MessageHandler St) (arms : list claim_arm) : M St (option returned) :=
  match arms with
  | [] => mret None
  | ArmMessage message :: arms =>
      let! r := handleMessage handler message in
      match r with
      | Returns None => ConsumeClaim handler arms
      | r => mret (Some r)
      end
  | ArmClosed :: _ | ArmDone :: _ => mret (Some (Returns None))
  end.

(** What one call of sarama's ConsumerGroup.Consume does with the handler it
    is given. *)
Definition group_session : Type := MessageHandler St -> M St (option error).

(** The loop of consumer.Consume over the sessions sarama runs, one after the
    other; [None] while the last one runs. *)
Fixpoint Consume_loop (sessions : list group_session) (wrappedHandler : MessageHandler St) :
    M St (option (option error)) :=
  match sessions with
  | [] => mret None
  | group_Consume :: sessions =>
      let! err := group_Consume wrappedHandler in
      match err with
      | Some err =>
          if is_sent SaramaErrClosedConsumerGroup err then mret (Some None)
          else if is_sent ErrRestartConsumerSession err then Consume_loop sessions wrappedHandler
          else mret (Some (Some err))
      | None =>
          let! c := ctx_Err in
          match c with
          | Some _ => mret (Some None)
          | None => Consume_loop sessions wrappedHandler
          end
      end
  end.

Definition Consume (middlewares : list (Middleware St)) (sessions : list group_session)
    (handler : MessageHandler St) : M St (option (option error)) :=
  Consume_loop sessions (applyMiddlewares handler middlewares).
End Group.

(** ** service_providers.go *)

Record consumer_config := {
  cc_DLQEnabled : bool;
  cc_DLQMaxMessageBytes : Z;
  cc_MaxRetries : Z;
  cc_DLQTopic : string                        (* cfg.Kafka.Topics.MarketStateChangedDLQ *)
}.

Section Provide.
Context {St : Type} `{U : GoLib} `{O : Otel} `{HK : !Has kafka St}.

Definition provideDLQPublisher (cfg : consumer_config) : option (DLQPublisher St) :=
  if negb (cc_DLQEnabled cfg) then None else Some (producer_SendMessage (cc_DLQTopic cfg)).

Definition provideConsumerService (cfg : consumer_config) : list (Middleware St) :=
  New ((if cc_DLQEnabled cfg then
          [DLQMiddleware (provideDLQPublisher cfg) (cc_DLQMaxMessageBytes cfg)] else []) ++
       [RetryMiddleware (cc_MaxRetries cfg)]).
End Provide.

(** ** Truncation *)

(** Some number of bytes make the first rune of a valid string. *)
Lemma utf8_rune c s :
  utf8_Valid (String c s) = true ->
  exists p t, String c s = p +:+ t /\ (1 <= String.length p <= 4)%nat /\
    utf8_Valid t = true /\ forall t', utf8_Valid (p +:+ t') = utf8_Valid t'.
Proof.
  intros H. simpl in H. destruct (byte_in 0 127 c) eqn:E0.
  { exists (String c ""), s. split_and!; simpl; try lia; try done. intros t'. by rewrite E0. }
  destruct s as [|c1 s]; [done|]. destruct (lead2 c c1) eqn:E2.
  { exists (String c (String c1 "")), s. split_and!; simpl; try lia; try done.
    intros t'. by rewrite E0, E2. }
  destruct s as [|c2 s]; [done|]. destruct (lead3 c c1 && continuation c2) eqn:E3.
  { exists (String c (String c1 (String c2 ""))), s. split_and!; simpl; try lia; try done.
    intros t'. by rewrite E0, E2, E3. }
  destruct s as [|c3 s]; [done|]. apply andb_true_iff in H as [H Hv].
  exists (String c (String c1 (String c2 (String c3 "")))), s. split_and!; simpl; try lia; try done.
  intros t'. by rewrite E0, E2, E3, H.
Qed.

Lemma str_length_app (a b : string) :
  String.length (a +:+ b) = (String.length a + String.length b)%nat.
Proof. induction a; simpl; by f_equal. Qed.

Lemma str_take_app p t n :
  (String.length p <= n)%nat -> str_take n (p +:+ t) = p +:+ str_take (n - String.length p) t.
Proof.
  revert n; induction p as [|c p IH]; intros n Hn; simpl in *; [by rewrite Nat.sub_0_r|].
  destruct n as [|n]; [lia|]. simpl. by rewrite IH by lia.
Qed.

Lemma str_take_0 s : str_take 0 s = "".
Proof. by destruct s. Qed.

Lemma str_take_prefix n s : HasPrefix s (str_take n s) = true.
Proof.
  revert n; induction s as [|c s IH]; intros [|n]; simpl; try done.
  by rewrite bool_decide_true, IH.
Qed.

Lemma str_take_length n s : String.length (str_take n s) = Nat.min n (String.length s).
Proof. revert n; induction s as [|c s IH]; intros [|n]; simpl; try done. by rewrite IH. Qed.

(** Cutting a valid string loses at most three bytes of a rune. *)
Lemma utf8_cut n s :
  utf8_Valid s = true -> (n <= String.length s)%nat ->
  exists k, (k <= 3)%nat /\ (k <= n)%nat /\ utf8_Valid (str_take (n - k) s) = true.
Proof.
  remember (String.length s) as l eqn:Hl. revert s n Hl.
  induction l as [l IH] using lt_wf_ind. intros s n -> Hv Hn.
  destruct s as [|c s]; [exists 0%nat; split_and!; [lia|lia|by destruct n]|].
  destruct (utf8_rune c s Hv) as (p & t & Heq & Hp & Ht & Hcat). rewrite Heq in *.
  rewrite str_length_app in *.
  destruct (decide (n < String.length p)%nat) as [Hlt|Hge].
  { exists n. rewrite Nat.sub_diag, str_take_0. split_and!; [lia|lia|done]. }
  destruct (IH (String.length t) ltac:(lia) t (n - String.length p)%nat eq_refl Ht ltac:(lia))
    as (k & Hk3 & Hk & Hkv).
  exists k. split_and!; [done|lia|]. rewrite str_take_app by lia.
  replace (n - k - String.length p)%nat with (n - String.length p - k)%nat by lia. by rewrite Hcat.
Qed.

Lemma HasPrefix_refl s : HasPrefix s s = true.
Proof. induction s; simpl; [done|]. by rewrite bool_decide_true. Qed.

(** The loop finds the longest valid prefix of at most [n] bytes. *)
Lemma trim_invalid_spec n data :
  exists m, (m <= n)%nat /\ trim_invalid n data = str_take m data /\
    utf8_Valid (str_take m data) = true /\
    forall j, (m < j <= n)%nat -> utf8_Valid (str_take j data) = false.
Proof.
  induction n as [|n IH]; cbn [trim_invalid].
  - exists 0%nat. rewrite str_take_0. split_and!; try done. lia.
  - destruct (utf8_Valid (str_take (S n) data)) eqn:E; cbn [negb].
    + exists (S n). split_and!; try done. lia.
    + destruct IH as (m & Hm & -> & Hv & Hmax). exists m. split_and!; try done; [lia|].
      intros j Hj. destruct (decide (j = S n)) as [->|]; [done|]. apply Hmax. lia.
Qed.

(** truncateUTF8Bytes ends with a prefix of its input of at most [limit]
    bytes, the input itself when it fits.  A cut prefix is valid UTF-8 and no
    longer one within the limit is; of valid UTF-8 at most three bytes more
    than necessary are lost, and the result is valid. *)
Theorem truncate_utf8 data limit :
  let t := truncateUTF8Bytes data limit in
  HasPrefix data t = true /\ slen t <= Z.max 0 limit /\
  (slen data <= limit -> t = data \/ data = "") /\
  (limit < slen data -> utf8_Valid t = true /\
     forall j, slen t < Z.of_nat j <= limit -> utf8_Valid (str_take j data) = false) /\
  (utf8_Valid data = true -> utf8_Valid t = true /\ Z.min limit (slen data) - 3 <= slen t).
Proof.
  cbv zeta. unfold truncateUTF8Bytes, slen. destruct (limit <=? 0) eqn:E0.
  { apply Z.leb_le in E0. split_and!; try done; simpl; try lia.
    - apply HasPrefix_nil.
    - intros H. right. destruct data; [done|simpl in H; lia].
    - intros _. split; [done|]. intros j Hj. lia. }
  apply Z.leb_gt in E0. destruct (Z.of_nat (String.length data) <=? limit) eqn:E1.
  { apply Z.leb_le in E1. split_and!; try lia; try tauto; [apply HasPrefix_refl|].
    - intros Hv. split; [done|lia]. }
  apply Z.leb_gt in E1.
  destruct (trim_invalid_spec (Z.to_nat limit) data) as (m & Hm & -> & Hv & Hmax).
  rewrite str_take_length. split_and!; try lia.
  - apply str_take_prefix.
  - intros _. split; [done|]. intros j Hj. apply Hmax. lia.
  - intros Hd. split; [done|].
    destruct (utf8_cut (Z.to_nat limit) data Hd ltac:(lia)) as (k & Hk3 & Hk & Hkv).
    destruct (decide (m < Z.to_nat limit - k)%nat) as [Hlt|]; [|lia].
    rewrite Hmax in Hkv by lia. done.
Qed.

(** ** Dead-letter messages *)

Lemma elem_of_essential k : bool_decide (k ∈ dlqEssentialHeaders) = true -> k ∈ dlqEssentialHeaders.
Proof. apply bool_decide_eq_true. Qed.

Lemma trim_lookup m k :
  k ∈ dlqEssentialHeaders -> msg_Headers (trimDLQHeadersToEssential m) !! k = msg_Headers m !! k.
Proof.
  intros Hk. simpl. apply option_eq. intros v. rewrite map_lookup_filter_Some. simpl. tauto.
Qed.

Lemma dom_trim m : dom (msg_Headers (trimDLQHeadersToEssential m)) ⊆ dlqEssentialHeaders.
Proof. intros k [v Hv]%elem_of_dom. by apply map_lookup_filter_Some in Hv as [_ ?]. Qed.

(** The headers that locate the original message. *)
Definition locating_headers (message : Message) (retryCount : Z) : gmap string string := list_to_map
  [("dlq-original-topic", msg_Topic message);
   ("dlq-original-partition", itoa (msg_Partition message));
   ("dlq-original-offset", itoa (msg_Offset message));
   ("dlq-attempts-total", itoa retryCount)].

Section DlqMessages.
Context `{U : GoLib}.

Lemma buildDLQHeaders_locating m err n :
  locating_headers m n ⊆ buildDLQHeaders m err n.
Proof.
  apply map_subseteq_spec. intros k v Hk. unfold buildDLQHeaders.
  unfold locating_headers in Hk. simpl in Hk.
  repeat (apply lookup_insert_Some in Hk as [[<- <-]|[? Hk]];
    [repeat first [rewrite lookup_insert_eq; reflexivity | rewrite lookup_insert_ne by done]|]).
  by rewrite lookup_empty in Hk.
Qed.

Lemma locating_dom k v m n :
  locating_headers m n !! k = Some v ->
  k ∈ dlqEssentialHeaders /\ k <> "dlq-error" /\ k <> "dlq-metadata-trimmed" /\
  k <> "dlq-original-message-size" /\ k <> "dlq-original-payload-size".
Proof.
  unfold locating_headers. simpl. intros Hk.
  repeat (apply lookup_insert_Some in Hk as [[<- _]|[_ Hk]];
    [split_and!; [by apply elem_of_essential; vm_compute|done..]|]).
  by rewrite lookup_empty in Hk.
Qed.

Lemma buildDLQMessage_keeps m err n maxB :
  let d := buildDLQMessage m err n maxB in
  msg_Topic d = "" /\ msg_Key d = msg_Key m /\ msg_Value d = msg_Value m.
Proof. cbv zeta. unfold buildDLQMessage. by repeat case_match. Qed.

(** A dead-letter message carries the failed message: key, value, times,
    partition and offset are the original's and are never cut, its topic is
    left to the publisher, and topic, partition, offset and the number of
    attempts are in its headers.  Within the size limit every other header of
    the original survives; beyond it only essential headers remain, and if it
    is still too large the error text was dropped as well. *)
Theorem dlq_message_faithful m err n maxB :
  let full := newDLQMessage m (buildDLQHeaders m err n) in
  let d := buildDLQMessage m err n maxB in
  newDLQMessage m (msg_Headers d) = d /\
  locating_headers m n ⊆ msg_Headers d /\
  (shouldTruncate full maxB = false -> d = full /\
     forall k, HasPrefix k "dlq-" = false -> msg_Headers d !! k = msg_Headers m !! k) /\
  (shouldTruncate full maxB = true -> dom (msg_Headers d) ⊆ dlqEssentialHeaders) /\
  (shouldTruncate d maxB = true -> msg_Headers d !! "dlq-error" = None).
Proof.
  cbv zeta. unfold buildDLQMessage. set (full := newDLQMessage m (buildDLQHeaders m err n)).
  destruct (shouldTruncate full maxB) eqn:Ef; cbn [negb].
  2: { split_and!; try done; [apply buildDLQHeaders_locating| |by rewrite Ef].
       intros _. split; [done|]. intros k Hk. simpl. unfold buildDLQHeaders.
       rewrite !lookup_insert_ne; [done|..]; intros <-; by vm_compute in Hk. }
  set (t := trimDLQHeadersToEssential _).
  assert (Ht : newDLQMessage m (msg_Headers t) = t) by done.
  assert (Hl : locating_headers m n ⊆ msg_Headers t).
  { apply map_subseteq_spec. intros k v Hk.
    destruct (locating_dom _ _ _ _ Hk) as (Hess & _ & H1 & H2 & H3). unfold t. rewrite trim_lookup by done.
    simpl. rewrite !lookup_insert_ne by done.
    apply (map_subseteq_spec (locating_headers m n)); [apply buildDLQHeaders_locating|done]. }
  assert (Hd : dom (msg_Headers t) ⊆ dlqEssentialHeaders) by apply dom_trim.
  clearbody t full.
  set (u := if shouldTruncate t maxB then _ else t).
  assert (Hu : newDLQMessage m (msg_Headers u) = u /\ locating_headers m n ⊆ msg_Headers u /\
               dom (msg_Headers u) ⊆ dlqEssentialHeaders).
  { unfold u. destruct (shouldTruncate t maxB); [|done]. rewrite <- Ht in *. split_and!; [done| |].
    - apply map_subseteq_spec. intros k v Hk. destruct (locating_dom _ _ _ _ Hk) as (_ & Hne & _).
      simpl. rewrite lookup_insert_ne by done. by eapply lookup_weaken.
    - simpl. rewrite dom_insert. simpl in Hd.
      assert ("dlq-error" ∈ dlqEssentialHeaders) by (by apply elem_of_essential; vm_compute). set_solver. }
  clearbody u. destruct Hu as (Hu & Hlu & Hdu). destruct (shouldTruncate u maxB) eqn:Eu.
  2: { split_and!; try done. congruence. }
  rewrite <- Hu in *. split_and!; try done.
  - apply map_subseteq_spec. intros k v Hk. destruct (locating_dom _ _ _ _ Hk) as (_ & Hne & _).
    simpl. rewrite lookup_delete_ne by done. by eapply lookup_weaken.
  - intros _. simpl. rewrite dom_delete. simpl in Hdu. set_solver.
  - intros _. simpl. apply lookup_delete_eq.
Qed.
End DlqMessages.

(** ** Retries *)

Definition retryable (r : returned) : Prop :=
  exists e, r = Returns (Some e) /\ IsNonRetryableError e = false.

(** What the middleware returns after [n] calls, the last of which returned
    [last]. *)
Definition retry_answer (maxRetries : Z) (n : nat) (last r : returned) : Prop :=
  match last with
  | Returns (Some e) =>
      if IsNonRetryableError e then r = last
      else (Z.of_nat n = Z.max 0 maxRetries + 1 /\ r = Returns (Some (ERetryExhausted e (Z.max 0 maxRetries)))) \/
           exists c, r = Returns (Some (wrap2 (ESentinel ErrStopConsumeClaim) c))
  | _ => r = last
  end.

Section Retries.
Context {St : Type}.
Variables (next : MessageHandler St) (message : Message) (calls : St -> list returned).
Hypothesis next_recorded : forall w,
  wp (next message) (λ r w', calls (w_st w') = calls (w_st w) ++ [r]) w.

Lemma retry_rounds_calls maxRetries n attempt w :
  0 <= maxRetries -> Z.of_nat (S n) = maxRetries + 1 - attempt ->
  wp (retry_rounds (S n) attempt maxRetries next message) (λ r w', exists failed last,
    calls (w_st w') = calls (w_st w) ++ failed ++ [last] /\ (length failed <= n)%nat /\
    Forall retryable failed /\
    match last with
    | Returns (Some e) =>
        if IsNonRetryableError e then r = last
        else (length failed = n /\ r = Returns (Some (ERetryExhausted e maxRetries))) \/
             exists c, r = Returns (Some (wrap2 (ESentinel ErrStopConsumeClaim) c))
    | _ => r = last
    end) w.
Proof.
  intros Hmax. revert attempt w. induction n as [|n IH]; intros attempt w Hn; cbn [retry_rounds];
    apply wp_bind; (eapply wp_mono; [apply next_recorded|]); simpl; intros last w1 Hw1.
  - destruct last as [[e|]|v]; [|wp_steps; exists []; eexists; split_and!; done..].
    destruct (IsNonRetryableError e) eqn:Ee.
    + apply wp_ret. exists [], (Returns (Some e)). rewrite Ee. split_and!; done.
    + rewrite (proj2 (Z.ltb_ge attempt maxRetries)) by lia. apply wp_ret.
      exists [], (Returns (Some e)). rewrite Ee. split_and!; try done. by left.
  - destruct last as [[e|]|v];
      [|apply wp_ret; exists []; eexists; split_and!; simpl; [done|lia|done|done]..].
    destruct (IsNonRetryableError e) eqn:Ee.
    { apply wp_ret. exists [], (Returns (Some e)). rewrite Ee. split_and!; simpl; [done|lia|done|done]. }
    rewrite (proj2 (Z.ltb_lt attempt maxRetries)) by lia. apply wp_bind, wp_ask.
    destruct (e_ctx _ _) as [c|].
    { apply wp_ret. exists [], (Returns (Some e)). rewrite Ee. split_and!; simpl; [done|lia|done|].
      right. by exists c. }
    eapply wp_mono; [apply (IH (attempt + 1)); lia|]. simpl.
    intros r w2 (failed & last & Hw2 & Hlen & Hall & Hr).
    exists (Returns (Some e) :: failed), last. rewrite Hw2, Hw1. split_and!.
    + by rewrite <- app_assoc.
    + simpl. lia.
    + constructor; [by exists e|done].
    + destruct last as [[e'|]|v']; [|done..]. destruct (IsNonRetryableError e'); [done|].
      destruct Hr as [[Hl Hr]|Hr]; [left; simpl; by rewrite Hl|by right].
Qed.
End Retries.

(** Without jitter the delays grow by one backoff with every attempt. *)
Lemma retryDelay_linear random coin backoff attempt jitter :
  0 <= backoff -> 0 <= attempt -> attempt < max_i64 -> backoff * (attempt + 1) <= max_i64 ->
  SFleb (clamp_jitter jitter) (float_of 0) = true ->
  retryDelay random coin backoff attempt (clamp_jitter jitter) = backoff * (attempt + 1).
Proof.
  intros Hb Ha Hm Hs Hj. unfold retryDelay. unfold max_i64 in *.
  rewrite (wrap_s_small _ (attempt + 1)) by lia. rewrite wrap_s_small by lia. by rewrite Hj, orb_true_r.
Qed.

(** With it, the longest and the shortest third delay of two seconds' backoff. *)
Example retryDelay_longest :
  retryDelay (S754_finite false 9007199254740991 (-53)) 1 (2 * second) 2 (clamp_jitter (float_of 5)) = 12 * second - 1.
Proof. vm_compute. reflexivity. Qed.

Example retryDelay_shortest :
  retryDelay (S754_finite false 9007199254740991 (-53)) 0 (2 * second) 2 (clamp_jitter (float_of 5)) = 1.
Proof. vm_compute. reflexivity. Qed.

(** The retry middleware calls its handler at least once and at most
    max(maxRetries, 0) + 1 times, and only again after an error that may be
    retried.  It returns what the last call returned; an error that may be
    retried is returned as exhausted once the attempts are used up, or
    replaced by the request to stop when the context ended during a delay. *)
Theorem retry_attempts {St} (next : MessageHandler St) message (calls : St -> list returned) maxRetries w :
  maxRetries < max_i64 ->
  (forall w, wp (next message) (λ r w', calls (w_st w') = calls (w_st w) ++ [r]) w) ->
  wp (RetryMiddleware maxRetries next message) (λ r w', exists failed last,
    calls (w_st w') = calls (w_st w) ++ failed ++ [last] /\
    Z.of_nat (length failed) <= Z.max 0 maxRetries /\ Forall retryable failed /\
    retry_answer maxRetries (S (length failed)) last r) w.
Proof.
  intros Hmax Hnext. unfold RetryMiddleware.
  rewrite wrap_s_small by (unfold max_i64 in *; lia).
  replace (Z.to_nat (Z.max 0 maxRetries + 1)) with (S (Z.to_nat (Z.max 0 maxRetries))) by lia.
  eapply wp_mono; [by eapply (retry_rounds_calls next message calls); [|lia|lia]|].
  simpl. intros r w' (failed & last & Hc & Hlen & Hall & Hr). exists failed, last.
  split_and!; [done|lia|done|]. unfold retry_answer. destruct last as [[e|]|v]; [|done..].
  destruct (IsNonRetryableError e); [done|]. destruct Hr as [[Hl Hr]|Hr]; [left|by right].
  split; [lia|done].
Qed.

(** ** Errors from elsewhere

    Only this package makes the errors that steer a claim, so the errors of
    remote calls and of contexts are none of them. *)
Definition own_node (e : error) : bool :=
  match e with
  | ESentinel s => bool_decide (s ∈ [ErrSkipMessage; ErrRestartConsumerSession;
                                     ErrMessageHandledByDLQ; ErrStopConsumeClaim])
  | ETooLarge _ _ | ENonRetryable _ | ERetryExhausted _ _ => true
  | _ => false
  end.

Definition foreign (e : error) : Prop := has own_node e = false.

Definition foreign_env (e : env) : Prop :=
  (forall n x, e_fault e n = FBefore x \/ e_fault e n = FAfter x -> foreign x) /\
  (forall n x, e_ctx e n = Some x -> foreign x).

Lemma foreign_env_ticks n e : foreign_env e -> foreign_env (Nat.iter n tick e).
Proof. induction n; simpl; auto. Qed.

Lemma has_false p e : has p e = false <-> forall x, x ∈ error_nodes e -> p x = false.
Proof.
  unfold has. rewrite <- not_true_iff_false. split.
  - intros H x Hx. apply not_true_iff_false. intros Hp. apply H, existsb_exists.
    exists x. split; [|done]. by apply list_elem_of_In.
  - intros H [x [Hx Hp]]%existsb_exists. rewrite H in Hp; [done|]. by apply list_elem_of_In.
Qed.

Lemma foreign_no p e : (forall x, p x = true -> own_node x = true) -> foreign e -> has p e = false.
Proof.
  intros Hp He. apply has_false. intros x Hx. pose proof (proj1 (has_false _ _) He x Hx).
  destruct (p x) eqn:E; [|done]. by rewrite Hp in H.
Qed.

Lemma foreign_sent s e :
  s ∈ [ErrSkipMessage; ErrRestartConsumerSession; ErrMessageHandledByDLQ; ErrStopConsumeClaim] ->
  foreign e -> is_sent s e = false.
Proof.
  intros Hs. apply foreign_no. intros x Hx. destruct x; simpl in *; try done.
  apply bool_decide_eq_true in Hx as <-. by apply bool_decide_eq_true.
Qed.

Lemma foreign_control e : foreign e -> IsControlFlowError e = false.
Proof. intros He. unfold IsControlFlowError. rewrite !foreign_sent; try done; set_solver. Qed.

Lemma foreign_retryable e : foreign e -> IsNonRetryableError e = false.
Proof.
  intros He. unfold IsNonRetryableError. rewrite foreign_control by done.
  rewrite !(foreign_no _ e); try done; by intros [].
Qed.

Lemma foreign_exhausted e : foreign e -> errors_As is_RetryExhausted e = None.
Proof. intros He. apply errors_As_None. eapply foreign_no; [|done]. by intros []. Qed.

Lemma foreign_wrap op e : foreign (wrap op e) <-> foreign e.
Proof. unfold foreign, wrap. by rewrite has_wrap. Qed.

(** Stopping a claim is a control-flow error of its own. *)
Lemma judge_foreign e : foreign e -> judge (Some e) = Fail e.
Proof.
  intros He. unfold judge. rewrite !foreign_sent, foreign_retryable; try done; set_solver.
Qed.

Lemma judge_stop c : foreign c -> judge (Some (wrap2 (ESentinel ErrStopConsumeClaim) c)) = Leave.
Proof.
  intros He. unfold judge, is_sent, wrap2. rewrite !errors_Is_EJoin.
  change (errors_Is c (ESentinel ?s)) with (is_sent s c).
  rewrite !foreign_sent by (done || set_solver). by vm_compute.
Qed.

Lemma judge_handled : judge (Some (ESentinel ErrMessageHandledByDLQ)) = Mark.
Proof. by vm_compute. Qed.

(** ** One message through the whole pipeline *)

Section Delivery.
Context {St : Type} `{U : GoLib} `{O : Otel} `{HK : !Has kafka St} `{HS : !Has session St}.
Variables (cfg : consumer_config) (handler : MessageHandler St) (m : ConsumerMessage).

Definition mark (s : St) : St := upd (mark_message m (prj s)) s.

Definition append_log (r : krecord) (s : St) : St := upd (Kafka (k_log (prj s) ++ [r])) s.

(** The record of the message in the dead-letter topic. *)
Definition dlq_record (e : error) (n : Z) : krecord :=
  producer_record (cc_DLQTopic cfg)
    (buildDLQMessage (received m) e n (cc_DLQMaxMessageBytes cfg)).

Definition stop_requested (env : env) (last : returned) : Prop :=
  (exists n c, e_ctx env n = Some c) \/
  exists e, last = Returns (Some e) /\ is_sent ErrStopConsumeClaim e = true.

(** From the handler's last return and the state [s] it left to the
    consumer's return and its final state. *)
Inductive delivered (env : env) (last : returned) (s : St) : returned -> St -> Prop :=
| dl_done : last = Returns None -> delivered env last s (Returns None) (mark s)
| dl_dlq e x n : cc_DLQEnabled cfg = true -> last = Returns (Some e) ->
    delivered env last s (Returns None) (mark (append_log (dlq_record x n) s))
| dl_skipped e : last = Returns (Some e) -> IsNonRetryableError e = true ->
    (cc_DLQEnabled cfg = true -> IsControlFlowError e = true) ->
    delivered env last s (Returns None) (mark s)
| dl_left : stop_requested env last -> delivered env last s (Returns None) s
| dl_failed e : delivered env last s (Returns (Some e)) s
| dl_dlq_failed e x n : cc_DLQEnabled cfg = true ->
    delivered env last s (Returns (Some e)) (append_log (dlq_record x n) s).
End Delivery.

Lemma error_nodes_self e : e ∈ error_nodes e.
Proof. destruct e; simpl; apply list_elem_of_here. Qed.

Lemma error_nodes_trans e x y : x ∈ error_nodes e -> y ∈ error_nodes x -> y ∈ error_nodes e.
Proof.
  intros Hx Hy. induction e; cbn [error_nodes] in Hx |- *; apply elem_of_cons in Hx as [->|Hx];
    try done; try (by apply elem_of_nil in Hx); apply list_elem_of_further; auto.
  rewrite elem_of_app in *. tauto.
Qed.

Lemma has_sub p e x : x ∈ error_nodes e -> has p e = false -> has p x = false.
Proof. rewrite !has_false. eauto using error_nodes_trans. Qed.

(** The error taken out of an exhausted one is no control-flow error unless
    the whole is. *)
Lemma exhausted_control e x n :
  errors_As is_RetryExhausted e = Some (ERetryExhausted x n) ->
  IsControlFlowError e = false -> IsControlFlowError x = false.
Proof.
  intros [_ Hin]%errors_As_Some. assert (Hx : x ∈ error_nodes e).
  { eapply error_nodes_trans; [done|]. simpl. apply list_elem_of_further, error_nodes_self. }
  unfold IsControlFlowError, is_sent, errors_Is. rewrite !orb_false_iff.
  intros [[[]]]. by rewrite !(has_sub _ _ _ Hx) by done.
Qed.

Lemma judge_sound e :
  match judge (Some e) with
  | Mark => IsNonRetryableError e = true
  | Leave => is_sent ErrStopConsumeClaim e = true
  | Fail x => x = e
  end.
Proof.
  unfold judge, IsNonRetryableError, IsControlFlowError.
  destruct (is_sent ErrMessageHandledByDLQ e); [by rewrite !orb_true_r|].
  destruct (is_sent ErrSkipMessage e); [by rewrite !orb_true_r|].
  destruct (is_sent ErrRestartConsumerSession e); [done|].
  destruct (is_sent ErrStopConsumeClaim e); [done|]. by destruct (_ || _) eqn:E.
Qed.

Lemma env_ctx_tick n e k : e_ctx (Nat.iter n tick e) k = e_ctx e k.
Proof. by induction n. Qed.

Section Pipeline.
Context {St : Type} `{U : GoLib} `{O : Otel} `{HK : !Has kafka St} `{HS : !Has session St}.
Variables (cfg : consumer_config) (handler : MessageHandler St) (m : ConsumerMessage).
Variables (I : St -> Prop) (Q : returned -> St -> Prop) (env0 : env).
Hypothesis Hcfg : cc_MaxRetries cfg < max_i64.
Hypothesis Henv : foreign_env env0.

(** A run from the environment of the start. *)
Definition runs_from (w : world St) : Prop := exists n, w_env w = Nat.iter n tick env0.

Hypothesis handler_spec : forall w, I (w_st w) -> runs_from w ->
  wp (handler (received m)) (λ r w', I (w_st w') /\ Q r (w_st w') /\ runs_from w') w.

Lemma runs_from_tick w (s : St) : runs_from w -> runs_from (World (tick (w_env w)) s).
Proof. intros [n Hn]. exists (S n). simpl. by rewrite Hn. Qed.

Lemma runs_from_ctx w n c : runs_from w -> e_ctx (w_env w) n = Some c -> foreign c /\ e_ctx env0 n = Some c.
Proof. intros [k ->] Hc. rewrite env_ctx_tick in Hc. split; [by apply (proj2 Henv n)|done]. Qed.

Lemma runs_from_fault w n e : runs_from w ->
  e_fault (w_env w) n = FBefore e \/ e_fault (w_env w) n = FAfter e -> foreign e.
Proof. intros [k Hk] Hf. apply (proj1 (foreign_env_ticks k _ Henv) n). by rewrite <- Hk. Qed.

(** What the retry middleware makes of the handler's last return. *)
Definition retried (last r : returned) : Prop :=
  match last with
  | Returns (Some e) =>
      if IsNonRetryableError e then r = last
      else (exists n, r = Returns (Some (ERetryExhausted e n))) \/
           exists n c, e_ctx env0 n = Some c /\ foreign c /\
             r = Returns (Some (wrap2 (ESentinel ErrStopConsumeClaim) c))
  | _ => r = last
  end.

Definition reached (P : returned -> returned -> St -> Prop) (r : returned) (w : world St) : Prop :=
  runs_from w /\ I (w_st w) /\ exists last, Q last (w_st w) /\ P last r (w_st w).

Lemma retry_rounds_last maxRetries n attempt w :
  0 <= maxRetries -> Z.of_nat (S n) = maxRetries + 1 - attempt ->
  I (w_st w) -> runs_from w ->
  wp (retry_rounds (S n) attempt maxRetries handler (received m))
    (reached (λ last r _, retried last r)) w.
Proof.
  intros Hmax. revert attempt w. induction n as [|n IH]; intros attempt w Hn HI Hl; cbn [retry_rounds];
    apply wp_bind; (eapply wp_mono; [by apply handler_spec|]); simpl;
    intros [[e|]|v] w1 (HI1 & HQ & Hl1);
    try (apply wp_ret; split_and!; [done|done|]; eexists; split; [done|]; by unfold retried);
    (destruct (IsNonRetryableError e) eqn:Ee;
     [apply wp_ret; split_and!; [done|done|]; eexists; split; [done|]; unfold retried; by rewrite Ee|]).
  - rewrite (proj2 (Z.ltb_ge attempt maxRetries)) by lia. apply wp_ret.
    split_and!; [done|done|]. eexists. split; [done|]. unfold retried. rewrite Ee. left. by eexists.
  - rewrite (proj2 (Z.ltb_lt attempt maxRetries)) by lia. apply wp_bind, wp_ask.
    destruct (e_ctx _ _) as [c|] eqn:Ec; [|apply IH; [lia|done|by apply runs_from_tick]].
    apply wp_ret. split_and!; [by apply runs_from_tick|done|]. eexists. split; [done|].
    unfold retried. rewrite Ee. right. destruct (runs_from_ctx _ _ _ Hl1 Ec). by eexists _, _.
Qed.

Lemma retry_last w : I (w_st w) -> runs_from w ->
  wp (RetryMiddleware (cc_MaxRetries cfg) handler (received m)) (reached (λ last r _, retried last r)) w.
Proof.
  intros HI Hl. unfold RetryMiddleware.
  rewrite wrap_s_small by (unfold max_i64 in *; lia).
  replace (Z.to_nat (Z.max 0 (cc_MaxRetries cfg) + 1)) with (S (Z.to_nat (Z.max 0 (cc_MaxRetries cfg)))) by lia.
  apply retry_rounds_last; [lia|lia|done|done].
Qed.

(** The publisher appends the record, or fails with somebody else's error. *)
Lemma publish_runs topic x w : runs_from w ->
  wp (producer_SendMessage topic x) (λ r w', runs_from w' /\
    match r with
    | Ok _ => w_st w' = append_log (producer_record topic x) (w_st w)
    | Err e => foreign e /\ (w_st w' = w_st w \/ w_st w' = append_log (producer_record topic x) (w_st w))
    end) w.
Proof.
  intros Hl. unfold producer_SendMessage, client_publish. wp_steps.
  pose proof (runs_from_tick _ (w_st w) Hl) as Hl1. destruct (e_ctx _ _) as [c|] eqn:Ec.
  { apply wp_ret. split; [done|]. split; [by eapply runs_from_ctx|by left]. }
  apply wp_call. intros t f _ Hf.
  assert (Hl2 : forall s, runs_from (World (tick (tick (w_env w))) s)) by (intros s; by apply (runs_from_tick (World _ s))).
  destruct f as [|e|e]; simpl in *; (split; [apply Hl2|]); [done|..];
    (split; [eapply (runs_from_fault _ _ _ Hl1); simpl; rewrite <- Hf; by auto|]); [by left|by right].
Qed.

(** What the two middlewares make of the last return. *)
Definition sent_or_not (last r : returned) (s0 s : St) : Prop :=
  (s = s0 /\ (match r with
     | Returns None => last = Returns None
     | Returns (Some e) => judge (Some e) = Fail e \/
         (judge (Some e) = Leave /\ stop_requested env0 last) \/
         (last = r /\ (cc_DLQEnabled cfg = true -> IsControlFlowError e = true))
     | Panics v => last = r
     end)) \/
  (cc_DLQEnabled cfg = true /\ exists e x n, last = Returns (Some e) /\
     s = append_log (dlq_record cfg m x n) s0 /\
     (r = Returns (Some (ESentinel ErrMessageHandledByDLQ)) \/
      exists y, r = Returns (Some y) /\ foreign y)).

Definition pipelined (r : returned) (w : world St) : Prop :=
  runs_from w /\ exists s0 last, I s0 /\ Q last s0 /\ sent_or_not last r s0 (w_st w).

Lemma sendToDLQ_spec e0 x n w :
  cc_DLQEnabled cfg = true -> runs_from w -> I (w_st w) -> Q (Returns (Some e0)) (w_st w) ->
  wp (let! e := sendToDLQ (received m) (provideDLQPublisher cfg) x n (cc_DLQMaxMessageBytes cfg) in
      mret (Returns (Some e))) pipelined w.
Proof.
  intros He Hl HI HQ. unfold sendToDLQ. apply wp_bind, wp_bind, wp_ask.
  pose proof (runs_from_tick _ (w_st w) Hl) as Hl1. destruct (e_ctx _ _) as [c|] eqn:Ec.
  { do 2 apply wp_ret. split; [done|]. exists (w_st w), (Returns (Some e0)). split_and!; [done|done|].
    left. split; [done|]. right. left. destruct (runs_from_ctx _ _ _ Hl Ec) as [Hc Hc'].
    split; [by apply judge_stop|]. left. by eexists _, _. }
  unfold provideDLQPublisher. rewrite He. cbn [negb]. apply wp_bind.
  eapply wp_mono; [by apply publish_runs|]. intros [[]|e] w1 [Hl2 Hw1]; do 2 apply wp_ret;
    (split; [done|]); exists (w_st w), (Returns (Some e0)); (split_and!; [done|done|]).
  - right. split; [done|]. exists e0, x, n. split_and!; [done|done|]. by left.
  - destruct Hw1 as [Hf [Hw1|Hw1]]; [left|right].
    + split; [done|]. left. by apply judge_foreign.
    + split; [done|]. exists e0, x, n. split_and!; [done|done|]. right. by exists e.
Qed.

Lemma pipelined_keep last r w :
  runs_from w -> I (w_st w) -> Q last (w_st w) -> sent_or_not last r (w_st w) (w_st w) -> pipelined r w.
Proof. intros. split; [done|]. by eexists _, _. Qed.

(** The three ways the retry middleware returns an error. *)
Lemma retried_error last e : retried last (Returns (Some e)) ->
  (last = Returns (Some e) /\ IsNonRetryableError e = true) \/
  (exists e0 n, e = ERetryExhausted e0 n /\ last = Returns (Some e0) /\ IsNonRetryableError e0 = false) \/
  (judge (Some e) = Leave /\ IsControlFlowError e = true /\ stop_requested env0 last).
Proof.
  unfold retried. destruct last as [[e0|]|v]; try done.
  destruct (IsNonRetryableError e0) eqn:E; [intros [= <-]; by left|].
  intros [[n [= ->]]|(n & c & Hc & Hf & [= ->])]; [right; left; by eexists _, _|].
  right. right. split_and!; [by apply judge_stop| |left; by eexists _, _].
  unfold IsControlFlowError, is_sent, wrap2. rewrite !errors_Is_EJoin.
  change (errors_Is (ESentinel ErrStopConsumeClaim) (ESentinel ErrStopConsumeClaim)) with true.
  by rewrite orb_true_r.
Qed.

Lemma judge_exhausted e n :
  IsNonRetryableError e = false -> judge (Some (ERetryExhausted e n)) = Fail (ERetryExhausted e n).
Proof.
  intros He. pose proof (judge_sound (ERetryExhausted e n)) as H.
  change (IsNonRetryableError (ERetryExhausted e n)) with (IsNonRetryableError e) in H.
  change (is_sent ErrStopConsumeClaim (ERetryExhausted e n)) with (is_sent ErrStopConsumeClaim e) in H.
  destruct (judge _); [congruence| |by subst].
  unfold IsNonRetryableError, IsControlFlowError in He. rewrite H, !orb_true_r in He. done.
Qed.

Lemma retry_pipelined w : cc_DLQEnabled cfg = false -> I (w_st w) -> runs_from w ->
  wp (RetryMiddleware (cc_MaxRetries cfg) handler (received m)) pipelined w.
Proof.
  intros Hd HI Hl. eapply wp_mono; [by apply retry_last|].
  intros r w1 (Hl1 & HI1 & last & HQ & Hr). eapply pipelined_keep; [done|done|done|].
  left. split; [done|]. destruct r as [[e|]|v].
  - destruct (retried_error _ _ Hr) as [[-> _]|[(e0 & n & -> & -> & He0)|(Hj & _ & Hs)]].
    + right. right. split; [done|congruence].
    + left. by apply judge_exhausted.
    + right. by left.
  - destruct last as [[e0|]|v]; simpl in Hr; try done.
    destruct (IsNonRetryableError e0); [done|]. by destruct Hr as [[n ?]|(? & ? & ? & ? & ?)].
  - destruct last as [[e0|]|v']; simpl in Hr; try done.
    destruct (IsNonRetryableError e0); [done|]. by destruct Hr as [[n ?]|(? & ? & ? & ? & ?)].
Qed.

Lemma dlq_pipelined w : cc_DLQEnabled cfg = true -> I (w_st w) -> runs_from w ->
  wp (DLQMiddleware (provideDLQPublisher cfg) (cc_DLQMaxMessageBytes cfg)
        (RetryMiddleware (cc_MaxRetries cfg) handler) (received m)) pipelined w.
Proof.
  intros Hd HI Hl. unfold DLQMiddleware. apply wp_bind. eapply wp_mono; [by apply retry_last|].
  intros r w1 (Hl1 & HI1 & last & HQ & Hr). destruct r as [[e|]|v].
  2,3: apply wp_ret; eapply pipelined_keep; [done|done|done|]; left; split; [done|];
    (destruct last as [[e0|]|v']; simpl in Hr; try done);
    (destruct (IsNonRetryableError e0); [done|]); by destruct Hr as [[n ?]|(? & ? & ? & ? & ?)].
  destruct (retried_error _ _ Hr) as [[-> _]|[(e0 & n & -> & -> & He0)|(Hj & Hc & Hs)]].
  - destruct (IsControlFlowError e) eqn:Ec.
    { apply wp_ret. eapply pipelined_keep; [done|done|done|]. left. split; [done|]. right. by right. }
    destruct (errors_As is_RetryExhausted e) as [y|] eqn:Ey; [|rewrite Ec; by eapply sendToDLQ_spec].
    destruct y; try (by apply errors_As_Some in Ey as [? _]).
    rewrite (exhausted_control _ _ _ Ey Ec). by eapply sendToDLQ_spec.
  - assert (Hc : IsControlFlowError e0 = false).
    { unfold IsNonRetryableError in He0. by apply orb_false_iff in He0 as [_ ?]. }
    change (IsControlFlowError (ERetryExhausted e0 n)) with (IsControlFlowError e0). rewrite Hc.
    change (errors_As is_RetryExhausted (ERetryExhausted e0 n)) with (Some (ERetryExhausted e0 n)).
    cbn iota beta. rewrite Hc. by eapply sendToDLQ_spec.
  - rewrite Hc. apply wp_ret. eapply pipelined_keep; [done|done|done|]. left. split; [done|]. right. by left.
Qed.

(** The whole chain. *)
Definition wrapped : MessageHandler St := applyMiddlewares handler (provideConsumerService cfg).

Lemma recovered inner w : wp inner pipelined w ->
  wp (let! r := inner in mret match r with
        | Panics value => Returns (Some (EMsg ("panic recovered in kafka handler: " +:+ value)))
        | Returns err => Returns err end)
    (λ r w', pipelined r w' /\ forall v, r <> Panics v) w.
Proof.
  intros H. apply wp_bind. eapply wp_mono; [exact H|]. intros [err|v] w1 (Hl & s0 & last & HI & HQ & Hs);
    apply wp_ret; (split; [|done]); (split; [done|]); exists s0, last; (split_and!; [done|done|]); [done|].
  destruct Hs as [[-> Hs]|(_ & e & x & n & _ & _ & [?|[y [? _]]])]; [|done..].
  left. split; [done|]. by left.
Qed.

Lemma wrapped_spec w : I (w_st w) -> runs_from w ->
  wp (wrapped (received m)) (λ r w', pipelined r w' /\ forall v, r <> Panics v) w.
Proof.
  intros HI Hl. unfold wrapped, provideConsumerService. destruct (cc_DLQEnabled cfg) eqn:Ed;
    simpl; unfold PanicRecoveryMiddleware; apply recovered; [by apply dlq_pipelined|by apply retry_pipelined].
Qed.

(** One message: what the handler returned last, what that did to the claim,
    the dead-letter topic and the marks. *)
Lemma handleMessage_spec w : I (w_st w) -> runs_from w ->
  wp (handleMessage wrapped m) (λ r w', runs_from w' /\ exists s0 last,
    I s0 /\ Q last s0 /\ delivered cfg m env0 last s0 r (w_st w')) w.
Proof.
  intros HI Hl. unfold handleMessage. apply wp_bind. eapply wp_mono; [by apply wrapped_spec|].
  intros [err|v] w1 [(Hl1 & s0 & last & HI0 & HQ & Hs) Hnp]; [|by destruct (Hnp v)].
  unfold handleMessageResult. apply wp_bind.
  destruct Hs as [[Hs Hr]|(Hd & e & x & n & Hlast & Hs & Hr)].
  - destruct err as [e|]; [|].
    2: { subst. apply wp_bind, wp_modify, wp_ret, wp_ret. split; [done|].
         exists (w_st w1), (Returns None). split_and!; [done|done|by apply dl_done]. }
    destruct Hr as [Hj|[[Hj Hstop]|[Hlast Hc]]].
    + rewrite Hj. do 2 apply wp_ret. split; [done|]. exists s0, last. rewrite Hs. split_and!; [done|done|apply dl_failed].
    + rewrite Hj. do 2 apply wp_ret. split; [done|]. exists s0, last. rewrite Hs. split_and!; [done|done|by apply dl_left].
    + pose proof (judge_sound e) as Hj. destruct (judge (Some e)) eqn:Ej.
      * apply wp_bind, wp_modify, wp_ret, wp_ret. split; [done|]. exists s0, last. rewrite <- Hs.
        split_and!; [by rewrite Hs|by rewrite Hs|by eapply dl_skipped].
      * do 2 apply wp_ret. split; [done|]. exists s0, last. rewrite Hs. split_and!; [done|done|].
        apply dl_left. right. by exists e.
      * do 2 apply wp_ret. split; [done|]. exists s0, last. rewrite Hs. split_and!; [done|done|apply dl_failed].
  - destruct Hr as [[= ->]|(y & [= ->] & Hy)].
    + rewrite judge_handled. apply wp_bind, wp_modify, wp_ret, wp_ret. split; [done|].
      exists s0, last. simpl. rewrite Hs. split_and!; [done|done|by eapply dl_dlq].
    + rewrite judge_foreign by done. do 2 apply wp_ret. split; [done|]. exists s0, last. rewrite Hs.
      split_and!; [done|done|by eapply dl_dlq_failed].
Qed.
End Pipeline.

(** ** Closed instances *)

Section Witness.
#[local] Existing Instance DecLib.

(** Fails twice, then succeeds; the state is the list of its returns. *)
Definition demo_handler : MessageHandler (list returned) := λ _,
  let! s := get in
  let r := Returns (if (length s <? 2)%nat then Some (EMsg "busy") else None) in
  put (s ++ [r]) ;;! mret r.

Definition demo_message : Message := NewMessage "markets" "9" "payload".

Definition demo_calls : world (list returned) := World quiet_env [].

Example demo_retried : (RetryMiddleware 3 demo_handler demo_message demo_calls).1 = Returns None /\
  length (w_st (RetryMiddleware 3 demo_handler demo_message demo_calls).2) = 3%nat.
Proof. vm_compute. split; reflexivity. Qed.

Example demo_exhausted : (RetryMiddleware 1 demo_handler demo_message demo_calls).1 =
  Returns (Some (ERetryExhausted (EMsg "busy") 1)).
Proof. vm_compute. reflexivity. Qed.

Lemma retry_attempts_witness :
  wp (RetryMiddleware 3 demo_handler demo_message) (λ r w', exists failed last,
    w_st w' = w_st demo_calls ++ failed ++ [last] /\
    Z.of_nat (length failed) <= Z.max 0 3 /\ Forall retryable failed /\
    retry_answer 3 (S (length failed)) last r) demo_calls.
Proof.
  apply (retry_attempts demo_handler demo_message (λ s, s) 3 demo_calls).
  - reflexivity.
  - intros w. reflexivity.
Defined.

(** Cutting inside the two-byte rune of 0xC3 0xA9. *)
Example demo_truncated :
  truncateUTF8Bytes (String "a" (String "195" (String "169" ""))) 2 = "a".
Proof. reflexivity. Qed.
End Witness.
