(* ===== verification/RateLimit.v ===== *)
(** * Per-user rate limiter
      (orderService/internal/infrastructure/redis/order/order_rate_limiter.go)
    and the per-method gRPC limiter (shared/interceptors/ratelimit)

    The Lua script counts the calls of a key and starts its expiry with the
    first one.  [Spec] is the fixed-window counter it implements: the theorem
    relates every run of scripts, for all users of one Redis, with one counter
    per user. *)

From S2P Require Import Prelude GoStrings GoErrors Effects Redis.
Local Open Scope string_scope.
Local Open Scope list_scope.
Local Open Scope Z_scope.

Section Limiter.
Context {R : Type} `{Redis R} `{U : GoLib}.

(** [INCR], and [PEXPIRE] when the counter is new. *)
Definition rateLimitScript (key : string) (windowMs : Z) (t : Z) (r : R) : result Z * R :=
  match INCR t key r with
  | None => (Err (EMsg "ERR value is not an integer or out of range"), r)
  | Some (count, r) => (Ok count, if count =? 1 then PEXPIRE t key windowMs r else r)
  end.

Record OrderRateLimiter := { rl_limit : Z; rl_window : Z; rl_prefix : string }.

Definition limiter_key (l : OrderRateLimiter) (userID : UUID) : string :=
  rl_prefix l +:+ uuid_string userID.

Definition Milliseconds (d : Z) : Z := Z.quot d 1000000.

Definition Allow {St} `{!Has R St} (l : OrderRateLimiter) (userID : UUID) : M St (result bool) :=
  let key := limiter_key l userID in
  let windowMs := Milliseconds (rl_window l) in
  if windowMs <=? 0 then
    mret (Err (EMsg ("OrderRateLimiter.Allow: window must be greater than 0, got " +:+
                     duration_string (rl_window l))))
  else
    let! raw := redis_call (rateLimitScript key windowMs) in
    mret match raw with
         | Err e => Err (wrap "OrderRateLimiter.Allow" e)
         | Ok count => Ok (bool_decide (count <= rl_limit l))
         end.

Definition Limit (l : OrderRateLimiter) : Z := rl_limit l.
Definition Window (l : OrderRateLimiter) : Z := rl_window l.
End Limiter.

(** ** The fixed-window counter *)

Module Spec.
(** Start of the current window and calls in it. *)
Definition window := option (Z * Z).

Definition hit (w : Z) (t : Z) (s : window) : window :=
  match s with
  | Some (t0, c) => if t <? t0 + w then Some (t0, c + 1) else Some (t, 1)
  | None => Some (t, 1)
  end.

Definition count (s : window) : Z := match s with Some (_, c) => c | None => 0 end.
End Spec.

Section Refinement.
Context {R : Type} `{HR : Redis R} `{!RedisLaws R}.
Variable w : Z.

(** The key holds the counter of the window, and nothing once it is over. *)
Definition tracks (r : R) (key : string) (t : Z) (s : Spec.window) : Prop :=
  match s with
  | None => view r t key = None
  | Some (t0, c) => t0 <= t /\ 1 <= c /\ view r t key = alive t (Some (itoa c, Some (t0 + w)))
  end.

Lemma tracks_later r key t t' s : t <= t' -> tracks r key t s -> tracks r key t' s.
Proof.
  intros Ht. destruct s as [[t0 c]|]; simpl.
  - intros (? & ? & Hv). split; [lia|]. split; [done|]. rewrite (view_later _ t), Hv by done. simpl.
    case_bool_decide; simpl; [done|]. case_bool_decide; [lia|done].
  - intros Hv. by rewrite (view_later _ t), Hv.
Qed.

(** The script on the key itself. *)
Lemma script_hit key t r s :
  tracks r key t s -> Spec.count s < max_i64 ->
  exists r', rateLimitScript key w t r = (Ok (Spec.count (Spec.hit w t s)), r') /\
    tracks r' key t (Spec.hit w t s) /\
    (forall t' k, t <= t' -> k <> key -> view r' t' k = view r t' k).
Proof.
  intros Htr Hc. unfold rateLimitScript.
  assert (Hnew : view r t key = None -> exists r',
    match INCR t key r with
    | None => (Err (EMsg "ERR value is not an integer or out of range"), r)
    | Some (count, r) => (Ok count, if count =? 1 then PEXPIRE t key w r else r)
    end = (Ok 1, r') /\ tracks r' key t (Some (t, 1)) /\
    (forall t' k, t <= t' -> k <> key -> view r' t' k = view r t' k)).
  { intros Hn. destruct (INCR_new t key r Hn) as (r1 & -> & Hr1). simpl. eexists. split; [done|].
    split.
    - split; [lia|]. split; [lia|]. rewrite PEXPIRE_view, Hr1 by lia. by rewrite !decide_True.
    - intros t' k Ht' Hk. rewrite PEXPIRE_view, decide_False, Hr1, decide_False by congruence || done. done. }
  destruct s as [[t0 c]|]; [|by apply Hnew].
  destruct Htr as (Ht0 & Hc1 & Hv). simpl in Hc, Hv |- *.
  destruct (Z.ltb_spec t (t0 + w)) as [Hlt|Hlt].
  - rewrite bool_decide_true in Hv by done. assert (Hci : in_i64 c) by (unfold in_i64, min_i64, max_i64 in *; lia).
    destruct (INCR_old t key r c _ Hv Hci Hc) as (r1 & -> & Hr1).
    destruct (Z.eqb_spec (c + 1) 1); [lia|]. eexists. split; [done|]. split.
    + split; [done|]. split; [lia|]. rewrite Hr1 by lia. by rewrite decide_True.
    + intros t' k Ht' Hk. rewrite Hr1 by done. by rewrite decide_False.
  - rewrite bool_decide_false in Hv by lia. by apply Hnew.
Qed.

(** The script leaves every other key alone. *)
Lemma script_other key t r t' k :
  key <> k -> t <= t' -> view (rateLimitScript key w t r).2 t' k = view r t' k.
Proof.
  intros Hk Ht. unfold rateLimitScript. destruct (INCR t key r) as [[n r']|] eqn:E; [|done]. simpl.
  assert (Hr : view r' t' k = view r t' k) by (by eapply INCR_other).
  destruct (n =? 1); [|done]. by rewrite PEXPIRE_view, decide_False.
Qed.

(** A run: calls of any keys at the server's times, oldest first. *)
Fixpoint run (calls : list (Z * string)) (r : R) : list (result Z) * R :=
  match calls with
  | [] => ([], r)
  | (t, key) :: calls =>
      let '(a, r) := rateLimitScript key w t r in
      let '(l, r) := run calls r in (a :: l, r)
  end.

Definition spec_state := string -> Spec.window.

Definition spec_hit (key : string) (t : Z) (f : spec_state) : spec_state :=
  λ k, if decide (k = key) then Spec.hit w t (f k) else f k.

Fixpoint spec_run (calls : list (Z * string)) (f : spec_state) : list (result Z) :=
  match calls with
  | [] => []
  | (t, key) :: calls =>
      let f := spec_hit key t f in Ok (Spec.count (f key)) :: spec_run calls f
  end.

(** Times do not decrease along the calls, from [t] on. *)
Fixpoint ordered (t : Z) (calls : list (Z * string)) : Prop :=
  match calls with
  | [] => True
  | (t', _) :: calls => t <= t' /\ ordered t' calls
  end.

Lemma hit_count_le t s : Spec.count (Spec.hit w t s) <= Z.max 1 (Spec.count s + 1).
Proof. destruct s as [[t0 c]|]; simpl; [case_match; simpl|]; lia. Qed.

Lemma run_refines calls r t0 f :
  ordered t0 calls ->
  (forall k, tracks r k t0 (f k)) ->
  (forall k, 0 <= Spec.count (f k) /\ Spec.count (f k) + len calls < max_i64) ->
  (run calls r).1 = spec_run calls f.
Proof.
  revert r t0 f; induction calls as [|[t key] calls IH]; intros r t0 f Hord Htr Hmax; [done|].
  destruct Hord as [Ht Hord]. simpl in *.
  assert (Hlen : len ((t, key) :: calls) = len calls + 1) by (unfold len; simpl; lia).
  pose proof (len_nonneg calls).
  destruct (script_hit key t r (f key)) as (r' & Hs & Htr' & Hother).
  { by eapply tracks_later. }
  { destruct (Hmax key). lia. }
  rewrite Hs. specialize (IH r' t (spec_hit key t f) Hord).
  destruct (run calls r') as [l r2]. simpl in *. unfold spec_hit at 1. rewrite decide_True by done.
  f_equal. apply IH.
  - intros k. unfold spec_hit. case_decide; [by subst|].
    assert (Hk := tracks_later _ _ _ _ _ Ht (Htr k)). unfold tracks in *.
    destruct (f k) as [[t1 c]|]; rewrite Hother by done; done.
  - intros k. unfold spec_hit. destruct (Hmax k) as [H0 H1]. case_decide; [|lia].
    pose proof (hit_count_le t (f k)). split; [|lia].
    destruct (f k) as [[t1 c]|]; simpl in *; [case_match; simpl|]; lia.
Qed.
End Refinement.

(** ** How much a window lets through *)

Section Bound.
Variable w limit : Z.
Hypothesis Hlimit : 0 <= limit.

(** The calls of [key] in the interval [a, b) that were allowed. *)
Fixpoint allowed (key : string) (a b : Z) (calls : list (Z * string)) (res : list (result Z)) : Z :=
  match calls, res with
  | (t, k) :: calls, r :: res =>
      (if bool_decide (k = key) && (a <=? t) && (t <? b) &&
          match r with Ok n => n <=? limit | Err _ => false end then 1 else 0)
      + allowed key a b calls res
  | _, _ => 0
  end.

Lemma allowed_after key a b calls res t :
  ordered t calls -> b <= t -> allowed key a b calls res = 0.
Proof.
  revert t res; induction calls as [|[t' k] calls IH]; intros t res; [done|].
  intros [Ht Hord] Hb. destruct res as [|r res]; [done|]. simpl.
  destruct (Z.ltb_spec t' b); [lia|]. rewrite andb_false_r. simpl. eapply IH; [done|lia].
Qed.

(** Calls on other keys neither count nor change the window. *)
Lemma allowed_in_window key a b calls f t t0 c :
  ordered t calls -> f key = Some (t0, c) -> b <= t0 + w ->
  allowed key a b calls (spec_run w calls f) <= Z.max 0 (limit - c).
Proof.
  revert f t c; induction calls as [|[t' k] calls IH]; intros f t c; [simpl; lia|].
  intros [Ht Hord] Hf Hb. destruct (Z.le_gt_cases b t') as [|Hlt].
  { rewrite (allowed_after _ _ _ ((t', k) :: calls) _ t'); [lia|by split|done]. }
  simpl. unfold spec_hit at 1. rewrite decide_True by done. destruct (decide (k = key)) as [->|Hk].
  - rewrite bool_decide_true, Hf by done. simpl. destruct (Z.ltb_spec t' (t0 + w)); [|lia]. simpl.
    specialize (IH (spec_hit w key t' f) t' (c + 1) Hord).
    unfold spec_hit at 1 in IH. rewrite decide_True, Hf in IH by done. simpl in IH.
    destruct (Z.ltb_spec t' (t0 + w)); [|lia]. specialize (IH eq_refl Hb).
    destruct (_ && _ && _) eqn:E; [|lia]. apply andb_true_iff in E as [_ E]. lia.
  - rewrite bool_decide_false by done. simpl. eapply (IH _ t'); [done| |done].
    unfold spec_hit. by rewrite decide_False.
Qed.

(** From the start of the interval: what is left of the window that is open
    then, and one more window. *)
Lemma allowed_from key a calls f t :
  ordered t calls -> a <= t -> 0 <= Spec.count (f key) ->
  allowed key a (a + w) calls (spec_run w calls f) <=
    Z.max 0 (limit - Spec.count (f key)) + limit.
Proof.
  revert f t; induction calls as [|[t' k] calls IH]; intros f t; [simpl; lia|].
  intros [Ht Hord] Ha Hc. simpl. unfold spec_hit at 1. rewrite decide_True by done.
  destruct (decide (k = key)) as [->|Hk].
  - rewrite bool_decide_true by done. simpl.
    assert (Hself : spec_hit w key t' f key = Spec.hit w t' (f key))
      by (unfold spec_hit; by rewrite decide_True).
    specialize (IH (spec_hit w key t' f) t' Hord ltac:(lia)). rewrite Hself in IH.
    assert (Hnew : Spec.hit w t' (f key) = Some (t', 1) ->
      allowed key a (a + w) calls (spec_run w calls (spec_hit w key t' f)) <= Z.max 0 (limit - 1)).
    { intros Hs. apply (allowed_in_window _ _ _ _ _ t' t'); [done|by rewrite Hself|lia]. }
    destruct (f key) as [[t0 c]|]; simpl in *.
    + destruct (Z.ltb_spec t' (t0 + w)); simpl in *.
      * specialize (IH ltac:(lia)). destruct (_ && _ && _) eqn:E; [|lia].
        apply andb_true_iff in E as [_ E]. lia.
      * specialize (Hnew eq_refl). destruct (_ && _ && _) eqn:E; [|lia].
        apply andb_true_iff in E as [_ E]. lia.
    + specialize (Hnew eq_refl). destruct (_ && _ && _) eqn:E; [|lia].
      apply andb_true_iff in E as [_ E]. lia.
  - rewrite bool_decide_false by done. simpl.
    specialize (IH (spec_hit w k t' f) t' Hord ltac:(lia)).
    assert (Hoth : spec_hit w k t' f key = f key)
      by (unfold spec_hit; by rewrite decide_False by congruence).
    rewrite Hoth in IH. by apply IH.
Qed.

Lemma allowed_interval key a calls f t :
  ordered t calls -> 0 <= Spec.count (f key) ->
  allowed key a (a + w) calls (spec_run w calls f) <= 2 * limit.
Proof.
  revert f t; induction calls as [|[t' k] calls IH]; intros f t; [simpl; lia|].
  intros Hord Hc. destruct (Z.le_gt_cases a t') as [Ha|Ha].
  - pose proof (allowed_from key a ((t', k) :: calls) f t') as H0. destruct Hord as [_ Hord].
    specialize (H0 ltac:(by split) Ha Hc). lia.
  - destruct Hord as [_ Hord]. simpl. destruct (Z.leb_spec a t'); [lia|].
    rewrite andb_false_r. simpl. apply (IH _ t' Hord).
    unfold spec_hit. case_decide; [|done]. destruct (f key) as [[t0 c]|]; simpl in *; [case_match; simpl|]; lia.
Qed.
End Bound.

(** ** Properties *)

Section Properties.
Context {R : Type} `{HR : Redis R} `{!RedisLaws R}.

(** C39 The limiter is a fixed-window counter per user: for any sequence of
    calls by any users on a Redis that holds no counter yet, the script
    answers what one counter per key answers, however keys expire and
    interleave. *)
Theorem rate_limiter_fixed_window w calls t0 (r : R) :
  ordered t0 calls -> len calls < max_i64 -> (forall k, view r t0 k = None) ->
  (run w calls r).1 = spec_run w calls (λ _, None).
Proof.
  intros Hord Hlen Hfresh. apply (run_refines w calls r t0); [done|done|].
  intros k. simpl. pose proof (len_nonneg calls). lia.
Qed.

(** In no interval as long as the window does one user get more than twice
    the limit of calls through, and calls of other users do not count. *)
Theorem rate_limiter_bound w limit calls t0 (r : R) key a :
  0 <= limit -> ordered t0 calls -> len calls < max_i64 ->
  (forall k, view r t0 k = None) ->
  allowed limit key a (a + w) calls (run w calls r).1 <= 2 * limit.
Proof.
  intros Hl Hord Hlen Hfresh.
  assert (Hrun : (run w calls r).1 = spec_run w calls (λ _, None)).
  { apply (run_refines w calls r t0); [done|done|].
    intros k. simpl. pose proof (len_nonneg calls). lia. }
  rewrite Hrun. by eapply allowed_interval.
Qed.
End Properties.

(** ** Closed instances *)

Section Witness.
#[local] Existing Instance MemRedis.mem_redis.
#[local] Existing Instance MemRedis.mem_redis_laws.
#[local] Existing Instance DecLib.

Definition demo_calls : list (Z * string) :=
  [(0, "a"); (1, "a"); (2, "b"); (3, "a"); (10, "a"); (11, "b")].

Lemma rate_limiter_fixed_window_witness :
  (run 10 demo_calls (∅ : gmap string (string * option Z))).1 =
    spec_run 10 demo_calls (λ _, None).
Proof.
  apply (rate_limiter_fixed_window 10 demo_calls 0).
  - vm_compute. repeat split; discriminate.
  - vm_compute. reflexivity.
  - intros k. reflexivity.
Defined.

Lemma rate_limiter_bound_witness :
  allowed 2 "a" 0 10 demo_calls (run 10 demo_calls (∅ : gmap string (string * option Z))).1 <= 4.
Proof.
  apply (rate_limiter_bound 10 2 demo_calls 0 _ "a" 0).
  - lia.
  - vm_compute. repeat split; discriminate.
  - vm_compute. reflexivity.
  - intros k. reflexivity.
Defined.
End Witness.
