(* ===== verification/Outbox.v ===== *)
(** * Transactional outbox
      (orderService and spotService: infrastructure/postgres/outbox,
       infrastructure/kafka/outbox_worker.go)

    [Section Store] is the outbox table with its constraints and one statement
    per store operation; both services run the same statements.  [step] is
    what any number of writers and workers can do to the table, one committed
    statement at a time.  [Module OrderWorker] and [Module SpotWorker] are the
    two workers; [Section Protocol] says what a worker may do to a claimed row
    after which answer of the publisher. *)

From stdpp Require Import sorting.
From S2P Require Import Prelude GoStrings GoErrors Effects Pg Kafka.
Local Open Scope string_scope.
Local Open Scope list_scope.
Local Open Scope Z_scope.

(** ** Data *)

Definition OutboxEventStatusPending : string := "pending".
Definition OutboxEventStatusProcessing : string := "processing".
Definition OutboxEventStatusPublished : string := "published".
Definition OutboxEventStatusFailed : string := "failed".

Definition OrderCreatedEventType : string := "order.created".
Definition OrderStatusUpdatedEventType : string := "order.status.updated".
Definition MarketStateChangedEventType : string := "market.state.changed".

Record OutboxEvent := {
  oe_ID : UUID; oe_EventID : UUID; oe_EventType : string; oe_AggregateID : UUID;
  oe_Payload : string; oe_Status : string; oe_RetryCount : Z;
  oe_AvailableAt : Z; oe_CreatedAt : Z; oe_PublishedAt : option Z;
  oe_FailedAt : option Z; oe_LockedAt : option Z; oe_LastError : option string
}.

#[export] Instance OutboxEvent_eq_dec : EqDecision OutboxEvent.
Proof. solve_decision. Defined.

(** The columns no UPDATE touches. *)
Definition same_event (e e' : OutboxEvent) : Prop :=
  oe_ID e' = oe_ID e /\ oe_EventID e' = oe_EventID e /\ oe_EventType e' = oe_EventType e /\
  oe_AggregateID e' = oe_AggregateID e /\ oe_Payload e' = oe_Payload e /\
  oe_CreatedAt e' = oe_CreatedAt e.

(** [UPDATE outbox SET ...]: the row with its mutable columns replaced. *)
Definition oe_set (status : string) (retries available : Z)
    (published failed locked : option Z) (lastError : option string)
    (e : OutboxEvent) : OutboxEvent := {|
  oe_ID := oe_ID e; oe_EventID := oe_EventID e; oe_EventType := oe_EventType e;
  oe_AggregateID := oe_AggregateID e; oe_Payload := oe_Payload e; oe_Status := status;
  oe_RetryCount := retries; oe_AvailableAt := available; oe_CreatedAt := oe_CreatedAt e;
  oe_PublishedAt := published; oe_FailedAt := failed; oe_LockedAt := locked;
  oe_LastError := lastError
|}.

Lemma oe_set_same st r a p f l er e : same_event e (oe_set st r a p f l er e).
Proof. by repeat split. Qed.

Lemma same_event_refl e : same_event e e.
Proof. by repeat split. Qed.

Lemma same_event_trans e1 e2 e3 : same_event e1 e2 -> same_event e2 e3 -> same_event e1 e3.
Proof. unfold same_event. naive_solver congruence. Qed.

(** The table, keyed by its primary key. *)
Notation outbox := (gmap UUID OutboxEvent).

Class HasOutbox (D : Type) := {
  outbox_of : D -> outbox;
  set_outbox : outbox -> D -> D;
  outbox_of_set t d : outbox_of (set_outbox t d) = t
}.

(** A statement on the table inside the database. *)
Definition on_outbox {D A} `{HasOutbox D} (s : stmt outbox A) : stmt D A :=
  λ now d, let '(a, t) := s now (outbox_of d) in (a, set_outbox t d).

(** ** Statements *)

Section Statements.
Context `{PgTypes}.

Definition UniqueViolation (constraint : string) : error :=
  EPg "23505" constraint "duplicate key value violates unique constraint".

Definition has_status (s : string) (e : OutboxEvent) : bool := bool_decide (oe_Status e = s).

(** INSERT: both unique indexes are checked. *)
Definition sql_insert (ev : OutboxEvent) : stmt outbox unit := λ now t,
  if decide (is_Some (t !! oe_ID ev)) then (Err (UniqueViolation "outbox_pkey"), t)
  else if decide (Exists (λ e, oe_EventID e = oe_EventID ev) (map_to_list t).*2) then
    (Err (UniqueViolation "idx_outbox_event_id"), t)
  else (Ok tt, <[oe_ID ev := {|
      oe_ID := oe_ID ev; oe_EventID := oe_EventID ev; oe_EventType := oe_EventType ev;
      oe_AggregateID := oe_AggregateID ev; oe_Payload := oe_Payload ev;
      oe_Status := OutboxEventStatusPending; oe_RetryCount := 0; oe_AvailableAt := now;
      oe_CreatedAt := now; oe_PublishedAt := None; oe_FailedAt := None; oe_LockedAt := None;
      oe_LastError := None |}]> t).

Definition is_candidate (now : Z) (e : OutboxEvent) : bool :=
  has_status OutboxEventStatusPending e && bool_decide (oe_AvailableAt e <= now).

(** ORDER BY created_at, id. *)
Definition oldest_first (e1 e2 : OutboxEvent) : Prop :=
  oe_CreatedAt e1 < oe_CreatedAt e2 \/
  (oe_CreatedAt e1 = oe_CreatedAt e2 /\ (oe_ID e1 <= oe_ID e2)%N).

#[export] Instance oldest_first_dec : RelDecision oldest_first.
Proof. intros e1 e2. unfold oldest_first. apply _. Defined.

Definition pending_rows (now : Z) (t : outbox) : list OutboxEvent :=
  merge_sort oldest_first (filter (λ e, is_candidate now e = true) (map_to_list t).*2).

Definition candidates (now limit : Z) (t : outbox) : list OutboxEvent :=
  take (Z.to_nat limit) (pending_rows now t).

Definition claim_row (now : Z) (e : OutboxEvent) : OutboxEvent :=
  oe_set OutboxEventStatusProcessing (oe_RetryCount e) (oe_AvailableAt e) (oe_PublishedAt e)
    (oe_FailedAt e) (Some now) (oe_LastError e) e.

Definition upsert_rows (l : list OutboxEvent) (t : outbox) : outbox :=
  foldr (λ e t, <[oe_ID e := e]> t) t l.

Definition sql_claim (limit : Z) : stmt outbox (list OutboxEvent) := λ now t,
  if limit <? 0 then (Err (EPg "2201W" "" "LIMIT must not be negative"), t)
  else let rows := claim_row now <$> candidates now limit t in
       (Ok (pg_any_order rows), upsert_rows rows t).

(** UPDATE ... WHERE id = $1 AND status = 'processing', with the number of
    affected rows. *)
Definition sql_update_processing (id : UUID) (f : Z -> OutboxEvent -> OutboxEvent) :
    stmt outbox Z := λ now t,
  match t !! id with
  | Some e =>
      if has_status OutboxEventStatusProcessing e then (Ok 1, <[id := f now e]> t) else (Ok 0, t)
  | None => (Ok 0, t)
  end.

Definition published_row (now : Z) (e : OutboxEvent) : OutboxEvent :=
  oe_set OutboxEventStatusPublished (oe_RetryCount e) (oe_AvailableAt e) (Some now) None None None e.

Definition retry_row (nextRetryAt : Z) (errText : string) (now : Z) (e : OutboxEvent) : OutboxEvent :=
  oe_set OutboxEventStatusPending (oe_RetryCount e + 1) (pg_time nextRetryAt) (oe_PublishedAt e)
    None None (Some errText) e.

Definition failed_row (errText : string) (now : Z) (e : OutboxEvent) : OutboxEvent :=
  oe_set OutboxEventStatusFailed (oe_RetryCount e + 1) (oe_AvailableAt e) (oe_PublishedAt e)
    (Some now) None (Some errText) e.

Definition is_stuck (stuckBefore : Z) (e : OutboxEvent) : bool :=
  has_status OutboxEventStatusProcessing e &&
  match oe_LockedAt e with Some l => bool_decide (l < pg_time stuckBefore) | None => false end.

Definition released_row (now : Z) (e : OutboxEvent) : OutboxEvent :=
  oe_set OutboxEventStatusPending (oe_RetryCount e) now (oe_PublishedAt e) (oe_FailedAt e) None
    (oe_LastError e) e.

Definition sql_release (stuckBefore : Z) : stmt outbox Z := λ now t,
  (Ok (len (filter (λ e, is_stuck stuckBefore e = true) (map_to_list t).*2)),
   (λ e, if is_stuck stuckBefore e then released_row now e else e) <$> t).

Definition sql_count_pending : stmt outbox Z := λ now t,
  (Ok (len (filter (λ e, is_candidate now e = true) (map_to_list t).*2)), t).
End Statements.

(** ** OutboxStore *)

Section Store.
Context {St D : Type} `{PgTypes} `{HO : !HasOutbox D} `{HD : !Has (pg D) St}.

Definition SaveOutboxEvent (event : OutboxEvent) : M St (result unit) :=
  let! r := tx_Exec (on_outbox (sql_insert event)) in
  mret (map_err (wrap "OutboxStore.SaveOutboxEvent") r).

Definition ClaimPendingEvents (limit : Z) : M St (result (list OutboxEvent)) :=
  let! r := pool_Exec (on_outbox (sql_claim limit)) in
  mret (map_err (wrap "OutboxStore.ClaimPendingEvents: query") r).

(** [result.RowsAffected() != 1]. *)
Definition expect_one (op : string) (r : result Z) : result unit :=
  match r with
  | Err e => Err (wrap op e)
  | Ok n => if n =? 1 then Ok tt
            else Err (EMsg (op +:+ ": expected to update 1 row, updated " +:+ itoa n))
  end.

Definition MarkPublished (event : OutboxEvent) : M St (result unit) :=
  let! r := pool_Exec (on_outbox (sql_update_processing (oe_ID event) published_row)) in
  mret (expect_one "OutboxStore.MarkPublished" r).

Definition ScheduleRetry (event : OutboxEvent) (nextRetryAt : Z) (errText : string) :
    M St (result unit) :=
  let! r := pool_Exec (on_outbox
              (sql_update_processing (oe_ID event) (retry_row nextRetryAt errText))) in
  mret (expect_one "OutboxStore.ScheduleRetry" r).

Definition MarkFailed (event : OutboxEvent) (errText : string) : M St (result unit) :=
  let! r := pool_Exec (on_outbox
              (sql_update_processing (oe_ID event) (failed_row errText))) in
  mret (expect_one "OutboxStore.MarkFailed" r).

Definition ReleaseStuckEvents (stuckBefore : Z) : M St (result Z) :=
  let! r := pool_Exec (on_outbox (sql_release stuckBefore)) in
  mret (map_err (wrap "OutboxStore.ReleaseStuckEvents") r).

Definition countPendingEvents : M St (result Z) :=
  let! r := pool_Exec (on_outbox sql_count_pending) in
  mret (map_err (wrap "count pending outbox events") r).
End Store.

(** ** The table under any interleaving of statements *)

Section Steps.
Context `{PgTypes}.
Implicit Types (t : outbox) (e : OutboxEvent) (id : UUID).

(** One committed statement of some transaction or worker, at some time. *)
Inductive step (t : outbox) : outbox -> Prop :=
| step_insert now ev : step t (sql_insert ev now t).2
| step_claim now limit : step t (sql_claim limit now t).2
| step_published now id : step t (sql_update_processing id published_row now t).2
| step_retry now id next err : step t (sql_update_processing id (retry_row next err) now t).2
| step_failed now id err : step t (sql_update_processing id (failed_row err) now t).2
| step_release now before : step t (sql_release before now t).2.

Definition terminal (e : OutboxEvent) : Prop :=
  oe_Status e = OutboxEventStatusPublished \/ oe_Status e = OutboxEventStatusFailed.

(** How one statement may change one row: not at all when the row is final;
    otherwise its mutable columns move along the status graph. *)
Inductive row_step (e : OutboxEvent) : OutboxEvent -> Prop :=
| row_same : row_step e e
| row_claim now : oe_Status e = OutboxEventStatusPending -> row_step e (claim_row now e)
| row_published now : oe_Status e = OutboxEventStatusProcessing -> row_step e (published_row now e)
| row_retry next err now : oe_Status e = OutboxEventStatusProcessing ->
    row_step e (retry_row next err now e)
| row_failed err now : oe_Status e = OutboxEventStatusProcessing -> row_step e (failed_row err now e)
| row_released now : oe_Status e = OutboxEventStatusProcessing -> row_step e (released_row now e).

Lemma has_status_iff s e : has_status s e = true <-> oe_Status e = s.
Proof. apply bool_decide_eq_true. Qed.

(** *** Claiming *)

Lemma upsert_rows_notin l t id :
  id ∉ (oe_ID <$> l) -> upsert_rows l t !! id = t !! id.
Proof.
  induction l as [|e l IH]; simpl; [done|]. intros [Hn Hl]%not_elem_of_cons.
  rewrite lookup_insert_ne by done. by apply IH.
Qed.

Lemma upsert_rows_in l t e :
  NoDup (oe_ID <$> l) -> e ∈ l -> upsert_rows l t !! oe_ID e = Some e.
Proof.
  induction l as [|e' l IH]; simpl; [by intros _ ?%elem_of_nil|].
  intros [Hn Hl]%NoDup_cons [->|He]%elem_of_cons; [by rewrite lookup_insert_eq|].
  rewrite lookup_insert_ne; [by apply IH|]. intros Heq. apply Hn. rewrite Heq.
  by apply list_elem_of_fmap_2.
Qed.

(** Rows are keyed by their id. *)
Definition keyed (t : outbox) : Prop := map_Forall (λ id e, oe_ID e = id) t.

Lemma elem_of_pending_rows now t e :
  e ∈ pending_rows now t <-> is_candidate now e = true /\ exists id, t !! id = Some e.
Proof.
  unfold pending_rows. rewrite merge_sort_Permutation, list_elem_of_filter, elem_of_values. done.
Qed.

Lemma NoDup_rows t : keyed t -> NoDup (oe_ID <$> (map_to_list t).*2).
Proof.
  intros Hk. rewrite <- list_fmap_compose.
  enough (oe_ID ∘ snd <$> map_to_list t = (map_to_list t).*1) as ->
    by apply NoDup_fst_map_to_list.
  apply list_fmap_ext. intros i [id e] Hi%list_elem_of_lookup_2%elem_of_map_to_list. simpl.
  by apply Hk.
Qed.

Lemma NoDup_fmap_filter {A B} (f : A -> B) (P : A -> Prop) `{!forall x, Decision (P x)} l :
  NoDup (f <$> l) -> NoDup (f <$> filter P l).
Proof. intros Hl. eapply sublist_NoDup; [done|]. apply fmap_sublist, sublist_filter. Qed.

Lemma NoDup_pending_rows now t : keyed t -> NoDup (oe_ID <$> pending_rows now t).
Proof.
  intros Hk. unfold pending_rows. rewrite merge_sort_Permutation.
  by apply NoDup_fmap_filter, NoDup_rows.
Qed.

Lemma candidates_sub now limit t e : e ∈ candidates now limit t -> e ∈ pending_rows now t.
Proof.
  intros (i & Hi & _)%elem_of_take. by eapply list_elem_of_lookup_2.
Qed.

Lemma NoDup_candidates now limit t : keyed t -> NoDup (oe_ID <$> candidates now limit t).
Proof.
  intros Hk. eapply sublist_NoDup; [by apply (NoDup_pending_rows now)|].
  apply fmap_sublist, sublist_take.
Qed.

Lemma candidates_row now limit t e :
  keyed t -> e ∈ candidates now limit t ->
  t !! oe_ID e = Some e /\ oe_Status e = OutboxEventStatusPending /\ oe_AvailableAt e <= now.
Proof.
  intros Hk He%candidates_sub%elem_of_pending_rows. destruct He as [Hc [id Hid]].
  pose proof (Hk _ _ Hid) as Hkey. simpl in Hkey. rewrite Hkey.
  apply andb_true_iff in Hc as [Hs Ha]. rewrite has_status_iff in Hs.
  split_and!; [done|done|by apply bool_decide_eq_true in Ha].
Qed.

(** What an inserted event is stored as. *)
Definition stored_event (now : Z) (ev stored : OutboxEvent) : Prop :=
  oe_ID stored = oe_ID ev /\ oe_EventType stored = oe_EventType ev /\
  oe_AggregateID stored = oe_AggregateID ev /\ oe_Payload stored = oe_Payload ev /\
  oe_Status stored = OutboxEventStatusPending /\ oe_RetryCount stored = 0 /\
  oe_AvailableAt stored = now /\ oe_EventID stored = oe_EventID ev.

Lemma insert_event_Ok ev now t t1 :
  sql_insert ev now t = (Ok tt, t1) ->
  exists stored, t1 = <[oe_ID ev := stored]> t /\ t !! oe_ID ev = None /\ stored_event now ev stored.
Proof.
  unfold sql_insert. case_decide as Hid; [done|]. case_decide; [done|].
  intros [= <-]. eexists. split; [done|]. split; [by apply eq_None_not_Some|done].
Qed.

Lemma on_outbox_insert_Ok {D} `{HasOutbox D} ev now (d d1 : D) :
  on_outbox (sql_insert ev) now d = (Ok tt, d1) ->
  exists stored, d1 = set_outbox (<[oe_ID ev := stored]> (outbox_of d)) d /\
    outbox_of d !! oe_ID ev = None /\ stored_event now ev stored.
Proof.
  unfold on_outbox. destruct (sql_insert ev now (outbox_of d)) as [a t] eqn:E.
  intros [= -> <-]. destruct (insert_event_Ok _ _ _ _ E) as (stored & -> & Hn & Hs).
  by exists stored.
Qed.
(** *** Identifiers that are new *)

(** The identifiers drawn at these indices are new and different. *)
Definition fresh_on (P : nat -> Prop) (u : nat -> UUID) (t : outbox) : Prop :=
  (forall n m, P n -> P m -> u n = u m -> n = m) /\
  forall n id ev, P n -> t !! id = Some ev -> id <> u n /\ oe_EventID ev <> u n.

Lemma fresh_on_mono (P P' : nat -> Prop) u t :
  (forall n, P' n -> P n) -> fresh_on P u t -> fresh_on P' u t.
Proof. intros Himp [H1 H2]. split; eauto. Qed.

Lemma fresh_on_insert (P : nat -> Prop) u t k n0 ev :
  fresh_on P u t -> P k -> P n0 -> oe_EventID ev = u n0 ->
  fresh_on (λ n, P n /\ n <> k /\ n <> n0) u (<[u k := ev]> t).
Proof.
  intros [H1 H2] Hk Hn0 Hev. split; [intros n m (Hn & _) (Hm & _); by apply H1|].
  intros n id ev' (Hn & Hnk & Hnn) [[<- <-]|[_ Ht]]%lookup_insert_Some; [|by eapply H2].
  rewrite Hev. split; intros Heq; [apply Hnk|apply Hnn]; symmetry; by apply H1.
Qed.

(** What uuid.New promises: the next identifiers are nowhere in the outbox. *)
Definition fresh_ids (v : env) t : Prop := fresh_on (λ n, (e_tick v <= n)%nat) (e_uuid v) t.

Lemma fresh_ids_later k (v : env) t : fresh_ids v t -> fresh_ids (Nat.iter k tick v) t.
Proof.
  unfold fresh_ids. destruct (iter_tick_clocks k v) as (_ & _ & -> & ->). apply fresh_on_mono. lia.
Qed.

Lemma sql_insert_fresh (ev : OutboxEvent) now (t : outbox) :
  t !! oe_ID ev = None -> (forall id e, t !! id = Some e -> oe_EventID e <> oe_EventID ev) ->
  exists t', sql_insert ev now t = (Ok tt, t').
Proof.
  intros Hid Hev. unfold sql_insert. rewrite decide_False by (rewrite Hid; by intros [? ?]).
  rewrite decide_False; [by eexists|]. intros (e & Hin & He)%Exists_exists.
  apply elem_of_values in Hin as [id Hin]. by apply (Hev id e).
Qed.

(** New rows, in the order of their insertion. *)
Definition add_rows (evs : list OutboxEvent) (t : outbox) : outbox :=
  foldl (λ t e, <[oe_ID e := e]> t) t evs.

Definition rows_added (evs : list OutboxEvent) (t t' : outbox) : Prop :=
  t' = add_rows evs t /\ NoDup (oe_ID <$> evs) /\ Forall (λ e, t !! oe_ID e = None) evs.

Lemma rows_added_nil t : rows_added [] t t.
Proof. split_and!; [done|constructor|constructor]. Qed.

Lemma add_rows_other evs t id : id ∉ (oe_ID <$> evs) -> add_rows evs t !! id = t !! id.
Proof.
  revert t. induction evs as [|e evs IH]; intros t Hid; [done|]. rewrite fmap_cons in Hid. simpl.
  unfold add_rows in *. rewrite IH by set_solver. by rewrite lookup_insert_ne by set_solver.
Qed.

Lemma rows_added_snoc evs t t1 e :
  rows_added evs t t1 -> t1 !! oe_ID e = None -> rows_added (evs ++ [e]) t (<[oe_ID e := e]> t1).
Proof.
  intros (-> & Hnd & Hfr) Hn. assert (Hnin : oe_ID e ∉ (oe_ID <$> evs)).
  { intros Hin. clear Hfr. revert t Hn Hnd Hin. induction evs as [|x evs IH]; intros t Hn Hnd Hin; [set_solver|].
    rewrite fmap_cons in *. apply NoDup_cons in Hnd as [Hx Hnd]. apply elem_of_cons in Hin as [He|Hin].
    - unfold add_rows in Hn. simpl in Hn. fold (add_rows evs (<[oe_ID x := x]> t)) in Hn.
      rewrite add_rows_other in Hn by congruence. by rewrite He, lookup_insert_eq in Hn.
    - by apply (IH (<[oe_ID x := x]> t)). }
  split_and!.
  - unfold add_rows. by rewrite foldl_app.
  - rewrite fmap_app. apply NoDup_app. split_and!; [done|set_solver|]. apply NoDup_singleton.
  - apply Forall_app. split; [done|]. constructor; [|constructor]. by rewrite add_rows_other in Hn.
Qed.

Lemma rows_added_app evs1 evs2 t t1 t2 :
  rows_added evs1 t t1 -> rows_added evs2 t1 t2 -> rows_added (evs1 ++ evs2) t t2.
Proof.
  intros H1. revert t2. induction evs2 as [|e evs2 IH] using rev_ind; intros t2 (-> & Hnd & Hfr).
  { by rewrite app_nil_r. }
  rewrite fmap_app in Hnd. apply NoDup_app in Hnd as (Hnd & Hdis & _).
  apply Forall_app in Hfr as [Hfr He]. apply Forall_cons in He as [He _].
  assert (Hn : add_rows evs2 t1 !! oe_ID e = None) by (rewrite add_rows_other; [exact He|intros Hin; apply (Hdis _ Hin); simpl; set_solver]).
  unfold add_rows at 1. rewrite foldl_app, app_assoc. simpl. by apply rows_added_snoc; [apply IH|].
Qed.

Lemma rows_added_lookup evs t t' id e : rows_added evs t t' -> t !! id = Some e -> t' !! id = Some e.
Proof.
  intros (-> & _ & Hfr) Ht. rewrite add_rows_other; [done|]. intros (x & -> & Hx)%list_elem_of_fmap.
  rewrite Forall_forall in Hfr. specialize (Hfr x Hx). congruence.
Qed.

Lemma rows_added_new evs t t' e : rows_added evs t t' -> e ∈ evs -> t' !! oe_ID e = Some e.
Proof.
  intros (-> & Hnd & _) He. revert t. induction evs as [|x evs IH]; intros t; [set_solver|].
  rewrite fmap_cons in Hnd. apply NoDup_cons in Hnd as [Hx Hnd].
  apply elem_of_cons in He as [->|He]; [|by apply IH].
  unfold add_rows. simpl. fold (add_rows evs (<[oe_ID x := x]> t)).
  by rewrite add_rows_other, lookup_insert_eq.
Qed.

Lemma claim_row_ids now (l : list OutboxEvent) : oe_ID <$> (claim_row now <$> l) = oe_ID <$> l.
Proof. rewrite <- list_fmap_compose. by apply list_fmap_ext. Qed.

(** What a claim does to one row. *)
Lemma claim_lookup now limit t id e :
  keyed t -> 0 <= limit -> t !! id = Some e ->
  (sql_claim limit now t).2 !! id =
    Some (if decide (e ∈ candidates now limit t) then claim_row now e else e).
Proof.
  intros Hk Hl He. unfold sql_claim. destruct (Z.ltb_spec limit 0); [lia|]. simpl.
  pose proof (Hk _ _ He) as Hid. simpl in Hid. case_decide as Hin.
  - rewrite <- Hid. change (oe_ID e) with (oe_ID (claim_row now e)). apply upsert_rows_in.
    + rewrite claim_row_ids. by apply NoDup_candidates.
    + by apply list_elem_of_fmap_2.
  - rewrite upsert_rows_notin; [done|]. rewrite claim_row_ids.
    intros (e' & Heq & He')%list_elem_of_fmap. apply candidates_row in He' as Hc; [|done].
    destruct Hc as [Hrow _]. rewrite <- Heq, He in Hrow. by injection Hrow as ->.
Qed.

Lemma claim_lookup_None now limit t id :
  keyed t -> t !! id = None -> (sql_claim limit now t).2 !! id = None.
Proof.
  intros Hk Hn. unfold sql_claim. destruct (Z.ltb_spec limit 0); [done|]. simpl.
  rewrite upsert_rows_notin; [done|]. rewrite claim_row_ids.
  intros (e & -> & He)%list_elem_of_fmap. apply candidates_row in He as [He _]; [|done]. congruence.
Qed.

Lemma update_lookup f now t id id' :
  (sql_update_processing id f now t).2 !! id' =
    (λ e, if decide (id = id') then
            if has_status OutboxEventStatusProcessing e then f now e else e
          else e) <$> t !! id'.
Proof.
  unfold sql_update_processing. destruct (t !! id) as [e|] eqn:E.
  - destruct (has_status _ e) eqn:Es; simpl.
    + case_decide; subst; [by rewrite lookup_insert_eq, E; simpl; rewrite Es|].
      rewrite lookup_insert_ne by done. by destruct (t !! id').
    + case_decide; subst; [by rewrite E; simpl; rewrite Es|]. by destruct (t !! id').
  - simpl. case_decide; subst; [by rewrite E|]. by destruct (t !! id').
Qed.

Lemma update_row_step f now t id id' e :
  (forall e, oe_Status e = OutboxEventStatusProcessing -> row_step e (f now e)) ->
  t !! id' = Some e ->
  exists e', (sql_update_processing id f now t).2 !! id' = Some e' /\ row_step e e'.
Proof.
  intros Hf He. rewrite update_lookup, He. simpl. eexists; split; [done|].
  case_decide; [|constructor]. destruct (has_status _ e) eqn:Es; [|constructor].
  by apply Hf, has_status_iff.
Qed.

(** No statement loses a row, and each row moves by a [row_step]. *)
Lemma step_rows t t' id e :
  keyed t -> step t t' -> t !! id = Some e -> exists e', t' !! id = Some e' /\ row_step e e'.
Proof.
  intros Hk Hst He. destruct Hst as [now ev|now limit|now id'|now id' next err|now id' err|now before].
  - unfold sql_insert. case_decide as Hnew; [by exists e; split; [|constructor]|].
    case_decide; [by exists e; split; [|constructor]|]. simpl.
    rewrite lookup_insert_ne; [by exists e; split; [|constructor]|].
    intros <-. apply Hnew. by rewrite He.
  - destruct (Z.ltb_spec limit 0).
    { exists e. split; [|constructor]. unfold sql_claim. by destruct (Z.ltb_spec limit 0); [|lia]. }
    rewrite (claim_lookup _ _ _ _ e) by done. eexists; split; [done|].
    case_decide as Hin; [|constructor]. apply candidates_row in Hin as (_&?&_); [|done]. by constructor.
  - apply update_row_step; [|done]. by constructor.
  - apply update_row_step; [|done]. by constructor.
  - apply update_row_step; [|done]. by constructor.
  - simpl. rewrite lookup_fmap, He. simpl. eexists; split; [done|].
    destruct (is_stuck before e) eqn:Es; [|constructor].
    apply andb_true_iff in Es as [Es _]. constructor. by apply has_status_iff.
Qed.

Lemma row_step_same e e' : row_step e e' -> same_event e e'.
Proof. by destruct 1; repeat split. Qed.

Lemma row_step_retries e e' : row_step e e' -> oe_RetryCount e <= oe_RetryCount e'.
Proof. destruct 1; simpl; lia. Qed.

Lemma row_step_terminal e e' : terminal e -> row_step e e' -> e' = e.
Proof. unfold terminal. intros Ht. destruct 1 as [|? E|? E|? ? ? E|? ? E|? E]; [done|..];
  rewrite E in Ht; by destruct Ht. Qed.

(** *** Well-formed tables *)

(** The status says which of the timestamps are set. *)
Definition wf_row (e : OutboxEvent) : Prop :=
  0 <= oe_RetryCount e /\
  ((oe_Status e = OutboxEventStatusPending /\ oe_LockedAt e = None /\ oe_PublishedAt e = None /\
    oe_FailedAt e = None) \/
   (oe_Status e = OutboxEventStatusProcessing /\ is_Some (oe_LockedAt e) /\
    oe_PublishedAt e = None /\ oe_FailedAt e = None) \/
   (oe_Status e = OutboxEventStatusPublished /\ oe_LockedAt e = None /\
    is_Some (oe_PublishedAt e) /\ oe_FailedAt e = None /\ oe_LastError e = None) \/
   (oe_Status e = OutboxEventStatusFailed /\ oe_LockedAt e = None /\ oe_PublishedAt e = None /\
    is_Some (oe_FailedAt e) /\ is_Some (oe_LastError e) /\ 0 < oe_RetryCount e)).

Record wf (t : outbox) : Prop := {
  wf_keyed : keyed t;
  wf_rows id e : t !! id = Some e -> wf_row e;
  wf_event_ids id1 id2 e1 e2 :
    t !! id1 = Some e1 -> t !! id2 = Some e2 -> oe_EventID e1 = oe_EventID e2 -> id1 = id2
}.

Lemma row_step_wf e e' : wf_row e -> row_step e e' -> wf_row e'.
Proof.
  unfold wf_row. intros [Hr Hc]. destruct 1; simpl; (split; [lia|]); try done;
    destruct Hc as [(Hs&?&?&?)|[(Hs&?&?&?)|[(Hs&?)|(Hs&?)]]];
    try (match goal with H : oe_Status e = _ |- _ => rewrite Hs in H; discriminate H end);
    first [left; split_and!; by eauto|right; left; split_and!; by eauto
          |right; right; left; split_and!; by eauto
          |right; right; right; split_and!; eauto; lia].
Qed.

(** A row of the new table is an old row moved, or the inserted one. *)
Lemma step_back t t' id e' :
  keyed t -> step t t' -> t' !! id = Some e' ->
  (exists e, t !! id = Some e /\ row_step e e') \/
  (t !! id = None /\ exists now ev, oe_ID ev = id /\ oe_Status e' = OutboxEventStatusPending /\
     oe_ID e' = id /\ oe_EventID e' = oe_EventID ev /\ wf_row e' /\ oe_RetryCount e' = 0 /\
     t' = (sql_insert ev now t).2 /\
     ~ Exists (λ e, oe_EventID e = oe_EventID ev) (map_to_list t).*2).
Proof.
  intros Hk Hst He'. destruct (t !! id) as [e|] eqn:E.
  { left. destruct (step_rows _ _ _ _ Hk Hst E) as (e2 & He2 & ?). rewrite He' in He2.
    injection He2 as <-. by exists e. }
  right. split; [done|].
  destruct Hst as [now ev|now limit|now id'|now id' next err|now id' err|now before].
  - exists now, ev. revert He'. unfold sql_insert. case_decide as Hex; [by simpl; rewrite E|].
    case_decide as Hev; [by simpl; rewrite E|]. simpl.
    intros [[<- <-]|[_ ?]]%lookup_insert_Some; [|congruence]. simpl.
    split_and!; try done. split; simpl; [lia|]. by left.
  - by rewrite claim_lookup_None in He'.
  - by rewrite update_lookup, E in He'.
  - by rewrite update_lookup, E in He'.
  - by rewrite update_lookup, E in He'.
  - simpl in He'. by rewrite lookup_fmap, E in He'.
Qed.

Lemma step_wf t t' : wf t -> step t t' -> wf t'.
Proof.
  intros [Hk Hr Hev] Hst. split.
  - intros id e' He'. destruct (step_back _ _ _ _ Hk Hst He') as [(e&He&Hrow)|(_&now&ev&_&_&?&_)]; [|done].
    apply row_step_same in Hrow as [Hid _]. rewrite Hid. by apply Hk.
  - intros id e' He'. destruct (step_back _ _ _ _ Hk Hst He') as [(e&He&Hrow)|(_&now&ev&_&_&_&_&?&_)]; [|done].
    eapply row_step_wf, Hrow. by eapply Hr.
  - intros id1 id2 e1' e2' H1 H2 Heq.
    destruct (step_back _ _ _ _ Hk Hst H1) as [(e1&He1&Hr1)|(Hn1&now&ev&<-&_&_&Hev1&_&_&Ht&Hno)];
    destruct (step_back _ _ _ _ Hk Hst H2) as [(e2&He2&Hr2)|(Hn2&now'&ev'&<-&_&_&Hev2&_&_&Ht'&Hno')].
    + apply row_step_same in Hr1 as (_&Hr1&_), Hr2 as (_&Hr2&_). eapply Hev; [done..|congruence].
    + destruct Hno'. apply Exists_exists. apply row_step_same in Hr1 as (_&Hr1&_).
      exists e1. split; [|congruence]. apply elem_of_values. by eexists.
    + destruct Hno. apply Exists_exists. apply row_step_same in Hr2 as (_&Hr2&_).
      exists e2. split; [|congruence]. apply elem_of_values. by eexists.
    + apply (f_equal (λ t0, t0 !! oe_ID ev')) in Ht. rewrite H2 in Ht. revert Ht.
      unfold sql_insert. destruct (decide (oe_ID ev = oe_ID ev')); [done|].
      case_decide; simpl; [congruence|]. case_decide; simpl; [congruence|].
      rewrite lookup_insert_ne by done. congruence.
Qed.

Lemma steps_wf t t' : wf t -> rtc step t t' -> wf t'.
Proof. induction 2; eauto using step_wf. Qed.

Lemma wf_empty : wf ∅.
Proof. split; [by intros ?? ?%lookup_empty_Some|set_solver..]. Qed.

Lemma steps_row t t' id e :
  wf t -> rtc step t t' -> t !! id = Some e -> exists e', t' !! id = Some e' /\ rtc row_step e e'.
Proof.
  intros Hwf Hst. revert e Hwf. induction Hst as [t|t1 t2 t3 H1 _ IH]; intros e Hwf He.
  { by exists e. }
  destruct (step_rows _ _ _ _ (wf_keyed _ Hwf) H1 He) as (e2 & He2 & Hr).
  destruct (IH e2) as (e3 & He3 & Hr3); [by eapply step_wf|done|].
  exists e3. split; [done|]. by eapply rtc_l.
Qed.
End Steps.

(** ** Properties of the table *)

Section TableProperties.
Context `{PgTypes}.
Implicit Types (t : outbox) (e : OutboxEvent) (id : UUID).

(** C37 From the empty table, whatever statements writers and workers commit
    in whatever order, every row stays well formed (the status determines
    which of the timestamps are set, a processing row and only that is
    locked), primary keys match and event ids are unique. *)
Theorem outbox_always_wf t : rtc step ∅ t -> wf t.
Proof. apply steps_wf, wf_empty. Qed.

Lemma row_steps_terminal e e' : rtc row_step e e' -> terminal e -> e' = e.
Proof.
  induction 1 as [|e1 e2 e3 H1 _ IH]; [done|]. intros Ht.
  apply row_step_terminal in H1 as ->; auto.
Qed.

Lemma row_steps_same e e' :
  rtc row_step e e' -> same_event e e' /\ oe_RetryCount e <= oe_RetryCount e'.
Proof.
  induction 1 as [|e1 e2 e3 H1 _ [IH Hr]]; [split; [apply same_event_refl|lia]|].
  split; [by eapply same_event_trans, IH; apply row_step_same|].
  apply row_step_retries in H1. lia.
Qed.

Lemma outbox_terminal_forever_aux t t' id e :
  wf t -> rtc step t t' -> t !! id = Some e -> terminal e -> t' !! id = Some e.
Proof.
  intros Hwf Hst He Ht. destruct (steps_row _ _ _ _ Hwf Hst He) as (e' & He' & Hr).
  by apply row_steps_terminal in Hr as ->.
Qed.

(** Published and failed are final: no statement of a writer, a worker or
    the cleanup ever changes such a row again. *)
Theorem outbox_terminal_forever t t' id e :
  wf t -> rtc step t t' -> t !! id = Some e -> terminal e -> t' !! id = Some e.
Proof. apply outbox_terminal_forever_aux. Qed.

(** A saved event is never lost or altered: it keeps its id, event id,
    type, aggregate, payload and creation time, and its retry counter never
    decreases. *)
Theorem outbox_event_immutable t t' id e :
  wf t -> rtc step t t' -> t !! id = Some e ->
  exists e', t' !! id = Some e' /\ same_event e e' /\ oe_RetryCount e <= oe_RetryCount e'.
Proof.
  intros Hwf Hst He. destruct (steps_row _ _ _ _ Hwf Hst He) as (e' & He' & Hr).
  exists e'. split; [done|]. by apply row_steps_same.
Qed.

#[export] Instance oldest_first_trans : Transitive oldest_first.
Proof. unfold oldest_first. intros e1 e2 e3. lia. Qed.
#[export] Instance oldest_first_total : Total oldest_first.
Proof. unfold oldest_first. intros e1 e2. lia. Qed.

(** What a claim returns: at most [limit] rows, as many as there are
    available pending ones up to the limit, each moved from pending to
    processing and locked now; every other row is untouched, and no available
    pending row that was left behind is older than a claimed one. *)
Theorem claim_oldest `{!PgTypesLaws _} t now limit :
  wf t -> 0 <= limit ->
  exists rows, (sql_claim limit now t).1 = Ok rows /\
    rows ≡ₚ claim_row now <$> candidates now limit t /\
    len rows = Z.min limit (len (pending_rows now t)) /\
    NoDup (oe_ID <$> rows) /\
    (forall e, e ∈ candidates now limit t -> t !! oe_ID e = Some e /\ is_candidate now e = true) /\
    (forall id e, t !! id = Some e ->
       (sql_claim limit now t).2 !! id =
         Some (if decide (e ∈ candidates now limit t) then claim_row now e else e)) /\
    (forall e e' id, e ∈ candidates now limit t -> t !! id = Some e' -> is_candidate now e' = true ->
       e' ∉ candidates now limit t -> oldest_first e e').
Proof.
  intros Hwf Hl. assert (Hk := wf_keyed _ Hwf).
  assert (Hc : (sql_claim limit now t).1 =
    Ok (pg_any_order (claim_row now <$> candidates now limit t))).
  { unfold sql_claim. by destruct (Z.ltb_spec limit 0); [lia|]. }
  pose proof (pg_any_order_perm _ (claim_row now <$> candidates now limit t)) as Hp.
  eexists. split; [done|]. split_and!.
  - done.
  - unfold len. rewrite Hp, length_fmap. unfold candidates. rewrite length_take. lia.
  - rewrite Hp, claim_row_ids. by apply NoDup_candidates.
  - intros e He. destruct (candidates_row _ _ _ _ Hk He) as (?&_&_). split; [done|].
    by apply candidates_sub, elem_of_pending_rows in He as [? _].
  - intros id e He. by apply claim_lookup.
  - intros e e' id He He' Hc' Hn.
    assert (Hs : StronglySorted oldest_first (pending_rows now t))
      by apply (StronglySorted_merge_sort oldest_first).
    assert (He2 : e' ∈ pending_rows now t) by (apply elem_of_pending_rows; eauto).
    unfold candidates in *.
    rewrite <- (take_drop (Z.to_nat limit) (pending_rows now t)) in Hs, He2.
    apply elem_of_app in He2 as [He2|He2]; [done|].
    eapply StronglySorted_app_1_elem_of; eauto.
Qed.

Definition row_status t id (s : string) : Prop :=
  exists e, t !! id = Some e /\ oe_Status e = s.

(** A row that was processing and is pending later was put back by one of the
    statements in between. *)
Lemma requeued_between t1 t2 id :
  wf t1 -> rtc step t1 t2 ->
  row_status t1 id OutboxEventStatusProcessing -> row_status t2 id OutboxEventStatusPending ->
  exists ta tb, rtc step t1 ta /\ step ta tb /\ rtc step tb t2 /\
    row_status ta id OutboxEventStatusProcessing /\ row_status tb id OutboxEventStatusPending.
Proof.
  intros Hwf Hst. revert Hwf. induction Hst as [t|t1 t2 t3 H1 H23 IH]; intros Hwf Hp Hq.
  { destruct Hp as (e&He&Hs), Hq as (e'&He'&Hs'). rewrite He in He'. injection He' as <-.
    rewrite Hs in Hs'. discriminate Hs'. }
  destruct Hp as (e & He & Hs).
  destruct (step_rows _ _ _ _ (wf_keyed _ Hwf) H1 He) as (e2 & He2 & Hr).
  assert (Hwf2 : wf t2) by by eapply step_wf.
  assert (Hdone : terminal e2 -> row_status t3 id OutboxEventStatusPending -> False).
  { intros Ht (e3 & He3 & Hs3).
    rewrite (outbox_terminal_forever_aux _ _ _ _ Hwf2 H23 He2 Ht) in He3.
    injection He3 as <-. destruct Ht as [Ht|Ht]; rewrite Ht in Hs3; discriminate Hs3. }
  assert (Hpend : oe_Status e2 = OutboxEventStatusPending -> exists ta tb,
    rtc step t1 ta /\ step ta tb /\ rtc step tb t3 /\
    row_status ta id OutboxEventStatusProcessing /\ row_status tb id OutboxEventStatusPending).
  { intros He2s. exists t1, t2. split_and!; [done|done|done|by exists e|by exists e2]. }
  destruct Hr; try (by apply Hpend); try (destruct Hdone; [by (left + right)|done]).
  all: destruct IH as (ta & tb & Ha & Hb & ?); [done|by eexists|done|].
  all: exists ta, tb; split; [by eapply rtc_l|done].
Qed.


(** The cleanup gives up exactly the stuck rows: a row that is processing
    and was locked before the cut-off becomes pending and available at once,
    every other row is unchanged, and the answer is their number. *)
Theorem release_exactly_stuck t now before id e :
  t !! id = Some e ->
  (sql_release before now t).2 !! id = Some (if is_stuck before e then released_row now e else e) /\
  (wf_row e -> is_stuck before e = true ->
     is_candidate now (released_row now e) = true /\ wf_row (released_row now e)) /\
  (sql_release before now t).1 =
    Ok (len (filter (λ e, is_stuck before e = true) (map_to_list t).*2)).
Proof.
  intros He. split_and!; [|intros Hwf Hs|done].
  - simpl. by rewrite lookup_fmap, He.
  - apply andb_true_iff in Hs as [Hs _]. apply has_status_iff in Hs. split.
    + unfold is_candidate. simpl. by rewrite !bool_decide_true.
    + eapply row_step_wf; [done|]. by constructor.
Qed.
End TableProperties.

(** ** Pooled statements on the table *)

Section Pooled.
Context {St D : Type} `{HO : !HasOutbox D} `{HD : !Has (pg D) St}.

(** The committed outbox table. *)
Definition tab (s : St) : outbox := outbox_of (db_of s).

(** A pooled statement either has no effect and fails, or runs once, and then
    its answer may still be lost. *)
Lemma wp_pool {A} (s : stmt outbox A) (Q : result A -> world St -> Prop) w :
  (forall e, Q (Err e) (World (tick (w_env w)) (upd (prj (w_st w)) (w_st w)))) ->
  (forall now r p, r = (s now (tab (w_st w))).1 \/ (exists e, r = Err e) ->
     outbox_of (pg_db p) = match (s now (tab (w_st w))).1 with
                           | Ok _ => (s now (tab (w_st w))).2 | Err _ => tab (w_st w) end ->
     pg_tx p = tx_of (w_st w) ->
     Q r (World (tick (w_env w)) (upd p (w_st w)))) ->
  wp (pool_Exec (on_outbox s)) Q w.
Proof.
  intros He Hok. apply wp_lift_pg. intros t f.
  set (p0 := prj (w_st w)) in *.
  assert (Hrun : forall r, r = (s t (tab (w_st w))).1 \/ (exists e, r = Err e) ->
    Q r (World (tick (w_env w)) (upd (pg_pool (on_outbox s) t p0).2 (w_st w)))).
  { intros r Hr. eapply Hok; [done| |].
    - unfold pg_pool, on_outbox, tab, db_of. fold p0.
      destruct (s t (outbox_of (pg_db p0))) as [[a|e] t']; simpl; [apply outbox_of_set|done].
    - unfold pg_pool. by destruct (on_outbox s t (pg_db p0)). }
  destruct f as [|e|e]; simpl.
  - replace (pg_pool (on_outbox s) t p0).1 with (s t (tab (w_st w))).1; [by apply Hrun; left|].
    unfold pg_pool, on_outbox, tab, db_of. fold p0. by destruct (s t (outbox_of (pg_db p0))).
  - apply He.
  - apply Hrun. right. by exists e.
Qed.

Lemma wp_pool_ok {A} (s : stmt outbox A) (Q : result A -> world St -> Prop) w :
  no_faults (w_env w) ->
  (forall now p, now = e_dbnow (w_env w) (e_tick (w_env w)) ->
     outbox_of (pg_db p) = match (s now (tab (w_st w))).1 with
               | Ok _ => (s now (tab (w_st w))).2 | Err _ => tab (w_st w) end ->
     pg_tx p = tx_of (w_st w) ->
     Q (s now (tab (w_st w))).1 (World (tick (w_env w)) (upd p (w_st w)))) ->
  wp (pool_Exec (on_outbox s)) Q w.
Proof.
  intros [Hf _] Hok. apply wp_call. intros t f -> ->. rewrite Hf.
  set (p0 := prj (w_st w)) in *. simpl.
  specialize (Hok (e_dbnow (w_env w) (e_tick (w_env w)))
                  (pg_pool (on_outbox s) (e_dbnow (w_env w) (e_tick (w_env w))) p0).2 eq_refl).
  unfold pg_pool, on_outbox, tab, db_of in *. fold p0 in Hok.
  destruct (s _ (outbox_of (pg_db p0))) as [[a|e] t']; simpl in *;
    apply Hok; rewrite ?outbox_of_set; done.
Qed.

Context `{PgTypes}.

(** Seen from the table, every store operation is at most one [step]. *)
Lemma pool_step {A} (s : stmt outbox A) w (Q : result A -> world St -> Prop) :
  (forall now t, step t (s now t).2 /\ is_Ok (s now t).1 = true \/ (s now t).2 = t) ->
  (forall r w', (tab (w_st w') = tab (w_st w) \/ step (tab (w_st w)) (tab (w_st w'))) ->
     w_env w' = tick (w_env w) -> Q r w') ->
  wp (pool_Exec (on_outbox s)) Q w.
Proof.
  intros Hs HQ. apply wp_pool.
  - intros e. apply HQ; [|done]. left. unfold tab, db_of. simpl. by rewrite prj_upd.
  - intros now r p _ Hp _. apply HQ; [|done]. unfold tab at 1 4, db_of. simpl.
    rewrite prj_upd, Hp. destruct (Hs now (tab (w_st w))) as [[Hst Hr]|Heq].
    + destruct (s now _).1; [by right|done].
    + left. destruct (s now _).1; done.
Qed.
End Pooled.

(** ** The worker *)

Record worker_config := {
  wc_pollInterval : Z; wc_batchSize : Z; wc_maxRetries : Z; wc_processingTimeout : Z
}.

(** What the worker asks of its publisher: a call that appends the record of the
    event to the log, or fails with or without having appended it, touches
    nothing of the database, and delivers the events it supports when nothing
    fails. *)
Class EventPublisher (St D : Type) `{!Has (pg D) St} `{!Has kafka St} := {
  publish : OutboxEvent -> M St (result unit);
  event_record : OutboxEvent -> krecord;
  deliverable : OutboxEvent -> Prop;
  event_record_same e e' : same_event e e' -> event_record e' = event_record e;
  deliverable_same e e' : same_event e e' -> deliverable e -> deliverable e';
  publish_spec e : st_spec (publish e) (λ s r s',
    match r with
    | Ok _ => k_log (prj s') = k_log (prj s) ++ [event_record e]
    | Err _ => k_log (prj s') = k_log (prj s) \/
               k_log (prj s') = k_log (prj s) ++ [event_record e]
    end);
  publish_frame e : frames (prj (X := pg D)) (publish e);
  publish_ticks e : ticks (publish e);
  publish_delivers e w :
    no_faults (w_env w) -> deliverable e ->
    wp (publish e) (λ r w', r = Ok tt /\ exists n, w_env w' = Nat.iter n tick (w_env w)) w
}.

Section Worker.
Context {St D : Type} `{PgTypes} `{U : GoLib} `{HO : !HasOutbox D} `{HD : !Has (pg D) St}
  `{HK : !Has kafka St} `{HP : !EventPublisher St D}
  `{AK : !Apart (pg D) kafka St} `{AP : !Apart kafka (pg D) St}.
Variable cfg : worker_config.

(** A final log line keeps no result. *)
Definition logged {A} (m : M St (result A)) : M St unit := m ;;! mret tt.

Definition handleSendError (event : OutboxEvent) (sendErr : error) : M St unit :=
  let nextRetryCount := oe_RetryCount event + 1 in
  let errText := error_text sendErr in
  if wc_maxRetries cfg <=? oe_RetryCount event then logged (MarkFailed event errText)
  else
    let backoff := wrap_s 64 (nextRetryCount * wc_pollInterval cfg) in
    let! now := time_Now in
    logged (ScheduleRetry event (now + backoff) errText).

Definition processEvent (event : OutboxEvent) : M St unit :=
  let! r := publish event in
  match r with
  | Err e => handleSendError event e
  | Ok _ => logged (MarkPublished event)
  end.

Definition processBatch : M St unit :=
  let! r := ClaimPendingEvents (wc_batchSize cfg) in
  match r with
  | Err _ => mret tt
  | Ok events =>
      for_each events (λ event,
        let! c := ctx_Err in
        match c with
        | Some _ => mret (Some tt)
        | None => processEvent event ;;! mret None
        end) ;;! mret tt
  end.

Definition releaseStuck : M St unit :=
  let! now := time_Now in
  let stuckBefore := now + - wc_processingTimeout cfg in
  logged (ReleaseStuckEvents stuckBefore).

(** The select loop until the context ends, for the sequence of timer ticks it
    receives. *)
Inductive ticker := PollTick | CleanupTick.

Fixpoint Run_loop (ticks : list ticker) : M St (result unit) :=
  match ticks with
  | [] => mret (Ok tt)
  | PollTick :: ticks => processBatch ;;! Run_loop ticks
  | CleanupTick :: ticks => releaseStuck ;;! Run_loop ticks
  end.

Definition Run (nilContext : bool) (ticks : list ticker) : M St (result unit) :=
  if nilContext then mret (Err (ESentinel ErrNilContext))
  else releaseStuck ;;! processBatch ;;! Run_loop ticks.

(** *** One event *)

Definition log_of (s : St) : list krecord := k_log (prj s).

Context `{HT : !PgTypesLaws _}.

Section Protocol.
Variable e0 : env.

(** The worker was started in the environment [e0]; a reading of its clock. *)
Definition in_run (w : world St) : Prop := exists n, w_env w = Nat.iter n tick e0.
Definition clock (x : Z) : Prop := exists k, x = e_now e0 k.

Lemma in_run_tick w s : in_run w -> in_run (World (tick (w_env w)) s).
Proof. intros [n Hn]. exists (S n). simpl. by rewrite Hn. Qed.

Lemma in_run_now w k : in_run w -> clock (e_now (w_env w) k).
Proof. intros [n ->]. exists k. induction n; simpl; done. Qed.

Lemma in_run_wp {A} (m : M St A) w : ticks m -> in_run w -> wp m (λ _ w', in_run w') w.
Proof.
  intros Hm [n Hn]. eapply wp_mono; [by apply ticks_wp|]. simpl. intros _ w' [k Hk].
  exists (k + n)%nat. by rewrite Hk, Hn, Nat.iter_add.
Qed.

(** Publishing [e] in this run answered [r] and left the log [l]. *)
Definition sends (e : OutboxEvent) (s : St) (r : result unit) (l : list krecord) : Prop :=
  exists w w', in_run w /\ w_st w = s /\ publish e w = (r, w') /\ log_of (w_st w') = l.

Lemma sends_log e s r l : sends e s r l ->
  l = log_of s ++ [event_record e] \/ (l = log_of s /\ exists err, r = Err err).
Proof.
  intros (w & w' & _ & <- & Hp & <-). pose proof (publish_spec e w) as H1. unfold wp in H1.
  rewrite Hp in H1. simpl in H1. destruct r as [[]|err]; [by left|].
  destruct H1 as [H1|H1]; [right; by eauto|by left].
Qed.

(** When the worker publishes an event again, and when it gives it up. *)
Definition next_attempt (e : OutboxEvent) (now : Z) : Z :=
  now + wrap_s 64 ((oe_RetryCount e + 1) * wc_pollInterval cfg).

(** What processing a claimed event may leave behind, by the publisher's answer. *)
Inductive event_outcome (e : OutboxEvent) (s s' : St) : Prop :=
| out_none r : sends e s r (log_of s') -> tab s' = tab s -> event_outcome e s s'
| out_published now : sends e s (Ok tt) (log_of s') ->
    tab s' = <[oe_ID e := published_row now e]> (tab s) -> event_outcome e s s'
| out_retry err clk now : sends e s (Err err) (log_of s') -> clock clk ->
    oe_RetryCount e < wc_maxRetries cfg ->
    tab s' = <[oe_ID e := retry_row (next_attempt e clk) (error_text err) now e]> (tab s) ->
    event_outcome e s s'
| out_failed err now : sends e s (Err err) (log_of s') -> wc_maxRetries cfg <= oe_RetryCount e ->
    tab s' = <[oe_ID e := failed_row (error_text err) now e]> (tab s) -> event_outcome e s s'.

Lemma wp_update_processing e f (Q : result Z -> world St -> Prop) w :
  tab (w_st w) !! oe_ID e = Some e -> oe_Status e = OutboxEventStatusProcessing ->
  in_run w ->
  (forall r w', in_run w' -> log_of (w_st w') = log_of (w_st w) ->
     (tab (w_st w') = tab (w_st w) \/
      exists now, tab (w_st w') = <[oe_ID e := f now e]> (tab (w_st w))) -> Q r w') ->
  wp (pool_Exec (on_outbox (sql_update_processing (oe_ID e) f))) Q w.
Proof.
  intros He Hs Hrun HQ.
  assert (Hlog : forall p : pg D, log_of (upd p (w_st w)) = log_of (w_st w)).
  { intros p. unfold log_of. by rewrite prj_apart. }
  apply wp_pool.
  - intros e'. apply HQ; simpl; [by apply in_run_tick|done|]. left. unfold tab, db_of. by rewrite prj_upd.
  - intros now r p _ Hp _. apply HQ; simpl; [by apply in_run_tick|done|]. right. exists now.
    unfold tab at 1, db_of. rewrite prj_upd, Hp. unfold sql_update_processing.
    rewrite He. apply has_status_iff in Hs as ->. done.
Qed.

Lemma wp_logged {A} (m : M St (result A)) (Q : unit -> world St -> Prop) w :
  wp m (λ _ w', Q tt w') w -> wp (logged m) Q w.
Proof. intros Hm. unfold logged. apply wp_bind. by eapply wp_mono; [apply Hm|]. Qed.

Lemma tab_frame {A} (m : M St A) : frames (prj (X := pg D)) m -> frames tab m.
Proof.
  intros Hf w. eapply wp_mono; [by apply frames_db_of|]. unfold tab. simpl. by intros _ w' ->.
Qed.

Lemma handleSendError_spec e err w s0 :
  tab (w_st w) !! oe_ID e = Some e -> oe_Status e = OutboxEventStatusProcessing ->
  tab (w_st w) = tab s0 -> in_run w -> sends e s0 (Err err) (log_of (w_st w)) ->
  wp (handleSendError e err) (λ _ w', in_run w' /\ event_outcome e s0 (w_st w')) w.
Proof.
  intros He Hs Ht Hrun Hl. unfold handleSendError.
  destruct (Z.leb_spec (wc_maxRetries cfg) (oe_RetryCount e)) as [Hm|Hm].
  - unfold MarkFailed. apply wp_logged. wp_steps. apply wp_update_processing; [done..|].
    intros r w' Hr Hlog Htab. wp_steps. rewrite Ht in Htab. rewrite <- Hlog in Hl. split; [done|].
    destruct Htab as [Htab|[now Htab]]; [by eapply out_none|by eapply out_failed].
  - wp_steps. apply wp_logged. unfold ScheduleRetry. wp_steps.
    apply wp_update_processing; [done..|by apply in_run_tick|]. simpl.
    intros r w' Hr Hlog Htab. wp_steps. rewrite Ht in Htab. rewrite <- Hlog in Hl. split; [done|].
    destruct Htab as [Htab|[now Htab]]; [by eapply out_none|].
    eapply out_retry; [done|by apply (in_run_now w (e_tick (w_env w)))|done|done].
Qed.

Lemma processEvent_spec e w :
  tab (w_st w) !! oe_ID e = Some e -> oe_Status e = OutboxEventStatusProcessing -> in_run w ->
  wp (processEvent e) (λ _ w', in_run w' /\ event_outcome e (w_st w) (w_st w')) w.
Proof.
  intros He Hs Hrun. unfold processEvent. apply wp_bind.
  assert (Ht := tab_frame _ (publish_frame e) w). assert (Hr := in_run_wp _ w (publish_ticks e) Hrun).
  unfold wp in Ht, Hr |- *. destruct (publish e w) as [r w1] eqn:Ep. simpl in *.
  assert (Hsend : sends e (w_st w) r (log_of (w_st w1))) by (by exists w, w1).
  set (Q := λ (_ : unit) w', in_run w' /\ event_outcome e (w_st w) (w_st w')).
  destruct r as [[]|err].
  - change (wp (logged (MarkPublished e)) Q w1). apply wp_logged. unfold MarkPublished. wp_steps.
    apply wp_update_processing; [by rewrite Ht|done|done|].
    intros r w2 Hr2 Hlog2 Htab2. wp_steps. rewrite Ht in Htab2. rewrite <- Hlog2 in Hsend.
    split; [done|]. destruct Htab2 as [Htab2|[now Htab2]]; [by eapply out_none|by eapply out_published].
  - change (wp (handleSendError e err) Q w1).
    apply handleSendError_spec; [by rewrite Ht|done|done|done|done].
Qed.

(** *** Invariants of the whole worker *)

(** A property of the table and the log that every move of the worker keeps is
    kept by the worker. *)
Record worker_inv (J : St -> Prop) : Prop := {
  wi_wf s : J s -> wf (tab s);
  wi_same s s' : J s -> tab s' = tab s -> log_of s' = log_of s -> J s';
  wi_claim s s' now : J s -> 0 <= wc_batchSize cfg ->
    tab s' = (sql_claim (wc_batchSize cfg) now (tab s)).2 -> log_of s' = log_of s -> J s';
  wi_release s s' clk now : J s -> clock clk ->
    tab s' = (sql_release (clk - wc_processingTimeout cfg) now (tab s)).2 ->
    log_of s' = log_of s -> J s';
  wi_outcome s s' e : J s -> tab s !! oe_ID e = Some e ->
    oe_Status e = OutboxEventStatusProcessing -> event_outcome e s s' -> J s'
}.

Lemma log_of_upd (p : pg D) s : log_of (upd p s) = log_of s.
Proof. unfold log_of. by rewrite prj_apart. Qed.

Lemma tab_upd (p : pg D) s : tab (upd p s) = outbox_of (pg_db p).
Proof. unfold tab, db_of. by rewrite prj_upd. Qed.

(** The rows a claim hands out are those now stored, processing, one per id. *)
Lemma claim_rows_held now limit t rows :
  wf t -> (sql_claim limit now t).1 = Ok rows ->
  0 <= limit /\ NoDup (oe_ID <$> rows) /\
  forall e, e ∈ rows -> (sql_claim limit now t).2 !! oe_ID e = Some e /\
                        oe_Status e = OutboxEventStatusProcessing.
Proof.
  intros Hwf H1. pose proof (wf_keyed _ Hwf) as Hk. unfold sql_claim in *.
  destruct (Z.ltb_spec limit 0) as [|Hl]; [done|]. injection H1 as <-. split; [done|].
  pose proof (pg_any_order_perm _ (claim_row now <$> candidates now limit t)) as Hp. split.
  - rewrite Hp, claim_row_ids. by apply NoDup_candidates.
  - intros e He. rewrite Hp in He. simpl. split.
    + apply upsert_rows_in; [|done]. rewrite claim_row_ids. by apply NoDup_candidates.
    + by apply list_elem_of_fmap in He as (e1 & -> & _).
Qed.

Lemma wp_claim J (Q : result (list OutboxEvent) -> world St -> Prop) w :
  worker_inv J -> J (w_st w) -> in_run w ->
  (forall e w', in_run w' -> J (w_st w') -> Q (Err e) w') ->
  (forall rows w', in_run w' -> J (w_st w') -> NoDup (oe_ID <$> rows) ->
     (forall e, e ∈ rows -> tab (w_st w') !! oe_ID e = Some e /\
                            oe_Status e = OutboxEventStatusProcessing) -> Q (Ok rows) w') ->
  wp (ClaimPendingEvents (wc_batchSize cfg)) Q w.
Proof.
  intros HJ Hw Hrun He Hok. unfold ClaimPendingEvents. wp_steps. apply wp_pool.
  - intros e. wp_steps. apply He; [by apply in_run_tick|]. simpl. eapply wi_same; [done..| |].
    + rewrite tab_upd. done.
    + apply log_of_upd.
  - intros now r p Hr Hp _. wp_steps. pose proof (λ s, in_run_tick w s Hrun) as Hrun'.
    destruct (sql_claim (wc_batchSize cfg) now (tab (w_st w))).1 as [rows|err0] eqn:Ec.
    + assert (Hc := claim_rows_held now _ _ rows (wi_wf _ HJ _ Hw) Ec).
      destruct Hc as (Hl & Hnd & Hrows).
      assert (HJ' : J (upd p (w_st w))).
      { eapply (wi_claim _ HJ _ _ now Hw Hl); [by rewrite tab_upd|apply log_of_upd]. }
      destruct Hr as [->|[e ->]]; simpl; [|by apply He].
      apply Hok; [done|done|done|]. intros e Hin. simpl. rewrite tab_upd, Hp. by apply Hrows.
    + assert (HJ' : J (upd p (w_st w))).
      { eapply wi_same; [done|done|by rewrite tab_upd|apply log_of_upd]. }
      destruct Hr as [->|[e ->]]; simpl; by apply He.
Qed.

Lemma event_outcome_other e s s' id : event_outcome e s s' -> id <> oe_ID e ->
  tab s' !! id = tab s !! id.
Proof. destruct 1 as [? _ Ht|? _ Ht|? ? ? _ _ _ Ht|? ? _ _ Ht]; rewrite Ht; intros; simplify_map_eq/=; done. Qed.

(** What every part of the worker keeps. *)
Definition kept (J : St -> Prop) (w : world St) : Prop := in_run w /\ J (w_st w).

Lemma processBatch_inv J w : worker_inv J -> kept J w -> wp processBatch (λ _ w', kept J w') w.
Proof.
  intros HJ [Hrun Hw]. unfold processBatch. apply wp_bind.
  apply (wp_claim J); [done|done|done|by intros; wp_steps|].
  intros rows w1 Hrun1 HJ1 Hnd Hrows. wp_steps. eapply wp_mono.
  - apply (wp_for_each rows _ (λ done w', kept J w' /\
      forall e, e ∈ rows -> e ∉ done -> tab (w_st w') !! oe_ID e = Some e /\
                            oe_Status e = OutboxEventStatusProcessing) (λ _ w', kept J w')).
    + split; [done|]. auto.
    + intros dn x rest w2 Hl [[Hrun2 HJ2] Hheld]. wp_steps.
      destruct (e_ctx _ _); [wp_steps; split; [by apply in_run_tick|done]|].
      assert (Hx : x ∉ dn).
      { rewrite Hl, fmap_app in Hnd. apply NoDup_app in Hnd as (_ & Hnd & _).
        intros Hx. apply (Hnd (oe_ID x)); [by apply list_elem_of_fmap_2|]. simpl. by left. }
      destruct (Hheld x) as [Hrow Hs]; [rewrite Hl; set_solver|done|].
      wp_steps. eapply wp_mono; [by apply processEvent_spec, in_run_tick|]. simpl.
      intros _ w3 [Hrun3 Hout]. wp_steps. split; [split; [done|by eapply wi_outcome]|].
      intros e He Hn. destruct (Hheld e) as [Hrow' Hs']; [done|set_solver|].
      rewrite (event_outcome_other _ _ _ _ Hout); [done|].
      intros Heq. rewrite <- Heq, Hrow' in Hrow. assert (e = x) by congruence. set_solver.
  - intros [[]|] w2; wp_steps; [done|]. intros [? _]. by wp_steps.
Qed.

Lemma releaseStuck_inv J w : worker_inv J -> kept J w -> wp releaseStuck (λ _ w', kept J w') w.
Proof.
  intros HJ [Hrun Hw]. unfold releaseStuck. wp_steps. apply wp_logged. unfold ReleaseStuckEvents.
  pose proof (λ s, in_run_tick _ s (in_run_tick w (w_st w) Hrun)) as Hrun'.
  wp_steps. apply wp_pool; simpl.
  - intros e. wp_steps. split; [done|]. simpl. eapply wi_same; [done..| |]; [by rewrite tab_upd|apply log_of_upd].
  - intros now r p _ Hp _. wp_steps. split; [done|]. simpl.
    eapply (wi_release _ HJ _ _ (e_now (w_env w) (e_tick (w_env w))) now Hw);
      [by apply in_run_now|by rewrite tab_upd, Hp|apply log_of_upd].
Qed.

Lemma Run_loop_inv J ticks w : worker_inv J -> kept J w ->
  wp (Run_loop ticks) (λ _ w', kept J w') w.
Proof.
  intros HJ. revert w. induction ticks as [|[] ticks IH]; intros w Hw; simpl; wp_steps; [done|..].
  - eapply wp_mono; [by apply (processBatch_inv J)|]. simpl. intros _ w1 H1. by apply IH.
  - eapply wp_mono; [by apply (releaseStuck_inv J)|]. simpl. intros _ w1 H1. by apply IH.
Qed.

Lemma Run_kept J nil ticks w : worker_inv J -> kept J w ->
  wp (Run nil ticks) (λ _ w', kept J w') w.
Proof.
  intros HJ Hw. unfold Run. destruct nil; [by wp_steps|].
  wp_steps. eapply wp_mono; [by apply (releaseStuck_inv J)|]. simpl. intros _ w1 H1. wp_steps.
  eapply wp_mono; [by apply (processBatch_inv J)|]. simpl. intros _ w2 H2. by apply Run_loop_inv.
Qed.

Lemma outcome_step s s' e :
  tab s !! oe_ID e = Some e -> oe_Status e = OutboxEventStatusProcessing ->
  event_outcome e s s' -> tab s' = tab s \/ step (tab s) (tab s').
Proof.
  intros He Hs Hout.
  assert (Hup : forall f now, (sql_update_processing (oe_ID e) f now (tab s)).2 =
                              <[oe_ID e := f now e]> (tab s)).
  { intros f now. unfold sql_update_processing. rewrite He.
    by apply has_status_iff in Hs as ->. }
  destruct Hout as [r _ Ht|now _ Ht|err clk now _ _ _ Ht|err now _ _ Ht]; [by left|..];
    right; rewrite Ht, <- Hup; constructor.
Qed.

Lemma outcome_log s s' e : event_outcome e s s' ->
  log_of s' = log_of s \/ log_of s' = log_of s ++ [event_record e].
Proof. destruct 1 as [? Hl|? Hl|? ? ? Hl|? ? Hl]; apply sends_log in Hl; tauto. Qed.

(** *** Seen from the table alone *)

Definition refines_steps (t0 : outbox) (s : St) : Prop := wf (tab s) /\ rtc step t0 (tab s).

Lemma refines_steps_inv t0 : worker_inv (refines_steps t0).
Proof.
  assert (Hstep : forall t t', refines_steps t0 t -> step (tab t) (tab t') -> refines_steps t0 t').
  { intros s s' [Hwf Hst] H1. split; [by eapply step_wf|]. by eapply rtc_r. }
  split.
  - by intros s [].
  - intros s s' [Hwf Hst] Ht _. by split; rewrite Ht.
  - intros s s' now HJ _ Ht _. eapply Hstep; [done|]. rewrite Ht. constructor.
  - intros s s' clk now HJ _ Ht _. eapply Hstep; [done|]. rewrite Ht. constructor.
  - intros s s' e HJ He Hs Hout. destruct (outcome_step _ _ _ He Hs Hout) as [Ht|Ht].
    + destruct HJ. by split; rewrite Ht.
    + by eapply Hstep.
Qed.

(** *** The worker's protocol

    Between two events the worker releases stuck rows, by its own clock, and
    claims a batch. It sends an event whose row it holds, and what it may then
    do to the row depends on the publisher's answer: publish it after a
    success, and after a failure put it back with the next attempt delayed, or
    give it up. docs.md, section 11, gives an event up when the new count
    reaches the limit, the code when it passes it: the protocol allows either
    at the limit. A statement may also be lost. *)
Inductive phase :=
| Idle
| Answered (event : OutboxEvent) (answer : result unit).

Definition protocol_state : Type := outbox * list krecord * phase.

(** Some call of the publisher in this run answered [r]; the log has the record
    if it succeeded, and may have it if it failed. *)
Definition send_answer (e : OutboxEvent) (l : list krecord) (r : result unit) (l' : list krecord) : Prop :=
  (exists w w', in_run w /\ log_of (w_st w) = l /\ publish e w = (r, w')) /\
  (l' = l ++ [event_record e] \/ (l' = l /\ r <> Ok tt)).

Inductive worker_step : protocol_state -> protocol_state -> Prop :=
| wk_release t l clk now : clock clk ->
    worker_step (t, l, Idle) ((sql_release (clk - wc_processingTimeout cfg) now t).2, l, Idle)
| wk_claim t l now : 0 <= wc_batchSize cfg ->
    worker_step (t, l, Idle) ((sql_claim (wc_batchSize cfg) now t).2, l, Idle)
| wk_send t l e r l' :
    t !! oe_ID e = Some e -> oe_Status e = OutboxEventStatusProcessing -> send_answer e l r l' ->
    worker_step (t, l, Idle) (t, l', Answered e r)
| wk_published t l e now :
    worker_step (t, l, Answered e (Ok tt)) (<[oe_ID e := published_row now e]> t, l, Idle)
| wk_retry t l e err clk now : clock clk -> oe_RetryCount e + 1 <= wc_maxRetries cfg ->
    worker_step (t, l, Answered e (Err err))
      (<[oe_ID e := retry_row (next_attempt e clk) (error_text err) now e]> t, l, Idle)
| wk_failed t l e err now : wc_maxRetries cfg <= oe_RetryCount e + 1 ->
    worker_step (t, l, Answered e (Err err)) (<[oe_ID e := failed_row (error_text err) now e]> t, l, Idle)
| wk_lost t l e r : worker_step (t, l, Answered e r) (t, l, Idle).

Definition at_rest (s : St) : protocol_state := (tab s, log_of s, Idle).

Definition refines_protocol (x : protocol_state) (s : St) : Prop :=
  wf (tab s) /\ rtc worker_step x (at_rest s).

Lemma outcome_protocol s s' e :
  tab s !! oe_ID e = Some e -> oe_Status e = OutboxEventStatusProcessing ->
  event_outcome e s s' -> rtc worker_step (at_rest s) (at_rest s').
Proof.
  intros He Hs Hout.
  assert (Hsend : forall r t', sends e s r (log_of s') ->
    worker_step (tab s, log_of s', Answered e r) (t', log_of s', Idle) ->
    rtc worker_step (at_rest s) (t', log_of s', Idle)).
  { intros r t' Hr Hst. eapply rtc_l; [|by apply rtc_once]. apply wk_send; [done|done|]. split.
    - destruct Hr as (w & w' & Hrun & <- & Hp & _). by exists w, w'.
    - destruct (sends_log _ _ _ _ Hr) as [Hl|[Hl [err ->]]]; auto. }
  unfold at_rest. destruct Hout as [r Hr Ht|now Hr Ht|err clk now Hr Hclk Hlt Ht|err now Hr Hge Ht];
    rewrite Ht; (eapply Hsend; [done|]); constructor; try done; lia.
Qed.

Lemma refines_protocol_inv x : worker_inv (refines_protocol x).
Proof.
  assert (Hstep : forall s s', refines_protocol x s -> step (tab s) (tab s') ->
    worker_step (at_rest s) (at_rest s') -> refines_protocol x s').
  { intros s s' [Hwf Hst] H1 H2. split; [by eapply step_wf|]. by eapply rtc_r. }
  split.
  - by intros s [].
  - intros s s' [Hwf Hst] Ht Hl. split; [by rewrite Ht|]. unfold at_rest in *. by rewrite Ht, Hl.
  - intros s s' now HJ Hb Ht Hl.
    eapply Hstep; [done|rewrite Ht; constructor|]. unfold at_rest. rewrite Ht, Hl. by constructor.
  - intros s s' clk now HJ Hclk Ht Hl.
    eapply Hstep; [done|rewrite Ht; constructor|]. unfold at_rest. rewrite Ht, Hl. by constructor.
  - intros s s' e [Hwf Hst] He Hs Hout. split.
    + destruct (outcome_step _ _ _ He Hs Hout) as [->|Ht]; [done|by eapply step_wf].
    + etrans; [done|by eapply outcome_protocol].
Qed.

(** *** Two invariants *)

(** Every published row has its message in the log. *)
Definition published_logged (s : St) : Prop :=
  wf (tab s) /\
  forall id e, tab s !! id = Some e -> oe_Status e = OutboxEventStatusPublished ->
    event_record e ∈ log_of s.

(** A step that publishes nothing, with a log that only grows. *)
Lemma published_logged_step s s' :
  published_logged s -> wf (tab s') -> (exists l, log_of s' = log_of s ++ l) ->
  (forall id e', tab s' !! id = Some e' -> oe_Status e' = OutboxEventStatusPublished ->
     tab s !! id = Some e' \/ event_record e' ∈ log_of s') ->
  published_logged s'.
Proof.
  intros [_ Hp] Hwf [l Hl] Hrows. split; [done|]. intros id e' He' Hs.
  destruct (Hrows _ _ He' Hs) as [Hold|]; [|done].
  rewrite Hl. apply elem_of_app. left. by eapply Hp.
Qed.

Lemma published_logged_inv : worker_inv published_logged.
Proof.
  assert (Hquiet : forall s s', published_logged s -> step (tab s) (tab s') ->
    log_of s' = log_of s ->
    (forall id e e', tab s !! id = Some e -> tab s' !! id = Some e' ->
       e' = e \/ oe_Status e' <> OutboxEventStatusPublished) -> published_logged s').
  { intros s s' HJ Hst Hl Hrows. eapply published_logged_step; [done| | |].
    - eapply step_wf, Hst. by destruct HJ.
    - exists []. by rewrite app_nil_r.
    - intros id e' He' Hs. left. destruct HJ as [Hwf _].
      destruct (step_back _ _ _ _ (wf_keyed _ Hwf) Hst He')
        as [(e & He & _)|(_&?&?&_&Hs'&_)]; [|by rewrite Hs' in Hs].
      destruct (Hrows _ _ _ He He') as [->|]; done. }
  split.
  - by intros s [].
  - intros s s' [Hwf Hp] Ht Hl. split; [by rewrite Ht|]. rewrite Ht, Hl. done.
  - intros s s' now HJ Hlim Ht Hl. eapply Hquiet; [done|rewrite Ht; constructor|done|].
    intros id e e' He. rewrite Ht, (claim_lookup _ _ _ _ e); [|by apply wf_keyed; destruct HJ|done|done].
    case_decide; intros [= <-]; [by right|by left].
  - intros s s' clk now HJ _ Ht Hl. eapply Hquiet; [done|rewrite Ht; constructor|done|].
    intros id e e' He. rewrite Ht. simpl. rewrite lookup_fmap, He. simpl.
    case_match; intros [= <-]; [by right|by left].
  - intros s s' e HJ He Hs Hout. pose proof (outcome_log _ _ _ Hout) as Hl.
    eapply published_logged_step; [done| | |].
    + destruct (outcome_step _ _ _ He Hs Hout) as [Ht|Ht]; [rewrite Ht; by destruct HJ|].
      eapply step_wf, Ht. by destruct HJ.
    + destruct Hl as [Hl|Hl]; [exists []; by rewrite app_nil_r|by eexists].
    + intros id e' He' Hs'. destruct (decide (id = oe_ID e)) as [->|Hne];
        [|left; by rewrite <- (event_outcome_other _ _ _ _ Hout)].
      destruct Hout as [r _ Ht|now Hr Ht|err clk now _ _ _ Ht|err now _ _ Ht]; rewrite Ht in He'.
      * by left.
      * rewrite lookup_insert_eq in He'. injection He' as <-. right.
        rewrite (event_record_same e) by apply oe_set_same.
        destruct (sends_log _ _ _ _ Hr) as [->|[_ [? ?]]]; [set_solver|done].
      * rewrite lookup_insert_eq in He'. by injection He' as <-.
      * rewrite lookup_insert_eq in He'. by injection He' as <-.
Qed.

(** A row that may still be sent has used at most [maxRetries] retries; a
    failed one has used them all. *)
Definition row_bounded (e : OutboxEvent) : Prop :=
  if has_status OutboxEventStatusFailed e then oe_RetryCount e = wc_maxRetries cfg + 1
  else oe_RetryCount e <= wc_maxRetries cfg.

Definition retry_bounded (s : St) : Prop :=
  wf (tab s) /\ forall id e, tab s !! id = Some e -> row_bounded e.

Lemma retry_bounded_inv : worker_inv retry_bounded.
Proof.
  assert (Hother : forall e e', has_status OutboxEventStatusFailed e = false ->
    has_status OutboxEventStatusFailed e' = false -> oe_RetryCount e' = oe_RetryCount e ->
    row_bounded e -> row_bounded e').
  { unfold row_bounded. intros e e' -> -> ->. done. }
  split.
  - by intros s [].
  - intros s s' [Hwf Hp] Ht _. split; by rewrite Ht.
  - intros s s' now [Hwf Hp] Hlim Ht _. split; [eapply step_wf; [done|rewrite Ht; constructor]|].
    intros id e'. rewrite Ht. destruct (tab s !! id) as [e|] eqn:He.
    + rewrite (claim_lookup _ _ _ _ e); [|by apply wf_keyed|done|done].
      case_decide as Hin; intros [= <-]; [|by eapply Hp].
      apply candidates_row in Hin as (_&Hs&_); [|by apply wf_keyed].
      eapply (Hother e); [|done|done|by eapply Hp]. unfold has_status. by rewrite Hs.
    + rewrite claim_lookup_None; [done|by apply wf_keyed|done].
  - intros s s' clk now [Hwf Hp] _ Ht _. split; [eapply step_wf; [done|rewrite Ht; constructor]|].
    intros id e'. rewrite Ht. simpl. rewrite lookup_fmap. destruct (tab s !! id) as [e|] eqn:He; [|done].
    simpl. intros [= <-]. destruct (is_stuck _ e) eqn:Es; [|by eapply Hp].
    apply andb_true_iff in Es as [Es _]. apply has_status_iff in Es.
    eapply (Hother e); [|done|done|by eapply Hp]. unfold has_status. by rewrite Es.
  - intros s s' e [Hwf Hp] He Hs Hout. split.
    { destruct (outcome_step _ _ _ He Hs Hout) as [Ht|Ht]; [by rewrite Ht|by eapply step_wf]. }
    intros id e' He'. destruct (decide (id = oe_ID e)) as [->|Hne];
      [|rewrite (event_outcome_other _ _ _ _ Hout) in He' by done; by eapply Hp].
    assert (Hb : oe_RetryCount e <= wc_maxRetries cfg).
    { specialize (Hp _ _ He). unfold row_bounded, has_status in Hp. by rewrite Hs in Hp. }
    destruct Hout as [r _ Ht|now _ Ht|err clk now _ _ Hlt Ht|err now _ Hge Ht]; rewrite Ht in He';
      [by eapply Hp|rewrite lookup_insert_eq in He'; injection He' as <-..];
      unfold row_bounded; simpl; lia.
Qed.
End Protocol.

Lemma Run_inv J nil ticks w : worker_inv (w_env w) J -> J (w_st w) ->
  wp (Run nil ticks) (λ _ w', J (w_st w')) w.
Proof.
  intros HJ Hw. eapply wp_mono; [apply (Run_kept (w_env w) J); [done|split; [by exists 0%nat|done]]|].
  by intros _ w' [_ ?].
Qed.

(** *** Runs without failures *)

Lemma no_faults_iter n e : no_faults e -> no_faults (Nat.iter n tick e).
Proof. induction n; simpl; auto with go. Qed.

(** Time does not move backwards past what [available_at] asks: here only the
    readings of a clock matter, so they are those of the initial
    environment. *)
Lemma iter_dbnow n e : e_dbnow (Nat.iter n tick e) = e_dbnow e.
Proof. by induction n. Qed.

Lemma processEvent_ok e w :
  no_faults (w_env w) -> deliverable e ->
  tab (w_st w) !! oe_ID e = Some e -> oe_Status e = OutboxEventStatusProcessing ->
  wp (processEvent e) (λ _ w',
    (exists n, w_env w' = Nat.iter n tick (w_env w)) /\
    (exists now, tab (w_st w') = <[oe_ID e := published_row now e]> (tab (w_st w))) /\
    log_of (w_st w') = log_of (w_st w) ++ [event_record e]) w.
Proof.
  intros Hnf Hd He Hs. unfold processEvent. apply wp_bind.
  eapply wp_mono; [apply wp_conj; [by apply publish_delivers|
    apply wp_conj; [apply publish_spec|apply tab_frame, publish_frame]]|].
  simpl. intros r w' ([-> [n Hn]] & Hlog & Ht).
  apply wp_logged. unfold MarkPublished. wp_steps. apply wp_pool_ok.
  { rewrite Hn. by apply no_faults_iter. }
  intros now p _ Hp _. wp_steps. split_and!.
  - exists (S n). simpl. by rewrite Hn.
  - exists now. rewrite tab_upd, Hp, Ht. unfold sql_update_processing. rewrite He.
    by apply has_status_iff in Hs as ->.
  - rewrite log_of_upd. unfold log_of. done.
Qed.

Lemma ClaimPendingEvents_ok limit (Q : result (list OutboxEvent) -> world St -> Prop) w :
  no_faults (w_env w) -> 0 <= limit ->
  (forall now p, now = e_dbnow (w_env w) (e_tick (w_env w)) ->
     outbox_of (pg_db p) = (sql_claim limit now (tab (w_st w))).2 ->
     Q (Ok (pg_any_order (claim_row now <$> candidates now limit (tab (w_st w)))))
       (World (tick (w_env w)) (upd p (w_st w)))) ->
  wp (ClaimPendingEvents limit) Q w.
Proof.
  intros Hnf Hl HQ. unfold ClaimPendingEvents. wp_steps. apply wp_pool_ok; [done|].
  intros now p Hnow Hp _. specialize (HQ now p Hnow). wp_steps. unfold sql_claim in *.
  destruct (Z.ltb_spec limit 0); [lia|]. by apply HQ.
Qed.

(** After a run: the environment is the same but for the questions asked, the
    claimed rows are published, the other rows unchanged. *)
Definition batch_done (w : world St) (claimed : list OutboxEvent) (now : Z) (w' : world St) : Prop :=
  (exists n, w_env w' = Nat.iter n tick (w_env w)) /\
  log_of (w_st w') =
    log_of (w_st w) ++ (event_record <$> pg_any_order (claim_row now <$> claimed)) /\
  (forall id, tab (w_st w) !! id = None -> tab (w_st w') !! id = None) /\
  forall id e, tab (w_st w) !! id = Some e ->
    exists e', tab (w_st w') !! id = Some e' /\
      if decide (e ∈ claimed) then exists at_, e' = published_row at_ (claim_row now e) else e' = e.

(** The rows sent so far: their messages are in the log, they are published,
    and no other row has changed since the claim. *)
Definition rows_sent (w w1 : world St) (dn : list OutboxEvent) (w' : world St) : Prop :=
  (exists n, w_env w' = Nat.iter n tick (w_env w)) /\
  log_of (w_st w') = log_of (w_st w) ++ (event_record <$> dn) /\
  (forall id, id ∉ (oe_ID <$> dn) -> tab (w_st w') !! id = tab (w_st w1) !! id) /\
  (forall e, e ∈ dn -> exists at_, tab (w_st w') !! oe_ID e = Some (published_row at_ e)).

Lemma rows_sent_next w w1 dn x w2 n w3 at_ :
  oe_ID x ∉ (oe_ID <$> dn) -> rows_sent w w1 dn w2 -> w_env w3 = Nat.iter n tick (w_env w) ->
  tab (w_st w3) = <[oe_ID x := published_row at_ x]> (tab (w_st w2)) ->
  log_of (w_st w3) = log_of (w_st w2) ++ [event_record x] ->
  rows_sent w w1 (dn ++ [x]) w3.
Proof.
  intros Hxn (_ & Hlog & Hout & Hin) Hn Ht3 Hlog3. split_and!.
  - by exists n.
  - by rewrite Hlog3, Hlog, fmap_app, <- app_assoc.
  - intros id Hid. rewrite fmap_app in Hid. apply not_elem_of_app in Hid as [Hid Hid'].
    rewrite Ht3, lookup_insert_ne; [by apply Hout|]. intros <-. apply Hid'. simpl. by left.
  - intros e [He| ->%list_elem_of_singleton]%elem_of_app.
    + destruct (Hin _ He) as [at' Hat]. exists at'. rewrite Ht3, lookup_insert_ne; [done|].
      intros Heq. apply Hxn. rewrite Heq. by apply list_elem_of_fmap_2.
    + exists at_. by rewrite Ht3, lookup_insert_eq.
Qed.

(** A batch whose rows were all sent. *)
Lemma rows_sent_done w w1 now claimed w2 :
  wf (tab (w_st w)) -> 0 <= wc_batchSize cfg ->
  claimed = candidates now (wc_batchSize cfg) (tab (w_st w)) ->
  tab (w_st w1) = (sql_claim (wc_batchSize cfg) now (tab (w_st w))).2 ->
  rows_sent w w1 (pg_any_order (claim_row now <$> claimed)) w2 -> batch_done w claimed now w2.
Proof.
  intros Hwf Hb Hcl Ht1 (Hn & Hlog & Hout & Hin). pose proof (wf_keyed _ Hwf) as Hk.
  assert (Hrp : pg_any_order (claim_row now <$> claimed) ≡ₚ claim_row now <$> claimed) by apply pg_any_order_perm.
  split_and!; [done|done| |].
  - intros id Hid. rewrite Hout; [rewrite Ht1; by apply claim_lookup_None|].
    intros (e & -> & He)%list_elem_of_fmap. rewrite Hrp in He. apply list_elem_of_fmap in He as (e0 & -> & He0).
    rewrite Hcl in He0. destruct (candidates_row _ _ _ _ Hk He0) as [He1 _]. simpl in Hid. congruence.
  - intros id e He. assert (Hrow := claim_lookup now (wc_batchSize cfg) _ _ _ Hk Hb He). rewrite <- Hcl in Hrow.
    assert (Hid : oe_ID e = id) by by apply Hk. case_decide as Hc.
    + destruct (Hin (claim_row now e)) as [at_ Hat]; [rewrite Hrp; by apply list_elem_of_fmap_2|].
      eexists. split; [rewrite <- Hid; apply Hat|by exists at_].
    + exists e. split; [|done]. rewrite Hout; [by rewrite Ht1|].
      rewrite Hrp, claim_row_ids. intros (e' & Heq & He')%list_elem_of_fmap. apply Hc. rewrite Hcl in He' |- *.
      destruct (candidates_row _ _ _ _ Hk He') as [Hrow' _]. rewrite <- Heq, He in Hrow'.
      injection Hrow' as <-. done.
Qed.

Lemma processBatch_ok w :
  no_faults (w_env w) -> wf (tab (w_st w)) -> 0 <= wc_batchSize cfg ->
  let now := e_dbnow (w_env w) (e_tick (w_env w)) in
  let claimed := candidates now (wc_batchSize cfg) (tab (w_st w)) in
  (forall e, e ∈ claimed -> deliverable e) ->
  wp processBatch (λ _ w', batch_done w claimed now w') w.
Proof.
  intros Hnf Hwf Hb now claimed Hdel. pose proof (wf_keyed _ Hwf) as Hk.
  unfold processBatch. apply wp_bind. apply ClaimPendingEvents_ok; [done|done|].
  intros now' p Hnow Hp. fold now in Hnow. subst now'. fold claimed.
  set (rows := pg_any_order (claim_row now <$> claimed)). set (w1 := World _ _).
  assert (Hrp : rows ≡ₚ claim_row now <$> claimed) by apply pg_any_order_perm.
  assert (Hnd : NoDup (oe_ID <$> rows))
    by (rewrite Hrp, claim_row_ids; by apply NoDup_candidates).
  assert (Ht1 : tab (w_st w1) = (sql_claim (wc_batchSize cfg) now (tab (w_st w))).2)
    by (simpl; by rewrite tab_upd).
  apply wp_bind. eapply wp_mono.
  - apply (wp_for_each rows _ (rows_sent w w1) (λ _ _, False)).
    + split_and!; [by exists 1%nat|simpl; by rewrite log_of_upd, app_nil_r|done|].
      by intros e ?%elem_of_nil.
    + intros dn x rest w2 Hl Hsent. assert (Hsent' := Hsent). destruct Hsent' as ([n Hn] & _ & Hout & _). wp_steps.
      assert (Hnf2 : no_faults (w_env w2)) by (rewrite Hn; by apply no_faults_iter).
      rewrite (proj2 Hnf2).
      assert (Hxn : oe_ID x ∉ (oe_ID <$> dn)).
      { rewrite Hl, fmap_app in Hnd. apply NoDup_app in Hnd as (_ & Hnd & _).
        intros Hx. apply (Hnd _ Hx). simpl. by left. }
      assert (Hx : x ∈ rows) by (rewrite Hl; set_solver).
      rewrite Hrp in Hx. apply list_elem_of_fmap in Hx as (x0 & Hx0 & Hc0).
      wp_steps. eapply wp_mono; [apply processEvent_ok|].
      * done.
      * rewrite Hx0. eapply deliverable_same, Hdel, Hc0. apply oe_set_same.
      * simpl. rewrite Hout, Ht1 by done. unfold sql_claim.
        destruct (Z.ltb_spec (wc_batchSize cfg) 0); [lia|]. rewrite Hx0. simpl.
        apply (upsert_rows_in _ _ (claim_row now x0)); [rewrite claim_row_ids; by apply NoDup_candidates|].
        by apply list_elem_of_fmap_2.
      * by rewrite Hx0.
      * simpl. intros _ w3 ([m Hm] & [at_ Ht3] & Hlog3). wp_steps.
        apply (rows_sent_next w w1 dn x w2 (m + S n)%nat w3 at_); [done|done| |done|done].
        by rewrite Hm, Hn, Nat.iter_add.
  - simpl. intros [[]|] w2; [done|]. intros Hsent. wp_steps. by apply (rows_sent_done w w1).
Qed.

(** *** Draining *)

Definition is_pending (e : OutboxEvent) : bool := has_status OutboxEventStatusPending e.

Definition pending_ids (t : outbox) : gset UUID := dom (filter (λ x, is_pending x.2 = true) t).

Lemma elem_of_pending_ids t id :
  id ∈ pending_ids t <-> exists e, t !! id = Some e /\ oe_Status e = OutboxEventStatusPending.
Proof.
  unfold pending_ids. rewrite elem_of_dom. split.
  - intros [e [He Hs]%map_lookup_filter_Some]. exists e. by apply has_status_iff in Hs.
  - intros (e & He & Hs). exists e. apply map_lookup_filter_Some.
    split; [done|]. by apply has_status_iff.
Qed.

(** Every pending row is available whatever the database clock reads from now
    on, and the publisher supports it. *)
Definition ready (e : env) (t : outbox) : Prop :=
  forall id r, t !! id = Some r -> oe_Status r = OutboxEventStatusPending ->
    (forall k, (e_tick e <= k)%nat -> oe_AvailableAt r <= e_dbnow e k) /\ deliverable r.

Definition pending_list (t : outbox) : list OutboxEvent :=
  filter (λ e, is_pending e = true) (map_to_list t).*2.

Lemma elem_of_pending_list t e :
  keyed t -> e ∈ pending_list t <-> t !! oe_ID e = Some e /\ oe_Status e = OutboxEventStatusPending.
Proof.
  intros Hk. unfold pending_list, is_pending. rewrite list_elem_of_filter, has_status_iff, elem_of_values.
  split; [|by intros [? ?]; eauto]. intros [Hs [id He]]. pose proof (Hk _ _ He) as Hid. simpl in Hid. by subst id.
Qed.

(** A batch moves its rows from the pending ones to the published ones. *)
Lemma batch_pending w claimed now w' :
  wf (tab (w_st w)) -> keyed (tab (w_st w')) ->
  claimed = candidates now (wc_batchSize cfg) (tab (w_st w)) -> batch_done w claimed now w' ->
  pending_list (tab (w_st w)) ≡ₚ claimed ++ pending_list (tab (w_st w')).
Proof.
  intros Hwf Hk' Hcl (_ & _ & Hnone & Hrows). pose proof (wf_keyed _ Hwf) as Hk.
  assert (Hnd : forall t, keyed t -> NoDup (pending_list t)).
  { intros t Ht. eapply NoDup_fmap_1. by apply NoDup_fmap_filter, NoDup_rows. }
  assert (Hc : forall e, e ∈ claimed -> tab (w_st w) !! oe_ID e = Some e /\
    oe_Status e = OutboxEventStatusPending /\ e ∉ pending_list (tab (w_st w'))).
  { intros e He. assert (He' := He). rewrite Hcl in He'. destruct (candidates_row _ _ _ _ Hk He') as (Hrow & Hs & _).
    split_and!; [done|done|]. intros [Hp _]%elem_of_pending_list; [|done].
    destruct (Hrows _ _ Hrow) as (e' & Hl & Hx). rewrite Hp in Hl. injection Hl as <-.
    rewrite decide_True in Hx by done. destruct Hx as [at_ Hx]. by rewrite Hx in Hs. }
  apply NoDup_Permutation; [by apply Hnd| |].
  - apply NoDup_app. split_and!; [|by intros e He; apply Hc|by apply Hnd].
    rewrite Hcl. eapply NoDup_fmap_1. by apply NoDup_candidates.
  - intros e. rewrite elem_of_app, elem_of_pending_list by done. split.
    + intros [He Hs]. destruct (Hrows _ _ He) as (e' & Hl & Hx). case_decide; [by left|right].
      subst e'. by apply elem_of_pending_list.
    + intros [He|He]; [by destruct (Hc e He) as (? & ? & _)|]. apply elem_of_pending_list in He as [He Hs]; [|done].
      destruct (tab (w_st w) !! oe_ID e) as [e0|] eqn:E; [|by rewrite Hnone in He].
      destruct (Hrows _ _ E) as (e' & Hl & Hx). rewrite He in Hl. injection Hl as <-.
      case_decide as Hd; [destruct Hx as [at_ Hx]; by rewrite Hx in Hs|by subst].
Qed.

(** One poll publishes at least one of the pending rows. *)
Lemma poll_progress w claimed now w' :
  wf (tab (w_st w)) -> 1 <= wc_batchSize cfg -> ready (w_env w) (tab (w_st w)) ->
  now = e_dbnow (w_env w) (e_tick (w_env w)) ->
  claimed = candidates now (wc_batchSize cfg) (tab (w_st w)) ->
  batch_done w claimed now w' ->
  pending_ids (tab (w_st w')) ⊆ pending_ids (tab (w_st w)) /\
  ready (w_env w') (tab (w_st w')) /\
  (pending_ids (tab (w_st w)) <> ∅ -> pending_ids (tab (w_st w')) ⊂ pending_ids (tab (w_st w))).
Proof.
  intros Hwf Hb Hready Hnow Hcl ([n Hn] & _ & Hnone & Hrows). pose proof (wf_keyed _ Hwf) as Hk.
  assert (Hback : forall id r, tab (w_st w') !! id = Some r ->
    oe_Status r = OutboxEventStatusPending -> tab (w_st w) !! id = Some r /\ r ∉ claimed).
  { intros id r Hr Hs. destruct (tab (w_st w) !! id) as [r0|] eqn:Hr0; [|by rewrite Hnone in Hr].
    destruct (Hrows _ _ Hr0) as (r' & Hr' & Hc). rewrite Hr in Hr'. injection Hr' as <-.
    case_decide as Hin; [destruct Hc as [? ->]; discriminate Hs|by subst r0]. }
  assert (Hsub : pending_ids (tab (w_st w')) ⊆ pending_ids (tab (w_st w))).
  { intros id (r & Hr & Hs)%elem_of_pending_ids. apply elem_of_pending_ids.
    exists r. by destruct (Hback _ _ Hr Hs). }
  split_and!; [done| |].
  - intros id r Hr Hs. destruct (Hback _ _ Hr Hs) as [Hr0 _]. destruct (Hready _ _ Hr0 Hs) as [Ha ?].
    split; [|done]. intros j Hj. rewrite Hn, iter_dbnow. apply Ha. rewrite Hn in Hj.
    pose proof (iter_tick_clocks n (w_env w)) as (_ & _ & _ & Ht). lia.
  - intros (id & (r & Hr & Hs)%elem_of_pending_ids)%set_choose_L.
    assert (Hp : r ∈ pending_rows now (tab (w_st w))).
    { apply elem_of_pending_rows. split; [|by exists id]. unfold is_candidate.
      apply has_status_iff in Hs as Hs'. rewrite Hs'. simpl. apply bool_decide_eq_true.
      destruct (Hready _ _ Hr Hs) as [Ha _]. subst now. by apply Ha. }
    destruct (pending_rows now (tab (w_st w))) as [|x l] eqn:Ep; [by apply elem_of_nil in Hp|].
    assert (Hx : x ∈ claimed).
    { rewrite Hcl. unfold candidates. rewrite Ep.
      destruct (Z.to_nat (wc_batchSize cfg)) eqn:?; [lia|]. simpl. by left. }
    assert (Hx' := Hx). rewrite Hcl in Hx'. destruct (candidates_row _ _ _ _ Hk Hx') as (Hrow&Hsx&_).
    split; [done|]. intros Hsup.
    assert (Hin : oe_ID x ∈ pending_ids (tab (w_st w'))).
    { apply Hsup, elem_of_pending_ids. by exists x. }
    apply elem_of_pending_ids in Hin as (r2 & Hr2 & Hs2).
    destruct (Hback _ _ Hr2 Hs2) as [Hr3 Hn3]. rewrite Hrow in Hr3. by injection Hr3 as <-.
Qed.

Lemma drain_aux k w :
  no_faults (w_env w) -> wf (tab (w_st w)) -> 1 <= wc_batchSize cfg ->
  ready (w_env w) (tab (w_st w)) -> (size (pending_ids (tab (w_st w))) <= k)%nat ->
  wp (Run_loop (replicate k PollTick)) (λ _ w',
    (exists recs, log_of (w_st w') = log_of (w_st w) ++ recs /\
       recs ≡ₚ event_record <$> pending_list (tab (w_st w))) /\
    forall id e, tab (w_st w) !! id = Some e -> oe_Status e = OutboxEventStatusPending ->
      row_status (tab (w_st w')) id OutboxEventStatusPublished) w.
Proof.
  revert w; induction k as [|k IH]; intros w Hnf Hwf Hb Hready Hsize; simpl.
  { wp_steps. assert (Hz : forall id e, tab (w_st w) !! id = Some e -> oe_Status e = OutboxEventStatusPending -> False).
    { intros id e He Hs. assert (Hin : id ∈ pending_ids (tab (w_st w))) by (apply elem_of_pending_ids; eauto).
      assert (pending_ids (tab (w_st w)) = ∅) as Hz by (apply leibniz_equiv, size_empty_inv; lia).
      rewrite Hz in Hin. by apply elem_of_empty in Hin. }
    split; [|by intros id e He Hs; destruct (Hz id e)]. exists []. split; [by rewrite app_nil_r|].
    destruct (pending_list _) as [|e l] eqn:E; [done|]. exfalso.
    assert (He : e ∈ pending_list (tab (w_st w))) by (rewrite E; by left).
    apply elem_of_pending_list in He as [He Hs]; [by eapply Hz|by apply wf_keyed]. }
  apply wp_bind. eapply wp_mono.
  { apply wp_conj; [apply processBatch_ok; [done|done|lia|]|].
    - intros e He. apply candidates_row in He as (Hr&Hs&_); [|by apply wf_keyed].
      by destruct (Hready _ _ Hr Hs).
    - apply (processBatch_inv (w_env w) (refines_steps (tab (w_st w)))); [apply refines_steps_inv|].
      split; [by exists 0%nat|by split]. }
  simpl. intros _ w1 [Hdone [_ [Hwf1 Hst1]]].
  destruct (poll_progress _ _ _ _ Hwf Hb Hready eq_refl eq_refl Hdone) as (Hsub & Hready1 & Hlt).
  assert (Hpl := batch_pending _ _ _ _ Hwf (wf_keyed _ Hwf1) eq_refl Hdone).
  destruct Hdone as ([n Hn] & Hlog & Hnone & Hrows).
  eapply wp_mono; [apply wp_conj; [apply IH|]|].
  - rewrite Hn. by apply no_faults_iter.
  - done.
  - done.
  - done.
  - destruct (decide (pending_ids (tab (w_st w)) = ∅)) as [Hz|Hz].
    + rewrite Hz in Hsub. assert (pending_ids (tab (w_st w1)) = ∅) as -> by set_solver.
      rewrite size_empty. lia.
    + apply Hlt in Hz. apply subset_size in Hz. lia.
  - apply (Run_loop_inv (w_env w1) (refines_steps (tab (w_st w1)))); [apply refines_steps_inv|].
    split; [by exists 0%nat|by split].
  - simpl. intros _ w2 [[(recs & Hr1 & Hr2) Hpub] [Hwf2 Hst2]]. split.
    { eexists. split; [by rewrite Hr1, Hlog, <- app_assoc|]. rewrite Hr2, Hpl, fmap_app. f_equiv.
      rewrite (pg_any_order_perm _ _), <- list_fmap_compose. erewrite list_fmap_ext; [done|].
      intros i e _. simpl. apply event_record_same, oe_set_same. }
    intros id e He Hs.
    destruct (Hrows _ _ He) as (e' & He' & Hc). case_decide as Hin.
    + destruct Hc as [at_ ->]. exists (published_row at_ (claim_row (e_dbnow (w_env w) (e_tick (w_env w))) e)). split; [|done].
      eapply outbox_terminal_forever_aux; [apply Hwf1|apply Hst2|apply He'|by left].
    + subst e'. by eapply Hpub.
Qed.

(** ** Properties of the worker *)

(** C35 Whatever fails, is cancelled or answers late, a worker that runs for
    any sequence of timer ticks follows the protocol: it claims batches of the
    configured size, releases rows whose lock is older than the processing
    timeout by its own clock, sends only events whose row is processing,
    publishes a row only after its send succeeded, puts it back only after a
    failed send while retries are left, with that error and the next attempt
    delayed by the new count times the polling interval, and gives it up only
    after a failed send that used them. *)
Theorem worker_refines_protocol nil ticks w :
  wf (tab (w_st w)) ->
  wp (Run nil ticks) (λ _ w', rtc (worker_step (w_env w)) (at_rest (w_st w)) (at_rest (w_st w'))) w.
Proof.
  intros Hwf. eapply wp_mono.
  - apply (Run_inv (refines_protocol (w_env w) (at_rest (w_st w)))); [apply refines_protocol_inv|by split].
  - by intros _ w' [_ ?].
Qed.

(** C14 An event is marked published only when its message is in the broker's
    log: this stays true through every failure, lost reply, cancellation and
    interleaving of polls and cleanups. *)
Theorem worker_published_in_log nil ticks w :
  published_logged (w_st w) ->
  wp (Run nil ticks) (λ _ w', published_logged (w_st w')) w.
Proof. apply Run_inv, published_logged_inv. Qed.

(** The stored count: a row that is still pending or processing has a count of
    at most [maxRetries], and a row is given up with [maxRetries + 1], in every
    environment. Failed attempts whose statement fails too are not counted. *)
Theorem worker_retry_bound nil ticks w :
  retry_bounded (w_st w) -> wp (Run nil ticks) (λ _ w', retry_bounded (w_st w')) w.
Proof. apply Run_inv, retry_bounded_inv. Qed.

(** When nothing fails, one poll publishes exactly the claimed events: their
    messages are appended to the log once each, in the order of the claim's
    answer, their rows become published, and all other rows are unchanged. *)
Theorem worker_batch_delivers w :
  no_faults (w_env w) -> wf (tab (w_st w)) -> 0 <= wc_batchSize cfg ->
  (forall e, e ∈ candidates (e_dbnow (w_env w) (e_tick (w_env w))) (wc_batchSize cfg)
                   (tab (w_st w)) -> deliverable e) ->
  wp processBatch (λ _ w', exists now claimed,
    now = e_dbnow (w_env w) (e_tick (w_env w)) /\
    claimed = candidates now (wc_batchSize cfg) (tab (w_st w)) /\
    batch_done w claimed now w') w.
Proof.
  intros Hnf Hwf Hb Hd. eapply wp_mono; [by apply processBatch_ok|]. simpl. intros _ w' Hw'.
  by eexists _, _.
Qed.

(** C15 No event is stuck and none is sent twice: when nothing fails, as many
    polls as there are pending rows publish every one of them, and what they
    add to the log is exactly one message for each of those rows. *)
Theorem worker_drains k w :
  no_faults (w_env w) -> wf (tab (w_st w)) -> 1 <= wc_batchSize cfg ->
  ready (w_env w) (tab (w_st w)) -> (size (pending_ids (tab (w_st w))) <= k)%nat ->
  wp (Run_loop (replicate k PollTick)) (λ _ w',
    (exists recs, log_of (w_st w') = log_of (w_st w) ++ recs /\
       recs ≡ₚ event_record <$> pending_list (tab (w_st w))) /\
    forall id e, tab (w_st w) !! id = Some e -> oe_Status e = OutboxEventStatusPending ->
      row_status (tab (w_st w')) id OutboxEventStatusPublished) w.
Proof. apply drain_aux. Qed.
End Worker.

(** ** The two services' workers *)

#[export] Instance HasOutbox_self : HasOutbox outbox := {
  outbox_of t := t; set_outbox t _ := t; outbox_of_set _ _ := eq_refl }.

Module OrderWorker.
Section OrderWorker.
Context {St D : Type} `{PgTypes} `{U : GoLib} `{O : Otel} `{HO : !HasOutbox D}
  `{HD : !Has (pg D) St} `{HK : !Has kafka St} `{AP : !Apart kafka (pg D) St}.

Record topics := { t_OrderCreated : string; t_OrderStatusUpdated : string }.
Variable cfg : topics.

Definition messageTopic (event : OutboxEvent) : string :=
  if bool_decide (oe_EventType event = OrderCreatedEventType) then t_OrderCreated cfg
  else if bool_decide (oe_EventType event = OrderStatusUpdatedEventType) then
    t_OrderStatusUpdated cfg
  else "".

Definition messageKey (event : OutboxEvent) : string := uuid_string (oe_AggregateID event).

Definition message (event : OutboxEvent) : Message :=
  NewMessage (messageTopic event) (messageKey event) (oe_Payload event).

(** The publisher is a producer whose default topic is OrderCreated. *)
Definition publish (event : OutboxEvent) : M St (result unit) :=
  if bool_decide (messageTopic event = "") then
    mret (Err (EMsg ("unsupported outbox event type: " +:+ oe_EventType event)))
  else producer_SendMessage (t_OrderCreated cfg) (message event).

Definition event_record (event : OutboxEvent) : krecord :=
  producer_record (t_OrderCreated cfg) (message event).

Definition publisher : EventPublisher St D.
Proof.
  refine {| Outbox.publish := publish; Outbox.event_record := event_record;
            deliverable e := messageTopic e <> "" |}.
  - unfold event_record, message, messageKey, messageTopic.
    by intros e e' (_&_&->&->&->&_).
  - unfold messageTopic. by intros e e' (_&_&->&_).
  - intros e. unfold publish. case_bool_decide; [|apply Kafka.publish_spec].
    intros w. wp_steps. by left.
  - intros e. unfold publish. case_bool_decide; [apply frames_ret|apply frames_client_publish].
  - intros e. unfold publish. case_bool_decide; [apply ticks_ret|apply ticks_client_publish].
  - intros e w Hnf Hd. unfold publish. rewrite bool_decide_false by done.
    apply publish_no_faults; [done|]. split; [done|]. by exists 2%nat.
Defined.
End OrderWorker.
End OrderWorker.

Module SpotWorker.
Section SpotWorker.
Context {St D : Type} `{PgTypes} `{U : GoLib} `{O : Otel} `{HO : !HasOutbox D}
  `{HD : !Has (pg D) St} `{HK : !Has kafka St} `{AP : !Apart kafka (pg D) St}.
Variable t_MarketStateChanged : string.

Definition messageKey (event : OutboxEvent) : string := uuid_string (oe_AggregateID event).

Definition publish (event : OutboxEvent) : M St (result unit) :=
  producer_Send t_MarketStateChanged (messageKey event) (oe_Payload event).

Definition event_record (event : OutboxEvent) : krecord :=
  producer_record t_MarketStateChanged (NewMessage "" (messageKey event) (oe_Payload event)).

Definition publisher : EventPublisher St D.
Proof.
  refine {| Outbox.publish := publish; Outbox.event_record := event_record;
            deliverable _ := True |}.
  - unfold event_record, messageKey. by intros e e' (_&_&_&->&->&_).
  - done.
  - intros e. apply Kafka.publish_spec.
  - intros e. apply frames_client_publish.
  - intros e. apply ticks_client_publish.
  - intros e w Hnf _. apply publish_no_faults; [done|]. split; [done|]. by exists 2%nat.
Defined.

(** The store and the worker of the spot service run the statements and the
    loops above. *)
Definition SaveOutboxEvent (event : OutboxEvent) : M St (result unit) :=
  let! r := tx_Exec (on_outbox (sql_insert event)) in
  mret (map_err (wrap "OutboxStore.SaveOutboxEventTransaction") r).

Definition BeginTransaction : M St (result unit) :=
  let! r := tx_Begin in mret (map_err (wrap "OutboxStore.BeginTransaction") r).

Definition ClaimPendingEvents (limit : Z) : M St (result (list OutboxEvent)) :=
  Outbox.ClaimPendingEvents limit.
Definition MarkPublished (event : OutboxEvent) : M St (result unit) :=
  Outbox.MarkPublished event.
Definition ScheduleRetry (event : OutboxEvent) (nextRetryAt : Z) (errText : string) :
    M St (result unit) := Outbox.ScheduleRetry event nextRetryAt errText.
Definition MarkFailed (event : OutboxEvent) (errText : string) : M St (result unit) :=
  Outbox.MarkFailed event errText.
Definition ReleaseStuckEvents (stuckBefore : Z) : M St (result Z) :=
  Outbox.ReleaseStuckEvents stuckBefore.
Definition countPendingEvents : M St (result Z) := Outbox.countPendingEvents.

Variable cfg : worker_config.
#[local] Existing Instance publisher.

Definition handleSendError (event : OutboxEvent) (err : error) : M St unit :=
  Outbox.handleSendError cfg event err.
Definition processEvent (event : OutboxEvent) : M St unit := Outbox.processEvent cfg event.
Definition processBatch : M St unit := Outbox.processBatch cfg.
Definition releaseStuck : M St unit := Outbox.releaseStuck cfg.
Definition Run (nilContext : bool) (ticks : list ticker) : M St (result unit) :=
  Outbox.Run cfg nilContext ticks.
End SpotWorker.
End SpotWorker.

(** ** Closed instances *)

Section Witness.
#[local] Existing Instance MicroPg.
#[local] Existing Instance MicroPg_laws.
#[local] Existing Instance DecLib.
#[local] Existing Instance IdOtel.

Definition demo_event : OutboxEvent := {|
  oe_ID := 1%N; oe_EventID := 2%N; oe_EventType := OrderCreatedEventType; oe_AggregateID := 3%N;
  oe_Payload := "payload"; oe_Status := OutboxEventStatusPending; oe_RetryCount := 0;
  oe_AvailableAt := 0; oe_CreatedAt := 0; oe_PublishedAt := None; oe_FailedAt := None;
  oe_LockedAt := None; oe_LastError := None |}.

Definition demo_tab : outbox := {[ 1%N := demo_event ]}.
Definition demo_claimed : outbox := {[ 1%N := claim_row 0 demo_event ]}.
Definition demo_published : outbox := {[ 1%N := published_row 0 (claim_row 0 demo_event) ]}.

Lemma demo_steps : rtc step ∅ demo_tab /\ step demo_tab demo_claimed /\ step demo_claimed demo_published.
Proof.
  split_and!.
  - apply rtc_once.
    replace demo_tab with (sql_insert demo_event 0 ∅).2 by (vm_compute; reflexivity). constructor.
  - replace demo_claimed with (sql_claim 1 0 demo_tab).2 by (vm_compute; reflexivity). constructor.
  - replace demo_published with (sql_update_processing 1%N published_row 0 demo_claimed).2
      by (vm_compute; reflexivity). constructor.
Qed.

Lemma demo_wf : wf demo_tab.
Proof. eapply steps_wf; [apply wf_empty|apply demo_steps]. Qed.

Lemma demo_published_wf : wf demo_published.
Proof. eapply step_wf; [eapply step_wf; [apply demo_wf|]|]; apply demo_steps. Qed.

Lemma outbox_always_wf_witness : wf demo_tab.
Proof. apply outbox_always_wf. apply demo_steps. Defined.

Lemma outbox_terminal_forever_witness :
  (sql_claim 5 7 demo_published).2 !! 1%N = Some (published_row 0 (claim_row 0 demo_event)).
Proof.
  apply (outbox_terminal_forever demo_published _ 1%N).
  - apply demo_published_wf.
  - apply rtc_once. constructor.
  - reflexivity.
  - left. reflexivity.
Defined.

Lemma outbox_event_immutable_witness :
  exists e', demo_published !! 1%N = Some e' /\ same_event demo_event e' /\
    oe_RetryCount demo_event <= oe_RetryCount e'.
Proof.
  apply (outbox_event_immutable demo_tab demo_published 1%N demo_event).
  - apply demo_wf.
  - eapply rtc_l; [apply demo_steps|]. apply rtc_once. apply demo_steps.
  - reflexivity.
Defined.

Lemma claim_oldest_witness :
  exists rows, (sql_claim 1 0 demo_tab).1 = Ok rows /\
    len rows = Z.min 1 (len (pending_rows 0 demo_tab)) /\ len rows = 1.
Proof.
  destruct (claim_oldest demo_tab 0 1 demo_wf ltac:(lia)) as (rows & Hr & _ & Hlen & _).
  exists rows. split; [exact Hr|]. split; [exact Hlen|]. rewrite Hlen. vm_compute. reflexivity.
Defined.

(** Claimed, given back by the cleanup, and claimed again. *)
Definition demo_released : outbox := (sql_release 5000 9000 demo_claimed).2.


Lemma release_exactly_stuck_witness :
  (sql_release 5000 9000 demo_claimed).2 !! 1%N =
    Some (released_row 9000 (claim_row 0 demo_event)).
Proof.
  destruct (release_exactly_stuck demo_claimed 9000 5000 1%N (claim_row 0 demo_event) eq_refl)
    as [Hr _].
  exact Hr.
Defined.

(** A world of the order service's worker: one pending row, an empty log. *)
Definition demo_cfg : worker_config := {|
  wc_pollInterval := 1000; wc_batchSize := 10; wc_maxRetries := 3; wc_processingTimeout := 1000 |}.
Definition demo_topics : OrderWorker.topics := {|
  OrderWorker.t_OrderCreated := "orders"; OrderWorker.t_OrderStatusUpdated := "status" |}.

Definition demo_world : world (pg outbox * kafka) :=
  World quiet_env (Pg demo_tab TxNone, Kafka []).

#[local] Instance demo_publisher : EventPublisher (pg outbox * kafka) outbox :=
  OrderWorker.publisher demo_topics.

Lemma worker_refines_protocol_witness :
  wp (Run demo_cfg false [PollTick])
    (λ _ w', rtc (worker_step demo_cfg (w_env demo_world)) (at_rest (w_st demo_world)) (at_rest (w_st w')))
    demo_world.
Proof. apply (worker_refines_protocol demo_cfg false [PollTick] demo_world). apply demo_wf. Defined.

Lemma demo_published_logged : published_logged (w_st demo_world).
Proof.
  split; [apply demo_wf|]. change (tab (w_st demo_world)) with demo_tab. unfold demo_tab.
  intros id e [<- <-]%lookup_singleton_Some Hs. discriminate Hs.
Qed.

Lemma worker_published_in_log_witness :
  wp (Run demo_cfg false [PollTick]) (λ _ w', published_logged (w_st w')) demo_world.
Proof. apply (worker_published_in_log demo_cfg false [PollTick] demo_world). apply demo_published_logged. Defined.

Lemma worker_retry_bound_witness :
  wp (Run demo_cfg false [PollTick]) (λ _ w', retry_bounded demo_cfg (w_st w')) demo_world.
Proof.
  apply (worker_retry_bound demo_cfg false [PollTick] demo_world). split; [apply demo_wf|].
  change (tab (w_st demo_world)) with demo_tab. unfold demo_tab.
  intros id e [<- <-]%lookup_singleton_Some. vm_compute. discriminate.
Defined.

Lemma demo_ready : ready quiet_env demo_tab.
Proof.
  unfold demo_tab. intros id e [<- <-]%lookup_singleton_Some _.
  split; [by intros k|]. vm_compute. discriminate.
Qed.

Lemma worker_batch_delivers_witness :
  wp (processBatch demo_cfg) (λ _ w', exists now claimed,
    now = 0 /\ claimed = candidates now 10 (tab (w_st demo_world)) /\ batch_done demo_world claimed now w')
    demo_world.
Proof.
  apply (worker_batch_delivers demo_cfg demo_world).
  - apply quiet_env_no_faults.
  - apply demo_wf.
  - vm_compute. discriminate.
  - intros e He. apply candidates_row in He as (Hr & Hs & _); [|apply demo_wf].
    by apply (demo_ready _ _ Hr Hs).
Defined.

Lemma worker_drains_witness :
  wp (Run_loop demo_cfg (replicate 1 PollTick)) (λ _ w',
    (exists recs, log_of (w_st w') = log_of (w_st demo_world) ++ recs /\
       recs ≡ₚ event_record <$> pending_list (tab (w_st demo_world))) /\
    forall id e, tab (w_st demo_world) !! id = Some e ->
      oe_Status e = OutboxEventStatusPending ->
      row_status (tab (w_st w')) id OutboxEventStatusPublished) demo_world.
Proof.
  apply (worker_drains demo_cfg 1 demo_world).
  - apply quiet_env_no_faults.
  - apply demo_wf.
  - vm_compute. discriminate.
  - apply demo_ready.
  - vm_compute. lia.
Defined.
End Witness.
