(* ===== verification/Domain.v ===== *)
(** * Order domain (orderService/internal/domain/models)

    Enumerations are the uint16 values of the source; prices are values of the
    decimal library, read back through their text form, which is what
    [FitsNumeric] inspects before a price reaches the NUMERIC(18, 8) column. *)

From S2P Require Import Prelude GoStrings GoErrors.
From Stdlib Require Import Znumtheory.
Local Open Scope nat_scope.
Local Open Scope string_scope.

(** ** OrderType, OrderStatus *)

Notation OrderType := Z (only parsing).
Notation OrderStatus := Z (only parsing).

Definition OrderTypeUnspecified : OrderType := 0%Z.
Definition OrderTypeLimit : OrderType := 1%Z.
Definition OrderTypeMarket : OrderType := 2%Z.
Definition OrderTypeStopLoss : OrderType := 3%Z.
Definition OrderTypeTakeProfit : OrderType := 4%Z.

Definition OrderStatusUnspecified : OrderStatus := 0%Z.
Definition OrderStatusCreated : OrderStatus := 1%Z.
Definition OrderStatusPending : OrderStatus := 2%Z.
Definition OrderStatusFilled : OrderStatus := 3%Z.
Definition OrderStatusCancelled : OrderStatus := 4%Z.

Definition OrderStatus_String (s : OrderStatus) : string :=
  if (s =? OrderStatusCreated)%Z then "created"
  else if (s =? OrderStatusPending)%Z then "pending"
  else if (s =? OrderStatusFilled)%Z then "filled"
  else if (s =? OrderStatusCancelled)%Z then "cancelled"
  else "unspecified".

Definition FromString (s : string) : OrderStatus :=
  if bool_decide (s = "created") then OrderStatusCreated
  else if bool_decide (s = "pending") then OrderStatusPending
  else if bool_decide (s = "filled") then OrderStatusFilled
  else if bool_decide (s = "cancelled") then OrderStatusCancelled
  else OrderStatusUnspecified.

Definition OrderType_String (t : OrderType) : string :=
  if (t =? OrderTypeLimit)%Z then "limit"
  else if (t =? OrderTypeMarket)%Z then "market"
  else if (t =? OrderTypeStopLoss)%Z then "stop_loss"
  else if (t =? OrderTypeTakeProfit)%Z then "take_profit"
  else "unspecified".

(** The named statuses survive the text form stored with an idempotency
    entry. *)
Lemma FromString_String s :
  (0 <= s <= 4)%Z -> FromString (OrderStatus_String s) = s.
Proof.
  intros Hs. assert (s = 0 \/ s = 1 \/ s = 2 \/ s = 3 \/ s = 4)%Z as Hc by lia.
  by destruct Hc as [->|[->|[->|[->| ->]]]].
Qed.

(** ** Decimal *)

(** shopspring/decimal: parsing, printing and the sign. *)
Class DecimalLib := {
  Dec : Type;
  dec_NewFromString : string -> option Dec;
  dec_String : Dec -> string;
  dec_IsPositive : Dec -> bool
}.

Section Decimal.
Context `{DecimalLib}.

Definition NewDecimal (raw : string) : result Dec :=
  match dec_NewFromString (TrimSpace raw) with
  | Some v => Ok v
  | None => Err (EMsg "can't convert to decimal")
  end.
End Decimal.

Definition is_zero_byte (c : ascii) : bool := bool_decide (c = "0"%char).

Definition countIntegerDigits (integerPart : string) : nat :=
  let trimmed := trim_left is_zero_byte integerPart in
  if bool_decide (trimmed = "") then 0%nat else String.length trimmed.

Definition countFractionalDigits (fractionalPart : string) : nat :=
  String.length (trim_right is_zero_byte fractionalPart).

(** [FitsNumeric] on the text of the decimal. *)
Definition FitsNumeric_raw (raw : string) (maxPrecision maxScale : Z) : bool :=
  let raw := TrimPrefix raw "-" in
  let parts := SplitN2 "." raw in
  let integerDigits := countIntegerDigits (default "" (parts !! 0)) in
  let fractionalDigits :=
    match parts with [_; f] => countFractionalDigits f | _ => 0%nat end in
  bool_decide (Z.of_nat integerDigits <= maxPrecision - maxScale)%Z
  && bool_decide (Z.of_nat fractionalDigits <= maxScale)%Z.

Definition FitsNumeric `{DecimalLib} (d : Dec) (maxPrecision maxScale : Z) : bool :=
  FitsNumeric_raw (dec_String d) maxPrecision maxScale.

(** ** What FitsNumeric decides *)

Section Digits.
Local Open Scope list_scope.
Local Open Scope Z_scope.

Definition digit_val (c : ascii) : Z := Z.of_N (Ascii.N_of_ascii c) - 48.

(** The number a digit string writes. *)
Definition digits_acc (acc : Z) (l : list ascii) : Z :=
  fold_left (λ a c, a * 10 + digit_val c) l acc.
Definition digits_val (s : string) : Z := digits_acc 0 (String.list_ascii_of_string s).

Definition digit_list (l : list ascii) : Prop := Forall (λ c, is_digit c = true) l.

Lemma digit_val_bound c : is_digit c = true -> 0 <= digit_val c <= 9.
Proof.
  unfold is_digit, byte_in, digit_val. intros [H1 H2]%andb_true_iff.
  apply bool_decide_eq_true_1 in H1, H2. lia.
Qed.

Lemma digit_val_zero c : is_digit c = true -> digit_val c = 0 -> is_zero_byte c = true.
Proof.
  destruct c as [[] [] [] [] [] [] [] []]; vm_compute; try discriminate; done.
Qed.

Lemma digits_acc_app acc l1 l2 : digits_acc acc (l1 ++ l2) = digits_acc (digits_acc acc l1) l2.
Proof. apply fold_left_app. Qed.

Lemma digits_acc_cons acc c l : digits_acc acc (c :: l) = digits_acc (acc * 10 + digit_val c) l.
Proof. done. Qed.

Lemma len_cons {A} (x : A) l : len (x :: l) = len l + 1.
Proof. unfold len. simpl. lia. Qed.

Lemma digits_acc_val acc l :
  digits_acc acc l = acc * 10 ^ len l + digits_acc 0 l.
Proof.
  revert acc; induction l as [|c l IH]; intros acc; [unfold digits_acc, len; simpl; lia|].
  rewrite !digits_acc_cons, IH, (IH (0 * 10 + _)), len_cons.
  rewrite Z.pow_add_r by (unfold len; lia). lia.
Qed.

Lemma digits_val_bound l : digit_list l -> 0 <= digits_acc 0 l < 10 ^ len l.
Proof.
  induction l as [|c l IH]; intros Hl; [unfold len; simpl; lia|].
  apply Forall_cons in Hl as [Hc Hl]. apply digit_val_bound in Hc. specialize (IH Hl).
  rewrite digits_acc_cons, digits_acc_val, len_cons.
  rewrite Z.pow_add_r by (unfold len; lia). nia.
Qed.

(** A leading non-zero digit makes the number large. *)
Lemma digits_val_large c l :
  is_digit c = true -> is_zero_byte c = false -> digit_list l ->
  10 ^ len l <= digits_acc 0 (c :: l).
Proof.
  intros Hc Hz Hl. rewrite digits_acc_cons, digits_acc_val.
  pose proof (digits_val_bound l Hl). pose proof (digit_val_bound c Hc).
  assert (digit_val c <> 0) by (intros ?%digit_val_zero; congruence).
  pose proof (Z.pow_pos_nonneg 10 (len l)). unfold len in *. nia.
Qed.

Fixpoint strip (l : list ascii) : list ascii :=
  match l with
  | [] => []
  | c :: l' => if is_zero_byte c then strip l' else l
  end.

Lemma list_trim_left s :
  String.list_ascii_of_string (trim_left is_zero_byte s) = strip (String.list_ascii_of_string s).
Proof. induction s as [|c s IH]; simpl; [done|]. by destruct (is_zero_byte c). Qed.

Lemma list_of_string_length s : length (String.list_ascii_of_string s) = String.length s.
Proof. induction s; simpl; congruence. Qed.

Lemma strip_digits l : digit_list l -> digit_list (strip l).
Proof.
  induction l as [|c l IH]; simpl; [done|]. intros Hl.
  destruct (is_zero_byte c); [|done]. apply IH. by inversion Hl.
Qed.

Lemma zero_byte_val c : is_zero_byte c = true -> digit_val c = 0.
Proof. unfold is_zero_byte. by intros ->%bool_decide_eq_true_1. Qed.

Lemma strip_val l : digits_acc 0 (strip l) = digits_acc 0 l.
Proof.
  induction l as [|c l IH]; simpl; [done|].
  destruct (is_zero_byte c) eqn:E; [|done]. rewrite IH, (zero_byte_val _ E). done.
Qed.

Lemma strip_head l c l' : strip l = c :: l' -> is_zero_byte c = false.
Proof.
  induction l as [|d l IH]; simpl; [done|].
  destruct (is_zero_byte d) eqn:E; [done|]. congruence.
Qed.

(** Counting the digits after the leading zeros bounds the number. *)
Lemma strip_length_bound l n :
  digit_list l -> 0 <= n -> (len (strip l) <= n <-> digits_acc 0 l < 10 ^ n).
Proof.
  intros Hl Hn. rewrite <- (strip_val l). apply strip_digits in Hl.
  destruct (strip l) as [|c l'] eqn:E.
  - unfold len. simpl. split; [|lia]. intros _. by apply Z.pow_pos_nonneg.
  - pose proof (strip_head _ _ _ E) as Hz. inversion Hl as [|?? Hc Hl']; subst.
    pose proof (digits_val_large _ _ Hc Hz Hl') as Hlow.
    pose proof (digits_val_bound (c :: l') Hl) as [_ Hup].
    rewrite len_cons in *.
    split; intros Hb.
    + eapply Z.lt_le_trans; [apply Hup|]. apply Z.pow_le_mono_r; lia.
    + destruct (Z.le_gt_cases (len l' + 1) n) as [|Hgt]; [done|].
      assert (10 ^ n <= 10 ^ len l') by (apply Z.pow_le_mono_r; lia). lia.
Qed.

(** Trailing zeros: [l] is its trimmed part followed by zeros. *)
Definition rstrip (l : list ascii) : list ascii := rev (strip (rev l)).

Lemma list_trim_right s :
  String.list_ascii_of_string (trim_right is_zero_byte s) = rstrip (String.list_ascii_of_string s).
Proof.
  unfold trim_right, rstrip, str_rev.
  by rewrite String.list_ascii_of_string_of_list_ascii, list_trim_left,
    String.list_ascii_of_string_of_list_ascii.
Qed.

Lemma strip_split l : exists z, l = z ++ strip l /\ Forall (λ c, is_zero_byte c = true) z.
Proof.
  induction l as [|c l [z [Hl Hz]]]; simpl; [by exists []|].
  destruct (is_zero_byte c) eqn:E; [|by exists []].
  exists (c :: z). split; [simpl; congruence|by constructor].
Qed.

Lemma zeros_val acc z :
  Forall (λ c, is_zero_byte c = true) z -> digits_acc acc z = acc * 10 ^ len z.
Proof.
  intros Hz. rewrite digits_acc_val.
  enough (digits_acc 0 z = 0) by lia.
  induction Hz as [|c z Hc _ IH]; [done|]. simpl. by rewrite (zero_byte_val _ Hc).
Qed.

Lemma rstrip_split l :
  exists z, l = rstrip l ++ z /\ Forall (λ c, is_zero_byte c = true) z.
Proof.
  destruct (strip_split (rev l)) as (z & Hl & Hz). exists (rev z). split.
  - unfold rstrip. rewrite <- rev_app_distr, <- Hl. by rewrite rev_involutive.
  - by apply Forall_rev.
Qed.

Lemma rstrip_last l T c :
  digit_list l -> rstrip l = T ++ [c] -> is_zero_byte c = false /\ is_digit c = true.
Proof.
  unfold rstrip. intros Hl E. apply (f_equal (@rev _)) in E.
  rewrite rev_involutive, rev_app_distr in E. simpl in E. split.
  - by eapply strip_head.
  - assert (Hd : digit_list (strip (rev l))) by (apply strip_digits, Forall_rev, Hl).
    rewrite E in Hd. by inversion Hd.
Qed.

(** Counting the digits before the trailing zeros decides whether the
    fraction is a multiple of [10^-s]. *)
Lemma rstrip_length_bound l s :
  digit_list l -> 0 <= s ->
  (len (rstrip l) <= s <-> (10 ^ len l | digits_acc 0 l * 10 ^ s)).
Proof.
  intros Hl Hs. destruct (rstrip_split l) as (z & Hz & Hzz).
  set (T := rstrip l) in *.
  assert (Hval : digits_acc 0 l = digits_acc 0 T * 10 ^ len z).
  { rewrite Hz, digits_acc_app at 1. by apply zeros_val. }
  assert (Hlen : len l = len T + len z) by (rewrite Hz, len_app; done).
  rewrite Hval, Hlen, Z.pow_add_r by apply len_nonneg.
  pose proof (len_nonneg T) as HT. pose proof (len_nonneg z) as Hzn.
  assert (0 < 10 ^ len z) by (apply Z.pow_pos_nonneg; lia).
  replace (digits_acc 0 T * 10 ^ len z * 10 ^ s) with (digits_acc 0 T * 10 ^ s * 10 ^ len z) by lia.
  rewrite Z.mul_divide_cancel_r by lia. split.
  - intros Hle. apply Z.divide_mul_r.
    exists (10 ^ (s - len T)). rewrite <- Z.pow_add_r by lia. f_equal. lia.
  - intros Hdiv. destruct (Z.le_gt_cases (len T) s) as [|Hgt]; [done|exfalso].
    destruct T as [|c T' _] eqn:ET using rev_ind; [unfold len in Hgt; simpl in Hgt; lia|].
    destruct (rstrip_last l T' c Hl ET) as [Hc Hd].
    assert (Hd10 : (10 | digits_acc 0 (T' ++ [c]))).
    { replace (len (T' ++ [c])) with (s + (len (T' ++ [c]) - s - 1 + 1)) in Hdiv by lia.
      rewrite Z.pow_add_r, Z.mul_comm in Hdiv by lia.
      apply Z.mul_divide_cancel_r in Hdiv; [|by apply Z.pow_nonzero].
      eapply Z.divide_trans; [|apply Hdiv].
      exists (10 ^ (len (T' ++ [c]) - s - 1)). rewrite Z.pow_add_r by lia. lia. }
    rewrite digits_acc_app in Hd10. simpl in Hd10.
    pose proof (digit_val_bound c Hd).
    assert (digit_val c <> 0) by (intros ?%digit_val_zero; congruence).
    destruct Hd10 as [q Hq]. lia.
Qed.
End Digits.

(** The text of a decimal: an optional sign, an integer part and maybe a
    fraction, all digits. *)
Definition numeral (neg : bool) (I : string) (F : option string) : string :=
  (if neg then "-" else "") +:+ I +:+ (match F with Some F => "." +:+ F | None => "" end).

Definition digit_string (s : string) : Prop := digit_list (String.list_ascii_of_string s).

Lemma digit_string_no c s : digit_string s -> is_digit c = false -> str_mem c s = false.
Proof.
  intros Hs Hc. apply (str_mem_forall c is_digit); [|done].
  unfold digit_string, digit_list in Hs.
  induction s as [|d s IH]; simpl in *; [done|].
  inversion Hs as [|?? Hd Hs']; subst. rewrite IH by done. by rewrite Hd.
Qed.

Lemma TrimPrefix_numeral neg I F :
  digit_string I -> TrimPrefix (numeral neg I F) "-" = numeral false I F.
Proof.
  intros HI. unfold TrimPrefix, numeral. destruct neg; simpl.
  { by rewrite HasPrefix_nil. }
  destruct I as [|c I]; simpl; [by destruct F|].
  rewrite bool_decide_false; [done|]. intros <-. by inversion HI.
Qed.

Lemma str_app_nil_r (s : string) : s +:+ "" = s.
Proof. induction s as [|c s IH]; [done|].
  change (String c (s +:+ "") = String c s). by rewrite IH. Qed.

Lemma SplitN2_numeral I F :
  digit_string I ->
  SplitN2 "." (numeral false I F) = match F with Some F => [I; F] | None => [I] end.
Proof.
  intros HI. assert (Hm : str_mem "." I = false) by by apply digit_string_no.
  unfold SplitN2, numeral. simpl. destruct F as [F|].
  - change ("" +:+ (I +:+ ("." +:+ F))) with (I +:+ String "." F). by rewrite cut_app.
  - change ("" +:+ (I +:+ "")) with (I +:+ ""). rewrite str_app_nil_r. by apply cut_None in Hm as ->.
Qed.

Lemma countIntegerDigits_len s :
  Z.of_nat (countIntegerDigits s) = len (strip (String.list_ascii_of_string s)).
Proof.
  unfold countIntegerDigits, len. rewrite <- list_trim_left, list_of_string_length.
  case_bool_decide as E; [by rewrite E|done].
Qed.

Lemma countFractionalDigits_len s :
  Z.of_nat (countFractionalDigits s) = len (rstrip (String.list_ascii_of_string s)).
Proof.
  unfold countFractionalDigits, len. by rewrite <- list_trim_right, list_of_string_length.
Qed.

Definition frac_of (F : option string) : string := default "" F.

(** Documented behaviour of the decimal library: a decimal prints as a numeral
    that reads back as a decimal printing the same. *)
Class DecimalLaws (DL : DecimalLib) := {
  dec_String_numeral d : exists neg I F,
    dec_String d = numeral neg I F /\ digit_string I /\ digit_string (frac_of F);
  dec_parse_String d : exists d', dec_NewFromString (dec_String d) = Some d' /\
    dec_String d' = dec_String d /\ dec_IsPositive d' = dec_IsPositive d
}.

Lemma str_mem_app c (a b : string) : str_mem c (a +:+ b) = str_mem c a || str_mem c b.
Proof.
  induction a as [|d a IH]; [done|].
  change (bool_decide (c = d) || str_mem c (a +:+ b) = (bool_decide (c = d) || str_mem c a) || str_mem c b).
  by rewrite IH, orb_assoc.
Qed.

Lemma dec_String_no `{DL : DecimalLib} `{!DecimalLaws DL} (d : Dec) (c : ascii) :
  is_digit c = false -> c <> "-"%char -> c <> "."%char -> str_mem c (dec_String d) = false.
Proof.
  intros Hc H1 H2. destruct (dec_String_numeral d) as (neg & I & F & -> & HI & HF). unfold numeral.
  rewrite !str_mem_app, (digit_string_no c I HI Hc).
  assert (Hn : str_mem c (if neg then "-" else "") = false).
  { destruct neg; simpl; [|done]. by rewrite bool_decide_false. }
  rewrite Hn. simpl. destruct F as [F|]; [|done].
  change (bool_decide (c = "."%char) || str_mem c F = false).
  by rewrite bool_decide_false, (digit_string_no c F HF Hc).
Qed.

Section Fits.
Local Open Scope Z_scope.

Lemma FitsNumeric_split neg (I : string) (F : option string) p s :
  digit_string I -> digit_string (frac_of F) -> 0 <= s <= p ->
  FitsNumeric_raw (numeral neg I F) p s = true <->
  digits_val I < 10 ^ (p - s) /\
  (10 ^ len (String.list_ascii_of_string (frac_of F)) | digits_val (frac_of F) * 10 ^ s).
Proof.
  intros HI HF Hps. unfold FitsNumeric_raw.
  rewrite TrimPrefix_numeral, SplitN2_numeral by done.
  unfold digits_val. rewrite <- strip_length_bound by (done || lia).
  rewrite <- rstrip_length_bound by (done || lia).
  rewrite <- countIntegerDigits_len, <- countFractionalDigits_len.
  rewrite andb_true_iff, !bool_decide_eq_true.
  by destruct F as [F|].
Qed.

(** The unscaled number a numeral writes: all its digits. *)
Definition unscaled (I F : string) : Z :=
  digits_val I * 10 ^ len (String.list_ascii_of_string F) + digits_val F.

(** A price passes exactly when [NUMERIC(p, s)] holds it without rounding or
    overflow: its value times [10^s] is an integer below [10^p]. *)
Lemma FitsNumeric_iff neg (I : string) (F : option string) p s :
  digit_string I -> digit_string (frac_of F) -> 0 <= s <= p ->
  FitsNumeric_raw (numeral neg I F) p s = true <->
  exists N, unscaled I (frac_of F) * 10 ^ s
            = N * 10 ^ len (String.list_ascii_of_string (frac_of F)) /\ N < 10 ^ p.
Proof.
  intros HI HF Hps. rewrite FitsNumeric_split by done.
  pose proof (digits_val_bound _ HI) as [HI0 _]. pose proof (digits_val_bound _ HF) as [HF0 HF1].
  unfold unscaled. fold (digits_val I) in *. fold (digits_val (frac_of F)) in *.
  set (k := len (String.list_ascii_of_string (frac_of F))) in *.
  set (vI := digits_val I) in *. set (vF := digits_val (frac_of F)) in *.
  assert (Hk : 0 < 10 ^ k) by (apply Z.pow_pos_nonneg; [lia|apply len_nonneg]).
  assert (Hs : 0 < 10 ^ s) by (apply Z.pow_pos_nonneg; lia).
  assert (Hp : 10 ^ p = 10 ^ (p - s) * 10 ^ s) by (rewrite <- Z.pow_add_r by lia; f_equal; lia).
  split.
  - intros [Hv [q Hq]]. exists (vI * 10 ^ s + q). split; [nia|].
    assert (q < 10 ^ s) by nia. rewrite Hp. nia.
  - intros (N & HN & HNp). split.
    + rewrite Hp in HNp. assert (vI * 10 ^ s <= N) by nia. nia.
    + exists (N - vI * 10 ^ s). lia.
Qed.
End Fits.

(** ** Order and its database form (application/dto/outbound/postgres) *)

Section Order.
Context `{DL : DecimalLib}.
Local Open Scope Z_scope.

Record Order := {
  ord_ID : UUID; ord_UserID : UUID; ord_MarketID : UUID; ord_Type : OrderType;
  ord_Price : Dec; ord_Quantity : Z; ord_Status : OrderStatus; ord_CreatedAt : Z
}.

Record OrderDTO := {
  dto_ID : UUID; dto_UserID : UUID; dto_MarketID : UUID; dto_Type : Z;
  dto_Price : string; dto_Quantity : Z; dto_Status : Z; dto_CreatedAt : Z
}.

(** [int16(t)] and [OrderType(i)] (a uint16). *)
Definition FromDomain (o : Order) : OrderDTO := {|
  dto_ID := ord_ID o; dto_UserID := ord_UserID o; dto_MarketID := ord_MarketID o;
  dto_Type := wrap_s 16 (ord_Type o); dto_Price := dec_String (ord_Price o);
  dto_Quantity := ord_Quantity o; dto_Status := wrap_s 16 (ord_Status o);
  dto_CreatedAt := ord_CreatedAt o
|}.

Definition ToDomain (o : OrderDTO) : result Order :=
  match NewDecimal (dto_Price o) with
  | Err e => Err (wrap "invalid order price from db" e)
  | Ok price => Ok {|
      ord_ID := dto_ID o; ord_UserID := dto_UserID o; ord_MarketID := dto_MarketID o;
      ord_Type := wrap_u 16 (dto_Type o); ord_Price := price;
      ord_Quantity := dto_Quantity o; ord_Status := wrap_u 16 (dto_Status o);
      ord_CreatedAt := dto_CreatedAt o |}
  end.

Lemma wrap_u16_s16 x : 0 <= x < 2 ^ 16 -> wrap_u 16 (wrap_s 16 x) = x.
Proof.
  intros Hx. unfold wrap_u, wrap_s.
  rewrite Zminus_mod, Zmod_mod, <- Zminus_mod.
  replace (x + 2 ^ (16 - 1) - 2 ^ (16 - 1)) with x by lia. by apply Z.mod_small.
Qed.
End Order.

(** A decimal library for the closed instances: natural numbers of hundredths
    are not needed, whole numbers are. *)
Definition IntDec : DecimalLib := {|
  Dec := Z;
  dec_NewFromString s := Z.of_int <$> DecimalString.NilZero.int_of_string s;
  dec_String := itoa;
  dec_IsPositive z := (0 <? z)%Z
|}.

Lemma nilzero_digit_string u : digit_string (DecimalString.NilZero.string_of_uint u).
Proof.
  pose proof (nilzero_digits u) as Hd.
  unfold digit_string, digit_list. induction (DecimalString.NilZero.string_of_uint u) as [|c s IH];
    simpl in *; [constructor|].
  apply andb_true_iff in Hd as [??]. constructor; auto.
Qed.

Lemma IntDec_laws : DecimalLaws IntDec.
Proof.
  split; simpl.
  - intros z. unfold itoa, DecimalString.NilZero.string_of_int.
    destruct (Z.to_int z) as [u|u]; [exists false|exists true];
      exists (DecimalString.NilZero.string_of_uint u), None;
      (split; [|split; [apply nilzero_digit_string|constructor]]);
      unfold numeral; by rewrite str_app_nil_r.
  - intros z. exists z. split; [|done]. rewrite int_of_itoa. simpl. by rewrite DecimalZ.of_to.
Qed.
