(* ===== verification/Events.v ===== *)
(** * Domain events and their wire forms
      (shared/models, orderService application/dto/{inbound,outbound}/kafka,
       application/dto/inbound/proto_mapper.go, spotService
       application/dto/{inbound,outbound}, shared/client/grpc/mapper)

    The mappers between domain values and protobuf messages.  Protobuf itself
    (the messages' encoding and [timestamppb]) is the class [Proto]; the
    property of the file is that a market event survives the trip from the spot
    service's producer to the order service's consumer. *)

From S2P Require Import Prelude GoStrings GoErrors Domain.
Local Open Scope string_scope.
Local Open Scope list_scope.
Local Open Scope Z_scope.

(** ** Domain models *)

Record Market := {
  mkt_ID : UUID; mkt_Name : string; mkt_Enabled : bool;
  mkt_DeletedAt : option Z; mkt_UpdatedAt : Z
}.

#[export] Instance Market_eq_dec : EqDecision Market.
Proof. solve_decision. Defined.

Record MarketStateChangedEvent := {
  mse_EventID : UUID; mse_MarketID : UUID; mse_Enabled : bool;
  mse_DeletedAt : option Z; mse_UpdatedAt : Z
}.

Record OrderStatusUpdatedEvent := {
  osu_EventID : UUID; osu_OrderID : UUID; osu_NewStatus : OrderStatus;
  osu_Reason : string; osu_CorrelationID : UUID; osu_UpdatedAt : Z
}.

Record OrderCreatedEvent `{DecimalLib} := {
  oce_EventID : UUID; oce_OrderID : UUID; oce_UserID : UUID; oce_MarketID : UUID;
  oce_Type : OrderType; oce_Price : Dec; oce_Quantity : Z;
  oce_Status : OrderStatus; oce_CreatedAt : Z
}.

(** ** timestamppb *)

Class PbTime := {
  Timestamp : Type;
  ts_New : Z -> Timestamp;
  ts_AsTime : Timestamp -> Z;
  ts_CheckValid : Timestamp -> option error
}.

(** Years 1 to 9999, the range of a valid timestamp. *)
Definition pb_time_range (t : Z) : Prop := -62135596800000000000 <= t < 253402300800000000000.

Class PbTimeLaws (P : PbTime) := {
  ts_AsTime_New t : pb_time_range t -> ts_AsTime (ts_New t) = t;
  ts_valid_New t : pb_time_range t -> ts_CheckValid (ts_New t) = None
}.

(** ** Messages *)

Section Messages.
Context `{PbTime}.

Record OrderCreatedMsg := {
  ocm_EventId : string; ocm_OrderId : string; ocm_UserId : string; ocm_MarketId : string;
  ocm_OrderType : Z; ocm_Price : string; ocm_Quantity : Z; ocm_Status : Z;
  ocm_CreatedAt : Timestamp
}.

Record OrderStatusUpdatedMsg := {
  osm_EventId : string; osm_OrderId : string; osm_NewStatus : Z; osm_Reason : string;
  osm_CorrelationId : string; osm_UpdatedAt : Timestamp
}.

Record MarketStateChangedMsg := {
  msm_EventId : string; msm_MarketId : string; msm_Enabled : bool;
  msm_DeletedAt : option Timestamp; msm_UpdatedAt : option Timestamp
}.

(** spot.v1.Market. *)
Record MarketMsg := {
  mm_Id : string; mm_Name : string; mm_Enabled : bool;
  mm_DeletedAt : option Timestamp; mm_UpdatedAt : option Timestamp
}.
End Messages.

(** proto.Marshal and proto.Unmarshal of the messages the program encodes. *)
Class ProtoCodec `{PbTime} := {
  marshal_OrderCreated : OrderCreatedMsg -> result string;
  marshal_OrderStatusUpdated : OrderStatusUpdatedMsg -> result string;
  marshal_MarketStateChanged : MarketStateChangedMsg -> result string;
  unmarshal_MarketStateChanged : string -> result MarketStateChangedMsg
}.

Class ProtoCodecLaws `{PbTime} (P : ProtoCodec) := {
  unmarshal_marshal m s :
    marshal_MarketStateChanged m = Ok s -> unmarshal_MarketStateChanged s = Ok m
}.

(** ** Enumerations *)

Definition TypeFromProto (orderType : Z) : OrderType :=
  if orderType =? 1 then OrderTypeLimit
  else if orderType =? 2 then OrderTypeMarket
  else if orderType =? 3 then OrderTypeStopLoss
  else if orderType =? 4 then OrderTypeTakeProfit
  else OrderTypeUnspecified.

Definition StatusToProto (orderStatus : OrderStatus) : Z :=
  if orderStatus =? OrderStatusCreated then 1
  else if orderStatus =? OrderStatusPending then 2
  else if orderStatus =? OrderStatusFilled then 3
  else if orderStatus =? OrderStatusCancelled then 4
  else 0.

Definition toProtoOrderStatus (status : OrderStatus) : Z :=
  if status =? OrderStatusCreated then 1
  else if status =? OrderStatusPending then 2
  else if status =? OrderStatusFilled then 3
  else if status =? OrderStatusCancelled then 4
  else 0.

Definition toProtoOrderType (orderType : OrderType) : Z :=
  if orderType =? OrderTypeLimit then 1
  else if orderType =? OrderTypeMarket then 2
  else if orderType =? OrderTypeStopLoss then 3
  else if orderType =? OrderTypeTakeProfit then 4
  else 0.

Section Mappers.
Context `{PT : PbTime} `{PC : !ProtoCodec} `{U : GoLib} `{DL : DecimalLib}.

(** *** Order events *)

Definition ToProtoOrderCreated (event : OrderCreatedEvent) : OrderCreatedMsg := {|
  ocm_EventId := uuid_string (oce_EventID event); ocm_OrderId := uuid_string (oce_OrderID event);
  ocm_UserId := uuid_string (oce_UserID event); ocm_MarketId := uuid_string (oce_MarketID event);
  ocm_OrderType := toProtoOrderType (oce_Type event);
  ocm_Price := dec_String (oce_Price event);
  ocm_Quantity := oce_Quantity event; ocm_Status := toProtoOrderStatus (oce_Status event);
  ocm_CreatedAt := ts_New (oce_CreatedAt event) |}.

Definition ToProtoOrderStatusUpdated (event : OrderStatusUpdatedEvent) : OrderStatusUpdatedMsg := {|
  osm_EventId := uuid_string (osu_EventID event); osm_OrderId := uuid_string (osu_OrderID event);
  osm_NewStatus := toProtoOrderStatus (osu_NewStatus event); osm_Reason := osu_Reason event;
  osm_CorrelationId := uuid_string (osu_CorrelationID event);
  osm_UpdatedAt := ts_New (osu_UpdatedAt event) |}.

Definition MarshalOrderCreated (event : OrderCreatedEvent) : result string :=
  map_err (wrap "proto.MarshalOrderCreated") (marshal_OrderCreated (ToProtoOrderCreated event)).

Definition MarshalOrderStatusUpdated (event : OrderStatusUpdatedEvent) : result string :=
  map_err (wrap "proto.MarshalOrderStatusUpdated")
    (marshal_OrderStatusUpdated (ToProtoOrderStatusUpdated event)).

Definition OrderCreatedKey (orderID : UUID) : string := uuid_string orderID.

(** *** Market events: the spot service's side *)

Definition ToProto (event : MarketStateChangedEvent) : MarketStateChangedMsg := {|
  msm_EventId := uuid_string (mse_EventID event); msm_MarketId := uuid_string (mse_MarketID event);
  msm_Enabled := mse_Enabled event; msm_DeletedAt := ts_New <$> mse_DeletedAt event;
  msm_UpdatedAt := Some (ts_New (mse_UpdatedAt event)) |}.

Definition Marshal (event : MarketStateChangedEvent) : result string :=
  map_err (wrap "marshal MarketStateChangedEvent") (marshal_MarketStateChanged (ToProto event)).

(** *** Market events: the order service's side *)

Definition parseUUIDRequired (fieldName raw : string) : result UUID :=
  if bool_decide (raw = "") then Err (EMsg (fieldName +:+ " is required"))
  else match uuid_parse raw with
       | None => Err (wrap ("invalid " +:+ fieldName) (EMsg "invalid UUID"))
       | Some id => Ok id
       end.

Definition fromProtoTimestamp (fieldName : string) (timestamp : option Timestamp) : result Z :=
  match timestamp with
  | None => Err (EMsg (fieldName +:+ " is required"))
  | Some timestamp =>
      match ts_CheckValid timestamp with
      | Some e => Err (wrap ("invalid " +:+ fieldName) e)
      | None => Ok (ts_AsTime timestamp)
      end
  end.

Definition fromProtoTimestampOptional (fieldName : string) (timestamp : option Timestamp) :
    result (option Z) :=
  match timestamp with
  | None => Ok None
  | Some timestamp =>
      match ts_CheckValid timestamp with
      | Some e => Err (wrap ("invalid " +:+ fieldName) e)
      | None => Ok (Some (ts_AsTime timestamp))
      end
  end.

Definition FromProtoMarketStateChanged (msg : option MarketStateChangedMsg) :
    result MarketStateChangedEvent :=
  match msg with
  | None => Err (EMsg "market state changed event is nil")
  | Some msg =>
      res_bind (parseUUIDRequired "event_id" (msm_EventId msg)) (λ eventID,
      res_bind (parseUUIDRequired "market_id" (msm_MarketId msg)) (λ marketID,
      res_bind (fromProtoTimestamp "updated_at" (msm_UpdatedAt msg)) (λ updatedAt,
      res_bind (fromProtoTimestampOptional "deleted_at" (msm_DeletedAt msg)) (λ deletedAt,
      Ok {| mse_EventID := eventID; mse_MarketID := marketID; mse_Enabled := msm_Enabled msg;
            mse_DeletedAt := deletedAt; mse_UpdatedAt := updatedAt |}))))
  end.

Definition UnmarshalMarketStateChanged (data : string) : result MarketStateChangedEvent :=
  match unmarshal_MarketStateChanged data with
  | Err e => Err (wrap "proto.UnmarshalMarketStateChanged" e)
  | Ok protobuf => FromProtoMarketStateChanged (Some protobuf)
  end.

(** *** Markets over gRPC *)

(** spotService inbound.MarketToProto; an unset UpdatedAt (the zero time) is
    left out. *)
Definition MarketToProto (market : Market) : MarketMsg := {|
  mm_Id := uuid_string (mkt_ID market); mm_Name := mkt_Name market;
  mm_Enabled := mkt_Enabled market; mm_DeletedAt := ts_New <$> mkt_DeletedAt market;
  mm_UpdatedAt := if mkt_UpdatedAt market =? zero_time then None
                  else Some (ts_New (mkt_UpdatedAt market)) |}.

(** shared/client/grpc/mapper. *)
Definition requiredTimestampUTC (field : string) (timestamp : option Timestamp) : result Z :=
  match timestamp with
  | None => Err (EMsg (field +:+ " is required"))
  | Some timestamp =>
      match ts_CheckValid timestamp with
      | Some e => Err (wrap ("invalid " +:+ field) e)
      | None => Ok (ts_AsTime timestamp)
      end
  end.

Definition optionalTimestampUTC (field : string) (timestamp : option Timestamp) : result (option Z) :=
  match timestamp with
  | None => Ok None
  | Some timestamp =>
      match ts_CheckValid timestamp with
      | Some e => Err (wrap ("invalid " +:+ field) e)
      | None => Ok (Some (ts_AsTime timestamp))
      end
  end.

Definition MarketFromProto (market : option MarketMsg) : result Market :=
  match market with
  | None => Err (EMsg "proto market is nil")
  | Some market =>
      match uuid_parse (mm_Id market) with
      | None => Err (EMsg ("invalid market id " +:+ mm_Id market))
      | Some id =>
          res_bind (requiredTimestampUTC "updated_at" (mm_UpdatedAt market)) (λ updatedAt,
          res_bind (optionalTimestampUTC "deleted_at" (mm_DeletedAt market)) (λ deletedAt,
          Ok {| mkt_ID := id; mkt_Name := mm_Name market; mkt_Enabled := mm_Enabled market;
                mkt_DeletedAt := deletedAt; mkt_UpdatedAt := updatedAt |}))
      end
  end.

(** *** Round trips *)

Context `{UL : !UuidLaws U} `{PTL : !PbTimeLaws PT} `{PCL : !ProtoCodecLaws PC}.

Lemma uuid_string_nonempty u : uuid_string u <> "".
Proof.
  intros Heq. pose proof (uuid_parse_string u) as Hp. by rewrite Heq, uuid_parse_empty in Hp.
Qed.

Lemma parseUUIDRequired_string f u : parseUUIDRequired f (uuid_string u) = Ok u.
Proof.
  unfold parseUUIDRequired. rewrite bool_decide_false by apply uuid_string_nonempty.
  by rewrite uuid_parse_string.
Qed.

Lemma fromProtoTimestamp_New f t : pb_time_range t -> fromProtoTimestamp f (Some (ts_New t)) = Ok t.
Proof. intros Ht. simpl. by rewrite ts_valid_New, ts_AsTime_New. Qed.

Lemma fromProtoTimestampOptional_New f t :
  (forall x, t = Some x -> pb_time_range x) ->
  fromProtoTimestampOptional f (ts_New <$> t) = Ok t.
Proof. intros Ht. destruct t as [t|]; simpl; [|done]. by rewrite ts_valid_New, ts_AsTime_New by auto. Qed.

(** What the spot service publishes about a market is what the order service
    reads: an event whose times fit the timestamp range is decoded from its
    message exactly as it was encoded. *)
Theorem market_event_roundtrip event payload :
  pb_time_range (mse_UpdatedAt event) ->
  (forall t, mse_DeletedAt event = Some t -> pb_time_range t) ->
  Marshal event = Ok payload ->
  UnmarshalMarketStateChanged payload = Ok event.
Proof.
  intros Hu Hd. unfold Marshal, UnmarshalMarketStateChanged.
  destruct (marshal_MarketStateChanged (ToProto event)) as [s|e] eqn:Em; [|done].
  intros [= <-]. rewrite (unmarshal_marshal _ _ Em).
  unfold FromProtoMarketStateChanged, ToProto; cbn [msm_EventId msm_MarketId msm_Enabled msm_DeletedAt
    msm_UpdatedAt].
  rewrite !parseUUIDRequired_string. cbn [res_bind].
  rewrite fromProtoTimestamp_New, fromProtoTimestampOptional_New by done. by destruct event.
Qed.

(** A market the spot service answers with reaches the order service
    unchanged, as long as it has been updated at some time. *)
Theorem market_grpc_roundtrip m :
  pb_time_range (mkt_UpdatedAt m) -> mkt_UpdatedAt m <> zero_time ->
  (forall t, mkt_DeletedAt m = Some t -> pb_time_range t) ->
  MarketFromProto (Some (MarketToProto m)) = Ok m.
Proof.
  intros Hu Hz Hd. unfold MarketFromProto, MarketToProto. cbn [mm_Id mm_Name mm_Enabled mm_DeletedAt
    mm_UpdatedAt]. rewrite uuid_parse_string.
  destruct (Z.eqb_spec (mkt_UpdatedAt m) zero_time); [done|].
  change requiredTimestampUTC with fromProtoTimestamp.
  change optionalTimestampUTC with fromProtoTimestampOptional.
  rewrite fromProtoTimestamp_New, fromProtoTimestampOptional_New by done. by destruct m.
Qed.
End Mappers.

(** ** A concrete protobuf, for the closed instances *)

Definition IdTime : PbTime := {|
  Timestamp := Z; ts_New t := t; ts_AsTime t := t; ts_CheckValid _ := None |}.

Lemma IdTime_laws : PbTimeLaws IdTime.
Proof. by split. Qed.

Section Concrete.
#[local] Existing Instance IdTime.

#[export] Instance msm_eq_dec : EqDecision (@MarketStateChangedMsg IdTime).
Proof. intros x y. unfold Decision. decide equality; solve_decision. Defined.

#[export] Instance msm_countable : Countable (@MarketStateChangedMsg IdTime).
Proof.
  refine (inj_countable' (A := string * string * bool * option Z * option Z)
    (λ m, (msm_EventId m, msm_MarketId m, msm_Enabled m, msm_DeletedAt m, msm_UpdatedAt m))
    (λ '(a, b, c, d, e), Build_MarketStateChangedMsg a b c d e) _).
  by intros [].
Defined.

Definition TextProto : @ProtoCodec IdTime := {|
  marshal_OrderCreated m := Ok (ocm_OrderId m);
  marshal_OrderStatusUpdated m := Ok (osm_OrderId m);
  marshal_MarketStateChanged m := Ok (text_encode m);
  unmarshal_MarketStateChanged s :=
    match text_decode s with Some m => Ok m | None => Err (EMsg "proto: cannot parse") end
|}.

Lemma TextProto_laws : ProtoCodecLaws TextProto.
Proof. split. intros m s [= <-]. simpl. by rewrite text_decode_encode. Qed.

#[local] Existing Instance TextProto.
#[local] Existing Instance DecLib.
#[local] Existing Instance DecLib_laws.
#[local] Existing Instance IdTime_laws.
#[local] Existing Instance TextProto_laws.

Definition demo_market_event : MarketStateChangedEvent := {|
  mse_EventID := 1%N; mse_MarketID := 2%N; mse_Enabled := false;
  mse_DeletedAt := Some 5; mse_UpdatedAt := 7 |}.

Lemma market_event_roundtrip_witness :
  exists payload, Marshal demo_market_event = Ok payload /\
    UnmarshalMarketStateChanged payload = Ok demo_market_event.
Proof.
  eexists. split; [reflexivity|]. apply market_event_roundtrip.
  - unfold pb_time_range. simpl. lia.
  - intros t Ht. injection Ht as <-. unfold pb_time_range. lia.
  - reflexivity.
Defined.

Definition demo_market : Market := {|
  mkt_ID := 2%N; mkt_Name := "BTC-USDT"; mkt_Enabled := true; mkt_DeletedAt := None;
  mkt_UpdatedAt := 7 |}.

Lemma market_grpc_roundtrip_witness :
  MarketFromProto (Some (MarketToProto demo_market)) = Ok demo_market.
Proof.
  apply market_grpc_roundtrip.
  - unfold pb_time_range. simpl. lia.
  - discriminate.
  - discriminate.
Defined.
End Concrete.
