(* ===== verification/Idempotency.v ===== *)
(** * Idempotency of CreateOrder
      (orderService/internal/infrastructure/redis/idempotency,
       application/order/idempotency_adapter.go,
       services/order/idempotency_service.go)

    [Section Store] is the Redis store: two Lua scripts over the key of a user
    and a request hash.  [Section Service] is the service on top of it.  The
    properties say that between a cleanup and the expiry of the key at most one
    request acquires it, and that a completed key keeps answering with the
    order it was completed with until the time the first request set. *)

From S2P Require Import Prelude GoStrings GoErrors Effects Redis Domain.
Local Open Scope string_scope.
Local Open Scope list_scope.
Local Open Scope Z_scope.

(** ** Entries *)

Definition keyPrefix : string := "idem:order:create".
Definition statusProcessing : string := "processing".
Definition statusCompleted : string := "completed".

Record Entry := {
  ent_Status : string; ent_RequestHash : string; ent_StartedAt : Z;
  ent_OrderID : UUID; ent_OrderStatus : string
}.

Definition zero_Entry : Entry := {|
  ent_Status := ""; ent_RequestHash := ""; ent_StartedAt := zero_time;
  ent_OrderID := uuid_Nil; ent_OrderStatus := "" |}.

Definition IsCompleted (e : Entry) : bool := bool_decide (ent_Status e = statusCompleted).
Definition IsProcessing (e : Entry) : bool := bool_decide (ent_Status e = statusProcessing).

(** encoding/json on [Entry]: decoding undoes encoding, and no entry is encoded
    as the empty text. *)
Class EntryCodec := {
  entry_marshal : Entry -> string;
  entry_unmarshal : string -> option Entry
}.

Class EntryCodecLaws (C : EntryCodec) := {
  entry_roundtrip e : entry_unmarshal (entry_marshal e) = Some e;
  entry_nonempty e : entry_marshal e <> ""
}.

(** SHA-256 of a text, in hexadecimal. *)
Class Sha256 := { sha256_hex : string -> string }.

(** ** Lua scripts *)

Section Scripts.
Context {R : Type} `{Redis R}.

Definition ErrInvalidExpire : error := EMsg "ERR invalid expire time in 'set' command".

(** GET key; if it exists return it, else SET key value PX ttlMs. *)
Definition acquireScript (key value : string) (ttlMs t : Z) (r : R) : result string * R :=
  match GET t key r with
  | Some existing => (Ok existing, r)
  | None => match SETPX t key value ttlMs r with
            | Some r => (Ok "", r)
            | None => (Err ErrInvalidExpire, r)
            end
  end.

(** Replace the value and keep the remaining time to live. *)
Definition completeScript (key newValue : string) (t : Z) (r : R) : result Z * R :=
  let pttl := PTTL t key r in
  if pttl =? -2 then (Ok 0, r)
  else if pttl =? -1 then (Ok 1, SET t key newValue r)
  else match SETPX t key newValue pttl r with
       | Some r => (Ok 1, r)
       | None => (Err ErrInvalidExpire, r)
       end.
End Scripts.

(** ** idempotency.Store *)

Section Store.
Context {St R : Type} `{Redis R} `{HR : !Has R St} `{U : GoLib} `{C : EntryCodec}.
Variable ttl : Z.

Definition buildKey (userID : UUID) (requestHash : string) : string :=
  (keyPrefix +:+ ":" +:+ uuid_string userID +:+ ":" +:+ requestHash)%string.

Definition op_Acquire : string := "IdempotencyStore.Acquire".

(** One round; [again] is the recursive call, absent when this already is the
    retry after a corrupted entry was deleted. *)
Definition acquire_round (userID : UUID) (requestHash : string)
    (again : option (M St (result (Entry * bool)))) : M St (result (Entry * bool)) :=
  let key := buildKey userID requestHash in
  let! now := time_Now in
  let newEntry := {| ent_Status := statusProcessing; ent_RequestHash := requestHash;
                     ent_StartedAt := now; ent_OrderID := uuid_Nil; ent_OrderStatus := "" |} in
  let newValue := entry_marshal newEntry in
  let! raw := redis_call (acquireScript key newValue (Z.quot ttl 1000000)) in
  match (match raw with
         | Err e => if is_sent RedisNil e then Ok "" else Err e
         | Ok v => Ok v
         end) with
  | Err e => mret (Err (wrap (op_Acquire +:+ ": script") e))
  | Ok raw =>
      if bool_decide (raw = "") then mret (Ok (zero_Entry, true))
      else match entry_unmarshal raw with
           | Some existing => mret (Ok (existing, false))
           | None =>
               let! del := cache_Delete key in
               match del with
               | Err e =>
                   if is_sent ErrCacheNotFound e then
                     match again with
                     | None => mret (Err (wrap (op_Acquire +:+ ": corrupted entry after cleanup retry")
                                            (EMsg "invalid entry")))
                     | Some m => m
                     end
                   else mret (Err (wrap (op_Acquire +:+ ": delete corrupted entry") e))
               | Ok _ =>
                   match again with
                   | None => mret (Err (wrap (op_Acquire +:+ ": corrupted entry after cleanup retry")
                                          (EMsg "invalid entry")))
                   | Some m => m
                   end
               end
           end
  end.

Definition store_Acquire (userID : UUID) (requestHash : string) : M St (result (Entry * bool)) :=
  acquire_round userID requestHash (Some (acquire_round userID requestHash None)).

Definition completed_entry (requestHash : string) (orderID : UUID) (orderStatus : string) : Entry :=
  {| ent_Status := statusCompleted; ent_RequestHash := requestHash; ent_StartedAt := zero_time;
     ent_OrderID := orderID; ent_OrderStatus := orderStatus |}.

Definition store_Complete (userID : UUID) (requestHash : string) (orderID : UUID)
    (orderStatus : string) : M St (result unit) :=
  let op := "IdempotencyStore.Complete" in
  let key := buildKey userID requestHash in
  let value := entry_marshal (completed_entry requestHash orderID orderStatus) in
  try! n := redis_call (completeScript key value) else wrap (op +:+ ": script") in
  if n =? 0 then
    let! r := cache_SetWithTTL key value ttl in
    mret (map_err (wrap (op +:+ ": restore expired key")) r)
  else mret (Ok tt).

Definition store_FailCleanup (userID : UUID) (requestHash : string) : M St (result unit) :=
  let! r := cache_Delete (buildKey userID requestHash) in
  mret (map_err (wrap "IdempotencyStore.FailCleanup") r).

(** ** redisIdempotencyAdapter *)

Record IdempotencyResult := {
  idr_IsCompleted : bool; idr_IsProcessing : bool; idr_StartedAt : Z;
  idr_OrderID : UUID; idr_OrderStatus : string
}.

Definition to_result (entry : Entry) : IdempotencyResult := {|
  idr_IsCompleted := IsCompleted entry; idr_IsProcessing := IsProcessing entry;
  idr_StartedAt := ent_StartedAt entry; idr_OrderID := ent_OrderID entry;
  idr_OrderStatus := ent_OrderStatus entry |}.

Definition adapter_Acquire (userID : UUID) (requestHash : string) :
    M St (result (IdempotencyResult * bool)) :=
  let! r := store_Acquire userID requestHash in
  mret (res_map (λ '(entry, acquired), (to_result entry, acquired)) r).

Definition adapter_Complete (userID : UUID) (requestHash : string) (orderID : UUID)
    (orderStatus : string) : M St (result unit) :=
  store_Complete userID requestHash orderID orderStatus.

Definition adapter_FailCleanup (userID : UUID) (requestHash : string) : M St (result unit) :=
  store_FailCleanup userID requestHash.
End Store.

(** ** IdempotencyService *)

Section Service.
Context {St R : Type} `{Redis R} `{HR : !Has R St} `{U : GoLib} `{C : EntryCodec}
  `{DL : DecimalLib} `{SH : Sha256}.
Variables (ttl : Z) (completeAttempts : Z).

Definition request_raw (marketID : UUID) (orderType : OrderType) (price : Dec) (quantity : Z) : string :=
  (uuid_string marketID +:+ "|" +:+ OrderType_String orderType +:+ "|" +:+ dec_String price
   +:+ "|" +:+ itoa quantity)%string.

Definition buildRequestHash (marketID : UUID) (orderType : OrderType) (price : Dec)
    (quantity : Z) : string :=
  sha256_hex (request_raw marketID orderType price quantity).

Definition idem_acquire (userID : UUID) (requestHash : string) :
    M St (result (IdempotencyResult * bool)) := adapter_Acquire ttl userID requestHash.

Definition checkIdempotencyResult (idemResult : IdempotencyResult) :
    UUID * OrderStatus * option error :=
  let op := "checkIdempotencyResult" in
  if idr_IsCompleted idemResult then
    (idr_OrderID idemResult, FromString (idr_OrderStatus idemResult), None)
  else if idr_IsProcessing idemResult then
    (uuid_Nil, OrderStatusUnspecified, Some (wrap op (ESentinel ErrOrderProcessing)))
  else (uuid_Nil, OrderStatusUnspecified, Some (EMsg (op +:+ ": unknown idempotency state"))).

(** The retry loop with [n] attempts left; [last] is the error of the previous
    one. *)
Fixpoint complete_loop (n : nat) (last : option error) (userID orderID : UUID)
    (requestHash : string) (orderStatus : OrderStatus) : M St (result unit) :=
  match n with
  | O => mret (match last with Some e => Err e | None => Ok tt end)
  | S n =>
      let! c := ctx_Err in
      match c with
      | Some e => mret (Err e)
      | None =>
          let! r := adapter_Complete ttl userID requestHash orderID (OrderStatus_String orderStatus) in
          match r with
          | Ok _ => mret (Ok tt)
          | Err e =>
              match n with
              | O => complete_loop n (Some e) userID orderID requestHash orderStatus
              | _ => (* the select between ctx.Done() and the retry timer *)
                  let! c := ctx_Err in
                  match c with
                  | Some e => mret (Err e)
                  | None => complete_loop n (Some e) userID orderID requestHash orderStatus
                  end
              end
          end
      end
  end.

Definition completeIdempotencyChecking (userID orderID : UUID) (requestHash : string)
    (orderStatus : OrderStatus) : M St (result unit) :=
  complete_loop (Z.to_nat completeAttempts) None userID orderID requestHash orderStatus.

Definition failCleanup (userID : UUID) (requestHash : string) (acquired : bool) : M St unit :=
  if acquired then adapter_FailCleanup userID requestHash ;;! mret tt else mret tt.
End Service.

(** ** The key under any interleaving of requests *)

Section Protocol.
Context {R : Type} `{HR : Redis R} `{!RedisLaws R}.
Variable ttlMs : Z.

(** What the stores of all requests and instances send to Redis. *)
Inductive idem_op :=
| OpAcquire (key value : string)
| OpComplete (key value : string)
| OpRestore (key value : string)      (* SET after an expired key *)
| OpDelete (key : string).            (* FailCleanup, or a corrupted entry *)

Definition exec (op : idem_op) (t : Z) (r : R) : R :=
  match op with
  | OpAcquire key value => (acquireScript key value ttlMs t r).2
  | OpComplete key value => (completeScript key value t r).2
  | OpRestore key value => default r (SETPX t key value ttlMs r)
  | OpDelete key => DEL t key r
  end.

Fixpoint exec_all (ops : list (Z * idem_op)) (r : R) : R :=
  match ops with
  | [] => r
  | (t, op) :: ops => exec_all ops (exec op t r)
  end.

(** The server's clock along the operations, from [t] to [t']. *)
Fixpoint clocked (t : Z) (ops : list (Z * idem_op)) (t' : Z) : Prop :=
  match ops with
  | [] => t <= t'
  | (t1, _) :: ops => t <= t1 /\ clocked t1 ops t'
  end.

Definition op_value (op : idem_op) : option string :=
  match op with
  | OpAcquire _ v | OpComplete _ v | OpRestore _ v => Some v
  | OpDelete _ => None
  end.

Definition op_key (op : idem_op) : string :=
  match op with OpAcquire k _ | OpComplete k _ | OpRestore k _ | OpDelete k => k end.

(** Operations on other keys do not touch this one. *)
Lemma exec_other op key t t' r :
  op_key op <> key -> t <= t' -> view (exec op t r) t' key = view r t' key.
Proof.
  intros Hk Ht. destruct op as [k v'|k v'|k v'|k]; simpl in *.
  - unfold acquireScript. destruct (GET t k r); [done|].
    destruct (SETPX t k v' ttlMs r) eqn:Es; [|done]. simpl.
    by erewrite SETPX_view, decide_False.
  - unfold completeScript. destruct (_ =? -2); [done|]. destruct (_ =? -1).
    + simpl. by rewrite SET_view, decide_False.
    + destruct (SETPX _ _ _ _ _) eqn:Es; [|done]. simpl. by erewrite SETPX_view, decide_False.
  - destruct (SETPX t k v' ttlMs r) eqn:Es; simpl; [|done]. by erewrite SETPX_view, decide_False.
  - by rewrite DEL_view, decide_False.
Qed.

(** The key is taken at least until [D]. *)
Definition held (r : R) (key : string) (D t : Z) : Prop :=
  t < D -> exists v e, view r t key = Some (v, e) /\ v <> "" /\
                       match e with Some x => D <= x | None => True end.

Lemma held_later r key D t t' : t <= t' -> held r key D t -> held r key D t'.
Proof.
  intros Ht Hh Ht'. destruct Hh as (v & e & Hv & Hne & He); [lia|].
  exists v, e. split; [|done]. rewrite (view_later _ t), Hv by done.
  destruct e as [x|]; simpl; [|done]. by rewrite bool_decide_true by lia.
Qed.

Lemma held_set key v D t px (r r' : R) :
  SETPX t key v px r = Some r' -> v <> "" -> D <= t + px -> held r' key D t.
Proof.
  intros Hs Hv HD Ht. exists v, (Some (t + px)).
  erewrite SETPX_view by (done || lia). rewrite decide_True by done. simpl.
  by rewrite bool_decide_true by lia.
Qed.

Lemma held_exec op key D t r :
  op_value op <> Some "" -> op <> OpDelete key -> D <= t + ttlMs ->
  held r key D t -> held (exec op t r) key D t.
Proof.
  intros Hval Hdel HD Hh. destruct (decide (op_key op = key)) as [Hk|Hk].
  2: { unfold held. rewrite exec_other by (done || lia). apply Hh. }
  destruct (Z.le_gt_cases D t) as [|Hlt]; [intros ?; lia|].
  destruct (Hh Hlt) as (v & e & Hv & Hne & He).
  destruct op as [k v'|k v'|k v'|k]; simpl in *; subst k.
  - unfold acquireScript. rewrite GET_view, Hv. done.
  - unfold completeScript. rewrite PTTL_view, Hv. destruct e as [x|].
    + destruct (Z.eqb_spec (x - t) (-2)); [lia|]. destruct (Z.eqb_spec (x - t) (-1)); [lia|].
      destruct (SETPX t key v' (x - t) r) eqn:Es; simpl; [|done].
      eapply held_set; [done|congruence|lia].
    + simpl. intros _. exists v', None. rewrite SET_view, decide_True by (done || lia).
      split_and!; [done|congruence|done].
  - destruct (SETPX t key v' ttlMs r) eqn:Es; simpl; [|done].
    eapply held_set; [done|congruence|lia].
  - done.
Qed.

Lemma held_exec_all ops key D t t' r :
  Forall (λ '(_, op), op_value op <> Some "" /\ op <> OpDelete key) ops ->
  D <= t + ttlMs -> clocked t ops t' -> held r key D t -> held (exec_all ops r) key D t'.
Proof.
  revert t r; induction ops as [|[t1 op] ops IH]; intros t r Hops HD Hc Hh; simpl in *.
  { by eapply held_later. }
  destruct Hc as [Ht Hc]. apply Forall_cons in Hops as [[Hv Hd] Hops].
  eapply (IH t1); [done|lia|done|]. apply held_exec; [done|done|lia|]. by eapply held_later.
Qed.

(** The key holds [v] until [D] and nothing after. *)
Definition exactly (r : R) (key v : string) (D t : Z) : Prop :=
  view r t key = alive t (Some (v, Some D)).

Lemma exactly_later r key v D t t' : t <= t' -> exactly r key v D t -> exactly r key v D t'.
Proof.
  unfold exactly. intros Ht Hv. rewrite (view_later _ t), Hv by done. simpl.
  case_bool_decide; simpl; [done|]. case_bool_decide; [lia|done].
Qed.

(** Acquires of a live key and operations on other keys leave it alone. *)
Lemma exactly_exec op key v D t r :
  (op_key op = key -> exists v', op = OpAcquire key v') -> t < D ->
  exactly r key v D t -> exactly (exec op t r) key v D t.
Proof.
  intros Hop Hlt Hv. destruct (decide (op_key op = key)) as [Hk|Hk].
  - destruct (Hop Hk) as [v' ->]. simpl. unfold acquireScript, exactly in *.
    rewrite GET_view, Hv. simpl. rewrite bool_decide_true by done. simpl. rewrite Hv. simpl.
    by rewrite bool_decide_true.
  - unfold exactly. rewrite exec_other by (done || lia). apply Hv.
Qed.

Lemma exactly_exec_all ops key v D t t' r :
  Forall (λ '(_, op), op_key op = key -> exists v', op = OpAcquire key v') ops ->
  clocked t ops t' -> t' < D -> exactly r key v D t -> exactly (exec_all ops r) key v D t'.
Proof.
  revert t r; induction ops as [|[t1 op] ops IH]; intros t r Hops Hc Hlt Hv; simpl in *.
  { by eapply exactly_later. }
  destruct Hc as [Ht Hc]. apply Forall_cons in Hops as [Hop Hops].
  assert (Ht1 : t1 <= t').
  { clear -Hc. revert t1 Hc. induction ops as [|[t2 o] ops IH]; simpl; [done|].
    intros t1 [? H]. apply IH in H. lia. }
  eapply (IH t1); [done|done|done|]. apply exactly_exec; [done|lia|]. by eapply exactly_later.
Qed.

Lemma acquire_fresh key v t r :
  view r t key = None -> 0 < ttlMs ->
  exists r', acquireScript key v ttlMs t r = (Ok "", r') /\ exactly r' key v (t + ttlMs) t /\
    SETPX t key v ttlMs r = Some r'.
Proof.
  intros Hn Hpos. unfold acquireScript. rewrite GET_view, Hn. simpl.
  destruct (proj1 (SETPX_ok t key v ttlMs r) Hpos) as [r' Hr']. rewrite Hr'.
  exists r'. split; [done|]. split; [|done]. unfold exactly.
  erewrite SETPX_view by (done || lia). by rewrite decide_True.
Qed.

(** On a live key: completing keeps the expiry, acquiring reads the value. *)
Lemma complete_live key value v D t r :
  exactly r key v D t -> t < D ->
  exists r', completeScript key value t r = (Ok 1, r') /\
    forall t', t <= t' -> exactly r' key value D t'.
Proof.
  intros Hex Hlt. assert (Hlive : view r t key = Some (v, Some D)).
  { rewrite Hex. simpl. by rewrite bool_decide_true. }
  unfold completeScript. rewrite PTTL_view, Hlive.
  destruct (Z.eqb_spec (D - t) (-2)); [lia|]. destruct (Z.eqb_spec (D - t) (-1)); [lia|].
  destruct (proj1 (SETPX_ok t key value (D - t) r) ltac:(lia)) as [r' Hr']. rewrite Hr'.
  exists r'. split; [done|]. intros t' Ht'. unfold exactly. erewrite SETPX_view by done.
  rewrite decide_True by done. by replace (t + (D - t)) with D by lia.
Qed.

Lemma acquire_live key v v2 D t r :
  exactly r key v D t -> t < D -> acquireScript key v2 ttlMs t r = (Ok v, r).
Proof.
  intros Hex Hlt. unfold acquireScript. rewrite GET_view, Hex. simpl. by rewrite bool_decide_true.
Qed.
End Protocol.

(** ** Properties *)

Section Properties.
Context {R : Type} `{HR : Redis R} `{!RedisLaws R}.

(** At most one request holds a key: after one request acquired a free key,
    every other acquire of the key within the time to live is answered with
    the stored entry, whatever requests and instances do to this and other
    keys in between, unless one of them deletes it. *)
Theorem idempotency_exclusive ttlMs key v v2 t0 t ops (r : R) :
  view r t0 key = None -> 0 < ttlMs -> v <> "" ->
  Forall (λ '(_, op), op_value op <> Some "" /\ op <> OpDelete key) ops ->
  clocked t0 ops t -> t < t0 + ttlMs ->
  exists r1, acquireScript key v ttlMs t0 r = (Ok "", r1) /\
    exists existing, acquireScript key v2 ttlMs t (exec_all ttlMs ops r1) =
                       (Ok existing, exec_all ttlMs ops r1) /\ existing <> "".
Proof.
  intros Hn Hpos Hv Hops Hc Hlt.
  destruct (acquire_fresh ttlMs key v t0 r Hn Hpos) as (r1 & -> & _ & Hset).
  exists r1. split; [done|].
  assert (Hh : held r1 key (t0 + ttlMs) t0) by (eapply held_set; done).
  destruct (held_exec_all ttlMs ops key (t0 + ttlMs) t0 t r1 Hops ltac:(lia) Hc Hh Hlt) as (x & e & Hx & Hne & _).
  exists x. split; [|done]. unfold acquireScript. by rewrite GET_view, Hx.
Qed.

(** Replays: once the holder completed the key, every later request with the
    same user and hash gets exactly the stored order back, until the time to
    live the first acquire set, which completing does not extend. *)
Theorem idempotency_replay `{C : EntryCodec} `{!EntryCodecLaws C} ttlMs key v v2 h order status
    t0 t1 t ops ops2 (r : R) :
  view r t0 key = None -> 0 < ttlMs ->
  Forall (λ '(_, op), op_key op = key -> exists v', op = OpAcquire key v') ops ->
  Forall (λ '(_, op), op_key op = key -> exists v', op = OpAcquire key v') ops2 ->
  clocked t0 ops t1 -> clocked t1 ops2 t -> t1 < t0 + ttlMs -> t < t0 + ttlMs ->
  exists r1 r2, acquireScript key v ttlMs t0 r = (Ok "", r1) /\
    completeScript key (entry_marshal (completed_entry h order status)) t1
      (exec_all ttlMs ops r1) = (Ok 1, r2) /\
    (exists x, (acquireScript key v2 ttlMs t (exec_all ttlMs ops2 r2)).1 = Ok x /\
       entry_unmarshal x = Some (completed_entry h order status)) /\
    forall t', t0 + ttlMs <= t' -> view r2 t' key = None.
Proof.
  intros Hn Hpos Hops Hops2 Hc Hc2 Ht1 Ht.
  destruct (acquire_fresh ttlMs key v t0 r Hn Hpos) as (r1 & -> & Hex & _).
  assert (Hex1 := exactly_exec_all ttlMs _ _ _ _ _ _ _ Hops Hc Ht1 Hex).
  set (value := entry_marshal _). set (rr := exec_all ttlMs ops r1) in *.
  destruct (complete_live key value v (t0 + ttlMs) t1 rr Hex1 Ht1) as (r2 & Hc1 & Hex2).
  exists r1, r2. fold rr value. split_and!; [done|done| |].
  - exists value. split; [|apply entry_roundtrip].
    assert (Hex3 := exactly_exec_all ttlMs _ _ _ _ _ _ _ Hops2 Hc2 Ht (Hex2 t1 ltac:(lia))).
    by erewrite acquire_live.
  - intros t' Ht'. rewrite (Hex2 t') by lia. simpl. by rewrite bool_decide_false by lia.
Qed.

Lemma str_app_bar (a b : string) : (a +:+ "|" +:+ b = a +:+ String "|" b)%string.
Proof. done. Qed.

Lemma bar_cut (a a' b b' : string) :
  str_mem "|" a = false -> str_mem "|" a' = false ->
  (a +:+ "|" +:+ b = a' +:+ "|" +:+ b')%string -> a = a' /\ b = b'.
Proof.
  intros Ha Ha' Heq. rewrite !str_app_bar in Heq. apply (f_equal (cut "|")) in Heq.
  rewrite !cut_app in Heq by done. by simplify_eq.
Qed.

Lemma itoa_inj x y : itoa x = itoa y -> x = y.
Proof.
  intros Heq. apply (f_equal DecimalString.NilZero.int_of_string) in Heq.
  rewrite !int_of_itoa in Heq. injection Heq as Heq.
  apply (f_equal Z.of_int) in Heq. by rewrite !DecimalZ.of_to in Heq.
Qed.

Lemma OrderType_String_inj x y :
  1 <= x <= 4 -> 1 <= y <= 4 -> OrderType_String x = OrderType_String y -> x = y.
Proof.
  intros Hx Hy. assert (x = 1 \/ x = 2 \/ x = 3 \/ x = 4) as Hxs by lia.
  assert (y = 1 \/ y = 2 \/ y = 3 \/ y = 4) as Hys by lia.
  destruct Hxs as [->|[->|[->| ->]]], Hys as [->|[->|[->| ->]]]; done.
Qed.

Lemma OrderType_String_no_bar t : str_mem "|" (OrderType_String t) = false.
Proof. unfold OrderType_String. by repeat case_match. Qed.

(** C34 The request hash identifies the request: two requests whose texts do not
    collide under SHA-256 and that get the same hash ask for the same market,
    order type, price (as the decimal prints) and quantity, so a replay never
    answers a different order. *)
Theorem request_hash_identifies `{U : GoLib} `{!UuidLaws U} `{DL : DecimalLib} `{!DecimalLaws DL}
    `{SH : Sha256} m m' ty ty' p p' q q' :
  (sha256_hex (request_raw m ty p q) = sha256_hex (request_raw m' ty' p' q') ->
   request_raw m ty p q = request_raw m' ty' p' q') ->
  1 <= ty <= 4 -> 1 <= ty' <= 4 ->
  buildRequestHash m ty p q = buildRequestHash m' ty' p' q' ->
  m = m' /\ ty = ty' /\ dec_String p = dec_String p' /\ q = q'.
Proof.
  intros Hcol Hty Hty' Heq%Hcol. unfold request_raw in Heq.
  apply bar_cut in Heq as [Hm Heq]; [|apply uuid_string_no_bar..].
  apply bar_cut in Heq as [Ht Heq]; [|apply OrderType_String_no_bar..].
  apply bar_cut in Heq as [Hp Hq]; [|by apply dec_String_no..].
  apply OrderType_String_inj in Ht; [|done..]. apply itoa_inj in Hq.
  apply (f_equal uuid_parse) in Hm. rewrite !uuid_parse_string in Hm. by simplify_eq.
Qed.
End Properties.

(** ** Closed instances *)

#[export] Instance Entry_eq_dec : EqDecision Entry.
Proof. solve_decision. Defined.

#[export] Instance Entry_countable : Countable Entry.
Proof.
  refine (inj_countable'
    (λ e, (ent_Status e, ent_RequestHash e, ent_StartedAt e, ent_OrderID e, ent_OrderStatus e))
    (λ '(s, h, t, o, st), Build_Entry s h t o st) _).
  by intros [].
Defined.

Definition TextEntryCodec : EntryCodec := {|
  entry_marshal := text_encode; entry_unmarshal := text_decode |}.

Lemma TextEntryCodec_laws : EntryCodecLaws TextEntryCodec.
Proof. split; [apply text_decode_encode|apply text_encode_nonempty]. Qed.

Section Witness.
#[local] Existing Instance MemRedis.mem_redis.
#[local] Existing Instance MemRedis.mem_redis_laws.
#[local] Existing Instance DecLib.
#[local] Existing Instance DecLib_laws.
#[local] Existing Instance IntDec.
#[local] Existing Instance IntDec_laws.
#[local] Existing Instance TextEntryCodec.
#[local] Existing Instance TextEntryCodec_laws.
#[local] Instance id_sha : Sha256 := {| sha256_hex s := s |}.
Notation mem := (gmap string (string * option Z)).

Lemma idempotency_exclusive_witness :
  exists r1, acquireScript "k" "v" 100 0 (∅ : mem) = (Ok "", r1) /\
    exists existing, acquireScript "k" "w" 100 50 (exec_all 100 [(20, OpComplete "k" "x")] r1) =
      (Ok existing, exec_all 100 [(20, OpComplete "k" "x")] r1) /\ existing <> "".
Proof.
  apply (idempotency_exclusive 100 "k" "v" "w" 0 50 [(20, OpComplete "k" "x")]).
  - reflexivity.
  - lia.
  - discriminate.
  - constructor; [split; discriminate|constructor].
  - simpl. lia.
  - lia.
Defined.

Lemma idempotency_replay_witness :
  exists r1 r2, acquireScript "k" "v" 100 0 (∅ : mem) = (Ok "", r1) /\
    completeScript "k" (entry_marshal (completed_entry "h" 7%N "created")) 20
      (exec_all 100 [(10, OpAcquire "k" "w")] r1) = (Ok 1, r2) /\
    (exists x, (acquireScript "k" "w" 100 50 (exec_all 100 [(30, OpDelete "other")] r2)).1 = Ok x /\
       entry_unmarshal x = Some (completed_entry "h" 7%N "created")) /\
    forall t', 0 + 100 <= t' -> view r2 t' "k" = None.
Proof.
  apply (idempotency_replay 100 "k" "v" "w" "h" 7%N "created" 0 20 50
    [(10, OpAcquire "k" "w")] [(30, OpDelete "other")]).
  - reflexivity.
  - lia.
  - constructor; [|constructor]. intros _. exists "w". reflexivity.
  - constructor; [|constructor]. simpl. discriminate.
  - simpl. lia.
  - simpl. lia.
  - lia.
  - lia.
Defined.

Definition ten : @Dec IntDec := 10.

Lemma request_hash_identifies_witness :
  1%N = 1%N /\ 2 = 2 /\ dec_String ten = dec_String ten /\ 5 = 5.
Proof.
  apply (request_hash_identifies 1%N 1%N 2 2 ten ten 5 5).
  - intros Heq. exact Heq.
  - lia.
  - lia.
  - reflexivity.
Defined.
End Witness.
