(* ===== verification/OrderDb.v ===== *)
(** * The order service's database
      (orderService/internal/infrastructure/postgres/{order,inbox},
       services/producer/order_producer.go, migrations)

    The three tables the service owns and one statement per store operation.
    Table constraints are checked where the server checks them: the primary
    keys and unique indexes, and the CHECK constraints on price, quantity, type
    and status. *)

From stdpp Require Import sorting.
From S2P Require Import Prelude GoStrings GoErrors Effects Pg Kafka Outbox Domain Events.
Local Open Scope string_scope.
Local Open Scope list_scope.
Local Open Scope Z_scope.

(** ** NUMERIC(18, 8)

    A price column holds a multiple of 10^-8, written here as that many units.
    [numeric_in] reads a text into the column ([None] when the server rejects
    it), [numeric_out] is the text the driver returns, and [numeric_is] compares
    the column with a text parameter. *)
Class PriceColumn := {
  numeric_in : string -> option Z;
  numeric_out : Z -> string;
  numeric_is : Z -> string -> bool
}.

(** Documented behaviour of NUMERIC(18, 8): a numeral with at most 10 integer
    and 8 fraction digits is stored exactly, equality is equality of numbers,
    and the returned text is read back by the decimal library. *)
Class PriceColumnLaws `{DecimalLib} (P : PriceColumn) := {
  numeric_in_exact neg I F :
    digit_string I -> digit_string (frac_of F) -> FitsNumeric_raw (numeral neg I F) 18 8 = true ->
    exists n, numeric_in (numeral neg I F) = Some (if neg : bool then - n else n) /\
      n * 10 ^ len (String.list_ascii_of_string (frac_of F)) = unscaled I (frac_of F) * 10 ^ 8 /\
      numeric_is (if neg then - n else n) (numeral neg I F) = true;
  numeric_out_parses n : exists d, dec_NewFromString (TrimSpace (numeric_out n)) = Some d
}.

(** ** Tables *)

Record OrderRow := {
  or_ID : UUID; or_UserID : UUID; or_MarketID : UUID; or_Type : Z; or_Price : Z;
  or_Quantity : Z; or_Status : Z; or_CreatedAt : Z
}.

#[export] Instance OrderRow_eq_dec : EqDecision OrderRow.
Proof. solve_decision. Defined.

Definition InboxEventStatusProcessing : string := "processing".
Definition InboxEventStatusProcessed : string := "processed".
Definition InboxEventStatusFailed : string := "failed".

Record InboxEvent := {
  ie_ID : UUID; ie_EventID : UUID; ie_Topic : string; ie_ConsumerGroup : string;
  ie_Payload : string; ie_Status : string; ie_ReceivedAt : Z; ie_ProcessedAt : option Z;
  ie_FailedAt : option Z; ie_ErrorMessage : option string
}.

#[export] Instance InboxEvent_eq_dec : EqDecision InboxEvent.
Proof. solve_decision. Defined.

(** orders by primary key, inbox by its unique (event_id, consumer_group). *)
Record OrderDB := {
  db_orders : gmap UUID OrderRow;
  db_inbox : gmap (UUID * string) InboxEvent;
  db_outbox : outbox
}.

#[export] Instance OrderDB_outbox : HasOutbox OrderDB := {
  outbox_of := db_outbox;
  set_outbox t d := {| db_orders := db_orders d; db_inbox := db_inbox d; db_outbox := t |};
  outbox_of_set _ _ := eq_refl
}.

Definition set_orders (t : gmap UUID OrderRow) (d : OrderDB) : OrderDB :=
  {| db_orders := t; db_inbox := db_inbox d; db_outbox := db_outbox d |}.
Definition set_inbox (t : gmap (UUID * string) InboxEvent) (d : OrderDB) : OrderDB :=
  {| db_orders := db_orders d; db_inbox := t; db_outbox := db_outbox d |}.

Definition empty_db : OrderDB := {| db_orders := ∅; db_inbox := ∅; db_outbox := ∅ |}.

Definition CheckViolation (constraint : string) : error :=
  EPg "23514" constraint "new row violates check constraint".

(** ** order_store.go *)

Section OrderStore.
Context `{PT : PgTypes} `{DL : DecimalLib} `{PC : PriceColumn}.

(** The CHECK constraints of 001_create_orders_table.sql. *)
Definition order_checks (r : OrderRow) : option string :=
  if negb (0 <? or_Price r) then Some "chk_orders_price_positive"
  else if negb (0 <? or_Quantity r) then Some "chk_orders_quantity_positive"
  else if negb ((1 <=? or_Status r) && (or_Status r <=? 4)) then Some "chk_orders_status_valid"
  else if negb ((1 <=? or_Type r) && (or_Type r <=? 4)) then Some "chk_orders_type_valid"
  else None.

(** INSERT INTO orders. *)
Definition sql_insert_order (o : OrderDTO) : stmt OrderDB unit := λ _ d,
  match numeric_in (dto_Price o) with
  | None => (Err (EPg "22003" "" "numeric field overflow"), d)
  | Some price =>
      let r := {| or_ID := dto_ID o; or_UserID := dto_UserID o; or_MarketID := dto_MarketID o;
                  or_Type := dto_Type o; or_Price := price; or_Quantity := dto_Quantity o;
                  or_Status := dto_Status o; or_CreatedAt := pg_time (dto_CreatedAt o) |} in
      match order_checks r with
      | Some c => (Err (CheckViolation c), d)
      | None =>
          if decide (is_Some (db_orders d !! or_ID r)) then (Err (UniqueViolation "orders_pkey"), d)
          else (Ok tt, set_orders (<[or_ID r := r]> (db_orders d)) d)
      end
  end.

Definition row_dto (r : OrderRow) : OrderDTO := {|
  dto_ID := or_ID r; dto_UserID := or_UserID r; dto_MarketID := or_MarketID r;
  dto_Type := or_Type r; dto_Price := numeric_out (or_Price r); dto_Quantity := or_Quantity r;
  dto_Status := or_Status r; dto_CreatedAt := or_CreatedAt r |}.

(** SELECT ... WHERE id = $1 AND user_id = $2. *)
Definition sql_get_order (id userID : UUID) : stmt OrderDB (list OrderDTO) := λ _ d,
  (Ok match db_orders d !! id with
      | Some r => if bool_decide (or_UserID r = userID) then [row_dto r] else []
      | None => []
      end, d).

Definition is_active (r : OrderRow) : bool :=
  (or_Status r =? OrderStatusCreated) || (or_Status r =? OrderStatusPending).

Definition cancellable (marketID : UUID) (r : OrderRow) : bool :=
  bool_decide (or_MarketID r = marketID) && is_active r.

Definition cancel_row (r : OrderRow) : OrderRow := {|
  or_ID := or_ID r; or_UserID := or_UserID r; or_MarketID := or_MarketID r;
  or_Type := or_Type r; or_Price := or_Price r; or_Quantity := or_Quantity r;
  or_Status := OrderStatusCancelled; or_CreatedAt := or_CreatedAt r |}.

(** UPDATE orders SET status = cancelled ... RETURNING id. *)
Definition sql_cancel_active (marketID : UUID) : stmt OrderDB (list UUID) := λ _ d,
  (Ok (pg_any_order (or_ID <$> filter (λ r, cancellable marketID r = true)
                                 (map_to_list (db_orders d)).*2)),
   set_orders ((λ r, if cancellable marketID r then cancel_row r else r) <$> db_orders d) d).

(** ORDER BY created_at, id LIMIT 1. *)
Definition order_first (r1 r2 : OrderRow) : Prop :=
  or_CreatedAt r1 < or_CreatedAt r2 \/
  (or_CreatedAt r1 = or_CreatedAt r2 /\ (or_ID r1 <= or_ID r2)%N).

#[export] Instance order_first_dec : RelDecision order_first.
Proof. intros r1 r2. unfold order_first. apply _. Defined.

Definition recovery_match (userID marketID : UUID) (orderType : OrderType) (price : Dec)
    (quantity startedAt : Z) (r : OrderRow) : bool :=
  bool_decide (or_UserID r = userID) && bool_decide (or_MarketID r = marketID) &&
  (or_Type r =? wrap_s 16 orderType) && numeric_is (or_Price r) (dec_String price) &&
  (or_Quantity r =? quantity) && (pg_time startedAt <=? or_CreatedAt r).

Definition sql_find_recovery (userID marketID : UUID) (orderType : OrderType) (price : Dec)
    (quantity startedAt : Z) : stmt OrderDB (list OrderDTO) := λ _ d,
  (Ok (row_dto <$> take 1 (merge_sort order_first
         (filter (λ r, recovery_match userID marketID orderType price quantity startedAt r = true)
            (map_to_list (db_orders d)).*2))), d).

Context {St : Type} `{HD : !Has (pg OrderDB) St}.

Definition is_Pg (e : error) : bool := match e with EPg _ _ _ => true | _ => false end.

Definition isPrimaryKeyViolation (err : error) : bool :=
  match errors_As is_Pg err with
  | Some (EPg code constraint _) =>
      bool_decide (code = "23505") && bool_decide (constraint = "orders_pkey")
  | _ => false
  end.

Definition SaveOrder (order : Order) : M St (result unit) :=
  let op := "infrastructure.OrderStore.SaveOrder" in
  let orderDTO := FromDomain order in
  let! r := tx_Exec (sql_insert_order orderDTO) in
  match r with
  | Ok _ => mret (Ok tt)
  | Err err =>
      if isPrimaryKeyViolation err then mret (Err (wrap op Repo_ErrOrderAlreadyExists))
      else mret (Err (wrap op err))
  end.

(** pgx.CollectExactlyOneRow. *)
Definition CollectExactlyOneRow {A} (rows : result (list A)) : result A :=
  match rows with
  | Err e => Err e
  | Ok [] => Err (ESentinel PgxErrNoRows)
  | Ok [a] => Ok a
  | Ok _ => Err (EMsg "too many rows in result set")
  end.

Definition read_one_order (op : string) (rows : result (list OrderDTO)) : result Order :=
  match CollectExactlyOneRow rows with
  | Err err =>
      if is_sent PgxErrNoRows err then Err (wrap op Repo_ErrOrderNotFound)
      else Err (wrap op err)
  | Ok orderDTO => map_err (wrap op) (ToDomain orderDTO)
  end.

Definition GetOrder (id userID : UUID) : M St (result Order) :=
  let! rows := pool_Exec (sql_get_order id userID) in
  mret (read_one_order "infrastructure.OrderStore.GetOrder" rows).

Definition CancelActiveOrdersByMarket (marketID : UUID) : M St (result (list UUID)) :=
  let! r := tx_Exec (sql_cancel_active marketID) in
  mret (map_err (wrap "OrderStore.CancelActiveOrdersByMarket") r).

Definition FindOrderForIdempotencyRecovery (userID marketID : UUID) (orderType : OrderType)
    (price : Dec) (quantity startedAt : Z) : M St (result Order) :=
  let! rows := pool_Exec (sql_find_recovery userID marketID orderType price quantity startedAt) in
  mret (read_one_order "infrastructure.OrderStore.FindOrderForIdempotencyRecovery" rows).
End OrderStore.

(** ** inbox_store.go *)

Section InboxStore.
Context {St : Type} `{HD : !Has (pg OrderDB) St}.

Definition inbox_key (e : InboxEvent) : UUID * string := (ie_EventID e, ie_ConsumerGroup e).

Definition has_inbox_id (id : UUID) (t : gmap (UUID * string) InboxEvent) : bool :=
  existsb (λ e, bool_decide (ie_ID e = id)) (map_to_list t).*2.

(** INSERT ... ON CONFLICT (event_id, consumer_group) DO UPDATE ... WHERE
    inbox.status = 'failed' RETURNING status. *)
Definition sql_begin_inbox (event : InboxEvent) : stmt OrderDB (list string) := λ now d,
  let t := db_inbox d in
  match t !! inbox_key event with
  | None =>
      if has_inbox_id (ie_ID event) t then (Err (UniqueViolation "inbox_pkey"), d)
      else (Ok [InboxEventStatusProcessing],
            set_inbox (<[inbox_key event := {|
              ie_ID := ie_ID event; ie_EventID := ie_EventID event; ie_Topic := ie_Topic event;
              ie_ConsumerGroup := ie_ConsumerGroup event; ie_Payload := ie_Payload event;
              ie_Status := InboxEventStatusProcessing; ie_ReceivedAt := now;
              ie_ProcessedAt := None; ie_FailedAt := None; ie_ErrorMessage := None |}]> t) d)
  | Some r =>
      if bool_decide (ie_Status r = InboxEventStatusFailed) then
        (Ok [InboxEventStatusProcessing],
         set_inbox (<[inbox_key event := {|
           ie_ID := ie_ID r; ie_EventID := ie_EventID r; ie_Topic := ie_Topic event;
           ie_ConsumerGroup := ie_ConsumerGroup r; ie_Payload := ie_Payload event;
           ie_Status := InboxEventStatusProcessing; ie_ReceivedAt := ie_ReceivedAt r;
           ie_ProcessedAt := None; ie_FailedAt := None; ie_ErrorMessage := None |}]> t) d)
      else (Ok [], d)
  end.

Definition sql_inbox_status (eventID : UUID) (consumerGroup : string) : stmt OrderDB (list string) :=
  λ _ d, (Ok match db_inbox d !! (eventID, consumerGroup) with
             | Some r => [ie_Status r] | None => [] end, d).

(** UPDATE inbox ... WHERE ... AND status = 'processing'. *)
Definition sql_mark_processed (eventID : UUID) (consumerGroup : string) : stmt OrderDB Z := λ now d,
  match db_inbox d !! (eventID, consumerGroup) with
  | Some r =>
      if bool_decide (ie_Status r = InboxEventStatusProcessing) then
        (Ok 1, set_inbox (<[(eventID, consumerGroup) := {|
           ie_ID := ie_ID r; ie_EventID := ie_EventID r; ie_Topic := ie_Topic r;
           ie_ConsumerGroup := ie_ConsumerGroup r; ie_Payload := ie_Payload r;
           ie_Status := InboxEventStatusProcessed; ie_ReceivedAt := ie_ReceivedAt r;
           ie_ProcessedAt := Some now; ie_FailedAt := None; ie_ErrorMessage := None |}]>
           (db_inbox d)) d)
      else (Ok 0, d)
  | None => (Ok 0, d)
  end.

(** INSERT ... ON CONFLICT DO UPDATE ... WHERE inbox.status = 'failed' OR
    inbox.status = 'processing'. *)
Definition sql_save_failed (event : InboxEvent) (errText : string) : stmt OrderDB Z := λ now d,
  let t := db_inbox d in
  match t !! inbox_key event with
  | None =>
      if has_inbox_id (ie_ID event) t then (Err (UniqueViolation "inbox_pkey"), d)
      else (Ok 1, set_inbox (<[inbox_key event := {|
              ie_ID := ie_ID event; ie_EventID := ie_EventID event; ie_Topic := ie_Topic event;
              ie_ConsumerGroup := ie_ConsumerGroup event; ie_Payload := ie_Payload event;
              ie_Status := InboxEventStatusFailed; ie_ReceivedAt := now;
              ie_ProcessedAt := None; ie_FailedAt := Some now;
              ie_ErrorMessage := Some errText |}]> t) d)
  | Some r =>
      if bool_decide (ie_Status r = InboxEventStatusFailed) ||
         bool_decide (ie_Status r = InboxEventStatusProcessing) then
        (Ok 1, set_inbox (<[inbox_key event := {|
           ie_ID := ie_ID r; ie_EventID := ie_EventID r; ie_Topic := ie_Topic event;
           ie_ConsumerGroup := ie_ConsumerGroup r; ie_Payload := ie_Payload event;
           ie_Status := InboxEventStatusFailed; ie_ReceivedAt := ie_ReceivedAt r;
           ie_ProcessedAt := None; ie_FailedAt := Some now;
           ie_ErrorMessage := Some errText |}]> t) d)
      else (Ok 0, d)
  end.

Definition tryStartProcessing (event : InboxEvent) : M St (result (bool * string)) :=
  let op := "InboxStore.tryStartProcessing" in
  let! r := tx_Exec (sql_begin_inbox event) in
  mret match r with
       | Err e => Err (wrap op e)
       | Ok [] => Err (wrap op (ESentinel PgxErrNoRows))
       | Ok (status :: _) => Ok (true, status)
       end.

Definition getCurrentStatus (eventID : UUID) (consumerGroup : string) : M St (result string) :=
  let op := "InboxStore.getCurrentStatus" in
  let! r := tx_Exec (sql_inbox_status eventID consumerGroup) in
  mret match r with
       | Err e => Err (wrap op e)
       | Ok [] => Err (wrap op (ESentinel PgxErrNoRows))
       | Ok (status :: _) => Ok status
       end.

Definition BeginProcessing (event : InboxEvent) : M St (result (bool * string)) :=
  let op := "InboxStore.BeginProcessing" in
  let! r := tryStartProcessing event in
  match r with
  | Ok (started, status) => mret (Ok (started, status))
  | Err err =>
      if is_sent PgxErrNoRows err then
        let! s := getCurrentStatus (ie_EventID event) (ie_ConsumerGroup event) in
        mret match s with
             | Err e => Err (wrap (op +:+ ": get current inbox status") e)
             | Ok currentStatus => Ok (false, currentStatus)
             end
      else mret (Err (wrap op err))
  end.

Definition expect_row (op verb : string) (r : result Z) : result unit :=
  match r with
  | Err e => Err (wrap op e)
  | Ok n => if n =? 1 then Ok tt else Err (EMsg (op +:+ ": expected to " +:+ verb +:+ itoa n))
  end.

Definition MarkProcessed (eventID : UUID) (consumerGroup : string) : M St (result unit) :=
  let! r := tx_Exec (sql_mark_processed eventID consumerGroup) in
  mret (expect_row "InboxStore.MarkProcessed" "update 1 row, updated " r).

Definition SaveFailed (event : InboxEvent) (errText : string) : M St (result unit) :=
  let! r := pool_Exec (sql_save_failed event errText) in
  mret (expect_row "InboxStore.SaveFailed" "affect 1 row, affected " r).
End InboxStore.

(** ** order_producer.go *)

Section OrderProducer.
Context `{PT : PgTypes} `{DL : DecimalLib} `{U : GoLib} `{TT : PbTime} `{PC : !ProtoCodec}.
Context {St : Type} `{HD : !Has (pg OrderDB) St}.

(** The other fields of the literal have their zero values; the INSERT sets
    the columns they would go to. *)
Definition new_outbox_event (id eventID : UUID) (eventType : string) (aggregateID : UUID)
    (payload : string) : OutboxEvent := {|
  oe_ID := id; oe_EventID := eventID; oe_EventType := eventType; oe_AggregateID := aggregateID;
  oe_Payload := payload; oe_Status := OutboxEventStatusPending; oe_RetryCount := 0;
  oe_AvailableAt := zero_time; oe_CreatedAt := zero_time; oe_PublishedAt := None;
  oe_FailedAt := None; oe_LockedAt := None; oe_LastError := None |}.

Definition buildOrderCreatedOutboxEvent (event : OrderCreatedEvent) (payload : string) :
    M St OutboxEvent :=
  let! id := uuid_New in
  mret (new_outbox_event id (oce_EventID event) OrderCreatedEventType (oce_OrderID event) payload).

Definition buildOrderStatusUpdatedOutboxEvent (event : OrderStatusUpdatedEvent) (payload : string) :
    M St OutboxEvent :=
  let! id := uuid_New in
  mret (new_outbox_event id (osu_EventID event) OrderStatusUpdatedEventType (osu_OrderID event) payload).

Definition ProduceOrderCreated (event : OrderCreatedEvent) : M St (result unit) :=
  let op := "OrderProducer.ProduceOrderCreated" in
  match MarshalOrderCreated event with
  | Err e => mret (Err (wrap (op +:+ ": marshal OrderCreatedEvent") e))
  | Ok payload =>
      let! outboxEvent := buildOrderCreatedOutboxEvent event payload in
      let! r := SaveOutboxEvent outboxEvent in
      mret (map_err (wrap (op +:+ ": save OrderCreatedEvent to outbox")) r)
  end.

Definition ProduceOrderStatusUpdated (event : OrderStatusUpdatedEvent) : M St (result unit) :=
  let op := "OrderProducer.ProduceOrderStatusUpdated" in
  match MarshalOrderStatusUpdated event with
  | Err e => mret (Err (wrap (op +:+ ": marshal OrderStatusUpdatedEvent") e))
  | Ok payload =>
      let! outboxEvent := buildOrderStatusUpdatedOutboxEvent event payload in
      let! r := SaveOutboxEvent outboxEvent in
      mret (map_err (wrap (op +:+ ": save OrderStatusUpdatedEvent to outbox")) r)
  end.
End OrderProducer.

(** ** A column for the closed instances *)

Section IntPrice.
Definition numeral_sign (s : string) : bool := HasPrefix s "-".

Definition read_numeric (s : string) : option Z :=
  if FitsNumeric_raw s 18 8 then
    let parts := SplitN2 "." (TrimPrefix s "-") in
    let I := default "" (parts !! 0%nat) in
    let F := default "" (parts !! 1%nat) in
    let n := unscaled I F * 10 ^ 8 / 10 ^ len (String.list_ascii_of_string F) in
    Some (if numeral_sign s then - n else n)
  else None.

Definition IntPrice : PriceColumn := {|
  numeric_in := read_numeric;
  numeric_out n := itoa (n / 10 ^ 8);
  numeric_is n s := bool_decide (read_numeric s = Some n)
|}.

Lemma numeral_sign_eq neg I F : digit_string I -> numeral_sign (numeral neg I F) = neg.
Proof.
  intros HI. unfold numeral_sign, numeral. destruct neg; simpl; [by rewrite HasPrefix_nil|].
  destruct I as [|c I]; simpl; [by destruct F|].
  rewrite bool_decide_false; [done|]. intros <-. by inversion HI.
Qed.

Lemma IntPrice_laws : @PriceColumnLaws IntDec IntPrice.
Proof.
  split; simpl.
  - intros neg I F HI HF Hfits.
    pose proof (proj1 (FitsNumeric_iff neg I F 18 8 HI HF ltac:(lia)) Hfits) as (N & HN & _).
    assert (Hin : read_numeric (numeral neg I F) = Some (if neg then - N else N)).
    { unfold read_numeric. rewrite Hfits, TrimPrefix_numeral, SplitN2_numeral, numeral_sign_eq by done.
      assert (Hparts : default "" ((match F with Some F => [I; F] | None => [I] end) !! 1%nat) = frac_of F)
        by (by destruct F).
      assert (Hhead : default "" ((match F with Some F => [I; F] | None => [I] end) !! 0%nat) = I)
        by (by destruct F).
      rewrite Hparts, Hhead, HN, Z.div_mul; [done|].
      apply Z.pow_nonzero; [lia|apply len_nonneg]. }
    exists N. split_and!; [done|done|]. by apply bool_decide_eq_true.
  - intros n. rewrite TrimSpace_itoa, int_of_itoa. by eexists.
Qed.
End IntPrice.
