(* ===== verification/MarketBlock.v ===== *)
(** * Market block state
      (orderService/internal/infrastructure/redis/market/market_block_store.go)

    Redis keeps for each market whether it is blocked and the time of the market
    change that said so.  The Lua script writes a newer state over an older one
    and ignores an older one; [Lww] is the last-writer-wins register it
    implements.  The properties: every run of scripts is a run of registers,
    the final state does not depend on the order in which updates arrive, and
    [IsBlocked] answers the state of the latest change. *)

From S2P Require Import Prelude GoStrings GoErrors Effects Redis.
Local Open Scope string_scope.
Local Open Scope list_scope.
Local Open Scope Z_scope.

(** Lua's numbers as the script uses them: [tonumber], [tostring] and [<]. *)
Class LuaNumbers := {
  lua_num : Type;
  lua_tonumber : string -> option lua_num;
  lua_tostring : lua_num -> string;
  lua_lt : lua_num -> lua_num -> bool
}.

(** Integers below 10^14 in absolute value are exact, print as such and compare
    as integers ([tostring] prints 14 significant digits). *)
Definition lua_exact (n : Z) : Prop := - 10 ^ 14 < n < 10 ^ 14.

Class LuaNumbersLaws (L : LuaNumbers) := {
  lua_of_Z : Z -> lua_num;
  lua_tonumber_itoa n : lua_exact n -> lua_tonumber (itoa n) = Some (lua_of_Z n);
  lua_tostring_of_Z n : lua_exact n -> lua_tostring (lua_of_Z n) = itoa n;
  lua_lt_of_Z m n : lua_exact m -> lua_exact n -> lua_lt (lua_of_Z m) (lua_of_Z n) = (m <? n)
}.

Definition blockKeyPrefix : string := "market:block".
Definition blockedState : string := "1".
Definition unblockedState : string := "0".

Section Store.
Context {R : Type} `{Redis R} `{U : GoLib} `{L : LuaNumbers}.

Definition ErrInvalidState : error := EMsg "invalid market block state".
Definition ErrInvalidTimestamp : error := EMsg "invalid market block timestamp".
Definition ErrInvalidExpire : error := EMsg "ERR invalid expire time in 'set' command".
Definition ErrLuaNil : error := EMsg "attempt to compare nil with number".

Definition set_state (key : string) (newTs : lua_num) (newState : string) (ttlMs t : Z) (r : R) :
    result Z * R :=
  match SETPX t key (lua_tostring newTs +:+ ":" +:+ newState) ttlMs r with
  | Some r => (Ok 1, r)
  | None => (Err ErrInvalidExpire, r)
  end.

Definition synchronizeStateScript (key tsArg newState : string) (ttlMs t : Z) (r : R) :
    result Z * R :=
  match lua_tonumber tsArg with
  | None => (Err ErrLuaNil, r)
  | Some newTs =>
      match GET t key r with
      | None => set_state key newTs newState ttlMs t r
      | Some current =>
          match cut ":" current with
          | None => (Err ErrInvalidState, r)
          | Some (ts, _) =>
              match lua_tonumber ts with
              | None => (Err ErrInvalidTimestamp, r)
              | Some currentTs =>
                  if lua_lt newTs currentTs then (Ok 0, r)
                  else set_state key newTs newState ttlMs t r
              end
          end
      end
  end.

Definition blockKey (marketID : UUID) : string := blockKeyPrefix +:+ ":" +:+ uuid_string marketID.

Definition isCorruptedMarketBlockStateError (err : error) : bool :=
  let msg := error_text err in
  Contains msg "invalid market block state" || Contains msg "invalid market block timestamp".

Definition UnixMilli (t : Z) : Z := t / 1000000.

(** The blocked flag and the time in milliseconds. *)
Definition parseBlockedState (raw : string) : result (bool * Z) :=
  match Split ":" raw with
  | [ts; flag] =>
      match parse_int ts with
      | None => Err (wrap "parse blocked state timestamp" (EMsg "invalid syntax"))
      | Some tsMs =>
          if bool_decide (flag = blockedState) then Ok (true, tsMs)
          else if bool_decide (flag = unblockedState) then Ok (false, tsMs)
          else Err (EMsg ("invalid blocked state flag: " +:+ flag))
      end
  | _ => Err (EMsg ("invalid blocked state format: " +:+ raw))
  end.

Context {St : Type} `{HR : !Has R St}.
Variable ttl : Z.

Definition invalidateCorruptedState (marketID : UUID) : M St (result unit) :=
  cache_Delete (blockKey marketID).

Definition state_flag (blocked : bool) : string :=
  if blocked then blockedState else unblockedState.

Definition SynchronizeState (marketID : UUID) (blocked : bool) (updatedAt : Z) :
    M St (result bool) :=
  let op := "redis.MarketBlockStore.SynchronizeState" in
  let! result := redis_call (synchronizeStateScript (blockKey marketID)
                   (itoa (UnixMilli updatedAt)) (state_flag blocked) (Z.quot ttl 1000000)) in
  match result with
  | Err err =>
      if isCorruptedMarketBlockStateError err then
        let! d := invalidateCorruptedState marketID in
        match d with
        | Err deleteError =>
            mret (Err (EWrap (op +:+ ": ") err
                         ("; invalidate corrupted cache: " +:+ error_text deleteError)))
        | Ok _ => mret (Err (wrap (op +:+ ": run synchronize state script") err))
        end
      else mret (Err (wrap (op +:+ ": run synchronize state script") err))
  | Ok value => mret (Ok (value =? 1))
  end.

Definition IsBlocked (marketID : UUID) : M St (result bool) :=
  let op := "redis.MarketBlockStore.IsBlocked" in
  let! raw := cache_Get (blockKey marketID) in
  match raw with
  | Err err =>
      if is_sent ErrCacheNotFound err then mret (Ok false)
      else mret (Err (wrap (op +:+ ": get blocked state") err))
  | Ok raw =>
      match parseBlockedState raw with
      | Err parseErr =>
          let! d := invalidateCorruptedState marketID in
          match d with
          | Err deleteError =>
              mret (Err (EWrap (op +:+ ": parse blocked state: ") parseErr
                           ("; invalidate corrupted cache: " +:+ error_text deleteError)))
          | Ok _ => mret (Err (wrap (op +:+ ": parse blocked state") parseErr))
          end
      | Ok (blocked, _) => mret (Ok blocked)
      end
  end.
End Store.

(** ** The last-writer-wins register *)

Module Lww.
Definition register := option (Z * bool).

Definition write (ts : Z) (b : bool) (s : register) : register :=
  match s with
  | None => Some (ts, b)
  | Some (ts0, _) => if ts <? ts0 then s else Some (ts, b)
  end.

Definition write_all (l : list (Z * bool)) (s : register) : register :=
  foldl (λ s '(ts, b), write ts b s) s l.

(** With distinct timestamps the register ends with the latest write,
    whatever the order. *)
Lemma write_comm ts1 b1 ts2 b2 s :
  ts1 <> ts2 -> write ts1 b1 (write ts2 b2 s) = write ts2 b2 (write ts1 b1 s).
Proof.
  intros Hne. destruct s as [[ts0 b0]|]; simpl.
  - destruct (Z.ltb_spec ts2 ts0), (Z.ltb_spec ts1 ts0); simpl;
      repeat match goal with |- context [?a <? ?b] => destruct (Z.ltb_spec a b) end;
      try done; lia.
  - destruct (Z.ltb_spec ts1 ts2), (Z.ltb_spec ts2 ts1); try done; lia.
Qed.

Lemma write_all_perm l l' s :
  l ≡ₚ l' -> NoDup l.*1 -> write_all l s = write_all l' s.
Proof.
  intros Hp. revert s. induction Hp as [|[ts b] l l' Hp IH|[ts1 b1] [ts2 b2] l|l1 l2 l3 H12 IH1 H23 IH2];
    intros s Hnd; simpl in *.
  - done.
  - apply IH. by apply NoDup_cons in Hnd as [_ ?].
  - unfold write_all. simpl. f_equal. apply write_comm.
    apply NoDup_cons in Hnd as [Hn _]. intros ->. apply Hn. by left.
  - rewrite IH1 by done. apply IH2. by rewrite <- H12.
Qed.

Lemma write_all_app l1 l2 s : write_all (l1 ++ l2) s = write_all l2 (write_all l1 s).
Proof. apply foldl_app. Qed.

Definition older (ts : Z) (s : register) : Prop :=
  match s with Some (ts0, _) => ts0 <= ts | None => True end.

Lemma older_write s ts b : older ts s -> write ts b s = Some (ts, b).
Proof. destruct s as [[t0 b0]|]; simpl; [|done]. intros Ht. by destruct (Z.ltb_spec ts t0); [lia|]. Qed.

(** A write at least as late as everything before and after it wins. *)
Lemma write_all_older l ts s : Forall (λ x, x.1 <= ts) l -> older ts s -> older ts (write_all l s).
Proof.
  revert s. induction l as [|[t b] l IH]; intros s Hl Hs; [done|].
  apply Forall_cons in Hl as [Ht Hl]. apply IH; [done|]. simpl in *.
  destruct s as [[t0 b0]|]; simpl in *; [|done]. by destruct (Z.ltb_spec t t0).
Qed.

Lemma write_all_newest l ts b s :
  s = Some (ts, b) -> Forall (λ x, x.1 < ts) l -> write_all l s = s.
Proof.
  intros ->. induction l as [|[t b'] l IH]; intros Hl; [done|].
  apply Forall_cons in Hl as [Ht Hl]. unfold write_all in *. simpl in *.
  destruct (Z.ltb_spec t ts); [|lia]. by apply IH.
Qed.
End Lww.

(** ** The scripts implement one register per market *)

Section Refinement.
Context {R : Type} `{HR : Redis R} `{!RedisLaws R} `{U : GoLib} `{!UuidLaws U}
  `{L : LuaNumbers} `{!LuaNumbersLaws L}.
Variable ttlMs : Z.

(** An update of a market at the server's time. *)
Record update := Update { up_time : Z; up_market : UUID; up_ts : Z; up_blocked : bool }.

Definition block_value (ts : Z) (b : bool) : string := itoa ts +:+ ":" +:+ state_flag b.

(** The key holds the register until [D] at least. *)
Definition tracks (r : R) (key : string) (D t : Z) (s : Lww.register) : Prop :=
  match s with
  | None => view r t key = None
  | Some (ts, b) => lua_exact ts /\
      (t < D -> exists e, view r t key = Some (block_value ts b, Some e) /\ D <= e)
  end.

Lemma block_tracks_later r key D t t' s : t <= t' -> tracks r key D t s -> tracks r key D t' s.
Proof.
  intros Ht. destruct s as [[ts b]|]; simpl.
  - intros [Hex Hv]. split; [done|]. intros Ht'. destruct Hv as (e & Hv & He); [lia|].
    exists e. split; [|done]. rewrite (view_later _ t), Hv by done. simpl.
    by rewrite bool_decide_true by lia.
  - intros Hv. by rewrite (view_later _ t), Hv.
Qed.

Lemma tracks_same r r' key D t s : view r' t key = view r t key -> tracks r key D t s -> tracks r' key D t s.
Proof. intros Hv. destruct s as [[ts b]|]; simpl; by rewrite Hv. Qed.

Lemma itoa_no_colon n : str_mem ":" (itoa n) = false.
Proof. eapply str_mem_forall; [apply itoa_bytes|done]. Qed.

Lemma block_value_cut ts b : cut ":" (block_value ts b) = Some (itoa ts, state_flag b).
Proof. apply cut_app, itoa_no_colon. Qed.

(** Writing the value. *)
Lemma set_state_spec key ts b t (r : R) D :
  0 < ttlMs -> lua_exact ts -> D <= t + ttlMs ->
  exists r', set_state key (lua_of_Z ts) (state_flag b) ttlMs t r = (Ok 1, r') /\
    tracks r' key D t (Some (ts, b)) /\
    (forall t' k, t <= t' -> k <> key -> view r' t' k = view r t' k).
Proof.
  intros Hpos Hts HD. unfold set_state. rewrite lua_tostring_of_Z by done.
  fold (block_value ts b).
  destruct (proj1 (SETPX_ok t key (block_value ts b) ttlMs r) Hpos) as [r' Hr'].
  rewrite Hr'. exists r'. split; [done|]. split.
  - split; [done|]. intros Ht. exists (t + ttlMs). split; [|done].
    erewrite SETPX_view by (done || lia). rewrite decide_True by done. simpl.
    by rewrite bool_decide_true by lia.
  - intros t' k Ht' Hk. by erewrite SETPX_view, decide_False by (done || congruence).
Qed.

Lemma script_write key ts b t (r : R) D s :
  0 < ttlMs -> lua_exact ts -> t < D -> D <= t + ttlMs -> tracks r key D t s ->
  exists n r', synchronizeStateScript key (itoa ts) (state_flag b) ttlMs t r = (Ok n, r') /\
    tracks r' key D t (Lww.write ts b s) /\
    (forall t' k, t <= t' -> k <> key -> view r' t' k = view r t' k).
Proof.
  intros Hpos Hts Ht HD Htr. unfold synchronizeStateScript. rewrite lua_tonumber_itoa by done.
  rewrite GET_view. destruct s as [[ts0 b0]|]; simpl in *.
  - destruct Htr as [Hts0 Hv]. destruct (Hv Ht) as (e & Hview & He). rewrite Hview. simpl.
    rewrite block_value_cut, lua_tonumber_itoa, lua_lt_of_Z by done.
    destruct (Z.ltb_spec ts ts0).
    + exists 0, r. split; [done|]. split; [|done]. simpl. split; [done|]. intros _. by exists e.
    + destruct (set_state_spec key ts b t r D Hpos Hts HD) as (r' & -> & ? & ?). by exists 1, r'.
  - rewrite Htr. simpl.
    destruct (set_state_spec key ts b t r D Hpos Hts HD) as (r' & -> & ? & ?). by exists 1, r'.
Qed.

Fixpoint run (l : list update) (r : R) : R :=
  match l with
  | [] => r
  | u :: l => run l (synchronizeStateScript (blockKey (up_market u)) (itoa (up_ts u))
                       (state_flag (up_blocked u)) ttlMs (up_time u) r).2
  end.

Fixpoint clocked (t : Z) (l : list update) (t' : Z) : Prop :=
  match l with
  | [] => t <= t'
  | u :: l => t <= up_time u /\ clocked (up_time u) l t'
  end.

(** The writes of one market in the order they were executed. *)
Definition writes (m : UUID) (l : list update) : list (Z * bool) :=
  (λ u, (up_ts u, up_blocked u)) <$> filter (λ u, up_market u = m) l.

Lemma blockKey_inj m m' : blockKey m = blockKey m' -> m = m'.
Proof.
  intros Heq. apply (f_equal (str_drop 13)) in Heq.
  change (uuid_string m = uuid_string m') in Heq.
  apply (f_equal uuid_parse) in Heq. rewrite !uuid_parse_string in Heq. by simplify_eq.
Qed.

Lemma clocked_le t l t' : clocked t l t' -> t <= t'.
Proof. revert t. induction l as [|u l IH]; intros t; simpl; [done|]. intros [? ?%IH]. lia. Qed.

(** A script leaves the other keys alone, whatever it answers. *)
Lemma synchronize_other key ts st px t (r : R) t' k :
  t <= t' -> k <> key -> view (synchronizeStateScript key ts st px t r).2 t' k = view r t' k.
Proof.
  intros Ht Hk. unfold synchronizeStateScript.
  assert (Hset : forall n, view (set_state key n st px t r).2 t' k = view r t' k).
  { intros n. unfold set_state. destruct (SETPX _ _ _ _ _) as [r'|] eqn:Es; [|done]. simpl.
    by erewrite SETPX_view, decide_False by (done || congruence). }
  by repeat case_match.
Qed.

Lemma run_tracks m l (r : R) t t' D s :
  0 < ttlMs -> Forall (λ u, lua_exact (up_ts u)) l -> clocked t l t' -> t' < D -> D <= t + ttlMs ->
  tracks r (blockKey m) D t s ->
  tracks (run l r) (blockKey m) D t' (Lww.write_all (writes m l) s).
Proof.
  intros Hpos. revert r t s. induction l as [|u l IH]; intros r t s Hex Hc Ht' HD Htr; simpl in *.
  { by eapply block_tracks_later. }
  destruct Hc as [Hu Hc]. apply Forall_cons in Hex as [Hue Hex]. pose proof (clocked_le _ _ _ Hc).
  apply (block_tracks_later _ _ _ _ _ _ Hu) in Htr. unfold writes. rewrite filter_cons.
  destruct (decide (up_market u = m)) as [<-|Hm].
  - destruct (script_write (blockKey (up_market u)) (up_ts u) (up_blocked u) (up_time u) r D s)
      as (n & r' & -> & Htr' & _); [done|done|lia|lia|done|].
    apply (IH _ (up_time u)); [done|done|done|lia|done].
  - apply (IH _ (up_time u)); [done|done|done|lia|].
    assert (Hk : blockKey m <> blockKey (up_market u)) by (by intros ?%blockKey_inj).
    unfold tracks in *. destruct s as [[ts b]|].
    + destruct Htr as [He Hv]. split; [done|]. intros Ht.
      destruct (Hv Ht) as (e & Hve & ?). exists e. by rewrite synchronize_other.
    + by rewrite synchronize_other.
Qed.
End Refinement.

(** ** What IsBlocked reads *)

Section Read.
Context {R : Type} `{HR : Redis R} `{!RedisLaws R} `{U : GoLib} `{!UuidLaws U}
  `{L : LuaNumbers} `{!LuaNumbersLaws L}.
Context {St : Type} `{!Has R St}.

Lemma parse_block_value ts b :
  lua_exact ts -> parseBlockedState (block_value ts b) = Ok (b, ts).
Proof.
  intros Hex. unfold parseBlockedState, block_value.
  change (":" +:+ state_flag b) with (String ":" (state_flag b)).
  rewrite Split_pair; [|apply itoa_no_colon|by destruct b].
  rewrite parse_int_itoa by (unfold lua_exact, in_i64, min_i64, max_i64 in *; lia).
  by destruct b.
Qed.

(** What the register of a market makes [IsBlocked] answer. *)
Definition blocked_of (s : Lww.register) : bool := match s with Some (_, b) => b | None => false end.

Lemma IsBlocked_spec m D s w :
  no_faults (w_env w) ->
  (forall t, t = e_rnow (w_env w) (e_tick (w_env w)) -> t < D /\ tracks (prj (w_st w)) (blockKey m) D t s) ->
  wp (IsBlocked m) (λ r _, r = Ok (blocked_of s)) w.
Proof.
  intros Hnf Htr. unfold IsBlocked, cache_Get. wp_steps. apply wp_redis_call_ok; [done|].
  intros t Ht. simpl. wp_steps. destruct (Htr t Ht) as [Hlt Hs]. rewrite GET_view.
  destruct s as [[ts b]|]; simpl in Hs.
  - destruct Hs as [Hex Hv]. destruct (Hv Hlt) as (e & -> & _). simpl.
    rewrite parse_block_value by done. by wp_steps.
  - rewrite Hs. simpl. by wp_steps.
Qed.
End Read.

(** ** Properties *)

Section Properties.
Context {R : Type} `{HR : Redis R} `{!RedisLaws R} `{U : GoLib} `{!UuidLaws U}
  `{L : LuaNumbers} `{!LuaNumbersLaws L}.
Context {St : Type} `{!Has R St}.
Implicit Types (m : UUID) (l : list update).

(** C38 The stored block states are last-writer-wins registers, one per
    market: after any updates of any markets, in any order of arrival and with
    no key yet stored for the market, [IsBlocked] answers what the register
    holds, until the time to live of the first update is over. *)
Theorem block_state_is_register ttlMs m l t0 (w : world St) r0 :
  no_faults (w_env w) -> 0 < ttlMs -> Forall (λ u, lua_exact (up_ts u)) l ->
  view r0 t0 (blockKey m) = None ->
  clocked t0 l (e_rnow (w_env w) (e_tick (w_env w))) ->
  e_rnow (w_env w) (e_tick (w_env w)) < t0 + ttlMs ->
  prj (w_st w) = run ttlMs l r0 ->
  wp (IsBlocked m) (λ r _, r = Ok (blocked_of (Lww.write_all (writes m l) None))) w.
Proof.
  intros Hnf Hpos Hex Hn Hc Hlt Hst. apply (IsBlocked_spec m (t0 + ttlMs)); [done|].
  intros t ->. split; [done|]. rewrite Hst. apply (run_tracks ttlMs m l r0 t0); [done|done|done|done|lia|done].
Qed.

(** Reordering is harmless: when the updates of a market carry different
    times, every order in which they arrive leaves the market in the same
    state, that of the update with the latest time. *)
Theorem block_state_order_independent l l' m ts b :
  l ≡ₚ l' -> NoDup (writes m l).*1 -> (ts, b) ∈ writes m l ->
  Forall (λ x, x.1 <= ts) (writes m l) ->
  Lww.write_all (writes m l') None = Some (ts, b).
Proof.
  intros Hp Hnd Hin Hmax.
  assert (Hw : writes m l ≡ₚ writes m l') by (unfold writes; by rewrite Hp).
  rewrite <- (Lww.write_all_perm _ _ None Hw Hnd).
  apply list_elem_of_split in Hin as (l1 & l2 & Heq). rewrite Heq in *.
  apply Forall_app in Hmax as [Hm1 [_ Hm2]%Forall_cons].
  rewrite Lww.write_all_app. change ((ts, b) :: l2) with ([(ts, b)] ++ l2). rewrite Lww.write_all_app.
  assert (Hwr : Lww.write_all [(ts, b)] (Lww.write_all l1 None) = Some (ts, b)).
  { pose proof (Lww.write_all_older l1 ts None Hm1 I) as Ho.
    simpl. destruct (Lww.write_all l1 None) as [[t0 b0]|]; simpl in *; [|done].
    destruct (Z.ltb_spec ts t0); [lia|done]. }
  rewrite Hwr. apply (Lww.write_all_newest _ ts b); [done|].
  apply Forall_forall. intros x Hx. rewrite Forall_forall in Hm2. specialize (Hm2 x Hx).
  assert (x.1 <> ts); [|lia]. intros Hxt.
  rewrite fmap_app, fmap_cons in Hnd. apply NoDup_app in Hnd as (_ & _ & [Hn _]%NoDup_cons).
  apply Hn. simpl. rewrite <- Hxt. by apply list_elem_of_fmap_2.
Qed.
End Properties.

(** ** Closed instances *)

(** Lua's numbers restricted to integers. *)
Definition IntLua : LuaNumbers := {|
  lua_num := Z; lua_tonumber := parse_int; lua_tostring := itoa; lua_lt := Z.ltb |}.

Lemma IntLua_laws : LuaNumbersLaws IntLua.
Proof.
  refine {| lua_of_Z n := (n : @lua_num IntLua) |}; simpl; [|done|done].
  intros n Hn. apply parse_int_itoa. unfold lua_exact, in_i64, min_i64, max_i64 in *. lia.
Defined.

Section Witness.
#[local] Existing Instance MemRedis.mem_redis.
#[local] Existing Instance MemRedis.mem_redis_laws.
#[local] Existing Instance DecLib.
#[local] Existing Instance DecLib_laws.
#[local] Existing Instance IntLua.
#[local] Existing Instance IntLua_laws.

(** A later change arrives before an earlier one. *)
Definition demo_updates : list update :=
  [Update 0 1%N 2000 true; Update 0 1%N 1000 false; Update 0 2%N 1500 true].

Definition demo_world : world (gmap string (string * option Z)) :=
  World quiet_env (run 100 demo_updates ∅).

Lemma block_state_is_register_witness :
  wp (IsBlocked 1%N) (λ r _, r = Ok true) demo_world.
Proof.
  apply (block_state_is_register 100 1%N demo_updates 0 demo_world ∅).
  - apply quiet_env_no_faults.
  - lia.
  - repeat constructor; vm_compute; reflexivity.
  - reflexivity.
  - simpl. lia.
  - simpl. lia.
  - reflexivity.
Defined.

Lemma block_state_order_independent_witness :
  Lww.write_all (writes 1%N (rev demo_updates)) None = Some (2000, true).
Proof.
  apply (block_state_order_independent demo_updates).
  - apply Permutation_rev.
  - apply (bool_decide_unpack _). vm_compute. exact I.
  - left.
  - repeat constructor; simpl; lia.
Defined.
End Witness.
