(* ===== verification/OrderService.v ===== *)
(** * OrderService and its gRPC handler
      (orderService/internal/services/order/order_service.go,
       orderService/internal/grpc/order/order_handler.go)

    [CreateOrder] composes the idempotency service, the rate limiter, the market
    validation and one database transaction; [MarketViewer] is the interface it
    asks about markets (the spot client implements it).  The state a request
    runs over has Postgres, Redis and the in-memory block queue. *)

From S2P Require Import Prelude GoStrings GoErrors Effects Redis Pg Kafka RateLimit Outbox Domain Events Idempotency OrderDb MarketBlock.
Local Open Scope string_scope.
Local Open Scope list_scope.
Local Open Scope Z_scope.

(** ** The market viewer

    A read-only RPC: it answers a market or an error and leaves the service's
    own state alone. *)
Class MarketViewer (St : Type) := {
  GetMarketByID : UUID -> M St (result Market);
  viewer_state id w : w_st (GetMarketByID id w).2 = w_st w;
  viewer_env id w : exists n, w_env (GetMarketByID id w).2 = Nat.iter n tick (w_env w)
}.

(** ** The block queue *)

Definition marketBlockQueueSize : nat := 128.

Record marketBlockTask := {
  task_market : Market; task_blocked : bool; task_reason : string
}.

Record block_queue := { bq_tasks : list marketBlockTask; bq_closed : bool }.

(** The channel send with a default branch. *)
Definition enqueue_task (task : marketBlockTask) (q : block_queue) : block_queue :=
  if bq_closed q then q
  else if decide (length (bq_tasks q) < marketBlockQueueSize)%nat then
    {| bq_tasks := bq_tasks q ++ [task]; bq_closed := false |}
  else q.

Definition prefixCreateLimiter : string := "rate:order:create:".
Definition prefixGetLimiter : string := "rate:order:get:".

Record svc_config := {
  cfg_idem_ttl : Z; cfg_complete_attempts : Z;
  cfg_limit_create : Z; cfg_limit_get : Z; cfg_window : Z; cfg_block_ttl : Z
}.

Definition provideRateLimiters (cfg : svc_config) : OrderRateLimiter * OrderRateLimiter :=
  ({| rl_limit := cfg_limit_create cfg; rl_window := cfg_window cfg; rl_prefix := prefixCreateLimiter |},
   {| rl_limit := cfg_limit_get cfg; rl_window := cfg_window cfg; rl_prefix := prefixGetLimiter |}).

Section Service.
Context {St R : Type} `{HRd : Redis R} `{PT : PgTypes} `{DL : DecimalLib} `{PC : PriceColumn}
  `{U : GoLib} `{L : LuaNumbers} `{EC : EntryCodec} `{SH : Sha256} `{TT : PbTime}
  `{PB : !ProtoCodec}.
Context `{HD : !Has (pg OrderDB) St} `{HR : !Has R St} `{HQ : !Has block_queue St}
  `{MV : !MarketViewer St}.
Variable cfg : svc_config.

(** *** Building *)

Definition buildOrder (userID marketID : UUID) (orderType : OrderType) (price : Dec)
    (quantity now : Z) : M St Order :=
  let! id := uuid_New in
  mret {| ord_ID := id; ord_UserID := userID; ord_MarketID := marketID; ord_Type := orderType;
          ord_Price := price; ord_Quantity := quantity; ord_Status := OrderStatusCreated;
          ord_CreatedAt := now |}.

Definition buildOrderCreatedEvent (order : Order) (now : Z) : M St OrderCreatedEvent :=
  let! id := uuid_New in
  mret {| oce_EventID := id; oce_OrderID := ord_ID order; oce_UserID := ord_UserID order;
          oce_MarketID := ord_MarketID order; oce_Type := ord_Type order;
          oce_Price := ord_Price order; oce_Quantity := ord_Quantity order;
          oce_Status := ord_Status order; oce_CreatedAt := now |}.

(** *** Transactions *)

Definition rollbackTransaction : M St unit := tx_Rollback ;;! mret tt.

Definition commitTransaction : M St (result unit) := tx_Commit.

(** *** saveOrder *)

Definition op_saveOrder : string := "OrderService.saveOrder".

(** What runs inside the transaction, up to and including COMMIT. *)
Definition saveOrder_tx (order : Order) (event : OrderCreatedEvent) :
    M St (result (UUID * OrderStatus)) :=
  let! r := SaveOrder order in
  match r with
  | Err err =>
      if errors_Is err Repo_ErrOrderAlreadyExists then mret (Err (EAlreadyExists (ord_ID order)))
      else mret (Err (wrap op_saveOrder err))
  | Ok _ =>
      try! _ := ProduceOrderCreated event else wrap op_saveOrder in
      try! _ := commitTransaction else wrap (op_saveOrder +:+ ": commit transaction") in
      mret (Ok (ord_ID order, ord_Status order))
  end.

(** The deferred rollback runs on every path that did not commit. *)
Definition saveOrder (userID marketID : UUID) (orderType : OrderType) (price : Dec)
    (quantity : Z) : M St (result (UUID * OrderStatus)) :=
  let! now := time_Now in
  let! order := buildOrder userID marketID orderType price quantity now in
  let! event := buildOrderCreatedEvent order now in
  try! _ := tx_Begin else wrap (op_saveOrder +:+ ": begin transaction") in
  let! r := saveOrder_tx order event in
  match r with
  | Ok v => mret (Ok v)
  | Err e => rollbackTransaction ;;! mret (Err e)
  end.

(** *** Checks *)

Definition checkRateLimit (userID : UUID) (limiter : OrderRateLimiter) : M St (result unit) :=
  let! r := Allow limiter userID in
  mret match r with
       | Err e => Err e
       | Ok allowed => if allowed then Ok tt
                       else Err (ELimitExceeded (Limit limiter) (Window limiter))
       end.

Definition getMarketBlockedState (marketID : UUID) : M St (result bool) :=
  let! r := IsBlocked marketID in
  mret match r with
       | Ok blocked => Ok blocked
       | Err err =>
           if is_sent CtxCanceled err || is_sent CtxDeadlineExceeded err then Err err
           else Ok false
       end.

Definition synchronizeMarketBlockAsync (market : Market) (blocked : bool) (reason : string) : M St unit :=
  modify (λ s, upd (enqueue_task {| task_market := market; task_blocked := blocked;
                                    task_reason := reason |} (prj s)) s).

Definition validateMarket (marketID : UUID) : M St (result unit) :=
  try! blocked := getMarketBlockedState marketID else id in
  try! market := GetMarketByID marketID else id in
  match mkt_DeletedAt market with
  | Some _ =>
      synchronizeMarketBlockAsync market true "warm_block_after_deleted_recheck" ;;!
      mret (Err (EMarketNotFound marketID))
  | None =>
      if mkt_Enabled market then
        (if blocked : bool then synchronizeMarketBlockAsync market false "remove_stale_block_after_recheck"
         else mret tt) ;;!
        mret (Ok tt)
      else
        synchronizeMarketBlockAsync market true "warm_block_after_disabled_recheck" ;;!
        mret (Err (EDisabled marketID))
  end.

(** A market block worker: takes the next task of the queue and applies it; its
    errors are logged. *)
Definition synchronizeMarketBlock (task : marketBlockTask) : M St unit :=
  let! _ := SynchronizeState (cfg_block_ttl cfg) (mkt_ID (task_market task)) (task_blocked task)
              (mkt_UpdatedAt (task_market task)) in
  mret tt.

Definition marketBlockWorker_step : M St bool :=
  let! s := get in
  match bq_tasks (prj s) with
  | [] => mret false
  | task :: tasks =>
      modify (λ s, upd {| bq_tasks := tasks; bq_closed := bq_closed (prj s) |} s) ;;!
      synchronizeMarketBlock task ;;! mret true
  end.

(** Close stops accepting tasks; the workers drain the rest. *)
Definition Close_queue : M St unit :=
  modify (λ s, upd {| bq_tasks := bq_tasks (prj s); bq_closed := true |} s).

(** *** Idempotency *)

Definition completeIdempotencySync (userID orderID : UUID) (requestHash : string)
    (orderStatus : OrderStatus) : M St (result unit) :=
  completeIdempotencyChecking (cfg_idem_ttl cfg) (cfg_complete_attempts cfg)
    userID orderID requestHash orderStatus.

Definition tryRecoverOrderFromProcessing (userID marketID : UUID) (orderType : OrderType)
    (price : Dec) (quantity : Z) (requestHash : string) (idemResult : IdempotencyResult) :
    M St (result (UUID * OrderStatus)) :=
  if idr_StartedAt idemResult =? zero_time then mret (Err (ESentinel ErrOrderProcessing))
  else
    let! r := FindOrderForIdempotencyRecovery userID marketID orderType price quantity
                (idr_StartedAt idemResult) in
    match r with
    | Err err =>
        if errors_Is err Repo_ErrOrderNotFound then mret (Err (ESentinel ErrOrderProcessing))
        else mret (Err err)
    | Ok order =>
        let! _ := completeIdempotencySync userID (ord_ID order) requestHash (ord_Status order) in
        mret (Ok (ord_ID order, ord_Status order))
    end.

Definition resolveIdempotentRequest (userID marketID : UUID) (orderType : OrderType)
    (price : Dec) (quantity : Z) (requestHash : string) (idemResult : IdempotencyResult) :
    M St (result (UUID * OrderStatus)) :=
  if idr_IsCompleted idemResult then
    let '(id, status, err) := checkIdempotencyResult idemResult in
    mret match err with Some e => Err e | None => Ok (id, status) end
  else if negb (idr_IsProcessing idemResult) then mret (Err (EMsg "unknown idempotency state"))
  else tryRecoverOrderFromProcessing userID marketID orderType price quantity requestHash idemResult.

(** *** CreateOrder *)

Definition op_CreateOrder : string := "OrderService.CreateOrder".

(** The path of the request that acquired the key. *)
Definition create_acquired (userID marketID : UUID) (orderType : OrderType) (price : Dec)
    (quantity : Z) (requestHash : string) (acquired : bool) : M St (result (UUID * OrderStatus)) :=
  let fail err := failCleanup userID requestHash acquired ;;! mret (Err (wrap op_CreateOrder err)) in
  let! r := checkRateLimit userID (provideRateLimiters cfg).1 in
  match r with
  | Err err => fail err
  | Ok _ =>
      let! r := validateMarket marketID in
      match r with
      | Err err => fail err
      | Ok _ =>
          let! r := saveOrder userID marketID orderType price quantity in
          match r with
          | Err err => fail err
          | Ok (orderID, orderStatus) =>
              let! _ := completeIdempotencySync userID orderID requestHash orderStatus in
              mret (Ok (orderID, orderStatus))
          end
      end
  end.

Definition CreateOrder (userID marketID : UUID) (orderType : OrderType) (price : Dec)
    (quantity : Z) : M St (result (UUID * OrderStatus)) :=
  let requestHash := buildRequestHash marketID orderType price quantity in
  try! (idemResult, acquired) := idem_acquire (cfg_idem_ttl cfg) userID requestHash
    else wrap op_CreateOrder in
  if negb acquired then
    resolveIdempotentRequest userID marketID orderType price quantity requestHash idemResult
  else create_acquired userID marketID orderType price quantity requestHash acquired.

(** *** GetOrderStatus *)

Definition op_GetOrderStatus : string := "OrderService.GetOrderStatus".

Definition fetchOrder (orderID userID : UUID) : M St (result Order) :=
  let! r := GetOrder orderID userID in
  mret match r with
       | Err err => if errors_Is err Repo_ErrOrderNotFound then Err (ENotFound orderID) else Err err
       | Ok order => Ok order
       end.

Definition GetOrderStatus (orderID userID : UUID) : M St (result OrderStatus) :=
  try! _ := checkRateLimit userID (provideRateLimiters cfg).2 else wrap op_GetOrderStatus in
  try! order := fetchOrder orderID userID else wrap op_GetOrderStatus in
  mret (Ok (ord_Status order)).
End Service.

(** ** The gRPC handler *)

Section Handler.
Context {St : Type} `{DL : DecimalLib} `{U : GoLib}.

Definition Code_InvalidArgument : Z := 3.
Definition Code_Unauthenticated : Z := 16.

Record CreateOrderRequest := {
  req_MarketId : string; req_OrderType : Z; req_Price : option string; req_Quantity : Z
}.

Definition validateCreateRequest (request : option CreateOrderRequest) : option error :=
  match request with
  | None => Some (EStatus Code_InvalidArgument "request is required")
  | Some request =>
      if bool_decide (req_MarketId request = "") then
        Some (EStatus Code_InvalidArgument "market_id is required")
      else if req_OrderType request =? 0 then
        Some (EStatus Code_InvalidArgument "order_type is required")
      else if req_Quantity request <=? 0 then
        Some (EStatus Code_InvalidArgument "quantity must be > 0")
      else None
  end.

Definition validatePrice (request : option CreateOrderRequest) : result Dec :=
  match request with
  | None => Err (EStatus Code_InvalidArgument "request is required")
  | Some request =>
      match req_Price request with
      | None => Err (EStatus Code_InvalidArgument "price is required")
      | Some price =>
          match NewDecimal price with
          | Err _ => Err (EStatus Code_InvalidArgument "price must be a valid decimal number")
          | Ok validPrice =>
              if negb (dec_IsPositive validPrice) then
                Err (EStatus Code_InvalidArgument "price must be > 0")
              else if negb (FitsNumeric validPrice 18 8) then
                Err (EStatus Code_InvalidArgument
                       "price must have at most 10 integer digits and 8 fractional digits")
              else Ok validPrice
          end
      end
  end.

(** serverAPI.CreateOrder over the service; [user] is what the interceptor left
    in the context. *)
Definition handle_CreateOrder
    (service : UUID -> UUID -> OrderType -> Dec -> Z -> M St (result (UUID * OrderStatus)))
    (user : option UUID) (request : option CreateOrderRequest) : M St (result (string * Z)) :=
  match validateCreateRequest request, request with
  | Some err, _ => mret (Err err)
  | None, None => mret (Err (EStatus Code_InvalidArgument "request is required"))
  | None, Some req =>
      match user with
      | None => mret (Err (EStatus Code_Unauthenticated "user_id not found in token"))
      | Some userID =>
          match uuid_parse (req_MarketId req) with
          | None => mret (Err (EStatus Code_InvalidArgument "market_id must be a valid UUID"))
          | Some marketID =>
              match validatePrice request with
              | Err err => mret (Err err)
              | Ok orderPrice =>
                  try! (orderID, orderStatus) :=
                    service userID marketID (TypeFromProto (req_OrderType req)) orderPrice
                      (req_Quantity req) else id in
                  mret (Ok (uuid_string orderID, StatusToProto orderStatus))
              end
          end
      end
  end.

Definition handle_GetOrderStatus
    (service : UUID -> UUID -> M St (result OrderStatus))
    (user : option UUID) (request : option string) : M St (result Z) :=
  match request with
  | None => mret (Err (EStatus Code_InvalidArgument "request is required"))
  | Some orderId =>
      if bool_decide (orderId = "") then
        mret (Err (EStatus Code_InvalidArgument "order_id is required"))
      else
        match user with
        | None => mret (Err (EStatus Code_Unauthenticated "user_id not found in token"))
        | Some userID =>
            match uuid_parse orderId with
            | None => mret (Err (EStatus Code_InvalidArgument "order_id must be a valid UUID"))
            | Some orderID =>
                try! orderStatus := service orderID userID else id in
                mret (Ok (StatusToProto orderStatus))
            end
        end
  end.
End Handler.
