(* ===== verification/BlockQueue.v ===== *)
(** * The queue of the market block workers
      (orderService/internal/services/order/order_service.go: Start, Close,
       startMarketBlockWorkers, synchronizeMarketBlockAsync)

    Requests hand tasks to four workers through a buffered channel.  A mutex
    keeps Close from closing the channel while a request is about to send, a
    sync.Once keeps the workers from being started twice, and a wait group
    tells Close when they are done.  Every goroutine is a [thread] that stands
    between two operations of sync or of the channel; a pool of any number of
    requests, of calls of Start and of Close and of workers moves one of them
    at a time.  A Lock that waits keeps new readers out, as sync.RWMutex
    documents.  The theorems: nothing is sent on or closes a closed channel, a
    request never waits for a worker, and a Close that returns without an error
    leaves no task behind.  They justify the atomic queue of [OrderService]. *)

From S2P Require Import Prelude GoStrings GoErrors Effects Domain Events OrderService.
Local Open Scope list_scope.

Definition marketBlockWorkers : nat := 4.

(** ** Threads *)

(** Where a call of synchronizeMarketBlockAsync stands. *)
Inductive send_at :=
| SLock        (* marketBlockMu.RLock *)
| SCheck       (* if s.marketBlockClosed *)
| SSelect      (* case s.marketBlockQueue <- task *)
| SUnlock      (* the deferred RUnlock *)
| SReturned
| SPanicked.   (* sent on a closed channel *)

(** Where a call of Close stands; it returns nil or its context's error. *)
Inductive close_at :=
| CLock        (* marketBlockMu.Lock *)
| CPending     (* inside Lock, waiting for the readers to leave *)
| CCheck       (* if !s.marketBlockClosed *)
| CShut        (* close(s.marketBlockQueue) *)
| CUnlock
| CWait        (* case <-done, case <-ctx.Done() *)
| CReturned (drained : bool)
| CPanicked.   (* closed a closed channel *)

(** Where a call of Start stands; [BLoop n] has started n workers. *)
Inductive start_at := BDo | BLoop (n : nat) | BReturned.

(** Where a worker stands. *)
Inductive work_at := WReceive | WHandle (task : marketBlockTask) | WExited.

Inductive thread :=
| Sender (task : marketBlockTask) (p : send_at)
| Closer (p : close_at)
| Starter (p : start_at)
| Worker (p : work_at).

(** The writer's side of the RWMutex: nobody in Lock, a call of Lock that waits
    for the readers, or the lock held for writing. *)
Inductive writer_state := WFree | WPending | WHeld.

#[export] Instance writer_state_eq_dec : EqDecision writer_state.
Proof. solve_decision. Defined.

(** What they share: the RWMutex, marketBlockClosed, the channel, the
    WaitGroup's counter and the Once; and for the theorems the tasks that were
    sent and those that were handled. *)
Record shared := Shared {
  mu_readers : nat; mu_writer : writer_state; closed_flag : bool; ch_buffer : list marketBlockTask; ch_closed : bool;
  wg_count : nat; once_claimed : bool; once_done : bool;
  accepted : list marketBlockTask; handled : list marketBlockTask }.

Definition set_mutex (readers : nat) (writer : writer_state) (s : shared) : shared :=
  Shared readers writer (closed_flag s) (ch_buffer s) (ch_closed s) (wg_count s) (once_claimed s) (once_done s)
    (accepted s) (handled s).
Definition set_flag (s : shared) : shared :=
  Shared (mu_readers s) (mu_writer s) true (ch_buffer s) (ch_closed s) (wg_count s) (once_claimed s) (once_done s)
    (accepted s) (handled s).
Definition close_channel (s : shared) : shared :=
  Shared (mu_readers s) (mu_writer s) (closed_flag s) (ch_buffer s) true (wg_count s) (once_claimed s) (once_done s)
    (accepted s) (handled s).
Definition send (task : marketBlockTask) (s : shared) : shared :=
  Shared (mu_readers s) (mu_writer s) (closed_flag s) (ch_buffer s ++ [task]) (ch_closed s) (wg_count s)
    (once_claimed s) (once_done s) (accepted s ++ [task]) (handled s).
Definition receive (rest : list marketBlockTask) (s : shared) : shared :=
  Shared (mu_readers s) (mu_writer s) (closed_flag s) rest (ch_closed s) (wg_count s) (once_claimed s) (once_done s)
    (accepted s) (handled s).
Definition set_wg (n : nat) (s : shared) : shared :=
  Shared (mu_readers s) (mu_writer s) (closed_flag s) (ch_buffer s) (ch_closed s) n (once_claimed s) (once_done s)
    (accepted s) (handled s).
Definition set_once (claimed done : bool) (s : shared) : shared :=
  Shared (mu_readers s) (mu_writer s) (closed_flag s) (ch_buffer s) (ch_closed s) (wg_count s) claimed done
    (accepted s) (handled s).
Definition handle (task : marketBlockTask) (s : shared) : shared :=
  Shared (mu_readers s) (mu_writer s) (closed_flag s) (ch_buffer s) (ch_closed s) (wg_count s) (once_claimed s)
    (once_done s) (accepted s) (handled s ++ [task]).

(** OrderService.New: make(chan marketBlockTask, marketBlockQueueSize). *)
Definition New_queue : shared := Shared 0 WFree false [] false 0 false false [] [].

Section Threads.
(** Whether the context of Close may end while it waits. *)
Variable ctx_may_end : bool.

(** One operation of a thread, and the threads it starts. A call of Lock first
    keeps out new readers and other writers, then waits until the readers that
    are inside have left. Which of the waiting calls goes on after Unlock is
    left open. *)
Inductive tstep (s : shared) : thread -> shared -> thread -> list thread -> Prop :=
(* synchronizeMarketBlockAsync *)
| t_RLock task : mu_writer s = WFree ->
    tstep s (Sender task SLock) (set_mutex (S (mu_readers s)) WFree s) (Sender task SCheck) []
| t_send_check task :
    tstep s (Sender task SCheck) s (Sender task (if closed_flag s then SUnlock else SSelect)) []
| t_send task : ch_closed s = false -> length (ch_buffer s) < marketBlockQueueSize ->
    tstep s (Sender task SSelect) (send task s) (Sender task SUnlock) []
| t_send_default task : ch_closed s = false -> marketBlockQueueSize <= length (ch_buffer s) ->
    tstep s (Sender task SSelect) s (Sender task SUnlock) []
| t_send_panics task : ch_closed s = true -> tstep s (Sender task SSelect) s (Sender task SPanicked) []
| t_RUnlock task :
    tstep s (Sender task SUnlock) (set_mutex (pred (mu_readers s)) (mu_writer s) s) (Sender task SReturned) []
(* Close *)
| t_Lock : mu_writer s = WFree ->
    tstep s (Closer CLock) (set_mutex (mu_readers s) WPending s) (Closer CPending) []
| t_Locked : mu_readers s = 0 -> tstep s (Closer CPending) (set_mutex 0 WHeld s) (Closer CCheck) []
| t_close_check :
    tstep s (Closer CCheck) (if closed_flag s then s else set_flag s)
      (Closer (if closed_flag s then CUnlock else CShut)) []
| t_close : ch_closed s = false -> tstep s (Closer CShut) (close_channel s) (Closer CUnlock) []
| t_close_panics : ch_closed s = true -> tstep s (Closer CShut) s (Closer CPanicked) []
| t_Unlock : tstep s (Closer CUnlock) (set_mutex (mu_readers s) WFree s) (Closer CWait) []
| t_done : wg_count s = 0 -> tstep s (Closer CWait) s (Closer (CReturned true)) []
| t_ctx_Done : ctx_may_end = true -> tstep s (Closer CWait) s (Closer (CReturned false)) []
(* Start; a second call of Do waits for the first *)
| t_once_first : once_claimed s = false -> tstep s (Starter BDo) (set_once true false s) (Starter (BLoop 0)) []
| t_once_again : once_done s = true -> tstep s (Starter BDo) s (Starter BReturned) []
| t_spawn n : n < marketBlockWorkers ->
    tstep s (Starter (BLoop n)) (set_wg (S (wg_count s)) s) (Starter (BLoop (S n))) [Worker WReceive]
| t_spawned n : marketBlockWorkers <= n ->
    tstep s (Starter (BLoop n)) (set_once true true s) (Starter BReturned) []
(* a worker; what panics in the handling of a task is recovered *)
| t_receive task rest : ch_buffer s = task :: rest ->
    tstep s (Worker WReceive) (receive rest s) (Worker (WHandle task)) []
| t_range_ends : ch_buffer s = [] -> ch_closed s = true ->
    tstep s (Worker WReceive) (set_wg (pred (wg_count s)) s) (Worker WExited) []
| t_handled task : tstep s (Worker (WHandle task)) (handle task s) (Worker WReceive) [].

Inductive pool_step : shared * list thread -> shared * list thread -> Prop :=
| pool_move s l1 th l2 s' th' new :
    tstep s th s' th' new -> pool_step (s, l1 ++ th :: l2) (s', l1 ++ th' :: l2 ++ new).
End Threads.

(** ** Counting threads *)

Definition count (f : thread -> nat) (l : list thread) : nat := sum_list_with f l.

Definition reading (th : thread) : nat :=
  match th with Sender _ (SCheck | SSelect | SUnlock) => 1 | _ => 0 end.
Definition locking (th : thread) : nat :=
  match th with Closer (CCheck | CShut | CUnlock) => 1 | _ => 0 end.
(** In Lock, or past it and before Unlock. *)
Definition writing (th : thread) : nat :=
  match th with Closer (CPending | CCheck | CShut | CUnlock) => 1 | _ => 0 end.
Definition selecting (th : thread) : nat := match th with Sender _ SSelect => 1 | _ => 0 end.
Definition shutting (th : thread) : nat := match th with Closer CShut => 1 | _ => 0 end.
Definition past_check (th : thread) : nat :=
  match th with Closer (CUnlock | CWait | CReturned _) => 1 | _ => 0 end.
Definition panicked (th : thread) : nat := match th with Sender _ SPanicked | Closer CPanicked => 1 | _ => 0 end.
Definition working (th : thread) : nat := match th with Worker (WReceive | WHandle _) => 1 | _ => 0 end.
Definition exited (th : thread) : nat := match th with Worker WExited => 1 | _ => 0 end.
Definition workers (th : thread) : nat := match th with Worker _ => 1 | _ => 0 end.
Definition to_spawn (th : thread) : nat := match th with Starter (BLoop n) => marketBlockWorkers - n | _ => 0 end.
Definition looping (th : thread) : nat := match th with Starter (BLoop _) => 1 | _ => 0 end.
Definition drained (th : thread) : nat := match th with Closer (CReturned true) => 1 | _ => 0 end.

(** The task a worker holds. *)
Definition holding (th : thread) : list marketBlockTask := match th with Worker (WHandle task) => [task] | _ => [] end.

(** What a thread still has to do at most: a task that may be sent is two steps
    of a worker, besides the receive. *)
Definition work (th : thread) : nat :=
  match th with
  | Sender _ SLock => 7 | Sender _ SCheck => 6 | Sender _ SSelect => 5 | Sender _ SUnlock => 1 | Sender _ _ => 0
  | Closer CLock => 6 | Closer CPending => 5 | Closer CCheck => 4 | Closer CShut => 3 | Closer CUnlock => 2 | Closer CWait => 1 | Closer _ => 0
  | Starter BDo => 20 | Starter (BLoop n) => 1 + 2 * (marketBlockWorkers - n) | Starter BReturned => 0
  | Worker WReceive => 1 | Worker (WHandle _) => 3 | Worker WExited => 0
  end.

Lemma count_app f l1 l2 : count f (l1 ++ l2) = count f l1 + count f l2.
Proof. apply sum_list_with_app. Qed.

Lemma count_move f l1 th l2 : count f (l1 ++ th :: l2) = count f l1 + f th + count f l2.
Proof. rewrite count_app. unfold count. simpl. lia. Qed.

Lemma count_moved f l1 th' l2 new :
  count f (l1 ++ th' :: l2 ++ new) = count f l1 + f th' + count f l2 + count f new.
Proof. rewrite count_move, count_app. lia. Qed.

Lemma count_in f l th : th ∈ l -> f th <= count f l.
Proof. intros (l1 & l2 & ->)%list_elem_of_split. rewrite count_move. lia. Qed.

Lemma count_le f g l : (forall th, f th <= g th) -> count f l <= count g l.
Proof. intros H. unfold count. induction l as [|th l IH]; simpl; [done|]. specialize (H th). lia. Qed.

Lemma count_some f l : 0 < count f l -> exists th, th ∈ l /\ 0 < f th.
Proof.
  unfold count. induction l as [|th l IH]; simpl; [lia|]. intros H. destruct (decide (0 < f th)).
  - exists th. split; [by left|done].
  - destruct IH as (th' & ? & ?); [lia|]. exists th'. split; [by right|done].
Qed.

(** ** The invariant *)

Definition b2n (b : bool) : nat := if b then 1 else 0.

Record inv (s : shared) (l : list thread) : Prop := {
  (* the mutex *)
  iv_readers : mu_readers s = count reading l;
  iv_writing : count writing l = match mu_writer s with WFree => 0 | _ => 1 end;
  iv_writer : count locking l = match mu_writer s with WHeld => 1 | _ => 0 end;
  iv_excl : mu_writer s = WHeld -> mu_readers s = 0;
  (* the flag guards the channel *)
  iv_select : closed_flag s = true -> count selecting l = 0;
  iv_shutting : count shutting l = b2n (closed_flag s && negb (ch_closed s));
  iv_closed : ch_closed s = true -> closed_flag s = true;
  iv_past : closed_flag s = false -> count past_check l = 0;
  iv_panic : count panicked l = 0;
  (* the workers *)
  iv_wg : wg_count s = count working l;
  iv_spawned : count workers l + count to_spawn l <= (if once_claimed s then marketBlockWorkers else 0);
  iv_exited : 0 < count exited l -> ch_closed s = true /\ ch_buffer s = [];
  (* the tasks *)
  iv_size : length (ch_buffer s) <= marketBlockQueueSize;
  iv_tasks : accepted s ≡ₚ handled s ++ ch_buffer s ++ (l ≫= holding)
}.

Lemma holding_moved l1 th l2 th' new x y :
  x ++ holding th ≡ₚ y ++ holding th' ++ (new ≫= holding) ->
  x ++ ((l1 ++ th :: l2) ≫= holding) ≡ₚ y ++ ((l1 ++ th' :: l2 ++ new) ≫= holding).
Proof.
  intros H. rewrite !bind_app. cbn. rewrite !bind_app. revert H.
  generalize (l1 ≫= holding) (holding th) (l2 ≫= holding) (holding th') (new ≫= holding). intros a b c d e H.
  rewrite (Permutation_app_swap_app a b c), (Permutation_app_swap_app a d), (app_assoc a c e),
    (Permutation_app_comm (a ++ c) e), app_assoc, H. by rewrite <- !app_assoc.
Qed.

Lemma tasks_step b s th s' th' new l1 l2 :
  tstep b s th s' th' new ->
  accepted s ≡ₚ handled s ++ ch_buffer s ++ ((l1 ++ th :: l2) ≫= holding) ->
  accepted s' ≡ₚ handled s' ++ ch_buffer s' ++ ((l1 ++ th' :: l2 ++ new) ≫= holding).
Proof.
  intros Ht Ha. rewrite app_assoc in *.
  destruct Ht; simpl in *; try (rewrite Ha; apply holding_moved; cbn; by rewrite ?app_nil_r).
  - (* sent *) transitivity ((handled s ++ ch_buffer s ++ [task]) ++ ((l1 ++ Sender task SSelect :: l2) ≫= holding));
      [|by apply holding_moved]. rewrite Ha, <- !app_assoc. do 2 f_equiv. apply Permutation_app_comm.
  - (* closing *) destruct (closed_flag s); rewrite Ha; by apply holding_moved.
  - (* received *) rewrite Ha, H. apply holding_moved. cbn. rewrite app_nil_r, <- app_assoc. f_equiv.
    by rewrite <- Permutation_cons_append.
  - (* handled *) rewrite Ha. apply holding_moved. cbn. rewrite app_nil_r, <- !app_assoc. f_equiv.
    apply Permutation_app_comm.
Qed.

#[local] Arguments Nat.sub : simpl never.

(** Some booleans determine some others and when which thread is where; what is
    left is arithmetic. *)
Ltac settle :=
  simpl in *; subst; unfold marketBlockWorkers, marketBlockQueueSize in *; rewrite ?length_app; simpl in *;
  try first [done | lia];
  repeat match goal with
         | x : bool |- _ => first [clear x | destruct x]
         | x : writer_state |- _ => first [clear x | destruct x]
         end; simpl in *; try discriminate; intros; try discriminate;
  repeat match goal with
         | H : true = true -> _ |- _ => specialize (H eq_refl)
         | H : false = false -> _ |- _ => specialize (H eq_refl)
         | H : false = true -> _ |- _ => clear H
         | H : true = false -> _ |- _ => clear H
         | H : WHeld = WHeld -> _ |- _ => specialize (H eq_refl)
         | H : WFree = WHeld -> _ |- _ => clear H
         | H : WPending = WHeld -> _ |- _ => clear H
         | H : 0 < ?n -> _ /\ _ |- _ => destruct (decide (0 < n)) as [Hpos|Hpos]; [destruct (H Hpos)|]; clear H
         end; try first [done | lia].

Lemma selecting_reading th : selecting th <= reading th.
Proof. destruct th as [? []| | |]; simpl; lia. Qed.

Lemma locking_writing th : locking th <= writing th.
Proof. destruct th as [|[]| |]; simpl; lia. Qed.

Lemma shutting_locking th : shutting th <= locking th.
Proof. destruct th as [|[]| |]; simpl; lia. Qed.

Lemma queue_inv_step b s l s' l' : pool_step b (s, l) (s', l') -> inv s l -> inv s' l'.
Proof.
  intros Hst [Hr Hwr Hw Hx Hsel Hsh Hc Hp Hpan Hwg Hsp Hex Hsz Hta].
  inversion Hst as [s0 l1 th l2 s1 th' new Ht]; subst. pose proof (tasks_step _ _ _ _ _ _ _ _ Ht Hta) as Hta'.
  pose proof (count_le _ _ l1 selecting_reading). pose proof (count_le _ _ l2 selecting_reading).
  pose proof (count_le _ _ l1 shutting_locking). pose proof (count_le _ _ l2 shutting_locking).
  pose proof (count_le _ _ l1 locking_writing). pose proof (count_le _ _ l2 locking_writing).
  rewrite !count_move in *. clear Hta Hst.
  destruct s as [readers writer flag buffer closed wg claimed done accepted handled].
  destruct Ht; (constructor; [..|exact Hta']); clear Hta'; rewrite ?count_moved; settle.
Qed.

(** ** Where a pool starts *)

(** A call that has not begun. *)
Definition calling (th : thread) : Prop :=
  match th with Sender _ SLock | Closer CLock | Starter BDo => True | _ => False end.

(** Start has returned: its four workers wait for tasks. *)
Definition Started_queue : shared := Shared 0 WFree false [] false marketBlockWorkers true true [] [].

Definition started (callers : list thread) : shared * list thread :=
  (Started_queue, Starter BReturned :: callers ++ replicate marketBlockWorkers (Worker WReceive)).

Lemma started_reached b callers : rtc (pool_step b) (New_queue, Starter BDo :: callers) (started callers).
Proof.
  eapply rtc_l; [apply (pool_move b New_queue [] (Starter BDo) callers); by apply t_once_first|].
  rewrite app_nil_r. unfold started. cbn [replicate app]. unfold marketBlockWorkers.
  do 4 (eapply rtc_l; [eapply (pool_move b _ [] (Starter (BLoop _))); apply t_spawn; unfold marketBlockWorkers; lia|];
    rewrite ?app_assoc_reverse; cbn [app]).
  eapply rtc_l; [eapply (pool_move b _ [] (Starter (BLoop _))); apply t_spawned; unfold marketBlockWorkers; lia|].
  rewrite ?app_nil_r. cbn. rewrite <- ?app_assoc. apply rtc_refl.
Qed.

Lemma count_calling f l : (forall th, calling th -> f th = 0) -> Forall calling l -> count f l = 0.
Proof. intros Hf H. unfold count. induction H as [|th l Hth _ IH]; simpl; [done|]. rewrite (Hf th Hth). lia. Qed.

Lemma holding_calling l : Forall calling l -> l ≫= holding = [].
Proof. induction 1 as [|th l Hth _ IH]; cbn; [done|]. rewrite IH, app_nil_r. by destruct th as [| | |[]]. Qed.

Ltac no_call := apply count_calling; [|done]; intros [? []|[]|[]|[]]; simpl; done.

Lemma inv_New callers : Forall calling callers -> inv New_queue callers.
Proof.
  intros H. assert (Hz : forall f, (forall th, calling th -> f th = 0) -> count f callers = 0)
    by (intros f Hf; by apply count_calling).
  assert (Hall : count reading callers = 0 /\ count writing callers = 0 /\ count locking callers = 0 /\ count shutting callers = 0 /\
    count past_check callers = 0 /\ count panicked callers = 0 /\ count working callers = 0 /\
    count workers callers = 0 /\ count to_spawn callers = 0 /\ count exited callers = 0 /\ count selecting callers = 0)
    by (split_and!; no_call).
  constructor; simpl; try lia; try tauto. by rewrite holding_calling.
Qed.

Lemma queue_inv_run b s l s' l' : rtc (pool_step b) (s, l) (s', l') -> inv s l -> inv s' l'.
Proof.
  intros H. remember (s, l) as x eqn:Hx. remember (s', l') as y eqn:Hy. revert s l Hx.
  induction H as [x|x [s1 l1] y Hs H IH]; intros s l ->; [by simplify_eq|].
  intros Hi. eapply IH; [done|done|]. by eapply queue_inv_step.
Qed.

(** ** The queue of [OrderService] *)

Definition queue_of (s : shared) : block_queue := {| bq_tasks := ch_buffer s; bq_closed := closed_flag s |}.

Definition queue_close (q : block_queue) : block_queue := {| bq_tasks := bq_tasks q; bq_closed := true |}.
Definition queue_pop (q : block_queue) : block_queue := {| bq_tasks := tail (bq_tasks q); bq_closed := bq_closed q |}.

(** The operation that takes effect when a thread moves on: of a request the
    select or, when it finds the flag, its check; of Close its check; of a
    worker the receive. *)
Definition effect (s : shared) (th : thread) (q : block_queue) : block_queue :=
  match th with
  | Sender task SSelect => enqueue_task task q
  | Sender task SCheck => if closed_flag s then enqueue_task task q else q
  | Closer CCheck => queue_close q
  | Worker WReceive => queue_pop q
  | _ => q
  end.

Lemma move_effect b s th s' th' new l1 l2 :
  tstep b s th s' th' new -> inv s (l1 ++ th :: l2) -> queue_of s' = effect s th (queue_of s).
Proof.
  intros Ht Hi. pose proof (iv_select _ _ Hi) as Hsel. rewrite count_move in Hsel.
  destruct s as [readers writer flag buffer closed wg claimed done accepted handled].
  destruct Ht; simpl in *; try done; unfold queue_of, effect, enqueue_task; simpl.
  - by destruct flag.
  - destruct flag; [specialize (Hsel eq_refl); lia|]. by rewrite decide_True.
  - destruct flag; [done|]. rewrite decide_False by lia. done.
  - pose proof (iv_closed _ _ Hi) as Hc. simpl in Hc. specialize (Hsel (Hc H)). lia.
  - by destruct flag.
  - by subst.
  - by subst.
Qed.

(** ** Nobody waits for long *)

Definition can_move (b : bool) (s : shared) (th : thread) : Prop := exists s' th' new, tstep b s th s' th' new.

Ltac moves := do 3 eexists; econstructor; eauto; lia.

(** A thread that holds the mutex can always go on. *)
Lemma holder_moves b s l th : inv s l -> th ∈ l -> 0 < reading th + locking th -> can_move b s th.
Proof.
  intros Hi Hin Hh. unfold can_move. destruct th as [task []|[]| |]; simpl in Hh; try lia.
  - do 3 eexists. apply t_send_check.
  - destruct (ch_closed s) eqn:Ec; [do 3 eexists; by apply t_send_panics|].
    destruct (decide (length (ch_buffer s) < marketBlockQueueSize)).
    + do 3 eexists. by apply t_send.
    + do 3 eexists. apply t_send_default; [done|lia].
  - do 3 eexists. apply t_RUnlock.
  - do 3 eexists. apply t_close_check.
  - destruct (ch_closed s) eqn:Ec; do 3 eexists; [by apply t_close_panics|by apply t_close].
  - do 3 eexists. apply t_Unlock.
Qed.

(** A Close in Lock goes on, or a reader inside the mutex does. *)
Lemma writer_moves b s l c : inv s l -> Closer c ∈ l -> 0 < writing (Closer c) ->
  can_move b s (Closer c) \/
  exists task p, Sender task p ∈ l /\ 0 < reading (Sender task p) /\ can_move b s (Sender task p).
Proof.
  intros Hi Hin Hw. destruct c; simpl in Hw; try lia;
    try (left; eapply holder_moves; [done|done|simpl; lia]).
  destruct (decide (mu_readers s = 0)) as [Hr|Hr]; [left; do 3 eexists; by apply t_Locked|right].
  rewrite (iv_readers _ _ Hi) in Hr. destruct (count_some reading l ltac:(lia)) as (th & Hth & Hrd).
  destruct th as [task p| | |]; simpl in Hrd; try lia. exists task, p. split_and!; [done|done|].
  eapply holder_moves; [done|done|simpl in *; lia].
Qed.

Lemma writer_there s l : inv s l -> mu_writer s <> WFree -> exists c, Closer c ∈ l /\ 0 < writing (Closer c).
Proof.
  intros Hi Hw. pose proof (iv_writing _ _ Hi) as Hc. assert (Hc' : count writing l = 1) by (by destruct (mu_writer s)). clear Hc.
  destruct (count_some writing l ltac:(lia)) as (th & Hth & Hl). destruct th as [| c | |]; simpl in Hl; try lia.
  by exists c.
Qed.

(** A request waits only for a Close, which waits only for requests that are
    inside the mutex. *)
Lemma sender_moves b s l task p :
  inv s l -> Sender task p ∈ l ->
  p = SReturned \/ can_move b s (Sender task p) \/
  (p = SLock /\ exists c, Closer c ∈ l /\ 0 < writing (Closer c) /\
     (can_move b s (Closer c) \/
      exists task' p', Sender task' p' ∈ l /\ 0 < reading (Sender task' p') /\
                       can_move b s (Sender task' p'))).
Proof.
  intros Hi Hin. destruct p; auto.
  - right. destruct (decide (mu_writer s = WFree)) as [Ew|Ew]; [left; do 3 eexists; by apply t_RLock|right].
    split; [done|]. destruct (writer_there s l Hi Ew) as (c & Hc & Hw). exists c.
    split_and!; [done|done|]. by apply (writer_moves b s l).
  - right. left. eapply holder_moves; [done|done|simpl; lia].
  - right. left. eapply holder_moves; [done|done|simpl; lia].
  - right. left. eapply holder_moves; [done|done|simpl; lia].
  - pose proof (iv_panic _ _ Hi). apply (count_in panicked) in Hin. simpl in Hin. lia.
Qed.

(** ** After Start *)

(** The four workers are there, and when a Close was told that all are done, they
    are. *)
Record calm (s : shared) (l : list thread) : Prop := {
  cm_once : once_claimed s = true /\ once_done s = true;
  cm_looping : count looping l = 0;
  cm_workers : count workers l = marketBlockWorkers;
  cm_drained : 0 < count drained l -> wg_count s = 0
}.

Lemma calm_started callers :
  Forall calling callers -> inv (started callers).1 (started callers).2 /\ calm (started callers).1 (started callers).2.
Proof.
  intros H. split.
  - eapply (queue_inv_run true New_queue (Starter BDo :: callers)).
    + exact (started_reached true callers).
    + apply inv_New. by constructor.
  - assert (Hall : count looping callers = 0 /\ count workers callers = 0 /\ count drained callers = 0)
      by (split_and!; no_call).
    constructor; simpl.
    + done.
    + rewrite (count_app looping callers). simpl. lia.
    + rewrite (count_app workers callers). simpl. unfold marketBlockWorkers. lia.
    + rewrite (count_app drained callers). simpl. lia.
Qed.

Lemma calm_step b s l s' l' : pool_step b (s, l) (s', l') -> inv s l -> calm s l -> calm s' l'.
Proof.
  intros Hst Hi [[Ho1 Ho2] Hl Hw Hd]. pose proof (iv_wg _ _ Hi) as Hwg.
  inversion Hst as [s0 l1 th l2 s1 th' new Ht]; subst. rewrite !count_move in *. clear Hi Hst.
  destruct Ht; constructor; rewrite ?count_moved; simpl in *; try done; try lia; try congruence.
  all: destruct (closed_flag s); simpl; done || lia.
Qed.

Lemma calm_run b s l s' l' :
  rtc (pool_step b) (s, l) (s', l') -> inv s l -> calm s l -> inv s' l' /\ calm s' l'.
Proof.
  intros H. remember (s, l) as x eqn:Hx. remember (s', l') as y eqn:Hy. revert s l Hx.
  induction H as [x|x [s1 l1] y Hs H IH]; intros s l ->; [by simplify_eq|].
  intros Hi Hc. eapply IH; [done|done| |].
  - by eapply queue_inv_step.
  - by eapply calm_step.
Qed.

Lemma started_run b callers s l :
  Forall calling callers -> rtc (pool_step b) (started callers) (s, l) -> inv s l /\ calm s l.
Proof. intros [Hi Hc]%calm_started Hr. by eapply calm_run. Qed.

(** Workers that are done leave nothing. *)
Lemma workers_split l : count workers l = count working l + count exited l.
Proof.
  unfold count. induction l as [|th l IH]; simpl; [done|]. rewrite IH. destruct th as [| | |[]]; simpl; lia.
Qed.

Lemma holding_idle l : count working l = 0 -> l ≫= holding = [].
Proof.
  unfold count. induction l as [|th l IH]; simpl; [done|]. intros H.
  change (holding th ++ (l ≫= holding) = []). rewrite IH by lia. rewrite app_nil_r.
  by destruct th as [| | |[]].
Qed.

Lemma all_exited s l :
  inv s l -> calm s l -> count working l = 0 -> ch_buffer s = [] /\ ch_closed s = true /\ accepted s ≡ₚ handled s.
Proof.
  intros Hi Hc Hw. pose proof (workers_split l) as Hsp. rewrite (cm_workers _ _ Hc) in Hsp.
  destruct (iv_exited _ _ Hi) as [Hcl Hb]; [unfold marketBlockWorkers in Hsp; lia|].
  pose proof (iv_tasks _ _ Hi) as Ht. rewrite Hb, (holding_idle _ Hw), app_nil_r in Ht. done.
Qed.

(** ** Every run ends *)

Definition to_do (x : shared * list thread) : nat := count work x.2 + 3 * length (ch_buffer x.1).

Lemma pool_step_to_do b x y : pool_step b x y -> to_do y < to_do x.
Proof.
  intros [s l1 th l2 s' th' new Ht]. unfold to_do. cbn [fst snd]. rewrite count_moved, count_move.
  destruct Ht; simpl; unfold marketBlockWorkers in *; rewrite ?length_app; simpl;
    try match goal with |- context [if ?c then _ else _] => destruct c end; simpl; try lia.
  rewrite H. simpl. lia.
Qed.

Lemma pool_runs_finite b x : Acc (λ y x, pool_step b x y) x.
Proof.
  remember (to_do x) as n eqn:Hn. revert x Hn. induction (lt_wf n) as [n _ IH]. intros x ->.
  constructor. intros y Hy%pool_step_to_do. by apply (IH (to_do y)).
Qed.

Lemma can_move_step b s l th : th ∈ l -> can_move b s th -> exists y, pool_step b (s, l) y.
Proof. intros (l1 & l2 & ->)%list_elem_of_split (s' & th' & new & Ht). eexists. by apply pool_move. Qed.

(** A thread that is through, but for workers that wait for more tasks. *)
Definition returned (th : thread) : Prop :=
  match th with
  | Sender _ SReturned | Closer (CReturned _) | Starter BReturned | Worker (WReceive | WExited) => True
  | _ => False
  end.

Section Stuck.
Context (b : bool) (s : shared) (l : list thread).
Hypothesis (Hi : inv s l) (Hc : calm s l) (Hstuck : forall y, ~ pool_step b (s, l) y).

Lemma stuck_cannot th : th ∈ l -> ~ can_move b s th.
Proof. intros Hin Hm. destruct (can_move_step b s l th Hin Hm) as [y Hy]. by apply (Hstuck y). Qed.

Lemma stuck_mutex : mu_writer s = WFree /\ mu_readers s = 0.
Proof.
  split.
  - destruct (decide (mu_writer s = WFree)) as [|Hw]; [done|].
    destruct (writer_there s l Hi Hw) as (c & Hcl & Hwr). exfalso.
    destruct (writer_moves b s l c Hi Hcl Hwr) as [Hm|(task & p & Hp & _ & Hm)]; by eapply stuck_cannot.
  - rewrite (iv_readers _ _ Hi). destruct (decide (count reading l = 0)) as [|Hn]; [done|].
    destruct (count_some reading l ltac:(lia)) as (th & Hin & Hth). destruct (stuck_cannot th Hin).
    eapply holder_moves; [done|done|lia].
Qed.

(** Once a Close has passed its check, the channel is closed and the workers
    have exited. *)
Lemma stuck_past : 0 < count past_check l -> count working l = 0.
Proof.
  intros Hp. destruct (closed_flag s) eqn:Ef; [|pose proof (iv_past _ _ Hi Ef); lia].
  assert (Hs : ch_closed s = true).
  { destruct (ch_closed s) eqn:Ec; [done|]. pose proof (iv_shutting _ _ Hi) as Hsh. rewrite Ef, Ec in Hsh. simpl in Hsh.
    destruct (count_some shutting l ltac:(lia)) as (th & Hin & Hth). destruct (stuck_cannot th Hin).
    eapply holder_moves; [done|done|]. pose proof (shutting_locking th). lia. }
  destruct (decide (count working l = 0)) as [|Hn]; [done|].
  destruct (count_some working l ltac:(lia)) as (th & Hin & Hth). destruct (stuck_cannot th Hin).
  destruct th as [| | |[|task|]]; simpl in Hth; try lia.
  - destruct (ch_buffer s) as [|task rest] eqn:Eb; do 3 eexists; [by apply t_range_ends|by eapply t_receive].
  - do 3 eexists. apply t_handled.
Qed.

Lemma stuck_returned th : th ∈ l -> returned th.
Proof.
  intros Hin. pose proof (stuck_cannot th Hin) as Hno. destruct stuck_mutex as [Hw Hr].
  destruct th as [task p|p|p|p].
  - destruct (sender_moves b s l task p Hi Hin) as [->|[Hm|(-> & _)]]; [done|done|].
    destruct Hno. do 3 eexists. by apply t_RLock.
  - destruct p; try done; try (destruct Hno; eapply holder_moves; [done|done|simpl; lia]).
    + destruct Hno. do 3 eexists. by apply t_Lock.
    + destruct Hno. do 3 eexists. by apply t_Locked.
    + destruct Hno. do 3 eexists. apply t_done. rewrite (iv_wg _ _ Hi). apply stuck_past.
      apply (count_in past_check) in Hin. simpl in Hin. lia.
    + pose proof (iv_panic _ _ Hi). apply (count_in panicked) in Hin. simpl in Hin. lia.
  - destruct p as [|n|]; [| |done].
    + destruct Hno. do 3 eexists. apply t_once_again, (cm_once _ _ Hc).
    + apply (count_in looping) in Hin. rewrite (cm_looping _ _ Hc) in Hin. simpl in Hin. lia.
  - destruct p; try done. destruct Hno. do 3 eexists. apply t_handled.
Qed.
End Stuck.

(** ** The properties *)

Definition no_panic (l : list thread) : Prop := forall th, th ∈ l -> panicked th = 0.

(** C20 The queue is safe under every interleaving of requests, calls of Start
    and Close, and workers: nothing is sent on a closed channel and no channel
    is closed twice; the buffer is never over its size and there are never more
    than four workers, however often Start is called; every move of a thread is
    one operation of the queue of [OrderService], or none; and a request that
    hands over a task never waits for a worker.  It can go on, unless a Close
    waits for the mutex or holds it - a waiting Lock keeps out new readers -,
    and then that Close can go on, or a request that is inside the mutex
    can. *)
Theorem block_queue_safe b callers s l :
  Forall calling callers -> rtc (pool_step b) (New_queue, callers) (s, l) ->
  no_panic l /\ length (ch_buffer s) <= marketBlockQueueSize /\ count workers l <= marketBlockWorkers /\
  (forall th s' th' new, th ∈ l -> tstep b s th s' th' new -> queue_of s' = effect s th (queue_of s)) /\
  (forall task p, Sender task p ∈ l ->
    p = SReturned \/ can_move b s (Sender task p) \/
    (p = SLock /\ exists c, Closer c ∈ l /\ 0 < writing (Closer c) /\
       (can_move b s (Closer c) \/
        exists task' p', Sender task' p' ∈ l /\ 0 < reading (Sender task' p') /\
                         can_move b s (Sender task' p')))).
Proof.
  intros Hc%inv_New Hrun. apply (queue_inv_run _ _ _ _ _ Hrun) in Hc as Hi. clear Hc Hrun. split_and!.
  - intros th Hin. pose proof (iv_panic _ _ Hi). apply (count_in panicked) in Hin. lia.
  - apply (iv_size _ _ Hi).
  - pose proof (iv_spawned _ _ Hi). destruct (once_claimed s); lia.
  - intros th s' th' new (l1 & l2 & ->)%list_elem_of_split Ht. by eapply move_effect.
  - intros task p Hin. by apply sender_moves.
Qed.

(** What Close promises when it returns nil. *)
Definition all_handled (s : shared) (l : list thread) : Prop :=
  (forall p, Worker p ∈ l -> p = WExited) /\ ch_closed s = true /\ ch_buffer s = [] /\ accepted s ≡ₚ handled s.

Lemma idle_handled s l : inv s l -> calm s l -> count working l = 0 -> all_handled s l.
Proof.
  intros Hi Hc Hw. destruct (all_exited s l Hi Hc Hw) as (Hb & Hcl & Ht). split_and!; [|done..].
  intros [| |] Hin; [..|done]; apply (count_in working) in Hin; simpl in Hin; lia.
Qed.

(** C19 Close drains the queue.  After Start, with any requests and calls of
    Start and Close: every run ends; when it has, every call has returned; and
    if one of them was a Close, then, and already when some Close has returned
    without an error, the workers have exited, and every task that was accepted
    was handled exactly once. *)
Theorem close_drains b callers s l :
  Forall calling callers -> rtc (pool_step b) (started callers) (s, l) ->
  Acc (λ y x, pool_step b x y) (s, l) /\
  ((forall y, ~ pool_step b (s, l) y) -> Forall returned l /\ forall p, Closer p ∈ l -> all_handled s l) /\
  (Closer (CReturned true) ∈ l -> all_handled s l).
Proof.
  intros Hcall Hrun. destruct (started_run b callers s l Hcall Hrun) as [Hi Hc]. split_and!.
  - apply pool_runs_finite.
  - intros Hstuck. split.
    + apply Forall_forall. by apply (stuck_returned b s l).
    + intros p Hin. apply idle_handled; [done|done|]. apply (stuck_past b s l); [done|done|].
      pose proof (stuck_returned b s l Hi Hc Hstuck _ Hin) as Hr. apply (count_in past_check) in Hin.
      destruct p; simpl in *; try done; lia.
  - intros Hin. apply idle_handled; [done|done|]. rewrite <- (iv_wg _ _ Hi). apply (cm_drained _ _ Hc).
    apply (count_in drained) in Hin. simpl in Hin. lia.
Qed.

(** ** Closed instances *)

Lemma pool_move_at b s l k th s' th' new :
  l !! k = Some th -> tstep b s th s' th' new -> pool_step b (s, l) (s', take k l ++ th' :: drop (S k) l ++ new).
Proof. intros Hk Ht. rewrite <- (take_drop_middle l k th Hk) at 1. by apply pool_move. Qed.

Ltac move_thread k lem := eapply rtc_l; [eapply (pool_move_at _ _ _ k); [reflexivity|eapply lem; (reflexivity || (cbv; lia))]|cbn].

Definition demo_task : marketBlockTask := {|
  task_market := {| mkt_ID := 1%N; mkt_Name := "BTC"; mkt_Enabled := false; mkt_DeletedAt := None; mkt_UpdatedAt := 5 |};
  task_blocked := true; task_reason := "warm_block_after_disabled_recheck" |}.

(** A request has sent its task, a Close waits for it to leave the mutex, and a
    second request waits for that Close. *)
Definition demo_callers : list thread := [Sender demo_task SLock; Closer CLock; Sender demo_task SLock].

Definition demo_sent : shared * list thread :=
  (Shared 1 WPending false [demo_task] false 0 false false [demo_task] [],
   [Sender demo_task SUnlock; Closer CPending; Sender demo_task SLock]).

Lemma demo_sent_reached b : rtc (pool_step b) (New_queue, demo_callers) demo_sent.
Proof.
  unfold demo_callers. move_thread 0 t_RLock. move_thread 0 t_send_check. move_thread 0 t_send.
  move_thread 1 t_Lock. apply rtc_refl.
Qed.

Example demo_reader_waits b : ~ can_move b demo_sent.1 (Sender demo_task SLock).
Proof. intros (s' & th' & new & Ht). inversion Ht. discriminate. Qed.

Lemma block_queue_safe_witness :
  no_panic demo_sent.2 /\ length (ch_buffer demo_sent.1) <= marketBlockQueueSize /\
  exists c, Closer c ∈ demo_sent.2 /\ 0 < writing (Closer c).
Proof.
  assert (H : Forall calling demo_callers) by (repeat constructor).
  destruct (block_queue_safe false _ _ _ H (demo_sent_reached false)) as (Hp & Hb & _ & _ & Hw).
  split; [exact Hp|split; [exact Hb|]].
  destruct (Hw demo_task SLock) as [Hr|[Hm|(_ & c & Hc & Hl & _)]].
  - right. right. left.
  - discriminate Hr.
  - destruct (demo_reader_waits false Hm).
  - exists c. split; [exact Hc|exact Hl].
Defined.

(** Close has returned and the task was handled. *)
Definition demo_drained : shared * list thread :=
  (Shared 0 WFree true [] true 0 true true [demo_task] [demo_task],
   [Starter BReturned; Sender demo_task SReturned; Closer (CReturned true); Worker WExited; Worker WExited;
    Worker WExited; Worker WExited]).

Lemma demo_drained_reached b : rtc (pool_step b) (started [Sender demo_task SLock; Closer CLock]) demo_drained.
Proof.
  unfold started. cbn. move_thread 1 t_RLock. move_thread 1 t_send_check. move_thread 1 t_send. move_thread 3 t_receive.
  move_thread 1 t_RUnlock. move_thread 2 t_Lock. move_thread 2 t_Locked.
  move_thread 2 t_close_check. move_thread 2 t_close.
  move_thread 2 t_Unlock. move_thread 3 t_handled. move_thread 3 t_range_ends. move_thread 4 t_range_ends.
  move_thread 5 t_range_ends. move_thread 6 t_range_ends. move_thread 2 t_done. apply rtc_refl.
Qed.

Lemma close_drains_witness :
  all_handled demo_drained.1 demo_drained.2 /\ handled demo_drained.1 = [demo_task].
Proof.
  assert (H : Forall calling [Sender demo_task SLock; Closer CLock]) by (repeat constructor).
  destruct (close_drains false _ _ _ H (demo_drained_reached false)) as (_ & _ & Hd).
  split; [apply Hd; by right; right; left|reflexivity].
Defined.
