(* ===== verification/ErrorMap.v ===== *)
(** * Errors at the gRPC boundary
      (shared/interceptors/errors/grpc_error_interceptor.go,
       shared/client/grpc/spot_client.go, shared/client/grpc/breaker)

    The server interceptor turns every error of a handler into a status; the
    spot client turns the statuses of the spot service, and the refusals of
    its circuit breaker, back into errors of the order service, which go
    through the order service's own interceptor.  The client implements the
    order service's [MarketViewer]. *)

From S2P Require Import Prelude GoStrings GoErrors Effects Kafka Domain Events OrderService.
Local Open Scope string_scope.
Local Open Scope list_scope.
Local Open Scope Z_scope.

(** ** Library boundary *)

(** google.golang.org/grpc/codes. *)
Definition Code_OK : Z := 0.
Definition Code_Canceled : Z := 1.
Definition Code_Unknown : Z := 2.
Definition Code_DeadlineExceeded : Z := 4.
Definition Code_NotFound : Z := 5.
Definition Code_AlreadyExists : Z := 6.
Definition Code_PermissionDenied : Z := 7.
Definition Code_ResourceExhausted : Z := 8.
Definition Code_FailedPrecondition : Z := 9.
Definition Code_OutOfRange : Z := 11.
Definition Code_Internal : Z := 13.
Definition Code_Unavailable : Z := 14.
Definition Code_DataLoss : Z := 15.

Definition is_Status (e : error) : bool := match e with EStatus _ _ => true | _ => false end.

(** google.golang.org/grpc/status: [FromError] is the code and message of the
    error's status, with [false] when it has none; [FromContextError] makes a
    status of a context's error. *)
Class StatusLib := {
  status_FromError : error -> (Z * string) * bool;
  status_FromContextError : error -> Z * string
}.

(** Documented behaviour. *)
Class StatusLaws `{U : GoLib} (SL : StatusLib) := {
  FromError_status c m : status_FromError (EStatus c m) = ((c, m), true);
  FromError_wrapped e c m : is_Status e = false -> errors_As is_Status e = Some (EStatus c m) ->
    status_FromError e = ((c, error_text e), true);
  FromError_none e : errors_As is_Status e = None -> status_FromError e = ((Code_Unknown, error_text e), false);
  FromContext_deadline e : is_sent CtxDeadlineExceeded e = true ->
    status_FromContextError e = (Code_DeadlineExceeded, error_text e);
  FromContext_canceled e : is_sent CtxDeadlineExceeded e = false -> is_sent CtxCanceled e = true ->
    status_FromContextError e = (Code_Canceled, error_text e)
}.

(** gobreaker's Execute around one call. *)
Class CircuitBreaker (St : Type) := {
  breaker_Execute A : M St (result A) -> M St (result A);
  breaker_law A (m : M St (result A)) w :
    breaker_Execute A m w = m w \/
    exists s, s ∈ [BreakerErrOpenState; BreakerErrTooManyRequests] /\
      breaker_Execute A m w = (Err (ESentinel s), w)
}.
Arguments breaker_Execute {St _} A m.

(** The generated client of the spot service: its answers, which leave this
    service's state alone. *)
Class SpotApi (St : Type) `{PbTime} := {
  api_ViewMarkets : Z -> Z -> M St (result (list (option MarketMsg) * Z * bool));
  api_GetMarketByID : string -> M St (result (option MarketMsg));
  api_market_state id w : w_st (api_GetMarketByID id w).2 = w_st w;
  api_market_env id w : exists n, w_env (api_GetMarketByID id w).2 = Nat.iter n tick (w_env w)
}.

(** ** grpc_error_interceptor.go *)

Section Interceptor.
Context `{U : GoLib} `{SL : StatusLib}.

Definition isNotFoundError (err : error) : bool :=
  is_sent ErrMarketsNotFound err || errors_Is err ErrMarketNotFound || errors_Is err ErrOrderNotFound.

Definition isSpotDependencyError (err : error) : bool :=
  is_sent ErrSpotUnavailable err || is_sent ErrSpotRateLimited err ||
  is_sent ErrSpotUnauthenticated err || is_sent ErrSpotPermissionDenied err ||
  is_sent ErrSpotInternalFailure err.

Definition isBreakerError (err : error) : bool :=
  is_sent BreakerErrOpenState err || is_sent BreakerErrTooManyRequests err.

Definition isAuthFailure (err : error) : bool :=
  is_sent ErrUserRoleNotSpecified err || is_sent ErrMissingMetadata err ||
  is_sent ErrMissingAuthToken err || is_sent ErrInvalidToken err || is_sent ErrTokenExpired err ||
  is_sent ErrInvalidTokenType err || is_sent ErrMissingTokenSubject err ||
  is_sent ErrMissingTokenSessionID err || is_sent ErrMissingUserRoles err ||
  is_sent ErrInvalidUserRoles err || is_sent ErrInvalidUserIDInToken err ||
  is_sent ErrInvalidSubject err || is_sent ErrInvalidJTI err || is_sent ErrTokenRevoked err.

Definition isAuthInternalFailure (err : error) : bool :=
  is_sent ErrSessionValidationFailed err || is_sent ErrSaveTokenFailed err ||
  is_sent ErrSignAccessTokenFailed err || is_sent ErrSignRefreshTokenFailed err ||
  is_sent ErrBuildTokenClaimsFailed err || is_sent ErrInternalAuthContext err.

(** The switch of mapError. *)
Definition classify (err : error) : error :=
  if isNotFoundError err then EStatus Code_NotFound "resource not found"
  else if errors_Is err ErrMarketUnavailable then
    EStatus Code_Unavailable "market temporarily unavailable"
  else if is_sent ErrMarketsUnavailable err then
    EStatus Code_Unavailable "markets are temporarily unavailable"
  else if isSpotDependencyError err then
    EStatus Code_Unavailable "market service temporarily unavailable"
  else if errors_Is err ErrOrderAlreadyExists then EStatus Code_AlreadyExists "order already exists"
  else if is_sent ErrInvalidPagination err then
    EStatus Code_InvalidArgument "invalid pagination parameters"
  else if errors_Is err ErrRateLimitExceeded then EStatus Code_ResourceExhausted (error_text err)
  else if isBreakerError err then EStatus Code_Unavailable "service temporarily unavailable"
  else if errors_Is err ErrMarketDisabled then EStatus Code_FailedPrecondition "market is disabled"
  else if is_sent ErrOrderProcessing err then
    EStatus Code_FailedPrecondition "order is already being processed, wait please"
  else if isAuthFailure err then EStatus Code_Unauthenticated "authentication failed"
  else if isAuthInternalFailure err then EStatus Code_Internal "internal error"
  else EStatus Code_Internal "internal error".

(** For an error that is not nil. *)
Definition mapError (err : error) : error :=
  if is_sent CtxCanceled err || is_sent CtxDeadlineExceeded err then
    let '(c, m) := status_FromContextError err in EStatus c m
  else
    let '((code, _), ok) := status_FromError err in
    if ok && negb (code =? Code_Unknown) then err else classify err.

Definition UnaryServerInterceptor {St Req A} (handler : Req -> M St (result A)) (request : Req) :
    M St (result A) :=
  let! r := handler request in
  mret (map_err mapError r).

Definition CodeFromError (err : option error) : Z :=
  match err with
  | None => Code_OK
  | Some err =>
      if is_sent CtxCanceled err || is_sent CtxDeadlineExceeded err then
        (status_FromContextError err).1
      else (status_FromError err).1.1
  end.

(** ** breaker/circuit_breaker.go *)

Definition isSuccessfulCall (err : option error) : bool :=
  match err with
  | None => true
  | Some _ =>
      bool_decide (CodeFromError err ∈
        [Code_Canceled; Code_InvalidArgument; Code_NotFound; Code_AlreadyExists; Code_PermissionDenied;
         Code_Unauthenticated; Code_FailedPrecondition; Code_ResourceExhausted; Code_OutOfRange])
  end.

Definition ReadyToTrip (MaxFailures ConsecutiveFailures : Z) : bool := MaxFailures <=? ConsecutiveFailures.

(** ** spot_client.go *)

(** errors.Join of three errors. *)
Definition join3 (e1 e2 e3 : error) : error := join e1 (join e2 e3).

Definition mapViewMarketsError (err : error) : error :=
  if is_sent CtxCanceled err then ESentinel CtxCanceled
  else if is_sent CtxDeadlineExceeded err || is_sent BreakerErrOpenState err ||
          is_sent BreakerErrTooManyRequests err then join (ESentinel ErrSpotUnavailable) err
  else
    let '((code, _), ok) := status_FromError err in
    if negb ok then join (ESentinel ErrSpotInternalFailure) err
    else if code =? Code_NotFound then join (ESentinel ErrMarketsNotFound) err
    else if (code =? Code_Unavailable) || (code =? Code_DeadlineExceeded) then
      join (ESentinel ErrSpotUnavailable) err
    else if code =? Code_Unauthenticated then join (ESentinel ErrSpotUnauthenticated) err
    else if code =? Code_PermissionDenied then join (ESentinel ErrSpotPermissionDenied) err
    else if code =? Code_ResourceExhausted then join (ESentinel ErrSpotRateLimited) err
    else join (ESentinel ErrSpotInternalFailure) err.

Definition mapGetMarketByIDError (err : error) (marketID : UUID) : error :=
  if is_sent CtxCanceled err then ESentinel CtxCanceled
  else if is_sent CtxDeadlineExceeded err || is_sent BreakerErrOpenState err ||
          is_sent BreakerErrTooManyRequests err then
    join3 (ESentinel ErrSpotUnavailable) (EUnavailable marketID) err
  else
    let '((code, _), ok) := status_FromError err in
    if negb ok then join (ESentinel ErrSpotInternalFailure) err
    else if code =? Code_NotFound then join (EMarketNotFound marketID) err
    else if code =? Code_FailedPrecondition then join (EDisabled marketID) err
    else if (code =? Code_Unavailable) || (code =? Code_DeadlineExceeded) then
      join3 (ESentinel ErrSpotUnavailable) (EUnavailable marketID) err
    else if code =? Code_Unauthenticated then
      join3 (ESentinel ErrSpotUnauthenticated) (EUnavailable marketID) err
    else if code =? Code_PermissionDenied then
      join3 (ESentinel ErrSpotPermissionDenied) (EUnavailable marketID) err
    else if code =? Code_ResourceExhausted then
      join3 (ESentinel ErrSpotRateLimited) (EUnavailable marketID) err
    else join (ESentinel ErrSpotInternalFailure) err.
End Interceptor.

Section Client.
Context {St : Type} `{U : GoLib} `{SL : StatusLib} `{TT : PbTime} `{PB : !ProtoCodec}
  `{CB : !CircuitBreaker St} `{API : !SpotApi St}.

(** The loop over the markets of the response. *)
Fixpoint map_markets (markets : list (option MarketMsg)) : result (list Market) :=
  match markets with
  | [] => Ok []
  | market :: markets =>
      match MarketFromProto market with
      | Err mapError => Err (wrap "map market from proto" mapError)
      | Ok mappedMarket => res_map (cons mappedMarket) (map_markets markets)
      end
  end.

Definition SpotClient_ViewMarkets (limit offset : Z) : M St (result (list Market * Z * bool)) :=
  try! (markets, nextOffset, hasMore) := breaker_Execute _ (api_ViewMarkets limit offset)
    else mapViewMarketsError in
  mret (res_map (λ out, (out, nextOffset, hasMore)) (map_markets markets)).

Definition SpotClient_GetMarketByID (id : UUID) : M St (result Market) :=
  try! market := breaker_Execute _ (api_GetMarketByID (uuid_string id))
    else (λ err, mapGetMarketByIDError err id) in
  mret (map_err (wrap "map market from proto") (MarketFromProto market)).

Lemma breaker_keeps {A} (m : M St (result A)) w :
  w_st (m w).2 = w_st w -> (exists n, w_env (m w).2 = Nat.iter n tick (w_env w)) ->
  w_st (breaker_Execute A m w).2 = w_st w /\
  exists n, w_env (breaker_Execute A m w).2 = Nat.iter n tick (w_env w).
Proof. intros Hs He. destruct (breaker_law A m w) as [->|(s & _ & ->)]; [done|]. split; [done|by exists 0%nat]. Qed.

Lemma client_keeps id w :
  w_st (SpotClient_GetMarketByID id w).2 = w_st w /\
  exists n, w_env (SpotClient_GetMarketByID id w).2 = Nat.iter n tick (w_env w).
Proof.
  unfold SpotClient_GetMarketByID, mbind.
  destruct (breaker_keeps (api_GetMarketByID (uuid_string id)) w (api_market_state _ _) (api_market_env _ _)) as [Hs He].
  destruct (breaker_Execute _ _ w) as [[a|e] w']; done.
Qed.

(** The client is the order service's market viewer. *)
#[export] Instance SpotClient_viewer : MarketViewer St := {|
  GetMarketByID := SpotClient_GetMarketByID;
  viewer_state id w := proj1 (client_keeps id w);
  viewer_env id w := proj2 (client_keeps id w)
|}.
End Client.

(** ** Properties *)

Section Properties.
Context `{U : GoLib} `{SL : StatusLib} `{!StatusLaws SL}.

(** The status codes and texts a client can be shown, whatever the error. *)
Definition public_answers : list (Z * string) :=
  [(Code_NotFound, "resource not found");
   (Code_Unavailable, "market temporarily unavailable");
   (Code_Unavailable, "markets are temporarily unavailable");
   (Code_Unavailable, "market service temporarily unavailable");
   (Code_AlreadyExists, "order already exists");
   (Code_InvalidArgument, "invalid pagination parameters");
   (Code_Unavailable, "service temporarily unavailable");
   (Code_FailedPrecondition, "market is disabled");
   (Code_FailedPrecondition, "order is already being processed, wait please");
   (Code_Unauthenticated, "authentication failed");
   (Code_Internal, "internal error")].

Definition is_public (c : Z) (m : string) (e : error) : Prop :=
  (c, m) ∈ public_answers \/
  (c = Code_ResourceExhausted /\ m = error_text e /\ errors_Is e ErrRateLimitExceeded = true).

Lemma public_mem c m : bool_decide ((c, m) ∈ public_answers) = true -> (c, m) ∈ public_answers.
Proof. apply bool_decide_eq_true. Qed.

Lemma classify_public e : exists c m, classify e = EStatus c m /\ is_public c m e /\ c <> Code_Unknown.
Proof.
  assert (Hpub : forall c m, bool_decide ((c, m) ∈ public_answers) = true -> c <> Code_Unknown ->
    exists c' m', EStatus c m = EStatus c' m' /\ is_public c' m' e /\ c' <> Code_Unknown).
  { intros c m Hc Hne. exists c, m. split_and!; [done| |done]. left. by apply public_mem. }
  unfold classify.
  repeat match goal with |- context [if ?b then _ else _] => destruct b eqn:? end;
    try (by apply Hpub); eexists _, _; (split_and!; [reflexivity| |done]); by right.
Qed.

Definition is_ctx (e : error) : bool := is_sent CtxCanceled e || is_sent CtxDeadlineExceeded e.

Lemma mapError_status c m : c <> Code_Unknown -> mapError (EStatus c m) = EStatus c m.
Proof.
  intros Hc. unfold mapError. cbn [is_sent errors_Is has existsb error_nodes node_Is orb].
  rewrite FromError_status. apply Z.eqb_neq in Hc. by rewrite Hc.
Qed.

Lemma mapError_ctx e : is_ctx e = true ->
  exists c, (c = Code_DeadlineExceeded \/ c = Code_Canceled) /\ mapError e = EStatus c (error_text e).
Proof.
  intros H. unfold mapError. fold (is_ctx e). rewrite H. unfold is_ctx in H.
  destruct (is_sent CtxDeadlineExceeded e) eqn:Ed.
  - rewrite FromContext_deadline by done. eexists. split; [by left|done].
  - rewrite orb_false_r in H. rewrite FromContext_canceled by done. eexists. split; [by right|done].
Qed.

Lemma status_cases e :
  (exists c m m', errors_As is_Status e = Some (EStatus c m) /\ status_FromError e = ((c, m'), true)) \/
  (errors_As is_Status e = None /\ status_FromError e = ((Code_Unknown, error_text e), false)).
Proof.
  destruct (errors_As is_Status e) as [x|] eqn:E.
  - pose proof (errors_As_Some _ _ _ E) as [Hx _]. destruct x; try done. left.
    destruct (is_Status e) eqn:Es; [|exists code, msg, (error_text e); by rewrite (FromError_wrapped _ code msg)].
    destruct e as [| | | | | | | |c m| | | | | |]; try done. exists c, m, m. by rewrite FromError_status.
  - right. by rewrite FromError_none.
Qed.

Lemma mapError_known e : exists c m, status_FromError (mapError e) = ((c, m), true) /\ c <> Code_Unknown.
Proof.
  destruct (is_ctx e) eqn:Ec.
  { destruct (mapError_ctx e Ec) as (c & Hc & ->). exists c, (error_text e). rewrite FromError_status.
    split; [done|]. by destruct Hc as [->| ->]. }
  assert (Hcl : exists c m, status_FromError (classify e) = ((c, m), true) /\ c <> Code_Unknown).
  { destruct (classify_public e) as (c & m & -> & _ & Hc). exists c, m. by rewrite FromError_status. }
  unfold mapError. fold (is_ctx e). rewrite Ec.
  destruct (status_cases e) as [(c & m & m' & _ & Hf)|[_ Hf]]; rewrite Hf; cbn [andb]; [|done].
  destruct (c =? Code_Unknown) eqn:Hne; cbn [negb]; [done|]. exists c, m'. by apply Z.eqb_neq in Hne.
Qed.

(** *** The documented table

    The table of docs.md, section 3, with the rows that README.md's table of
    codes adds to it: a spot service that cannot be used, bad pagination, and
    requests that are not authenticated. The first row that names the error,
    or an error inside it, is its answer. Where the documentation gives a text
    that the code does not send, or no text, the row has a code only. *)
Record answer_row := {
  ar_errors : list (error -> bool);
  ar_code : Z;
  ar_text : option (error -> string)
}.

Definition fixed_text (s : string) : option (error -> string) := Some (λ _, s).

Definition answer_table : list answer_row := [
  {| ar_errors := [is_sent ErrMarketsNotFound; λ e, errors_Is e ErrMarketNotFound;
                   λ e, errors_Is e ErrOrderNotFound];
     ar_code := Code_NotFound; ar_text := fixed_text "resource not found" |};
  {| ar_errors := [λ e, errors_Is e ErrMarketUnavailable];
     ar_code := Code_Unavailable; ar_text := fixed_text "market temporarily unavailable" |};
  {| ar_errors := [is_sent ErrMarketsUnavailable]; ar_code := Code_Unavailable; ar_text := None |};
  {| ar_errors := [is_sent ErrSpotUnavailable; is_sent ErrSpotRateLimited;
                   is_sent ErrSpotUnauthenticated; is_sent ErrSpotPermissionDenied;
                   is_sent ErrSpotInternalFailure];
     ar_code := Code_Unavailable; ar_text := None |};
  {| ar_errors := [λ e, errors_Is e ErrOrderAlreadyExists];
     ar_code := Code_AlreadyExists; ar_text := fixed_text "order already exists" |};
  {| ar_errors := [is_sent ErrInvalidPagination]; ar_code := Code_InvalidArgument; ar_text := None |};
  {| ar_errors := [λ e, errors_Is e ErrRateLimitExceeded];
     ar_code := Code_ResourceExhausted; ar_text := Some error_text |};
  {| ar_errors := [is_sent BreakerErrOpenState; is_sent BreakerErrTooManyRequests];
     ar_code := Code_Unavailable; ar_text := fixed_text "service temporarily unavailable" |};
  {| ar_errors := [λ e, errors_Is e ErrMarketDisabled];
     ar_code := Code_FailedPrecondition; ar_text := fixed_text "market is disabled" |};
  {| ar_errors := [is_sent ErrOrderProcessing]; ar_code := Code_FailedPrecondition; ar_text := None |};
  {| ar_errors := map is_sent
       [ErrUserRoleNotSpecified; ErrMissingMetadata; ErrMissingAuthToken; ErrInvalidToken;
        ErrTokenExpired; ErrInvalidTokenType; ErrMissingTokenSubject; ErrMissingTokenSessionID;
        ErrMissingUserRoles; ErrInvalidUserRoles; ErrInvalidUserIDInToken; ErrInvalidSubject;
        ErrInvalidJTI; ErrTokenRevoked];
     ar_code := Code_Unauthenticated; ar_text := None |} ].

Definition row_of (e : error) : option answer_row :=
  List.find (λ row, existsb (λ p, p e) (ar_errors row)) answer_table.

(** What the table answers; everything else is an internal error that says
    nothing. *)
Definition table_answer (e r : error) : Prop :=
  match row_of e with
  | Some row => exists m, r = EStatus (ar_code row) m /\
                  match ar_text row with Some text => m = text e | None => True end
  | None => r = EStatus Code_Internal "internal error"
  end.

Lemma classify_table e : table_answer e (classify e).
Proof.
  assert (H1 : isNotFoundError e = existsb (λ p, p e) [is_sent ErrMarketsNotFound;
    λ e, errors_Is e ErrMarketNotFound; λ e, errors_Is e ErrOrderNotFound]).
  { unfold isNotFoundError. simpl. by rewrite orb_false_r, orb_assoc. }
  assert (H2 : isSpotDependencyError e = existsb (λ p, p e) [is_sent ErrSpotUnavailable;
    is_sent ErrSpotRateLimited; is_sent ErrSpotUnauthenticated; is_sent ErrSpotPermissionDenied;
    is_sent ErrSpotInternalFailure]).
  { unfold isSpotDependencyError. simpl. by rewrite orb_false_r, !orb_assoc. }
  assert (H3 : isBreakerError e =
    existsb (λ p, p e) [is_sent BreakerErrOpenState; is_sent BreakerErrTooManyRequests]).
  { unfold isBreakerError. simpl. by rewrite orb_false_r. }
  assert (H4 : isAuthFailure e = existsb (λ p, p e) (map is_sent
    [ErrUserRoleNotSpecified; ErrMissingMetadata; ErrMissingAuthToken; ErrInvalidToken;
     ErrTokenExpired; ErrInvalidTokenType; ErrMissingTokenSubject; ErrMissingTokenSessionID;
     ErrMissingUserRoles; ErrInvalidUserRoles; ErrInvalidUserIDInToken; ErrInvalidSubject;
     ErrInvalidJTI; ErrTokenRevoked])).
  { unfold isAuthFailure. simpl. by rewrite orb_false_r, !orb_assoc. }
  unfold table_answer, row_of, classify, answer_table. cbn [List.find ar_errors].
  rewrite <- H1, <- H2, <- H3, <- H4. cbn [existsb]. rewrite !orb_false_r.
  repeat match goal with |- context [if ?b then _ else _] => destruct b end;
    first [reflexivity | by eexists].
Qed.


(** *** From the spot service to the order service's client *)

Definition wraps (ops : list string) (e : error) : error := foldr wrap e ops.

Lemma errors_Is_wraps ops e t : errors_Is (wraps ops e) t = errors_Is e t.
Proof. induction ops as [|op ops IH]; simpl; [done|]. by rewrite errors_Is_wrap, IH. Qed.

Lemma errors_As_cons p x e : p x = false -> error_nodes x = x :: error_nodes e -> errors_As p x = errors_As p e.
Proof. intros Hp Hn. unfold errors_As. by rewrite Hn, filter_cons_False by congruence. Qed.

Lemma errors_As_wraps ops e : errors_As is_Status (wraps ops e) = errors_As is_Status e.
Proof. induction ops as [|op ops IH]; [done|]. rewrite <- IH. by apply errors_As_cons. Qed.

(** Codes for which the client says that the market is unavailable. *)
Definition unavailable_code (c : Z) : bool :=
  (c =? Code_Unavailable) || (c =? Code_DeadlineExceeded) || (c =? Code_Unauthenticated) ||
  (c =? Code_PermissionDenied) || (c =? Code_ResourceExhausted).

(** Decide whether a status has a code; the case that it has evaluates. *)
Ltac known_code c k :=
  let E := fresh "E" in
  destruct (c =? k) eqn:E; [apply Z.eqb_eq in E; subst c; by vm_compute|].

(** A status of the spot service, as the client's caller sees it. *)
Lemma client_status c m id :
  let seen := mapGetMarketByIDError (EStatus c m) id in
  is_ctx seen = false /\ errors_As is_Status seen = Some (EStatus c m) /\
  errors_Is seen ErrMarketNotFound = (c =? Code_NotFound) /\
  errors_Is seen ErrMarketDisabled = (c =? Code_FailedPrecondition) /\
  errors_Is seen ErrMarketUnavailable = unavailable_code c.
Proof.
  cbv zeta. unfold mapGetMarketByIDError, unavailable_code.
  cbn [is_sent errors_Is has existsb error_nodes node_Is orb]. rewrite FromError_status. cbn [negb].
  known_code c Code_NotFound. known_code c Code_FailedPrecondition.
  known_code c Code_Unavailable. known_code c Code_DeadlineExceeded. known_code c Code_Unauthenticated.
  known_code c Code_PermissionDenied. by known_code c Code_ResourceExhausted.
Qed.

(** An error of the spot service reaches the order service's client with
    its code.  The spot service's interceptor answers with a status [c]; the
    order service's client turns it into an error that says "market not
    found", "disabled" or "unavailable" exactly for the codes that mean so;
    and the order service's own interceptor passes that error on, because it
    holds the status: the code is again [c], also for codes that are about
    the call between the services, such as "unauthenticated", and the message
    is the error's own text, which is more than docs.md wants a client to
    see. *)
Theorem spot_errors_cross e id ops :
  errors_As is_Status e = None -> is_ctx e = false ->
  exists c m, mapError e = EStatus c m /\ is_public c m e /\
    let seen := wraps ops (mapGetMarketByIDError (EStatus c m) id) in
    errors_Is seen ErrMarketNotFound = (c =? Code_NotFound) /\
    errors_Is seen ErrMarketDisabled = (c =? Code_FailedPrecondition) /\
    errors_Is seen ErrMarketUnavailable = unavailable_code c /\
    mapError seen = seen /\ status_FromError seen = ((c, error_text seen), true).
Proof.
  intros Hs Hc. destruct (classify_public e) as (c & m & Hcl & Hp & Hne). exists c, m.
  assert (Hm : mapError e = EStatus c m).
  { unfold mapError. fold (is_ctx e). by rewrite Hc, FromError_none. }
  split_and!; [done|done|]. cbv zeta. set (seen := wraps ops _).
  destruct (client_status c m id) as (H1 & H2 & H3 & H4 & H5).
  assert (Hst : errors_As is_Status seen = Some (EStatus c m)) by (unfold seen; by rewrite errors_As_wraps).
  assert (Hn : is_Status seen = false).
  { unfold seen. destruct ops; [|done]. destruct (mapGetMarketByIDError (EStatus c m) id) eqn:E; try done.
    exfalso. revert E. unfold mapGetMarketByIDError. cbn [is_sent errors_Is has existsb error_nodes node_Is orb].
    rewrite FromError_status. by repeat case_match. }
  assert (Hm' := FromError_wrapped _ _ _ Hn Hst).
  assert (Hself : mapError seen = seen).
  { unfold mapError. fold (is_ctx seen).
    assert (is_ctx seen = false) as -> by (unfold is_ctx, is_sent, seen; by rewrite !errors_Is_wraps).
    rewrite Hm'. apply Z.eqb_neq in Hne. by rewrite Hne. }
  split_and!; [unfold seen; rewrite !errors_Is_wraps; done..|done|done].
Qed.

(** The circuit breaker counts as failures the answers that blame the spot
    service or the network, and no others: not the errors that the request or
    the market is to blame for. *)
Theorem breaker_failures e :
  errors_As is_Status e = None ->
  isSuccessfulCall (Some (mapError e)) = false <->
  (is_sent CtxDeadlineExceeded e = true \/
   is_ctx e = false /\ exists m, classify e = EStatus Code_Unavailable m \/ classify e = EStatus Code_Internal m).
Proof.
  intros Hs. assert (Hst : forall c m, CodeFromError (Some (EStatus c m)) = c).
  { intros c m. unfold CodeFromError. cbn [is_sent errors_Is has existsb error_nodes node_Is orb].
    by rewrite FromError_status. }
  unfold isSuccessfulCall. destruct (is_ctx e) eqn:Ec.
  - unfold mapError. fold (is_ctx e). rewrite Ec. unfold is_ctx in Ec.
    destruct (is_sent CtxDeadlineExceeded e) eqn:Ed.
    + rewrite FromContext_deadline, Hst by done. split; [by left|]. intros _. by vm_compute.
    + rewrite orb_false_r in Ec. rewrite FromContext_canceled, Hst by done.
      split; [intros H; by vm_compute in H|intros [?|[? _]]; done].
  - assert (Hm : mapError e = classify e) by (unfold mapError; fold (is_ctx e); by rewrite Ec, FromError_none).
    assert (Hd : is_sent CtxDeadlineExceeded e = false) by (unfold is_ctx in Ec; by apply orb_false_iff in Ec as [_ ?]).
    rewrite Hm, Hd. destruct (classify_public e) as (c & m & -> & Hp & Hne). rewrite Hst. split.
    + intros H. right. split; [done|]. exists m. destruct Hp as [Hp|(-> & _)]; [|by vm_compute in H].
      repeat (apply elem_of_cons in Hp as [[= -> ->]|Hp]; [first [by left|by right|by vm_compute in H]|]).
      by apply elem_of_nil in Hp.
    + intros [?|[_ [m' [[= -> ->]|[= -> ->]]]]]; [done|by vm_compute..].
Qed.
End Properties.

(** ** Closed instances *)

Section Witness.
#[local] Existing Instance DecLib.

Definition WalkStatus : StatusLib := {|
  status_FromError e := match e, errors_As is_Status e with
    | EStatus c m, _ => ((c, m), true)
    | _, Some (EStatus c _) => ((c, error_text e), true)
    | _, _ => ((Code_Unknown, error_text e), false)
    end;
  status_FromContextError e :=
    (if is_sent CtxDeadlineExceeded e then Code_DeadlineExceeded else Code_Canceled, error_text e)
|}.

Lemma WalkStatus_laws : StatusLaws WalkStatus.
Proof.
  split; cbn [status_FromError status_FromContextError WalkStatus]; try done.
  - intros e c m Hn H. destruct e; rewrite ?H; done.
  - intros e He. destruct e; rewrite ?He; done.
  - by intros e ->.
  - by intros e ->.
Qed.
#[local] Existing Instance WalkStatus.
#[local] Existing Instance WalkStatus_laws.

Definition demo_missing : error := wrap "MarketViewer.GetMarketByID" (EMarketNotFound 9%N).


(** A wrapped status is not reclassified, even when a sentinel is around it. *)
Example demo_passed_on :
  let e := wrap "OrderService.CreateOrder" (join (ESentinel ErrOrderProcessing) (EStatus Code_NotFound "gone")) in
  mapError e = e.
Proof. reflexivity. Qed.

Example demo_crossing :
  mapError demo_missing = EStatus Code_NotFound "resource not found" /\
  (status_FromError (mapError (wrap "OrderService.CreateOrder"
    (mapGetMarketByIDError (mapError demo_missing) 9%N)))).1.1 = Code_NotFound.
Proof. split; reflexivity. Qed.

Lemma spot_errors_cross_witness :
  exists c m, mapError demo_missing = EStatus c m /\ is_public c m demo_missing /\
    let seen := wraps ["OrderService.CreateOrder"] (mapGetMarketByIDError (EStatus c m) 9%N) in
    errors_Is seen ErrMarketNotFound = (c =? Code_NotFound) /\
    errors_Is seen ErrMarketDisabled = (c =? Code_FailedPrecondition) /\
    errors_Is seen ErrMarketUnavailable = unavailable_code c /\
    mapError seen = seen /\ status_FromError seen = ((c, error_text seen), true).
Proof. apply (spot_errors_cross demo_missing 9%N ["OrderService.CreateOrder"]); reflexivity. Defined.

Lemma breaker_failures_witness :
  isSuccessfulCall (Some (mapError demo_missing)) = false <->
  (is_sent CtxDeadlineExceeded demo_missing = true \/
   is_ctx demo_missing = false /\
   exists m, classify demo_missing = EStatus Code_Unavailable m \/ classify demo_missing = EStatus Code_Internal m).
Proof. apply (breaker_failures demo_missing). reflexivity. Defined.
End Witness.
