(* ===== verification/OrderCorrect.v ===== *)
(** * What the order service does to its state

    Theorems about [OrderService]: [saveOrder] writes the order and its outbox
    event together or not at all, [CreateOrder] writes at most one order and
    only for a market the viewer answered as enabled, a repeated request gets
    the first one's answer, recovery answers with the caller's own order, and
    [GetOrderStatus] answers for the owner only. *)

From stdpp Require Import sorting.
From S2P Require Import Prelude GoStrings GoErrors Effects Redis Pg Kafka RateLimit Outbox Domain Events Idempotency OrderDb MarketBlock OrderService.
Local Open Scope string_scope.
Local Open Scope list_scope.
Local Open Scope Z_scope.

(** ** What a created order leaves in the database *)

Section Created.
Context `{PT : PgTypes} `{DL : DecimalLib} `{PC : PriceColumn} `{U : GoLib} `{TT : PbTime}
  `{PB : !ProtoCodec}.

(** The row of the order and its pending outbox event appeared together, and
    nothing else changed. *)
Record order_created (userID marketID : UUID) (orderType : OrderType) (price : Dec)
    (quantity created : Z) (id : UUID) (d d' : OrderDB) : Prop := {
  oc_new : db_orders d !! id = None;
  oc_row : exists row, db_orders d' = <[id := row]> (db_orders d) /\
    or_ID row = id /\ or_UserID row = userID /\ or_MarketID row = marketID /\
    or_Type row = wrap_s 16 orderType /\ numeric_in (dec_String price) = Some (or_Price row) /\
    or_Quantity row = quantity /\ or_Status row = OrderStatusCreated /\
    or_CreatedAt row = pg_time created /\ order_checks row = None;
  oc_event : exists ev event, db_outbox d !! oe_ID ev = None /\
    db_outbox d' = <[oe_ID ev := ev]> (db_outbox d) /\ oe_AggregateID ev = id /\
    oe_EventType ev = OrderCreatedEventType /\ oe_Status ev = OutboxEventStatusPending /\
    oe_RetryCount ev = 0 /\ MarshalOrderCreated event = Ok (oe_Payload ev) /\
    oce_OrderID event = id /\ oce_UserID event = userID /\ oce_MarketID event = marketID /\
    oce_Type event = orderType /\ oce_Price event = price /\ oce_Quantity event = quantity /\
    oce_Status event = OrderStatusCreated /\ oce_CreatedAt event = created;
  oc_inbox : db_inbox d' = db_inbox d
}.

Lemma insert_order_Ok o now d d1 :
  sql_insert_order o now d = (Ok tt, d1) ->
  exists price, numeric_in (dto_Price o) = Some price /\
    let row := {| or_ID := dto_ID o; or_UserID := dto_UserID o; or_MarketID := dto_MarketID o;
                  or_Type := dto_Type o; or_Price := price; or_Quantity := dto_Quantity o;
                  or_Status := dto_Status o; or_CreatedAt := pg_time (dto_CreatedAt o) |} in
    order_checks row = None /\ db_orders d !! dto_ID o = None /\
    d1 = set_orders (<[dto_ID o := row]> (db_orders d)) d.
Proof.
  unfold sql_insert_order. destruct (numeric_in _) as [price|]; [|done].
  set (row := Build_OrderRow _ _ _ _ _ _ _ _). destruct (order_checks row) eqn:Ec; [done|].
  case_decide as Hid; [done|]. intros [= <-]. exists price.
  split_and!; [done|done| |done]. by apply eq_None_not_Some.
Qed.

End Created.

(** ** saveOrder *)

Section Save.
Context {St : Type} `{PT : PgTypes} `{DL : DecimalLib} `{PC : PriceColumn}
  `{U : GoLib} `{TT : PbTime} `{PB : !ProtoCodec} `{HD : !Has (pg OrderDB) St}.

(** The outcome of an operation that creates one order. *)
Definition create_outcome (userID marketID : UUID) (orderType : OrderType) (price : Dec)
    (quantity created : Z) (id : UUID) (e : env) (d : OrderDB)
    (r : result (UUID * OrderStatus)) (s' : St) : Prop :=
  match r with
  | Ok v => v = (id, OrderStatusCreated) /\ tx_of s' = TxNone /\
            order_created userID marketID orderType price quantity created id d (db_of s')
  | Err _ => db_of s' = d \/
             (~ answered e /\ tx_of s' = TxNone /\
              order_created userID marketID orderType price quantity created id d (db_of s'))
  end.

Definition order_of (userID marketID : UUID) (orderType : OrderType) (price : Dec)
    (quantity created : Z) (id : UUID) : Order :=
  {| ord_ID := id; ord_UserID := userID; ord_MarketID := marketID; ord_Type := orderType;
     ord_Price := price; ord_Quantity := quantity; ord_Status := OrderStatusCreated;
     ord_CreatedAt := created |}.

Lemma saveOrder_tx_spec userID marketID orderType price quantity created id event w d0 now :
  prj (w_st w) = Pg d0 (TxOpen now d0) ->
  oce_OrderID event = id -> oce_UserID event = userID -> oce_MarketID event = marketID ->
  oce_Type event = orderType -> oce_Price event = price -> oce_Quantity event = quantity ->
  oce_Status event = OrderStatusCreated -> oce_CreatedAt event = created ->
  wp (saveOrder_tx (order_of userID marketID orderType price quantity created id) event)
    (λ r w', create_outcome userID marketID orderType price quantity created id (w_env w) d0 r (w_st w')) w.
Proof.
  intros Hp Hid Huser Hmarket Htype Hprice Hquantity Hstatus Hcreated.
  unfold saveOrder_tx, SaveOrder. apply wp_bind, wp_bind.
  assert (Habort : forall w' e, prj (w_st w') = Pg d0 TxAborted ->
    create_outcome userID marketID orderType price quantity created id (w_env w) d0 (Err e) (w_st w')).
  { intros w' e Hw. left. unfold db_of. by rewrite Hw. }
  eapply wp_tx_Exec; [done| |].
  { intros e w' _ Hw. destruct (isPrimaryKeyViolation e); apply wp_ret; destruct (errors_Is _ _); by apply Habort. }
  intros [] d1 w1 He1 (p & Hpin & Hchk & Hnew & ->)%insert_order_Ok Hw1. apply wp_ret. simpl in Hnew.
  apply wp_bind. unfold ProduceOrderCreated. destruct (MarshalOrderCreated event) as [payload|] eqn:Em.
  2: { wp_steps. left. unfold db_of. by rewrite Hw1. }
  unfold buildOrderCreatedOutboxEvent, SaveOutboxEvent. do 4 (wp_step; simpl). apply wp_bind, wp_bind.
  eapply wp_tx_Exec; [done|by intros; apply Habort|].
  intros [] d2 w2 He2 (stored & -> & Hfree & Hst)%on_outbox_insert_Ok Hw2. wp_steps.
  simpl in He2, Hfree. destruct Hst as (Hs1 & Hs2 & Hs3 & Hs4 & Hs5 & Hs6 & _). simpl in *.
  assert (Hdone : order_created userID marketID orderType price quantity created id d0
    (set_outbox (<[e_uuid (w_env w1) (e_tick (w_env w1)) := stored]> (db_outbox d0))
       (set_orders (<[id := {| or_ID := id; or_UserID := userID; or_MarketID := marketID;
         or_Type := wrap_s 16 orderType; or_Price := p; or_Quantity := quantity;
         or_Status := wrap_s 16 OrderStatusCreated; or_CreatedAt := pg_time created |}]>
         (db_orders d0)) d0))).
  { split; simpl; [done| | |done].
    - eexists. split; [done|]. by split_and!.
    - exists stored, event. rewrite Hs1. split_and!; try done; congruence. }
  unfold commitTransaction. eapply wp_commit; [done| | |].
  - intros w3 _ Hw3. wp_steps. unfold create_outcome, tx_of, db_of. rewrite Hw3. done.
  - intros e w3 _ Hw3. wp_steps. left. unfold db_of. by rewrite Hw3.
  - intros e w3 _ Hna Hw3. wp_steps. right. unfold tx_of, db_of. rewrite Hw3. split; [|done].
    rewrite He2 in Hna. by rewrite He1 in Hna.
Qed.

Lemma wp_Rollback (Q : unit -> world St -> Prop) w :
  (forall w', db_of (w_st w') = db_of (w_st w) -> tx_of (w_st w') = TxNone -> Q tt w') ->
  wp rollbackTransaction Q w.
Proof.
  intros HQ. unfold rollbackTransaction. apply wp_bind. apply wp_pg. intros t f w' Hw. wp_steps.
  apply HQ; unfold db_of, tx_of; rewrite Hw; [apply pg_rollback_db|apply pg_rollback_tx].
Qed.

(** saveOrder from an idle connection: the identifier and the creation time
    are the ones drawn at its start. *)
Lemma saveOrder_spec userID marketID orderType price quantity w :
  tx_of (w_st w) = TxNone ->
  wp (saveOrder userID marketID orderType price quantity)
    (λ r w', tx_of (w_st w') = TxNone /\
       create_outcome userID marketID orderType price quantity
         (e_now (w_env w) (e_tick (w_env w))) (e_uuid (w_env w) (S (e_tick (w_env w))))
         (w_env w) (db_of (w_st w)) r (w_st w')) w.
Proof.
  intros Hidle. unfold saveOrder, buildOrder, buildOrderCreatedEvent. wp_steps.
  set (created := e_now (w_env w) (e_tick (w_env w))).
  set (id := e_uuid (w_env w) (S (e_tick (w_env w)))).
  apply wp_pg_env. intros t f w1 _ Henv Hw1. simpl in *.
  assert (Hp : prj (w_st w) = Pg (db_of (w_st w)) (TxNone (D := OrderDB))).
  { unfold db_of, tx_of in *. destruct (prj (w_st w)). simpl in *. by subst. }
  assert (Hfail : forall e, f = FBefore e \/ f = FAfter e -> wp (mret (Err (wrap (op_saveOrder +:+ ": begin transaction") e)))
    (λ r w', tx_of (w_st w') = TxNone /\ create_outcome userID marketID orderType price quantity
       created id (w_env w) (db_of (w_st w)) r (w_st w')) w1).
  { intros e Hf. wp_steps. unfold tx_of, db_of. destruct Hf as [-> | ->]; simpl in Hw1; rewrite Hw1, Hp;
      (split; [done|by left]). }
  destruct f as [|e|e]; [clear Hfail|by apply Hfail; left|by apply Hfail; right].
  simpl in *. apply wp_bind. fold (order_of userID marketID orderType price quantity created id).
  eapply wp_mono; [by eapply saveOrder_tx_spec|]. intros [v|e] w2 Ho; simpl in Ho.
  - wp_steps. destruct Ho as (-> & Ht & Hc). split; [done|]. by split_and!.
  - apply wp_bind, wp_Rollback. intros w3 Hdb Htx. wp_steps. split; [done|].
    rewrite Hdb. destruct Ho as [Ho|(Hna & _ & Ho)]; [by left|right]. split_and!; [|done|done].
    rewrite Henv in Hna. done.
Qed.

(** C5 Saving an order is atomic under every pattern of failing calls: when
    [saveOrder] reports success the order's row and its order.created event
    with the same data were committed together and nothing else changed; when
    it reports an error the tables are untouched, or the reply to COMMIT was
    lost and both are there.  No transaction stays open. *)
Theorem saveOrder_atomic userID marketID orderType price quantity w :
  tx_of (w_st w) = TxNone ->
  wp (saveOrder userID marketID orderType price quantity)
    (λ r w', tx_of (w_st w') = TxNone /\ exists created id,
       match r with
       | Ok v => v = (id, OrderStatusCreated) /\
                 order_created userID marketID orderType price quantity created id
                   (db_of (w_st w)) (db_of (w_st w'))
       | Err _ => db_of (w_st w') = db_of (w_st w) \/
                  (~ answered (w_env w) /\
                   order_created userID marketID orderType price quantity created id
                     (db_of (w_st w)) (db_of (w_st w')))
       end) w.
Proof.
  intros Hidle. eapply wp_mono; [by apply saveOrder_spec|]. intros r w' [Ht Ho]. split; [done|].
  do 2 eexists. destruct r as [v|e]; [by destruct Ho as (?&?&?)|].
  destruct Ho as [?|(?&?&?)]; [by left|by right].
Qed.
End Save.

(** ** CreateOrder *)

Section Frame.
Context {St R : Type} `{HRd : Redis R} `{PT : PgTypes} `{DL : DecimalLib} `{PC : PriceColumn}
  `{U : GoLib} `{L : LuaNumbers} `{EC : EntryCodec} `{SH : Sha256} `{TT : PbTime}
  `{PB : !ProtoCodec}.
Context `{HD : !Has (pg OrderDB) St} `{HR : !Has R St} `{HQ : !Has block_queue St}
  `{MV : !MarketViewer St}.
Context `{HA : !Apart R (pg OrderDB) St} `{HB : !Apart block_queue (pg OrderDB) St}.
Variable cfg : svc_config.

(** The steps of CreateOrder outside saveOrder do not touch Postgres. *)
Notation dbf := (frames (prj (X := pg OrderDB))) (only parsing).

Lemma frames_cache_Delete key : dbf (cache_Delete key).
Proof. unfold cache_Delete. frame_solve. Qed.
Lemma frames_cache_Get key : dbf (cache_Get key).
Proof. unfold cache_Get. frame_solve. Qed.
Lemma frames_cache_SetWithTTL key v ttl : dbf (cache_SetWithTTL key v ttl).
Proof. unfold cache_SetWithTTL. frame_solve. Qed.
#[local] Hint Resolve frames_cache_Delete frames_cache_Get frames_cache_SetWithTTL : frames.

Lemma frames_acquire_round ttl u h again :
  (forall m, again = Some m -> dbf m) -> dbf (acquire_round ttl u h again).
Proof.
  intros Hagain. unfold acquire_round. frame_solve; destruct again; frame_solve; by apply Hagain.
Qed.

Lemma frames_idem_acquire ttl u h : dbf (idem_acquire ttl u h).
Proof.
  unfold idem_acquire, adapter_Acquire, store_Acquire. apply frames_bind; [|intros; apply frames_ret].
  apply frames_acquire_round. intros m [= <-]. by apply frames_acquire_round.
Qed.

Lemma frames_checkRateLimit u l : dbf (checkRateLimit u l).
Proof. unfold checkRateLimit, Allow. frame_solve. Qed.

Lemma frames_viewer id : dbf (GetMarketByID id).
Proof. intros w. unfold wp. by rewrite viewer_state. Qed.

Lemma frames_block_async m b r : dbf (synchronizeMarketBlockAsync m b r).
Proof. apply frames_modify. intros s. apply prj_apart. Qed.

Lemma frames_IsBlocked id : dbf (IsBlocked id).
Proof. unfold IsBlocked, invalidateCorruptedState. frame_solve. Qed.
#[local] Hint Resolve frames_viewer frames_block_async frames_IsBlocked : frames.

Lemma frames_validateMarket id : dbf (validateMarket id).
Proof. unfold validateMarket, getMarketBlockedState. frame_solve. Qed.

Lemma frames_complete_loop ttl n last u o h s : dbf (complete_loop ttl n last u o h s).
Proof.
  revert last. induction n as [|n IH]; intros last; simpl; [apply frames_ret|].
  unfold adapter_Complete, store_Complete. frame_solve; apply IH.
Qed.

Lemma frames_complete u o h s : dbf (completeIdempotencySync cfg u o h s).
Proof. apply frames_complete_loop. Qed.

Lemma frames_failCleanup u h a : dbf (failCleanup u h a).
Proof. unfold failCleanup, adapter_FailCleanup, store_FailCleanup. frame_solve. Qed.

Lemma frames_pool_read {A} (s : stmt OrderDB A) :
  (forall now d, (s now d).2 = d) -> dbf (pool_Exec s).
Proof.
  intros Hs. apply frames_call. intros t f st.
  assert (Hp : (faulty (pg_pool s t) f (prj st)).2 = prj st).
  { apply (faulty_frame id). intros p. unfold pg_pool. specialize (Hs t (pg_db p)).
    destruct (s t (pg_db p)) as [a d]. simpl in *. subst. by destruct a, p. }
  destruct (faulty _ f (prj st)). simpl in *. by rewrite prj_upd.
Qed.

Lemma frames_resolve u m ty p q h i : dbf (resolveIdempotentRequest cfg u m ty p q h i).
Proof.
  unfold resolveIdempotentRequest, tryRecoverOrderFromProcessing, FindOrderForIdempotencyRecovery.
  destruct (idr_IsCompleted i); [destruct (checkIdempotencyResult i) as [[]]; apply frames_ret|].
  destruct (negb _); [apply frames_ret|]. destruct (_ =? _); [apply frames_ret|].
  apply frames_bind; [apply frames_bind; [by apply frames_pool_read|intros; apply frames_ret]|].
  intros [o|e]; [|destruct (errors_Is _ _); apply frames_ret].
  apply frames_bind; [apply frames_complete|]. intros; apply frames_ret.
Qed.
End Frame.

(** The environment advances by the questions each step asks. *)
Section Ticking.
Context {St R : Type} `{HRd : Redis R} `{U : GoLib} `{L : LuaNumbers} `{EC : EntryCodec}
  `{SH : Sha256} `{HR : !Has R St} `{HQ : !Has block_queue St} `{MV : !MarketViewer St}.

Lemma ticks_redis_call {A} (cmd : Z -> R -> result A * R) : ticks (redis_call (St := St) cmd).
Proof. apply ticks_call. Qed.
#[local] Hint Resolve ticks_redis_call : ticks.

Lemma ticks_acquire_round ttl u h again :
  (forall m, again = Some m -> ticks m) -> ticks (acquire_round (St := St) ttl u h again).
Proof.
  intros Hagain. unfold acquire_round, time_Now, cache_Delete.
  tick_solve; destruct again; tick_solve; by apply Hagain.
Qed.

Lemma ticks_idem_acquire ttl u h : ticks (idem_acquire (St := St) ttl u h).
Proof.
  unfold idem_acquire, adapter_Acquire, store_Acquire. apply ticks_bind; [|intros; apply ticks_ret].
  apply ticks_acquire_round. intros m [= <-]. by apply ticks_acquire_round.
Qed.

Lemma ticks_checkRateLimit u l : ticks (checkRateLimit (St := St) u l).
Proof. unfold checkRateLimit, Allow. tick_solve. Qed.

Lemma ticks_IsBlocked id : ticks (IsBlocked (St := St) id).
Proof. unfold IsBlocked, invalidateCorruptedState, cache_Delete, cache_Get. tick_solve. Qed.
Lemma ticks_viewer id : ticks (GetMarketByID id).
Proof. intros w. apply viewer_env. Qed.
#[local] Hint Resolve ticks_IsBlocked ticks_viewer : ticks.

Lemma ticks_getMarketBlockedState id : ticks (getMarketBlockedState (St := St) id).
Proof. unfold getMarketBlockedState. tick_solve. Qed.
#[local] Hint Resolve ticks_getMarketBlockedState : ticks.

Lemma ticks_validateMarket id : ticks (validateMarket (St := St) id).
Proof. unfold validateMarket, synchronizeMarketBlockAsync. tick_solve. Qed.
End Ticking.

#[export] Hint Resolve ticks_redis_call ticks_idem_acquire ticks_checkRateLimit
  ticks_getMarketBlockedState ticks_validateMarket : ticks.

Section Create.
Context {St R : Type} `{HRd : Redis R} `{PT : PgTypes} `{DL : DecimalLib} `{PC : PriceColumn}
  `{U : GoLib} `{L : LuaNumbers} `{EC : EntryCodec} `{SH : Sha256} `{TT : PbTime}
  `{PB : !ProtoCodec}.
Context `{HD : !Has (pg OrderDB) St} `{HR : !Has R St} `{HQ : !Has block_queue St}
  `{MV : !MarketViewer St}.
Context `{HA : !Apart R (pg OrderDB) St} `{HB : !Apart block_queue (pg OrderDB) St}.
Variable cfg : svc_config.

(** [m] ran from [w]: the environment advanced and Postgres is as before. *)
Definition later (w w' : world St) : Prop :=
  (exists n, w_env w' = Nat.iter n tick (w_env w)) /\ prj (X := pg OrderDB) (w_st w') = prj (w_st w).

Lemma later_refl w : later w w.
Proof. split; [by exists 0%nat|done]. Qed.

Lemma later_trans w1 w2 w3 : later w1 w2 -> later w2 w3 -> later w1 w3.
Proof.
  intros [[n Hn] H1] [[k Hk] H2]. split; [|congruence].
  exists (k + n)%nat. by rewrite Hk, Hn, Nat.iter_add.
Qed.

Lemma wp_later {A} (m : M St A) (Q : A -> world St -> Prop) w w0 :
  later w0 w -> frames (prj (X := pg OrderDB)) m -> ticks m ->
  (forall a w', (m w).1 = a -> later w0 w' -> Q a w') -> wp m Q w.
Proof.
  intros H0 Hf Ht Hgo. apply Hgo; [done|]. eapply later_trans; [done|]. split; [apply Ht|apply Hf].
Qed.

(** During the request the viewer answered that the market is enabled and not
    deleted. *)
Definition market_open (marketID : UUID) (w : world St) : Prop :=
  exists w1 m, later w w1 /\ (GetMarketByID marketID w1).1 = Ok m /\
    mkt_DeletedAt m = None /\ mkt_Enabled m = true.

Lemma validateMarket_spec marketID w w0 :
  later w0 w ->
  wp (validateMarket marketID) (λ r w', later w0 w' /\ (r = Ok tt -> market_open marketID w0)) w.
Proof.
  intros H0. apply wp_conj; [by eapply wp_later; [|apply frames_validateMarket|apply ticks_validateMarket|]|].
  unfold validateMarket. apply wp_bind.
  eapply wp_later; [done| |apply ticks_getMarketBlockedState|].
  { unfold getMarketBlockedState. apply frames_bind; [apply frames_IsBlocked|].
    intros [b|e]; frame_solve. }
  intros [b|e] w1 _ H1; [|by wp_steps]. apply wp_bind.
  eapply wp_later; [done|apply frames_viewer|apply ticks_viewer|].
  intros [m|e] w2 Hm _; [|by wp_steps].
  destruct (mkt_DeletedAt m) eqn:Ed; [by wp_steps|].
  destruct (mkt_Enabled m) eqn:Ee; [|by wp_steps].
  assert (market_open marketID w0) by (exists w1, m; by split_and!).
  unfold synchronizeMarketBlockAsync. destruct b; wp_steps; by intros _.
Qed.

(** What CreateOrder may do to the tables. *)
Definition create_effect (userID marketID : UUID) (orderType : OrderType) (price : Dec)
    (quantity : Z) (w : world St) (r : result (UUID * OrderStatus)) (w' : world St) : Prop :=
  tx_of (w_st w') = TxNone /\
  (db_of (w_st w') = db_of (w_st w) \/
   (market_open marketID w /\ exists created id,
      order_created userID marketID orderType price quantity created id
        (db_of (w_st w)) (db_of (w_st w')) /\
      match r with
      | Ok v => v = (id, OrderStatusCreated)
      | Err _ => ~ answered (w_env w)
      end)).

Lemma later_idle w w' u m ty p q r :
  tx_of (w_st w) = TxNone -> later w w' -> create_effect u m ty p q w r w'.
Proof.
  intros Hidle [_ Hp]. split; [|left]; unfold db_of, tx_of in *; by rewrite Hp.
Qed.

(** A step that leaves Postgres alone keeps the effect, whatever is answered
    next, when the answer agrees. *)
Lemma effect_frame {A} (m : M St A) (f : A -> result (UUID * OrderStatus)) u mk ty p q w w' r :
  frames (prj (X := pg OrderDB)) m ->
  create_effect u mk ty p q w r w' ->
  (forall a, match r with Ok v => f a = Ok v | Err _ => is_Ok (f a) = false end) ->
  wp (let! a := m in mret (f a)) (λ r w', create_effect u mk ty p q w r w') w'.
Proof.
  intros Hm [Ht He] Hf. apply wp_bind. eapply wp_mono; [apply Hm|]. simpl. intros a w2 Hw2. wp_steps.
  unfold create_effect, tx_of, db_of in *. rewrite Hw2. split; [done|].
  destruct He as [He|(Ho & c & id & Hc & Hr)]; [by left|right]. split; [done|]. exists c, id. split; [done|].
  specialize (Hf a). destruct r as [v|e]; [by rewrite Hf|]. by destruct (f a).
Qed.

Lemma create_fail_effect u mk ty p q h a e w w' :
  create_effect u mk ty p q w (Err e) w' ->
  wp (failCleanup u h a ;;! mret (Err (wrap op_CreateOrder e)))
    (λ r w', create_effect u mk ty p q w r w') w'.
Proof.
  intros He. by apply (effect_frame _ (λ _, Err (wrap op_CreateOrder e)) _ _ _ _ _ _ _ (Err e));
    [apply frames_failCleanup| |].
Qed.

Lemma create_acquired_effect u mk ty p q h a w w1 :
  tx_of (w_st w) = TxNone -> later w w1 ->
  wp (create_acquired cfg u mk ty p q h a) (λ r w', create_effect u mk ty p q w r w') w1.
Proof.
  intros Hidle H1. unfold create_acquired. apply wp_bind.
  eapply wp_later; [done|apply frames_checkRateLimit|apply ticks_checkRateLimit|].
  intros [[]|e] w2 _ H2; [|by apply create_fail_effect, later_idle].
  apply wp_bind. eapply wp_mono; [by apply validateMarket_spec|].
  intros [[]|e] w3 [H3 Hopen]; [|by apply create_fail_effect, later_idle].
  specialize (Hopen eq_refl). apply wp_bind. destruct H3 as [[n Hn] H3].
  eapply wp_mono; [apply saveOrder_spec; unfold tx_of in *; by rewrite H3|].
  intros r w4 [Ht Ho]. assert (Heff : create_effect u mk ty p q w r w4).
  { split; [done|]. unfold db_of in Ho at 1. rewrite H3 in Ho. fold (db_of (w_st w)) in Ho.
    destruct r as [v|e]; simpl in Ho; [|destruct Ho as [Ho|Ho]; [by left|]]; right;
      (split; [done|]); do 2 eexists.
    - destruct Ho as (-> & _ & Ho). by split.
    - destruct Ho as (Hna & _ & Ho). split; [done|]. by rewrite Hn, answered_ticks in Hna. }
  destruct r as [[id st]|e]; [|by apply create_fail_effect].
  by apply (effect_frame _ (λ _, Ok (id, st)) _ _ _ _ _ _ _ (Ok (id, st))); [apply frames_complete| |].
Qed.

(** C4 A CreateOrder request places at most one order, under every pattern of
    failing calls, lost replies and concurrent market changes: it leaves the
    tables as they were, or it adds exactly one order with its event, and then
    only after the market service answered during this request that the
    market is enabled and not deleted.  When the request succeeds with a new
    order it returns that order's id; it reports an error for a placed order
    only when a reply was lost. *)
Theorem create_order_at_most_one userID marketID orderType price quantity w :
  tx_of (w_st w) = TxNone ->
  wp (CreateOrder cfg userID marketID orderType price quantity)
    (create_effect userID marketID orderType price quantity w) w.
Proof.
  intros Hidle. unfold CreateOrder. apply wp_bind.
  eapply wp_later; [apply later_refl|apply frames_idem_acquire|apply ticks_idem_acquire|].
  intros [[i a]|e] w1 _ H1; [|by apply wp_ret, later_idle].
  destruct (negb a); [|by apply create_acquired_effect].
  eapply wp_mono; [apply frames_resolve|]. simpl. intros r w2 Hw2.
  destruct H1 as [_ H1]. rewrite H1 in Hw2. split; [|left]; unfold db_of, tx_of in *; by rewrite Hw2.
Qed.
End Create.

(** ** What a request does to a key *)

Section Leaving.
Context {St R : Type} `{HRd : Redis R} `{!RedisLaws R} `{PT : PgTypes} `{DL : DecimalLib}
  `{PC : PriceColumn} `{U : GoLib} `{L : LuaNumbers} `{EC : EntryCodec} `{!EntryCodecLaws EC}
  `{SH : Sha256} `{TT : PbTime} `{PB : !ProtoCodec}.
Context `{HD : !Has (pg OrderDB) St} `{HR : !Has R St} `{HQ : !Has block_queue St}
  `{MV : !MarketViewer St}.
Context `{HA : !Apart R (pg OrderDB) St} `{HB : !Apart block_queue (pg OrderDB) St}
  `{HA' : !Apart (pg OrderDB) R St} `{HB' : !Apart block_queue R St}.

(** The Redis server's clock does not go back. *)
Definition redis_monotone (e : env) : Prop :=
  forall m n, (m <= n)%nat -> e_rnow e m <= e_rnow e n.

Lemma redis_monotone_ticks n e : redis_monotone e -> redis_monotone (Nat.iter n tick e).
Proof. by induction n. Qed.

Definition rclock (w : world St) : Z := e_rnow (w_env w) (e_tick (w_env w)).

(** The key holds [v] until [D]. *)
Definition key_held (key v : string) (D : Z) (w : world St) : Prop :=
  exactly (prj (X := R) (w_st w)) key v D (rclock w).

(** [m] leaves the key alone: at every later time it reads as it would have. *)
Definition leaves (key : string) {A} (m : M St A) : Prop :=
  forall w, redis_monotone (w_env w) ->
    redis_monotone (w_env (m w).2) /\ rclock w <= rclock (m w).2 /\
    forall t, rclock (m w).2 <= t -> view (prj (X := R) (w_st (m w).2)) t key = view (prj (w_st w)) t key.

Lemma leaves_ret key {A} (a : A) : leaves key (mret a).
Proof. by intros w. Qed.

Lemma leaves_bind key {A B} (m : M St A) (k : A -> M St B) :
  leaves key m -> (forall a, leaves key (k a)) -> leaves key (mbind m k).
Proof.
  intros Hm Hk w Hmono. unfold mbind. destruct (Hm w Hmono) as (Hm1 & Hc1 & Hv1).
  destruct (m w) as [a w1]. simpl in *. destruct (Hk a w1 Hm1) as (Hm2 & Hc2 & Hv2).
  split_and!; [done|lia|]. intros t Ht. rewrite Hv2 by done. apply Hv1. lia.
Qed.

(** Asking later does not read an earlier clock. *)
Lemma rclock_ticks n (w w' : world St) :
  redis_monotone (w_env w) -> w_env w' = Nat.iter n tick (w_env w) ->
  redis_monotone (w_env w') /\ rclock w <= rclock w'.
Proof.
  intros Hmono Hn. unfold rclock. rewrite Hn. split; [by apply redis_monotone_ticks|].
  destruct (iter_tick_clocks n (w_env w)) as (-> & _ & _ & ->). apply Hmono. lia.
Qed.

(** Reading the environment, and state changes outside Redis. *)
Lemma leaves_frame key {A} (m : M St A) :
  ticks m -> frames (prj (X := R)) m -> leaves key m.
Proof.
  intros Ht Hf w Hmono. destruct (Ht w) as [n Hn]. destruct (rclock_ticks n w _ Hmono Hn) as [H1 H2].
  specialize (Hf w). unfold wp in Hf. split_and!; [done|done|]. intros t _. by rewrite Hf.
Qed.

Lemma leaves_redis_call key {A} (cmd : Z -> R -> result A * R) :
  (forall t r t', t <= t' -> view (cmd t r).2 t' key = view r t' key) ->
  leaves key (redis_call cmd).
Proof.
  intros Hc w Hmono. destruct (ticks_redis_call cmd w) as [n Hn].
  destruct (rclock_ticks n w _ Hmono Hn) as [H1 H2]. split_and!; [done|done|]. intros t Ht.
  assert (Hwp : wp (redis_call cmd) (λ _ w', forall t, rclock w <= t ->
    view (prj (w_st w')) t key = view (prj (w_st w)) t key) w).
  { apply wp_redis_call; [done|]. intros t0 r -> _ t' Ht'. simpl. rewrite prj_upd. by apply Hc. }
  apply Hwp. lia.
Qed.

End Leaving.

Ltac leave_step :=
  match goal with
  | |- leaves _ (mret _) => apply leaves_ret
  | |- leaves _ (mbind _ _) => apply leaves_bind; [|intros]
  | |- leaves _ time_Now => apply leaves_frame; [apply ticks_ask|apply frames_ask]
  | |- leaves _ ctx_Err => apply leaves_frame; [apply ticks_ask|apply frames_ask]
  | |- leaves _ (match ?x with _ => _ end) => destruct x
  | |- leaves _ _ => assumption
  | |- leaves _ _ => solve [eauto]
  end.

(** ** Repeating a request *)

Section Replay.
Context {St R : Type} `{HRd : Redis R} `{!RedisLaws R} `{PT : PgTypes} `{DL : DecimalLib}
  `{PC : PriceColumn} `{U : GoLib} `{L : LuaNumbers} `{EC : EntryCodec} `{!EntryCodecLaws EC}
  `{SH : Sha256} `{TT : PbTime} `{PB : !ProtoCodec}.
Context `{HD : !Has (pg OrderDB) St} `{HR : !Has R St} `{HQ : !Has block_queue St}
  `{MV : !MarketViewer St}.
Context `{HA : !Apart R (pg OrderDB) St} `{HB : !Apart block_queue (pg OrderDB) St}
  `{HA' : !Apart (pg OrderDB) R St} `{HB' : !Apart block_queue R St}.
Variable cfg : svc_config.

Lemma leaves_cache_Get key k : leaves key (cache_Get k).
Proof. unfold cache_Get. repeat leave_step. by apply leaves_redis_call. Qed.

Lemma leaves_cache_Delete key k : k <> key -> leaves key (cache_Delete k).
Proof.
  intros Hk. unfold cache_Delete. repeat leave_step. apply leaves_redis_call.
  intros t r t' Ht. simpl. by rewrite DEL_view, decide_False.
Qed.

Lemma leaves_checkRateLimit key u l :
  limiter_key l u <> key -> leaves key (checkRateLimit u l).
Proof.
  intros Hk. unfold checkRateLimit, Allow. repeat leave_step. apply leaves_redis_call.
  intros t r t' Ht. by apply RateLimit.script_other.
Qed.

Lemma leaves_viewer key id : leaves key (GetMarketByID id).
Proof. apply leaves_frame; [apply ticks_viewer|]. intros w. unfold wp. by rewrite viewer_state. Qed.

Lemma leaves_block_async key m b r : leaves key (synchronizeMarketBlockAsync m b r).
Proof. apply leaves_frame; [apply ticks_modify|]. apply frames_modify. intros s. apply prj_apart. Qed.

Lemma leaves_IsBlocked key id : blockKey id <> key -> leaves key (IsBlocked id).
Proof.
  intros Hk. unfold IsBlocked, invalidateCorruptedState.
  repeat leave_step; first [apply leaves_cache_Get | by apply leaves_cache_Delete].
Qed.

Lemma leaves_validateMarket key id : blockKey id <> key -> leaves key (validateMarket id).
Proof.
  intros Hk. unfold validateMarket, getMarketBlockedState.
  repeat leave_step; first [by apply leaves_IsBlocked | apply leaves_viewer | apply leaves_block_async].
Qed.

Lemma ticks_saveOrder u mk ty p q : ticks (saveOrder (St := St) u mk ty p q).
Proof.
  unfold saveOrder, saveOrder_tx, rollbackTransaction, buildOrder, buildOrderCreatedEvent,
    SaveOrder, ProduceOrderCreated, buildOrderCreatedOutboxEvent, SaveOutboxEvent, commitTransaction,
    time_Now, uuid_New, tx_Begin, tx_Exec, tx_Commit, tx_Rollback, lift_pg.
  tick_solve.
Qed.

Lemma leaves_saveOrder key u mk ty p q : leaves key (saveOrder u mk ty p q).
Proof.
  apply leaves_frame; [apply ticks_saveOrder|].
  unfold saveOrder, saveOrder_tx, rollbackTransaction, buildOrder, buildOrderCreatedEvent,
    SaveOrder, ProduceOrderCreated, buildOrderCreatedOutboxEvent, SaveOutboxEvent, commitTransaction,
    tx_Begin, tx_Exec, tx_Commit, tx_Rollback.
  frame_solve.
Qed.

(** The keys of the other components differ from idempotency keys. *)
Lemma limiter_key_idem u v h : limiter_key (provideRateLimiters cfg).1 v <> buildKey u h.
Proof. discriminate. Qed.

Lemma blockKey_idem u v h : blockKey v <> buildKey u h.
Proof. discriminate. Qed.

(** The clock a request's first Redis call reads. *)
Definition first_call_at (w : world St) : Z := e_rnow (w_env w) (S (e_tick (w_env w))).

Lemma acquire_first ttl u h w :
  no_faults (w_env w) -> redis_monotone (w_env w) -> 0 < Z.quot ttl 1000000 ->
  view (prj (X := R) (w_st w)) (first_call_at w) (buildKey u h) = None ->
  wp (idem_acquire ttl u h) (λ r w', r = Ok (to_result zero_Entry, true) /\
    exists v, key_held (buildKey u h) v (first_call_at w + Z.quot ttl 1000000) w') w.
Proof.
  intros Hnf Hmono Httl Hfresh.
  unfold idem_acquire, adapter_Acquire, store_Acquire. unfold acquire_round at 1. wp_steps.
  apply wp_redis_call_ok; [done|]. simpl. intros t Ht.
  destruct (acquire_fresh (Z.quot ttl 1000000) (buildKey u h)
    (entry_marshal {| ent_Status := statusProcessing; ent_RequestHash := h;
      ent_StartedAt := e_now (w_env w) (e_tick (w_env w)); ent_OrderID := uuid_Nil;
      ent_OrderStatus := "" |}) t _ ltac:(rewrite Ht; exact Hfresh) Httl) as (r' & Hr & Hex & _).
  rewrite Hr. simpl. wp_steps. split; [done|]. eexists. unfold key_held, rclock. simpl. rewrite prj_upd.
  eapply exactly_later; [|unfold first_call_at; rewrite <- Ht; exact Hex].
  rewrite Ht. apply Hmono. lia.
Qed.

Lemma acquire_again ttl u h e D w :
  no_faults (w_env w) -> redis_monotone (w_env w) -> first_call_at w < D ->
  key_held (buildKey u h) (entry_marshal e) D w ->
  wp (idem_acquire ttl u h) (λ r _, r = Ok (to_result e, false)) w.
Proof.
  intros Hnf Hmono Hlt Hh.
  unfold idem_acquire, adapter_Acquire, store_Acquire. unfold acquire_round at 1. wp_steps.
  apply wp_redis_call_ok; [done|]. simpl. intros t Ht. fold (first_call_at w) in Ht.
  erewrite (acquire_live _ _ _ _ D); [|eapply exactly_later; [|exact Hh]|by rewrite Ht].
  - simpl. rewrite bool_decide_false by apply entry_nonempty. rewrite entry_roundtrip. by wp_steps.
  - rewrite Ht. apply Hmono. lia.
Qed.

Lemma ticks_complete_loop ttl n last u o h s :
  ticks (complete_loop (St := St) ttl n last u o h s).
Proof.
  revert last. induction n as [|n IH]; intros last; simpl; [apply ticks_ret|].
  unfold adapter_Complete, store_Complete, cache_SetWithTTL, ctx_Err. tick_solve; apply IH.
Qed.

Lemma complete_first u o h s v D w :
  no_faults (w_env w) -> redis_monotone (w_env w) -> 0 < cfg_complete_attempts cfg ->
  key_held (buildKey u h) v D w -> first_call_at w < D ->
  wp (completeIdempotencySync cfg u o h s) (λ _ w',
     key_held (buildKey u h) (entry_marshal (completed_entry h o (OrderStatus_String s))) D w') w.
Proof.
  intros Hnf Hmono Hn Hh Hlt. unfold completeIdempotencySync, completeIdempotencyChecking.
  destruct (Z.to_nat (cfg_complete_attempts cfg)) as [|n] eqn:En; [lia|].
  destruct Hnf as [Hf Hc]. simpl. wp_steps. rewrite Hc. unfold adapter_Complete, store_Complete.
  wp_steps. apply wp_redis_call_ok; [done|]. simpl. intros t Ht. fold (first_call_at w) in Ht.
  assert (Hex : exactly (prj (X := R) (w_st w)) (buildKey u h) v D t).
  { eapply exactly_later; [|exact Hh]. rewrite Ht. apply Hmono. lia. }
  set (value := entry_marshal (completed_entry h o (OrderStatus_String s))).
  destruct (complete_live (buildKey u h) value v D t _ Hex ltac:(by rewrite Ht)) as (r' & Hr & Hex').
  rewrite Hr. simpl. wp_steps. unfold key_held, rclock. simpl. rewrite prj_upd.
  apply Hex'. rewrite Ht. apply Hmono. lia.
Qed.

(** The world after some steps of a run from [w0] that left the key alone. *)
Definition holding (w0 : world St) (key v : string) (D : Z) (w : world St) : Prop :=
  (exists n, w_env w = Nat.iter n tick (w_env w0)) /\ key_held key v D w.

Lemma holding_env w0 key v D w :
  holding w0 key v D w -> no_faults (w_env w0) -> redis_monotone (w_env w0) ->
  no_faults (w_env w) /\ redis_monotone (w_env w).
Proof. intros [[n ->] _]. by auto using no_faults_ticks, redis_monotone_ticks. Qed.

Lemma wp_holding {A} (m : M St A) (Q : A -> world St -> Prop) w0 w key v D :
  redis_monotone (w_env w0) -> holding w0 key v D w -> leaves key m -> ticks m ->
  (forall a w', (m w).1 = a -> w' = (m w).2 -> holding w0 key v D w' -> Q a w') -> wp m Q w.
Proof.
  intros Hmono [[n Hn] Hh] Hk Ht Hgo. apply Hgo; [done|done|].
  destruct (Hk w) as (_ & Hc & Hv); [rewrite Hn; by apply redis_monotone_ticks|].
  split; [|unfold key_held, exactly in *; rewrite Hv by done; by eapply exactly_later]. destruct (Ht w) as [k Hk']. exists (k + n)%nat. by rewrite Hk', Hn, Nat.iter_add.
Qed.

(** Asking later does not read an earlier clock. *)
Lemma first_call_mono w w' n :
  redis_monotone (w_env w) -> w_env w' = Nat.iter n tick (w_env w) -> first_call_at w <= first_call_at w'.
Proof.
  intros Hmono Hn. unfold first_call_at. rewrite Hn.
  destruct (iter_tick_clocks n (w_env w)) as (-> & _ & _ & ->). apply Hmono. lia.
Qed.

Lemma create_acquired_holding u mk ty p q h v D w0 w :
  no_faults (w_env w0) -> redis_monotone (w_env w0) -> 0 < cfg_complete_attempts cfg ->
  tx_of (D := OrderDB) (w_st w) = TxNone -> holding w0 (buildKey u h) v D w ->
  wp (create_acquired cfg u mk ty p q h true) (λ r w', forall id st, r = Ok (id, st) ->
    first_call_at w' < D -> st = OrderStatusCreated /\
    (exists n, w_env w' = Nat.iter n tick (w_env w0)) /\
    key_held (buildKey u h) (entry_marshal (completed_entry h id (OrderStatus_String st))) D w') w.
Proof.
  intros Hnf Hmono Hn Hidle Hh. unfold create_acquired.
  set (Q := λ (r : result (UUID * OrderStatus)) w', forall id st, r = Ok (id, st) -> _).
  assert (Hfail : forall e w, wp (failCleanup u h true ;;! mret (Err (wrap op_CreateOrder e))) Q w).
  { intros e w'. unfold wp, mbind, mret. by destruct (failCleanup u h true w') as [? ?]. }
  apply wp_bind. eapply wp_holding; [done|done|apply leaves_checkRateLimit, limiter_key_idem|apply ticks_checkRateLimit|].
  intros [[]|e] w1 _ Hw1 Hh1; [|apply Hfail].
  assert (Hf1 := frames_checkRateLimit u (provideRateLimiters cfg).1 w). unfold wp in Hf1. rewrite <- Hw1 in Hf1.
  apply wp_bind. eapply wp_holding; [done|done|apply leaves_validateMarket, blockKey_idem|apply ticks_validateMarket|].
  intros [[]|e] w2 _ Hw2 Hh2; [|apply Hfail].
  assert (Hf2 := frames_validateMarket mk w1). unfold wp in Hf2. rewrite <- Hw2 in Hf2.
  apply wp_bind. eapply wp_holding; [done|done|apply leaves_saveOrder|apply ticks_saveOrder|].
  intros [[id st]|e] w3 Hr3 Hw3 Hh3; [|apply Hfail].
  assert (Hst : st = OrderStatusCreated).
  { assert (Hs := saveOrder_spec u mk ty p q w2). unfold wp in Hs. rewrite Hr3 in Hs.
    destruct Hs as [_ [[=] _]]; [unfold tx_of in *; by rewrite Hf2, Hf1|done]. }
  destruct (holding_env _ _ _ _ _ Hh3 Hnf Hmono) as [Hnf3 Hmono3].
  apply wp_bind. set (m := completeIdempotencySync cfg u id h st).
  assert (Ht : ticks m) by apply ticks_complete_loop. destruct (Ht w3) as [k Hk].
  destruct (Z.lt_ge_cases (first_call_at w3) D) as [Hlt|Hge].
  - eapply wp_mono; [apply wp_conj; [apply (ticks_wp _ _ Ht)|by eapply complete_first; [| | |apply Hh3|]]|].
    intros r w4 [[k4 H4] Hh4]. wp_steps. intros id' st' [= <- <-] _. split; [done|]. split; [|done].
    destruct Hh3 as [[k3 H3] _]. exists (k4 + k3)%nat. by rewrite H4, H3, Nat.iter_add.
  - unfold wp. intros id' st' _ Hlt. pose proof (first_call_mono w3 _ k Hmono3 Hk).
    simpl in Hlt. lia.
Qed.

(** C8 Repeating a request: when nothing fails and a request for a fresh
    idempotency key succeeded with an order, the same request again, as long as
    the key's time to live has not passed, answers the same order id and
    status and does not touch the database. *)
Theorem create_order_replay userID marketID orderType price quantity id st w w1 :
  no_faults (w_env w) -> redis_monotone (w_env w) -> tx_of (D := OrderDB) (w_st w) = TxNone ->
  0 < cfg_complete_attempts cfg -> 0 < Z.quot (cfg_idem_ttl cfg) 1000000 ->
  view (prj (X := R) (w_st w)) (first_call_at w)
    (buildKey userID (buildRequestHash marketID orderType price quantity)) = None ->
  CreateOrder cfg userID marketID orderType price quantity w = (Ok (id, st), w1) ->
  first_call_at w1 < first_call_at w + Z.quot (cfg_idem_ttl cfg) 1000000 ->
  exists w2, CreateOrder cfg userID marketID orderType price quantity w1 = (Ok (id, st), w2) /\
    db_of (D := OrderDB) (w_st w2) = db_of (w_st w1).
Proof.
  intros Hnf Hmono Hidle Hatt Httl Hfresh Hrun Hlt.
  set (h := buildRequestHash marketID orderType price quantity) in *.
  set (D := first_call_at w + Z.quot (cfg_idem_ttl cfg) 1000000) in *.
  assert (Hfirst : wp (CreateOrder cfg userID marketID orderType price quantity)
    (λ r w', forall id st, r = Ok (id, st) -> first_call_at w' < D -> st = OrderStatusCreated /\
      (exists n, w_env w' = Nat.iter n tick (w_env w)) /\
      key_held (buildKey userID h) (entry_marshal (completed_entry h id (OrderStatus_String st))) D w') w).
  { unfold CreateOrder. fold h. apply wp_bind.
    assert (Ht := ticks_idem_acquire (St := St) (cfg_idem_ttl cfg) userID h w).
    assert (Hf := frames_idem_acquire (St := St) (cfg_idem_ttl cfg) userID h w).
    assert (Ha := acquire_first (cfg_idem_ttl cfg) userID h w Hnf Hmono Httl Hfresh).
    unfold wp in *. destruct (idem_acquire _ _ _ w) as [r wa]. simpl in *. destruct Ha as [-> [v Hh]].
    apply (create_acquired_holding userID marketID orderType price quantity h v D w wa); try done.
    unfold tx_of in *. by rewrite Hf. }
  unfold wp in Hfirst. rewrite Hrun in Hfirst. simpl in Hfirst.
  destruct (Hfirst id st eq_refl Hlt) as (-> & [n Hn] & Hh).
  unfold CreateOrder. fold h. unfold mbind at 1.
  assert (Hf := frames_idem_acquire (St := St) (cfg_idem_ttl cfg) userID h w1).
  assert (Ha := acquire_again (cfg_idem_ttl cfg) userID h _ D w1
    ltac:(rewrite Hn; by apply no_faults_ticks) ltac:(rewrite Hn; by apply redis_monotone_ticks) Hlt Hh).
  unfold wp in *. destruct (idem_acquire _ _ _ w1) as [r wb]. simpl in *. subst r. simpl.
  unfold mret. eexists. split; [done|]. unfold db_of. by rewrite Hf.
Qed.
End Replay.

(** ** Recovery and lookup *)

Section Lookup.
Context {St R : Type} `{HRd : Redis R} `{PT : PgTypes} `{DL : DecimalLib} `{PC : PriceColumn}
  `{U : GoLib} `{EC : EntryCodec} `{SH : Sha256}.
Context `{HD : !Has (pg OrderDB) St} `{HR : !Has R St} `{HA : !Apart R (pg OrderDB) St}.
Variable cfg : svc_config.

(** Rows are stored under their id. *)
Definition orders_keyed (d : OrderDB) : Prop := map_Forall (λ id r, or_ID r = id) (db_orders d).

(** A read-only statement on the pool, in any environment. *)
Lemma wp_pool_rows {A} (s : stmt OrderDB (list A)) (Q : result (list A) -> world St -> Prop) w a :
  (forall now d, (s now d).2 = d) -> (forall now, (s now (db_of (w_st w))).1 = Ok a) ->
  (forall r w', prj (X := pg OrderDB) (w_st w') = prj (w_st w) -> w_env w' = tick (w_env w) ->
     r = Ok a \/ (~ no_faults (w_env w) /\ exists e, r = Err e) -> Q r w') ->
  wp (pool_Exec s) Q w.
Proof.
  intros Hs Ha HQ. unfold pool_Exec. apply wp_pg_env. intros t f w' Hf Henv Hw.
  assert (Hp : pg_pool s t (prj (w_st w)) = (Ok a, prj (w_st w))).
  { unfold pg_pool. specialize (Hs t (pg_db (prj (w_st w)))). specialize (Ha t). unfold db_of in Ha.
    destruct (s t (pg_db (prj (w_st w)))) as [r d]. simpl in *. subst. by destruct (prj (w_st w)). }
  apply HQ; [| done |].
  - rewrite Hw. destruct f; simpl; by rewrite ?Hp.
  - destruct f as [|e|e]; simpl; rewrite ?Hp; [by left|right..]; (split; [|by eexists]);
      intros [Hn _]; by rewrite Hn in Hf.
Qed.

Definition recovery_rows (u m : UUID) (ty : OrderType) (p : Dec) (q since : Z) (d : OrderDB) :
    list OrderRow :=
  merge_sort order_first
    (filter (λ r, recovery_match u m ty p q since r = true) (map_to_list (db_orders d)).*2).

Lemma elem_of_recovery_rows u m ty p q since d r :
  orders_keyed d -> r ∈ recovery_rows u m ty p q since d <->
  db_orders d !! or_ID r = Some r /\ recovery_match u m ty p q since r = true.
Proof.
  intros Hk. unfold recovery_rows. rewrite merge_sort_Permutation, list_elem_of_filter, list_elem_of_fmap.
  split.
  - intros [Hm ([id r'] & -> & Hin%elem_of_map_to_list)]. simpl in *.
    by rewrite (Hk _ _ Hin).
  - intros [Hl Hm]. split; [done|]. exists (or_ID r, r). split; [done|]. by apply elem_of_map_to_list.
Qed.

#[local] Instance order_first_total : Total order_first.
Proof. intros r1 r2. unfold order_first. destruct (Z.lt_total (or_CreatedAt r1) (or_CreatedAt r2)) as [|[]]; lia. Qed.
#[local] Instance order_first_trans : Transitive order_first.
Proof. intros r1 r2 r3. unfold order_first. lia. Qed.

(** The oldest matching order. *)
Lemma recovery_head u m ty p q since d :
  orders_keyed d ->
  match recovery_rows u m ty p q since d with
  | [] => forall id r, db_orders d !! id = Some r -> recovery_match u m ty p q since r = false
  | r :: _ => db_orders d !! or_ID r = Some r /\ recovery_match u m ty p q since r = true /\
      forall id r', db_orders d !! id = Some r' -> recovery_match u m ty p q since r' = true ->
        order_first r r'
  end.
Proof.
  intros Hk. pose proof (elem_of_recovery_rows u m ty p q since d) as Hel.
  assert (Hs : StronglySorted order_first (recovery_rows u m ty p q since d)).
  { apply StronglySorted_merge_sort; apply _. }
  destruct (recovery_rows u m ty p q since d) as [|r l].
  - intros id r Hr. apply not_true_is_false. intros Hm.
    apply (not_elem_of_nil r), Hel; [done|]. by rewrite (Hk _ _ Hr).
  - destruct (Hel r Hk) as [[Hr Hm] _]; [apply list_elem_of_here|]. split_and!; [done|done|].
    intros id r' Hr' Hm'. assert (Hin : r' ∈ r :: l) by (apply Hel; [done|]; by rewrite (Hk _ _ Hr')).
    apply StronglySorted_inv in Hs as [_ Hs]. apply elem_of_cons in Hin as [->|Hin].
    + unfold order_first. lia.
    + rewrite Forall_forall in Hs. by apply Hs.
Qed.

(** The order a request asked for: the caller's, with the request's market,
    type, price and quantity, and not older than the request's first attempt. *)
Record order_of_request (u m : UUID) (ty : OrderType) (p : Dec) (q since : Z) (row : OrderRow) :
    Prop := {
  req_user : or_UserID row = u;
  req_market : or_MarketID row = m;
  req_type : or_Type row = wrap_s 16 ty;
  req_price : numeric_is (or_Price row) (dec_String p) = true;
  req_quantity : or_Quantity row = q;
  req_since : pg_time since <= or_CreatedAt row
}.

Lemma recovery_match_iff u m ty p q since row :
  recovery_match u m ty p q since row = true <-> order_of_request u m ty p q since row.
Proof.
  unfold recovery_match. rewrite !andb_true_iff, !bool_decide_eq_true, !Z.eqb_eq, Z.leb_le.
  split; [intros (((((? & ?) & ?) & ?) & ?) & ?); by split|intros []; by split_and!].
Qed.

Definition requested (u m : UUID) (ty : OrderType) (p : Dec) (q since : Z) (d : OrderDB) : Prop :=
  exists id row, db_orders d !! id = Some row /\ order_of_request u m ty p q since row.

(** What recovery answers from the table: the oldest order of the request;
    the smallest id among orders of the same instant. *)
Definition recovery_answer (u m : UUID) (ty : OrderType) (p : Dec) (q since : Z) (d : OrderDB)
    (r : result (UUID * OrderStatus)) : Prop :=
  match r with
  | Ok (id, st) => exists row, db_orders d !! id = Some row /\
      order_of_request u m ty p q since row /\ st = wrap_u 16 (or_Status row) /\
      forall id' row', db_orders d !! id' = Some row' -> order_of_request u m ty p q since row' ->
        or_CreatedAt row < or_CreatedAt row' \/
        (or_CreatedAt row = or_CreatedAt row' /\ (id <= id')%N)
  | Err _ => True
  end.

(** The prices read back, and an order of the request is there. *)
Definition recoverable (u m : UUID) (ty : OrderType) (p : Dec) (q since : Z) (d : OrderDB) : Prop :=
  since <> zero_time /\
  (forall n, exists x, dec_NewFromString (TrimSpace (numeric_out n)) = Some x) /\
  requested u m ty p q since d.

Lemma recover_spec u m ty p q h i w :
  orders_keyed (db_of (w_st w)) ->
  wp (tryRecoverOrderFromProcessing cfg u m ty p q h i) (λ r w',
    prj (X := pg OrderDB) (w_st w') = prj (w_st w) /\
    recovery_answer u m ty p q (idr_StartedAt i) (db_of (w_st w)) r /\
    (no_faults (w_env w) -> recoverable u m ty p q (idr_StartedAt i) (db_of (w_st w)) ->
     is_Ok r = true)) w.
Proof.
  intros Hk. unfold tryRecoverOrderFromProcessing.
  destruct (Z.eqb_spec (idr_StartedAt i) zero_time) as [Hz|Hz].
  { apply wp_ret. split_and!; [done|done|]. by intros _ [? _]. }
  apply wp_bind. unfold FindOrderForIdempotencyRecovery. apply wp_bind.
  eapply wp_pool_rows; [done|done|]. intros r w1 Hw1 Henv Hr. apply wp_ret. simpl.
  pose proof (recovery_head u m ty p q (idr_StartedAt i) _ Hk) as Hh. unfold recovery_rows in Hh.
  set (Q := λ r w', prj (w_st w') = _ /\ _).
  assert (Herr : forall e, (no_faults (w_env w) ->
      recoverable u m ty p q (idr_StartedAt i) (db_of (w_st w)) -> False) ->
    wp (mret (Err e)) Q w1).
  { intros e Hno. apply wp_ret. split_and!; [done|done|]. intros; by destruct Hno. }
  destruct Hr as [->|[Hnf [e ->]]].
  2: { unfold read_one_order. simpl. destruct (is_sent _ _); simpl; [by apply Herr; intros|].
       by destruct (errors_Is _ _); apply Herr; intros. }
  destruct (merge_sort order_first _) as [|row l]; simpl.
  { apply Herr. intros _ (_ & _ & id & row & Hrow & Hm%recovery_match_iff).
    by rewrite (Hh id row Hrow) in Hm. }
  unfold read_one_order. simpl. unfold ToDomain, NewDecimal. simpl.
  destruct (dec_NewFromString (TrimSpace (numeric_out (or_Price row)))) as [pr|] eqn:Ep.
  2: { apply Herr. intros _ (_ & Hpr & _). destruct (Hpr (or_Price row)). congruence. }
  simpl. apply wp_bind. eapply wp_mono; [apply frames_complete|]. simpl. intros _ w2 Hw2. wp_steps.
  split; [congruence|]. split; [|done]. destruct Hh as (Hrow & Hm & Hfirst). exists row.
  split_and!; [done|by apply recovery_match_iff|done|]. intros id' row' Hrow' Hm'%recovery_match_iff.
  rewrite <- (Hk _ _ Hrow'). by eapply Hfirst.
Qed.

End Lookup.

Section Recovered.
Context {St R : Type} `{HRd : Redis R} `{PT : PgTypes} `{!PgTypesLaws PT} `{DL : DecimalLib}
  `{!DecimalLaws DL} `{PC : PriceColumn} `{!PriceColumnLaws PC} `{U : GoLib} `{EC : EntryCodec}
  `{SH : Sha256} `{TT : PbTime} `{PB : !ProtoCodec}.
Context `{HD : !Has (pg OrderDB) St} `{HR : !Has R St} `{HA : !Apart R (pg OrderDB) St}.
Variable cfg : svc_config.

Lemma created_keyed u m ty p q created id d d' :
  order_created u m ty p q created id d d' -> orders_keyed d -> orders_keyed d'.
Proof.
  intros [_ (row & Hd & Hid & _) _ _] Hk. unfold orders_keyed. rewrite Hd. by apply map_Forall_insert_2.
Qed.

(** A placed order is a match for its own request. *)
Lemma created_matches u m ty p q created id d d' since :
  order_created u m ty p q created id d d' -> FitsNumeric p 18 8 = true -> since <= created ->
  exists row, db_orders d' !! id = Some row /\ or_ID row = id /\ or_Status row = OrderStatusCreated /\
    recovery_match u m ty p q since row = true.
Proof.
  intros [_ (row & Hd & Hid & Hu & Hm & Hty & Hp & Hq & Hst & Hat & _) _ _] Hfits Hsince.
  exists row. rewrite Hd, lookup_insert_eq. split_and!; [done..|].
  unfold recovery_match. rewrite Hu, Hm, Hty, Hq, Hat, !bool_decide_true, !Z.eqb_refl by done. simpl.
  destruct (dec_String_numeral p) as (neg & I & F & Hs & HI & HF). unfold FitsNumeric in Hfits.
  rewrite Hs in *. destruct (numeric_in_exact neg I F HI HF Hfits) as (n & Hin & _ & His).
  rewrite Hin in Hp. injection Hp as <-. rewrite His. simpl.
  by apply Z.leb_le, pg_time_mono.
Qed.

(** C9 Recovery never answers somebody else's order: whatever fails, a repeated
    request whose first attempt is still marked as processing gets the oldest
    order in the table that has the caller's user, market, type, price and
    quantity and is not older than the first attempt, with the status of its
    row, or an error; while nothing fails, an error only when the table has no
    such order or the time of the first attempt is unknown. The database is
    only read. *)
Theorem recovery_answers_own_order userID marketID orderType price quantity requestHash idem w :
  orders_keyed (db_of (w_st w)) ->
  wp (tryRecoverOrderFromProcessing cfg userID marketID orderType price quantity requestHash idem)
    (λ r w', db_of (D := OrderDB) (w_st w') = db_of (w_st w) /\
       recovery_answer userID marketID orderType price quantity (idr_StartedAt idem)
         (db_of (w_st w)) r /\
       (no_faults (w_env w) -> idr_StartedAt idem <> zero_time ->
        requested userID marketID orderType price quantity (idr_StartedAt idem) (db_of (w_st w)) ->
        is_Ok r = true)) w.
Proof.
  intros Hk. eapply wp_mono; [by apply recover_spec|]. intros r w' (Hw & Hr & Hok).
  split_and!; [by unfold db_of; rewrite Hw|done|]. intros Hnf Hz Hreq.
  apply Hok; [done|]. split_and!; [done|apply numeric_out_parses|done].
Qed.

(** A crash or a lost reply after COMMIT does not lose the order: once a
    request's order is in the table, a repetition that finds the key still
    marked as processing (the marker is not younger than the order) succeeds
    when nothing fails, and when the caller had no such order before it
    answers exactly the placed one. *)
Theorem recovery_returns_placed_order userID marketID orderType price quantity created id
    requestHash idem d w :
  orders_keyed d -> order_created userID marketID orderType price quantity created id d (db_of (w_st w)) ->
  FitsNumeric price 18 8 = true -> no_faults (w_env w) ->
  idr_StartedAt idem <= created -> idr_StartedAt idem <> zero_time ->
  (forall id' row, db_orders d !! id' = Some row ->
     recovery_match userID marketID orderType price quantity (idr_StartedAt idem) row = false) ->
  wp (tryRecoverOrderFromProcessing cfg userID marketID orderType price quantity requestHash idem)
    (λ r w', r = Ok (id, OrderStatusCreated) /\
       db_of (D := OrderDB) (w_st w') = db_of (w_st w)) w.
Proof.
  intros Hk Hc Hfits Hnf Hsince Hz Hnone.
  destruct (created_matches _ _ _ _ _ _ _ _ _ _ Hc Hfits Hsince) as (row & Hrow & Hid & Hst & Hm).
  eapply wp_mono; [by apply recover_spec, (created_keyed _ _ _ _ _ _ _ _ _ Hc)|].
  intros r w' (Hw & Hr & Hok). split; [|unfold db_of; by rewrite Hw].
  assert (His : is_Ok r = true).
  { apply Hok; [done|]. split_and!; [done|apply numeric_out_parses|].
    exists id, row. by rewrite <- recovery_match_iff. }
  destruct r as [[id' st]|]; [|done]. destruct Hr as (row' & Hrow' & Hm' & -> & _).
  destruct Hc as [_ (row0 & Hd & _) _ _]. rewrite Hd in Hrow, Hrow'.
  destruct (decide (id' = id)) as [->|Hne].
  - rewrite lookup_insert_eq in Hrow, Hrow'. simplify_eq. by rewrite Hst.
  - rewrite lookup_insert_ne in Hrow' by done. apply recovery_match_iff in Hm'.
    by rewrite (Hnone _ _ Hrow') in Hm'.
Qed.
End Recovered.

(** ** GetOrderStatus *)

Section Status.
Context {St R : Type} `{HRd : Redis R} `{PT : PgTypes} `{DL : DecimalLib} `{PC : PriceColumn}
  `{U : GoLib}.
Context `{HD : !Has (pg OrderDB) St} `{HR : !Has R St} `{HA : !Apart R (pg OrderDB) St}.
Variable cfg : svc_config.

(** The caller's order of this id. *)
Definition own_order (id userID : UUID) (d : OrderDB) : option OrderRow :=
  row ← db_orders d !! id; if bool_decide (or_UserID row = userID) then Some row else None.

Definition status_answer (id userID : UUID) (d : OrderDB) : result OrderStatus :=
  match own_order id userID d with
  | Some row => Ok (wrap_u 16 (or_Status row))
  | None => Err (wrap op_GetOrderStatus (ENotFound id))
  end.

Lemma sql_get_order_own id userID now d :
  (sql_get_order id userID now d).1 =
    Ok match own_order id userID d with Some row => [row_dto row] | None => [] end.
Proof.
  unfold sql_get_order, own_order. simpl. destruct (db_orders d !! id) as [row|]; [|done]. simpl.
  by destruct (bool_decide _).
Qed.

(** C29 GetOrderStatus answers with the status of the caller's own order and
    never reveals another user's: whatever fails, a status that is returned is
    that of a row with this id and this user; when nothing fails and the rate
    limiter lets the call through, the answer is that status, or the not-found
    error for an unknown id and for another user's order alike.  The database
    is only read. *)
Theorem get_order_status_owner orderID userID w :
  (forall n, exists x, dec_NewFromString (TrimSpace (numeric_out n)) = Some x) ->
  wp (GetOrderStatus cfg orderID userID) (λ r w',
    db_of (D := OrderDB) (w_st w') = db_of (w_st w) /\
    (is_Ok r = true -> r = status_answer orderID userID (db_of (w_st w))) /\
    (no_faults (w_env w) ->
     (checkRateLimit userID (provideRateLimiters cfg).2 w).1 = Ok tt ->
     r = status_answer orderID userID (db_of (w_st w)))) w.
Proof.
  intros Hprice. unfold GetOrderStatus. apply wp_bind.
  assert (Hf := frames_checkRateLimit userID (provideRateLimiters cfg).2 w). unfold wp in Hf.
  destruct (ticks_checkRateLimit userID (provideRateLimiters cfg).2 w) as [n Hn].
  unfold wp at 1. destruct (checkRateLimit userID (provideRateLimiters cfg).2 w) as [[[]|e] w1]; simpl in *.
  2: { apply wp_ret. unfold db_of. by rewrite Hf. }
  apply wp_bind. unfold fetchOrder, GetOrder. apply wp_bind, wp_bind.
  eapply wp_pool_rows; [done|intros; apply sql_get_order_own|].
  intros r w2 Hw2 _ Hr. wp_steps.
  assert (Hdb : db_of (D := OrderDB) (w_st w2) = db_of (w_st w)) by (unfold db_of; congruence).
  assert (Hdb1 : db_of (D := OrderDB) (w_st w1) = db_of (w_st w)) by (unfold db_of; congruence).
  rewrite Hdb1 in Hr. clear Hdb1. unfold status_answer. destruct Hr as [->|[Hnf [e ->]]].
  - unfold read_one_order. destruct (own_order orderID userID _) as [row|] eqn:Eo.
    + simpl. unfold ToDomain, NewDecimal. simpl. destruct (Hprice (or_Price row)) as [x Hx].
      rewrite Hx. simpl. wp_steps. done.
    + simpl. wp_steps. done.
  - unfold read_one_order. simpl.
    assert (Hnf' : no_faults (w_env w) -> False) by (intros H; apply Hnf; rewrite Hn; by apply no_faults_ticks).
    destruct (is_sent _ _); simpl; [|destruct (errors_Is _ _)]; wp_steps; (split_and!; [done|done|]);
      intros H; by destruct (Hnf' H).
Qed.
End Status.

(** ** The gRPC handler *)

Section HandlerCorrect.
Context {St : Type} `{DL : DecimalLib} `{!DecimalLaws DL} `{PC : PriceColumn}
  `{!PriceColumnLaws PC} `{U : GoLib}.

Lemma validateCreateRequest_None request :
  validateCreateRequest request = None ->
  exists req, request = Some req /\ req_OrderType req <> 0 /\ 0 < req_Quantity req.
Proof.
  destruct request as [req|]; simpl; [|done]. case_bool_decide; [done|].
  destruct (Z.eqb_spec (req_OrderType req) 0); [done|].
  destruct (Z.leb_spec (req_Quantity req) 0); [done|]. intros _. by exists req.
Qed.

Lemma validateCreateRequest_Some request e :
  validateCreateRequest request = Some e -> exists msg, e = EStatus Code_InvalidArgument msg.
Proof. unfold validateCreateRequest. intros H. split_match_hyp H; eauto. Qed.

Lemma validatePrice_Err request e :
  validatePrice request = Err e -> exists msg, e = EStatus Code_InvalidArgument msg.
Proof. unfold validatePrice. intros H. split_match_hyp H; eauto. Qed.

(** The column holds exactly the number the decimal prints. *)
Definition stored_exactly (p : Dec) : Prop :=
  exists neg I F n, dec_String p = numeral neg I F /\ digit_string I /\ digit_string (frac_of F) /\
    numeric_in (dec_String p) = Some (if neg : bool then - n else n) /\
    n * 10 ^ len (String.list_ascii_of_string (frac_of F)) = unscaled I (frac_of F) * 10 ^ 8.

Lemma FitsNumeric_stored p : FitsNumeric p 18 8 = true -> stored_exactly p.
Proof.
  intros Hfits. destruct (dec_String_numeral p) as (neg & I & F & Hs & HI & HF).
  unfold FitsNumeric in Hfits. rewrite Hs in Hfits.
  destruct (numeric_in_exact neg I F HI HF Hfits) as (n & Hin & Hn & _).
  exists neg, I, F, n. rewrite Hs. by split_and!.
Qed.

Lemma validatePrice_Ok request p :
  validatePrice request = Ok p ->
  exists req raw, request = Some req /\ req_Price req = Some raw /\ NewDecimal raw = Ok p /\
    dec_IsPositive p = true /\ stored_exactly p.
Proof.
  unfold validatePrice. destruct request as [req|]; [|done].
  destruct (req_Price req) as [raw|] eqn:Er; [|done].
  destruct (NewDecimal raw) as [x|] eqn:Ex; [|done].
  destruct (dec_IsPositive x) eqn:Ep; simpl; [|done].
  destruct (FitsNumeric x 18 8) eqn:Ef; simpl; [|done]. intros [= <-].
  exists req, raw. split_and!; try done. by apply FitsNumeric_stored.
Qed.

(** What reaches the service. *)
Definition valid_create (user : option UUID) (request : option CreateOrderRequest)
    (req : CreateOrderRequest) (userID marketID : UUID) (p : Dec) : Prop :=
  request = Some req /\ user = Some userID /\ uuid_parse (req_MarketId req) = Some marketID /\
  0 < req_Quantity req /\ req_OrderType req <> 0 /\
  (exists raw, req_Price req = Some raw /\ NewDecimal raw = Ok p) /\
  dec_IsPositive p = true /\ stored_exactly p.

(** C30 The CreateOrder handler is a total validator: a request is either
    rejected with InvalidArgument or Unauthenticated before anything happens,
    or it is handed to the service with the authenticated user, a parsed
    market id, a positive quantity and a positive price that the NUMERIC(18, 8)
    column stores without rounding or overflow; the response carries the
    service's order id and status. *)
Theorem create_handler_validates service user request (w : world St) :
  (exists code msg, handle_CreateOrder service user request w = (Err (EStatus code msg), w) /\
     (code = Code_InvalidArgument \/ code = Code_Unauthenticated)) \/
  (exists req userID marketID p, valid_create user request req userID marketID p /\
     handle_CreateOrder service user request w =
       (let '(r, w') := service userID marketID (TypeFromProto (req_OrderType req)) p
                          (req_Quantity req) w in
        (res_map (λ '(id, st), (uuid_string id, StatusToProto st)) r, w'))).
Proof.
  unfold handle_CreateOrder. destruct (validateCreateRequest request) as [e|] eqn:Ev.
  { left. destruct (validateCreateRequest_Some _ _ Ev) as [msg ->]. by eauto. }
  destruct (validateCreateRequest_None _ Ev) as (req & -> & Hty & Hq).
  destruct user as [userID|]; [|left; by eauto].
  destruct (uuid_parse (req_MarketId req)) as [marketID|] eqn:Em; [|left; by eauto].
  destruct (validatePrice (Some req)) as [p|e] eqn:Ep.
  2: { left. destruct (validatePrice_Err _ _ Ep) as [msg ->]. by eauto. }
  right. destruct (validatePrice_Ok _ _ Ep) as (req' & raw & [= <-] & Hr & Hraw & Hpos & Hst).
  exists req, userID, marketID, p. split; [by split_and!; eauto|].
  unfold mbind. destruct (service _ _ _ _ _ w) as [[[id st]|e] w']; done.
Qed.
End HandlerCorrect.

(** ** Closed instances *)

Section Witness.
#[local] Existing Instance MemRedis.mem_redis.
#[local] Existing Instance MemRedis.mem_redis_laws.
#[local] Existing Instance DecLib.
#[local] Existing Instance DecLib_laws.
#[local] Existing Instance IntDec.
#[local] Existing Instance IntDec_laws.
#[local] Existing Instance IntPrice.
#[local] Existing Instance IntPrice_laws.
#[local] Existing Instance MicroPg.
#[local] Existing Instance MicroPg_laws.
#[local] Existing Instance IntLua.
#[local] Existing Instance TextEntryCodec.
#[local] Existing Instance TextEntryCodec_laws.
#[local] Existing Instance IdTime.
#[local] Existing Instance TextProto.
#[local] Instance raw_sha : Sha256 := {| sha256_hex s := s |}.

Notation demo_state := (pg OrderDB * (gmap string (string * option Z) * block_queue))%type.

(** A spot service in which every market is open. *)
#[local] Instance open_viewer : MarketViewer demo_state.
Proof.
  refine {| GetMarketByID id := mret (Ok {| mkt_ID := id; mkt_Name := "m"; mkt_Enabled := true;
                                            mkt_DeletedAt := None; mkt_UpdatedAt := 0 |}) |}.
  - done.
  - intros. by exists 0%nat.
Defined.

Definition demo_cfg : svc_config := {|
  cfg_idem_ttl := 60000000000; cfg_complete_attempts := 3; cfg_limit_create := 5; cfg_limit_get := 5;
  cfg_window := 60000000000; cfg_block_ttl := 60000000000 |}.

Definition demo_start : world demo_state :=
  World quiet_env (Pg empty_db TxNone, (∅, {| bq_tasks := []; bq_closed := false |})).

(** User 7 buys 3 on market 9 for 25. *)
Definition demo_price : Dec := 25.
Definition demo_create : M demo_state (result (UUID * OrderStatus)) :=
  CreateOrder demo_cfg 7%N 9%N OrderTypeLimit demo_price 3.

Definition demo_after : world demo_state := (demo_create demo_start).2.

Example demo_created : (demo_create demo_start).1 = Ok (6%N, OrderStatusCreated).
Proof. vm_compute. reflexivity. Qed.

Lemma saveOrder_atomic_witness :
  wp (saveOrder 7%N 9%N OrderTypeLimit demo_price 3)
    (λ r w', tx_of (w_st w') = TxNone /\ exists created id,
       match r with
       | Ok v => v = (id, OrderStatusCreated) /\
                 order_created 7%N 9%N OrderTypeLimit demo_price 3 created id
                   (db_of (w_st demo_start)) (db_of (w_st w'))
       | Err _ => db_of (w_st w') = db_of (w_st demo_start) \/
                  (~ answered (w_env demo_start) /\
                   order_created 7%N 9%N OrderTypeLimit demo_price 3 created id
                     (db_of (w_st demo_start)) (db_of (w_st w')))
       end) demo_start.
Proof. apply (saveOrder_atomic 7%N 9%N OrderTypeLimit demo_price 3 demo_start). reflexivity. Defined.

Lemma create_order_at_most_one_witness :
  wp demo_create (create_effect 7%N 9%N OrderTypeLimit demo_price 3 demo_start) demo_start.
Proof.
  apply (create_order_at_most_one demo_cfg 7%N 9%N OrderTypeLimit demo_price 3 demo_start).
  reflexivity.
Defined.

Lemma create_order_replay_witness :
  exists w2, demo_create demo_after = (Ok (6%N, OrderStatusCreated), w2) /\
    db_of (D := OrderDB) (w_st w2) = db_of (w_st demo_after).
Proof.
  apply (create_order_replay demo_cfg 7%N 9%N OrderTypeLimit demo_price 3 6%N OrderStatusCreated
           demo_start demo_after).
  - split; reflexivity.
  - intros m n Hmn. simpl. lia.
  - reflexivity.
  - reflexivity.
  - reflexivity.
  - reflexivity.
  - exact (pair_snd (demo_create demo_start) _ demo_created).
  - vm_compute. reflexivity.
Defined.

Definition demo_idem : IdempotencyResult := {|
  idr_IsCompleted := false; idr_IsProcessing := true; idr_StartedAt := 0;
  idr_OrderID := uuid_Nil; idr_OrderStatus := "" |}.

(** The tables after the order was saved but the key was never completed. *)
Definition demo_saved : world demo_state :=
  (saveOrder 7%N 9%N OrderTypeLimit demo_price 3 demo_start).2.

Lemma demo_placed :
  order_created 7%N 9%N OrderTypeLimit demo_price 3 0 2%N empty_db (db_of (w_st demo_saved)).
Proof.
  assert (Ha := saveOrder_spec 7%N 9%N OrderTypeLimit demo_price 3 demo_start eq_refl).
  unfold wp in Ha. destruct Ha as [_ Ha].
  replace (saveOrder 7%N 9%N OrderTypeLimit demo_price 3 demo_start).1
    with (Ok (2%N, OrderStatusCreated)) in Ha by (vm_compute; reflexivity).
  destruct Ha as (_ & _ & Ha). exact Ha.
Defined.

(** User 8 placed the same order before user 7 did. *)
Definition demo_two : world demo_state :=
  (saveOrder 7%N 9%N OrderTypeLimit demo_price 3
     (saveOrder 8%N 9%N OrderTypeLimit demo_price 3 demo_start).2).2.

Definition demo_recover : M demo_state (result (UUID * OrderStatus)) :=
  tryRecoverOrderFromProcessing demo_cfg 7%N 9%N OrderTypeLimit demo_price 3 "h" demo_idem.

(** The caller's order is answered, not the older one of user 8. *)
Lemma recovery_answers_own_order_witness :
  or_UserID <$> db_orders (db_of (w_st demo_two)) = {[ 2%N := 8%N; 10%N := 7%N ]} /\
  (demo_recover demo_two).1 = Ok (10%N, OrderStatusCreated) /\
  wp demo_recover (λ r w', db_of (D := OrderDB) (w_st w') = db_of (w_st demo_two) /\
       recovery_answer 7%N 9%N OrderTypeLimit demo_price 3 0 (db_of (w_st demo_two)) r /\
       (no_faults (w_env demo_two) -> 0 <> zero_time ->
        requested 7%N 9%N OrderTypeLimit demo_price 3 0 (db_of (w_st demo_two)) -> is_Ok r = true))
    demo_two.
Proof.
  split_and!; [vm_compute; reflexivity|vm_compute; reflexivity|].
  apply (recovery_answers_own_order demo_cfg 7%N 9%N OrderTypeLimit demo_price 3 "h" demo_idem demo_two).
  apply map_Forall_to_list. vm_compute. by repeat constructor.
Defined.

Lemma recovery_returns_placed_order_witness :
  wp (tryRecoverOrderFromProcessing demo_cfg 7%N 9%N OrderTypeLimit demo_price 3 "h" demo_idem)
    (λ r w', r = Ok (2%N, OrderStatusCreated) /\
       db_of (D := OrderDB) (w_st w') = db_of (w_st demo_saved)) demo_saved.
Proof.
  apply (recovery_returns_placed_order demo_cfg 7%N 9%N OrderTypeLimit demo_price 3 0 2%N "h"
           demo_idem empty_db demo_saved).
  - apply map_Forall_empty.
  - apply demo_placed.
  - vm_compute. reflexivity.
  - split; reflexivity.
  - simpl. lia.
  - discriminate.
  - intros id row Hrow. simpl in Hrow. rewrite lookup_empty in Hrow. discriminate.
Defined.

Lemma get_order_status_owner_witness :
  wp (GetOrderStatus demo_cfg 2%N 7%N) (λ r w',
    db_of (D := OrderDB) (w_st w') = db_of (w_st demo_saved) /\
    (is_Ok r = true -> r = status_answer 2%N 7%N (db_of (w_st demo_saved))) /\
    (no_faults (w_env demo_saved) ->
     (checkRateLimit 7%N (provideRateLimiters demo_cfg).2 demo_saved).1 = Ok tt ->
     r = status_answer 2%N 7%N (db_of (w_st demo_saved)))) demo_saved.
Proof.
  apply (get_order_status_owner demo_cfg 2%N 7%N demo_saved).
  intros n. apply (numeric_out_parses n).
Defined.

(** Another user's order is not found. *)
Example demo_foreign :
  (GetOrderStatus demo_cfg 2%N 8%N demo_saved).1 =
    Err (wrap "OrderService.GetOrderStatus" (ENotFound 2%N)).
Proof. vm_compute. reflexivity. Qed.

Definition demo_request : CreateOrderRequest := {|
  req_MarketId := "u9"; req_OrderType := 1; req_Price := Some "25"; req_Quantity := 3 |}.

Lemma create_handler_validates_witness :
  (exists code msg, handle_CreateOrder (CreateOrder demo_cfg) (Some 7%N) (Some demo_request) demo_start
      = (Err (EStatus code msg), demo_start) /\
     (code = Code_InvalidArgument \/ code = Code_Unauthenticated)) \/
  (exists req userID marketID p, valid_create (Some 7%N) (Some demo_request) req userID marketID p /\
     handle_CreateOrder (CreateOrder demo_cfg) (Some 7%N) (Some demo_request) demo_start =
       (let '(r, w') := CreateOrder demo_cfg userID marketID (TypeFromProto (req_OrderType req)) p
                          (req_Quantity req) demo_start in
        (res_map (λ '(id, st), (uuid_string id, StatusToProto st)) r, w'))).
Proof. exact (create_handler_validates (CreateOrder demo_cfg) (Some 7%N) (Some demo_request) demo_start). Defined.

Example demo_handled :
  (handle_CreateOrder (CreateOrder demo_cfg) (Some 7%N) (Some demo_request) demo_start).1 = Ok ("u6", 1).
Proof. vm_compute. reflexivity. Qed.
End Witness.
