(* ===== verification/Concurrent.v ===== *)
(** * Concurrent requests (CreateOrder in every instance of the order service)

    [step] is one request between two of its calls, where the transaction of
    saveOrder is one step, and so are the lookups of validateMarket, which
    touch neither the key nor the tables: [CreateOrder] is its iteration.  A
    pool of requests, of one or many instances, moves one of them at a time;
    [outside] is everything else that touches the same servers.  The theorem is
    what idempotency is for: of all requests with one key, in any interleaving
    within the key's time to live, at most one places an order. *)

From stdpp Require Import relations.
From S2P Require Import Prelude GoStrings GoErrors Effects Redis Pg Kafka RateLimit Outbox Domain Events Idempotency OrderDb MarketBlock OrderService OrderCorrect.
Local Open Scope string_scope.
Local Open Scope list_scope.
Local Open Scope Z_scope.

Section Requests.
Context {St R : Type} `{HRd : Redis R} `{PT : PgTypes} `{DL : DecimalLib} `{PC : PriceColumn}
  `{U : GoLib} `{L : LuaNumbers} `{EC : EntryCodec} `{SH : Sha256} `{TT : PbTime} `{PB : !ProtoCodec}.
Context `{HD : !Has (pg OrderDB) St} `{HR : !Has R St} `{HQ : !Has block_queue St} `{MV : !MarketViewer St}.
Variable cfg : svc_config.

(** ** One request *)

Record request := {
  rq_UserID : UUID; rq_MarketID : UUID; rq_Type : OrderType; rq_Price : Dec; rq_Quantity : Z
}.

Definition rq_hash (q : request) : string :=
  buildRequestHash (rq_MarketID q) (rq_Type q) (rq_Price q) (rq_Quantity q).
Definition rq_key (q : request) : string := buildKey (rq_UserID q) (rq_hash q).

(** Where a request is: [Completing] is before the completing script with
    [attempts] left, [Restoring] between the script that found no key and the
    SET.  The order that the request placed itself is kept. *)
Inductive point :=
| Arrived
| Resolving (idemResult : IdempotencyResult)
| Limiting
| Validating
| Saving
| Completing (placed : option UUID) (orderID : UUID) (orderStatus : OrderStatus) (attempts : nat)
| Restoring (placed : option UUID) (orderID : UUID) (orderStatus : OrderStatus) (attempts : nat)
| Failing (err : error)
| Replied (placed : option UUID) (r : result (UUID * OrderStatus)).

Definition completed (q : request) (orderID : UUID) (orderStatus : OrderStatus) : string :=
  entry_marshal (completed_entry (rq_hash q) orderID (OrderStatus_String orderStatus)).

(** The select before another attempt. *)
Definition again (placed : option UUID) (orderID : UUID) (orderStatus : OrderStatus) (attempts : nat) : M St point :=
  match attempts with
  | O => mret (Replied placed (Ok (orderID, orderStatus)))
  | _ =>
      let! c := ctx_Err in
      mret match c with
           | Some _ => Replied placed (Ok (orderID, orderStatus))
           | None => Completing placed orderID orderStatus attempts
           end
  end.

Definition attempts : nat := Z.to_nat (cfg_complete_attempts cfg).

Definition step (q : request) (p : point) : M St point :=
  match p with
  | Arrived =>
      let! r := idem_acquire (cfg_idem_ttl cfg) (rq_UserID q) (rq_hash q) in
      mret match r with
           | Err err => Replied None (Err (wrap op_CreateOrder err))
           | Ok (idemResult, acquired) => if negb acquired then Resolving idemResult else Limiting
           end
  | Resolving i =>
      if idr_IsCompleted i then
        let '(id, status, err) := checkIdempotencyResult i in
        mret (Replied None match err with Some e => Err e | None => Ok (id, status) end)
      else if negb (idr_IsProcessing i) then mret (Replied None (Err (EMsg "unknown idempotency state")))
      else if idr_StartedAt i =? zero_time then mret (Replied None (Err (ESentinel ErrOrderProcessing)))
      else
        let! r := FindOrderForIdempotencyRecovery (rq_UserID q) (rq_MarketID q) (rq_Type q) (rq_Price q)
                    (rq_Quantity q) (idr_StartedAt i) in
        mret match r with
             | Err err => Replied None (Err (if errors_Is err Repo_ErrOrderNotFound then ESentinel ErrOrderProcessing
                                             else err))
             | Ok order => Completing None (ord_ID order) (ord_Status order) attempts
             end
  | Limiting =>
      let! r := checkRateLimit (rq_UserID q) (provideRateLimiters cfg).1 in
      mret match r with Err err => Failing err | Ok _ => Validating end
  | Validating =>
      let! r := validateMarket (rq_MarketID q) in
      mret match r with Err err => Failing err | Ok _ => Saving end
  | Saving =>
      let! r := saveOrder (rq_UserID q) (rq_MarketID q) (rq_Type q) (rq_Price q) (rq_Quantity q) in
      mret match r with Err err => Failing err | Ok (orderID, orderStatus) => Completing (Some orderID) orderID orderStatus attempts end
  | Completing placed orderID orderStatus O => mret (Replied placed (Ok (orderID, orderStatus)))
  | Completing placed orderID orderStatus (S n) =>
      let! c := ctx_Err in
      match c with
      | Some _ => mret (Replied placed (Ok (orderID, orderStatus)))
      | None =>
          let! r := redis_call (completeScript (rq_key q) (completed q orderID orderStatus)) in
          match r with
          | Err _ => again placed orderID orderStatus n
          | Ok m => mret (if m =? 0 then Restoring placed orderID orderStatus n
                          else Replied placed (Ok (orderID, orderStatus)))
          end
      end
  | Restoring placed orderID orderStatus n =>
      let! r := cache_SetWithTTL (rq_key q) (completed q orderID orderStatus) (cfg_idem_ttl cfg) in
      match r with
      | Err _ => again placed orderID orderStatus n
      | Ok _ => mret (Replied placed (Ok (orderID, orderStatus)))
      end
  | Failing err =>
      failCleanup (rq_UserID q) (rq_hash q) true ;;!
      mret (Replied None (Err (wrap op_CreateOrder err)))
  | Replied _ _ => mret p
  end.

Fixpoint steps (n : nat) (q : request) (p : point) : M St point :=
  match n with
  | O => mret p
  | S n => let! p := step q p in steps n q p
  end.

(** The order the request has placed; and whether it holds its key, or has
    placed its order. *)
Definition placed (p : point) : option UUID :=
  match p with
  | Completing placed _ _ _ | Restoring placed _ _ _ | Replied placed _ => placed
  | _ => None
  end.

Definition weight (p : point) : nat :=
  match p with
  | Limiting | Validating | Saving | Failing _ => 1
  | _ => if placed p then 1 else 0
  end.

Lemma steps_then n m q p p' w w' r : steps n q p w = (p', w') -> steps m q p' w' = r -> steps (n + m) q p w = r.
Proof.
  revert p w. induction n as [|n IH]; intros p w; simpl; [by intros [= <- <-]|].
  unfold mbind. destruct (step q p w) as [p1 w1]. apply IH.
Qed.

Lemma steps_S n q p w : steps (S n) q p w = (let '(p', w') := step q p w in steps n q p' w').
Proof. done. Qed.

Lemma step_completing q pl id st n w : e_ctx (w_env w) (e_tick (w_env w)) = None ->
  step q (Completing pl id st (S n)) w =
  (let '(r, w1) := redis_call (completeScript (rq_key q) (completed q id st)) (World (tick (w_env w)) (w_st w)) in
   match r with
   | Err _ => again pl id st n w1
   | Ok m => (if m =? 0 then Restoring pl id st n else Replied pl (Ok (id, st)), w1)
   end).
Proof. intros Hc. simpl. unfold mbind, ctx_Err, ask. rewrite Hc. by destruct (redis_call _ _) as [[m|e] w1]. Qed.

(** From [Completing], the steps are the retry loop. *)
Lemma steps_completing q pl id st n last w : exists k,
  steps k q (Completing pl id st n) w =
    (Replied pl (Ok (id, st)),
     (complete_loop (cfg_idem_ttl cfg) n last (rq_UserID q) id (rq_hash q) st w).2).
Proof.
  revert last w. induction n as [|n IH]; intros last w; [by exists 1%nat|].
  assert (Hagain : forall e w1, exists k, (let! p := again pl id st n in steps k q p) w1 =
    (Replied pl (Ok (id, st)),
     (match n with
      | O => complete_loop (cfg_idem_ttl cfg) n (Some e) (rq_UserID q) id (rq_hash q) st
      | _ => let! c := ctx_Err in
             match c with
             | Some e => mret (Err e)
             | None => complete_loop (cfg_idem_ttl cfg) n (Some e) (rq_UserID q) id (rq_hash q) st
             end
      end w1).2)).
  { intros e w1. unfold again. destruct n as [|n']; [by exists 0%nat|]. unfold mbind, ctx_Err, ask, mret.
    destruct (e_ctx _ _); [by exists 0%nat|]. apply IH. }
  cbn [complete_loop]. unfold mbind, ctx_Err, ask. destruct (e_ctx (w_env w) (e_tick (w_env w))) as [e|] eqn:Hc.
  { exists 1%nat. simpl. unfold mbind, ctx_Err, ask. by rewrite Hc. }
  unfold adapter_Complete, store_Complete, mbind. fold (rq_key q). fold (completed q id st).
  set (w0 := World _ _). destruct (redis_call (completeScript (rq_key q) (completed q id st)) w0) as [[m|e] w1] eqn:Hr.
  - destruct (m =? 0) eqn:Hm.
    + destruct (cache_SetWithTTL (rq_key q) (completed q id st) (cfg_idem_ttl cfg) w1) as [[[]|e] w2] eqn:Hs.
      * exists 2%nat. rewrite steps_S, step_completing by done. fold w0. rewrite Hr, Hm, steps_S.
        cbn [step]. unfold mbind, mret. by rewrite Hs.
      * destruct (Hagain (wrap ("IdempotencyStore.Complete" +:+ ": restore expired key") e) w2) as [k Hk].
        exists (S (S k)). rewrite steps_S, step_completing by done. fold w0. rewrite Hr, Hm, steps_S.
        cbn [step]. unfold mbind at 1. rewrite Hs. exact Hk.
    + exists 1%nat. rewrite steps_S, step_completing by done. fold w0. by rewrite Hr, Hm.
  - destruct (Hagain (wrap ("IdempotencyStore.Complete" +:+ ": script") e) w1) as [k Hk].
    exists (S k). rewrite steps_S, step_completing by done. fold w0. rewrite Hr. exact Hk.
Qed.

Lemma steps_attempts q pl id st w : exists k,
  steps k q (Completing pl id st attempts) w =
    (Replied pl (Ok (id, st)), (completeIdempotencySync cfg (rq_UserID q) id (rq_hash q) st w).2).
Proof. apply steps_completing. Qed.

(** From [Resolving], they are resolveIdempotentRequest. *)
Lemma steps_resolving q i w : exists n,
  steps n q (Resolving i) w =
    (let '(r, w') := resolveIdempotentRequest cfg (rq_UserID q) (rq_MarketID q) (rq_Type q) (rq_Price q)
                       (rq_Quantity q) (rq_hash q) i w in
     (Replied None r, w')).
Proof.
  unfold resolveIdempotentRequest. destruct (idr_IsCompleted i) eqn:Hc.
  { exists 1%nat. cbn [steps step]. rewrite Hc. unfold mbind, mret.
    by destruct (checkIdempotencyResult i) as [[id st] [err|]]. }
  destruct (negb (idr_IsProcessing i)) eqn:Hp.
  { exists 1%nat. cbn [steps step]. by rewrite Hc, Hp. }
  unfold tryRecoverOrderFromProcessing. destruct (idr_StartedAt i =? zero_time) eqn:Hz.
  { exists 1%nat. cbn [steps step]. by rewrite Hc, Hp, Hz. }
  unfold mbind. destruct (FindOrderForIdempotencyRecovery _ _ _ _ _ _ w) as [[o|e] w2] eqn:Ho.
  2: { exists 1%nat. cbn [steps step]. rewrite Hc, Hp, Hz. unfold mbind.
       rewrite Ho. by destruct (errors_Is e Repo_ErrOrderNotFound). }
  destruct (steps_attempts q None (ord_ID o) (ord_Status o) w2) as [k Hk]. exists (1 + k)%nat.
  apply (steps_then 1 _ _ _ (Completing None (ord_ID o) (ord_Status o) attempts) _ w2).
  { cbn [steps step]. rewrite Hc, Hp, Hz. unfold mbind. by rewrite Ho. }
  rewrite Hk. by destruct (completeIdempotencySync _ _ _ _ _ w2).
Qed.

(** A failure of the holder gives its key back. *)
Lemma steps_fails q p e w w' : step q p w = (Failing e, w') ->
  steps 2 q p w = (let '(r, w'') := (failCleanup (rq_UserID q) (rq_hash q) true ;;! mret (Err (wrap op_CreateOrder e))) w' in
                   (Replied None r, w'')).
Proof.
  intros Hs. rewrite steps_S, Hs. cbn [steps step]. unfold mbind, mret. by destruct (failCleanup _ _ _ w').
Qed.

(** From [Limiting], they are the rest of CreateOrder. *)
Lemma steps_acquired q w : exists n placed,
  steps n q Limiting w =
    (let '(r, w') := create_acquired cfg (rq_UserID q) (rq_MarketID q) (rq_Type q) (rq_Price q) (rq_Quantity q)
                       (rq_hash q) true w in
     (Replied placed r, w')).
Proof.
  unfold create_acquired, mbind at 1.
  destruct (checkRateLimit (rq_UserID q) (provideRateLimiters cfg).1 w) as [[[]|e] w2] eqn:Hl.
  2: { exists 2%nat, None. apply steps_fails. cbn [step]. unfold mbind. by rewrite Hl. }
  assert (H2 : steps 1 q Limiting w = (Validating, w2)) by (cbn [steps step]; unfold mbind; by rewrite Hl).
  unfold mbind at 1. destruct (validateMarket (rq_MarketID q) w2) as [[[]|e] w3] eqn:Hv.
  2: { exists (1 + 2)%nat, None. eapply steps_then; [exact H2|]. apply steps_fails. cbn [step]. unfold mbind. by rewrite Hv. }
  assert (H3 : steps 1 q Validating w2 = (Saving, w3)) by (cbn [steps step]; unfold mbind; by rewrite Hv).
  unfold mbind at 1.
  destruct (saveOrder (rq_UserID q) (rq_MarketID q) (rq_Type q) (rq_Price q) (rq_Quantity q) w3) as [[[id st]|e] w4] eqn:Hs.
  2: { exists (1 + (1 + 2))%nat, None. do 2 (eapply steps_then; [eassumption|]). apply steps_fails.
       cbn [step]. unfold mbind. by rewrite Hs. }
  destruct (steps_attempts q (Some id) id st w4) as [k Hk]. exists (1 + (1 + (1 + k)))%nat, (Some id).
  do 2 (eapply steps_then; [eassumption|]). apply (steps_then 1 _ _ _ (Completing (Some id) id st attempts) _ w4).
  { cbn [steps step]. unfold mbind. by rewrite Hs. }
  rewrite Hk. unfold mbind. by destruct (completeIdempotencySync _ _ _ _ _ w4).
Qed.

(** The steps of a request that is alone are the function. *)
Theorem steps_CreateOrder q w : exists n placed,
  steps n q Arrived w =
    (let '(r, w') := CreateOrder cfg (rq_UserID q) (rq_MarketID q) (rq_Type q) (rq_Price q) (rq_Quantity q) w in
     (Replied placed r, w')).
Proof.
  unfold CreateOrder. fold (rq_hash q). unfold mbind at 1.
  destruct (idem_acquire (cfg_idem_ttl cfg) (rq_UserID q) (rq_hash q) w) as [[[i a]|e] w1] eqn:Ha.
  2: { exists 1%nat, None. simpl. unfold mbind. by rewrite Ha. }
  assert (H1 : steps 1 q Arrived w = (if negb a then Resolving i else Limiting, w1)) by (simpl; unfold mbind; by rewrite Ha).
  destruct a; cbn [negb] in *.
  - destruct (steps_acquired q w1) as (n & placed & Hn). exists (1 + n)%nat, placed. by eapply steps_then.
  - destruct (steps_resolving q i w1) as (n & Hn). exists (1 + n)%nat, None. by eapply steps_then.
Qed.

(** ** Many requests *)

(** Who ordered what. *)
Definition owners (d : OrderDB) : gmap UUID (UUID * UUID) := (λ row, (or_UserID row, or_MarketID row)) <$> db_orders d.

(** What the rest of the system may do meanwhile: everything but writing the
    key and adding, removing or moving orders. *)
Definition outside (key : string) (w w' : world St) : Prop :=
  (exists n, w_env w' = Nat.iter n tick (w_env w)) /\ tx_of (D := OrderDB) (w_st w') = TxNone /\
  owners (db_of (w_st w')) = owners (db_of (w_st w)) /\
  forall t, rclock w' <= t -> view (prj (X := R) (w_st w')) t key = view (prj (w_st w)) t key.

Inductive pool_step (key : string) : list (request * point) * world St -> list (request * point) * world St -> Prop :=
| pool_request l1 q p l2 w p' w' :
    step q p w = (p', w') ->
    pool_step key (l1 ++ (q, p) :: l2, w) (l1 ++ (q, p') :: l2, w')
| pool_outside l w w' : outside key w w' -> pool_step key (l, w) (l, w').

(** The orders the requests placed, and how many requests of the key hold it or
    have placed theirs. *)
Definition placed_by (l : list (request * point)) : list (UUID * (UUID * UUID)) :=
  omap (λ '(q, p), (λ id, (id, (rq_UserID q, rq_MarketID q))) <$> placed p) l.

Definition own (key : string) (l : list (request * point)) : list (request * point) :=
  filter (λ '(q, _), rq_key q = key) l.

Definition holders (key : string) (l : list (request * point)) : nat := sum_list_with (λ '(_, p), weight p) (own key l).
End Requests.

(** ** Steps and time *)

Section Stepping.
Context {St R : Type} `{HRd : Redis R} `{!RedisLaws R} `{PT : PgTypes} `{DL : DecimalLib} `{PC : PriceColumn}
  `{U : GoLib} `{L : LuaNumbers} `{EC : EntryCodec} `{!EntryCodecLaws EC} `{SH : Sha256} `{TT : PbTime}
  `{PB : !ProtoCodec}.
Context `{HD : !Has (pg OrderDB) St} `{HR : !Has R St} `{HQ : !Has block_queue St} `{MV : !MarketViewer St}.
Context `{HA : !Apart R (pg OrderDB) St} `{HB : !Apart block_queue (pg OrderDB) St}
  `{HA' : !Apart (pg OrderDB) R St} `{HB' : !Apart block_queue R St}.
Variable cfg : svc_config.
Implicit Types (w : world St) (q : request) (p : point).

Lemma ticks_cleanup u h : ticks (adapter_FailCleanup (St := St) u h).
Proof. unfold adapter_FailCleanup, store_FailCleanup, cache_Delete. tick_solve. Qed.

Lemma ticks_again pl id st n : ticks (again (St := St) pl id st n).
Proof. unfold again, ctx_Err. tick_solve. Qed.

Lemma ticks_SetWithTTL k v ttl : ticks (cache_SetWithTTL (St := St) k v ttl).
Proof. unfold cache_SetWithTTL. tick_solve. Qed.
#[local] Hint Resolve ticks_again ticks_SetWithTTL ticks_cleanup : ticks.

Lemma ticks_find u m ty price n t : ticks (FindOrderForIdempotencyRecovery (St := St) u m ty price n t).
Proof. unfold FindOrderForIdempotencyRecovery, pool_Exec, lift_pg. tick_solve. Qed.

Lemma ticks_step q p : ticks (step cfg q p).
Proof.
  destruct p as [| | | | |? ? ? [|n]| | |]; simpl; unfold ctx_Err; tick_solve;
    first [apply ticks_again | apply ticks_SetWithTTL | apply ticks_find | apply ticks_saveOrder | apply ticks_cleanup].
Qed.

Lemma pool_ticks key c c' : pool_step cfg key c c' -> exists n, w_env c'.2 = Nat.iter n tick (w_env c.2).
Proof.
  intros [l1 q p l2 w p' w' Hs|l w w' [Hn _]]; [|done].
  destruct (ticks_step q p w) as [n Hn]. rewrite Hs in Hn. by exists n.
Qed.

Lemma pool_runs key c c' : rtc (pool_step cfg key) c c' -> exists n, w_env c'.2 = Nat.iter n tick (w_env c.2).
Proof.
  induction 1 as [|c c1 c' Hs _ [n Hn]]; [by exists 0%nat|]. destruct (pool_ticks _ _ _ Hs) as [k Hk].
  exists (n + k)%nat. by rewrite Hn, Hk, Nat.iter_add.
Qed.

(** ** Orders *)

(** Steps other than the saving one leave Postgres alone. *)
Lemma frames_step q p : p <> Saving -> frames (prj (X := pg OrderDB)) (step cfg q p).
Proof.
  assert (Hagain : forall pl id st n, frames (prj (X := pg OrderDB)) (again (St := St) pl id st n))
    by (intros; unfold again; frame_solve).
  intros Hp. destruct p as [| | | | |? ? ? [|n]| | |]; simpl; try done; frame_solve;
    first [apply frames_idem_acquire | apply Hagain | apply frames_cache_SetWithTTL | apply frames_checkRateLimit
          | apply frames_validateMarket | apply frames_failCleanup | idtac].
  unfold FindOrderForIdempotencyRecovery. apply frames_bind; [by apply frames_pool_read|intros; apply frames_ret].
Qed.

(** Nothing is placed while a request completes. *)
Definition completes (pl : option UUID) p : Prop := placed p = pl /\ weight p = (if pl then 1 else 0)%nat.

Lemma completes_again pl id st n w : completes pl (again (St := St) pl id st n w).1.
Proof. unfold again, mbind, ctx_Err, ask. destruct n; [done|]. by destruct (e_ctx _ _). Qed.

Lemma completes_step q pl id st n w :
  completes pl (step cfg q (Completing pl id st n) w).1 /\ completes pl (step cfg q (Restoring pl id st n) w).1.
Proof.
  split.
  - destruct n as [|n]; [done|]. simpl. unfold mbind, ctx_Err, ask, mret. destruct (e_ctx _ _); [done|].
    destruct (redis_call _ _) as [[m|e] w1]; [by destruct (m =? 0)|apply completes_again].
  - simpl. unfold mbind, mret. destruct (cache_SetWithTTL _ _ _ w) as [[[]|e] w1]; [done|apply completes_again].
Qed.

Lemma placed_step q p w : p <> Saving -> placed (step cfg q p w).1 = placed p.
Proof.
  intros Hp. destruct p; try done; try apply completes_step; simpl; unfold mbind, mret.
  - by destruct (idem_acquire _ _ _ w) as [[[i [|]]|e] w1].
  - destruct (idr_IsCompleted _); [by destruct (checkIdempotencyResult _) as [[]]|].
    destruct (negb _); [done|]. destruct (_ =? _); [done|].
    by destruct (FindOrderForIdempotencyRecovery _ _ _ _ _ _ w) as [[] w1].
  - by destruct (checkRateLimit _ _ w) as [[] w1].
  - by destruct (validateMarket _ w) as [[] w1].
  - by destruct (adapter_FailCleanup _ _ w).
Qed.

(** A step places no order, or the request's own and first one. *)
Lemma step_orders q p w :
  answered (w_env w) -> tx_of (D := OrderDB) (w_st w) = TxNone ->
  wp (step cfg q p) (λ p' w', tx_of (D := OrderDB) (w_st w') = TxNone /\
    ((placed p' = placed p /\ owners (db_of (w_st w')) = owners (db_of (w_st w))) \/
     (placed p = None /\ exists id, placed p' = Some id /\ owners (db_of (w_st w)) !! id = None /\
      owners (db_of (w_st w')) = <[id := (rq_UserID q, rq_MarketID q)]> (owners (db_of (w_st w)))))) w.
Proof.
  intros Hans Hidle. assert (Hp : p = Saving \/ p <> Saving) by (destruct p; first [by left|by right]). destruct Hp as [->|Hp].
  - simpl. apply wp_bind. eapply wp_mono; [by apply saveOrder_spec|].
    intros [[id st]|e] w1 [Htx Ho]; apply wp_ret; (split; [done|]); simpl in Ho.
    + right. destruct Ho as ([= -> ->] & _ & Hc). split; [done|]. eexists. split; [done|].
      destruct Hc as [Hnew (row & Hrow & _ & <- & <- & _) _ _].
      split; [by unfold owners; rewrite lookup_fmap, Hnew|]. unfold owners. by rewrite Hrow, fmap_insert.
    + left. split; [done|]. destruct Ho as [-> |[Hna _]]; [done|]. by destruct Hna.
  - assert (Hf := frames_step q p Hp w). assert (Hpl := placed_step q p w Hp). unfold wp in *.
    unfold tx_of, db_of in *. rewrite Hf. by split; [|left].
Qed.
End Stepping.

(** ** The key *)

(** Redis answers nil only to a script that returned nil. *)
Definition genuine (e : env) : Prop :=
  forall n x, e_fault e n = FBefore x \/ e_fault e n = FAfter x -> is_sent RedisNil x = false.

Section Key.
Context {St R : Type} `{HRd : Redis R} `{!RedisLaws R} `{PT : PgTypes} `{DL : DecimalLib} `{PC : PriceColumn}
  `{U : GoLib} `{L : LuaNumbers} `{EC : EntryCodec} `{!EntryCodecLaws EC} `{SH : Sha256} `{TT : PbTime}
  `{PB : !ProtoCodec}.
Context `{HD : !Has (pg OrderDB) St} `{HR : !Has R St} `{HQ : !Has block_queue St} `{MV : !MarketViewer St}.
Context `{HA : !Apart R (pg OrderDB) St} `{HB : !Apart block_queue (pg OrderDB) St}
  `{HA' : !Apart (pg OrderDB) R St} `{HB' : !Apart block_queue R St}.
Variables (cfg : svc_config) (key : string) (T0 T : Z).
Implicit Types (w : world St) (q : request) (p : point) (b : bool).

Definition ttlMs : Z := Z.quot (cfg_idem_ttl cfg) 1000000.
Hypothesis Hspan : T < T0 + ttlMs.
Hypothesis Hpos : 0 < ttlMs.

(** The key holds an entry if anything; with [b], it does so until [T] has
    passed. *)
Definition key_ok b (t : Z) (r : R) : Prop :=
  (forall v e, view r t key = Some (v, e) -> v <> "" /\ is_Some (entry_unmarshal v)) /\
  (b = true -> held r key (T + 1) t).

Definition inv b w : Prop :=
  redis_monotone (w_env w) /\ genuine (w_env w) /\ T0 <= rclock w /\ key_ok b (rclock w) (prj (w_st w)).

Lemma key_ok_later b t t' r : t <= t' -> key_ok b t r -> key_ok b t' r.
Proof.
  intros Ht [Hwf Hh]. split; [|intros Hb; eapply held_later; [done|by apply Hh]].
  intros v e. rewrite (view_later _ t) by done. destruct (view r t key) as [[v' [x|]]|] eqn:Hv; simpl; [| |done].
  - case_bool_decide; [|done]. intros [= -> <-]. by eapply Hwf.
  - intros [= -> <-]. by eapply Hwf.
Qed.

Lemma key_ok_weaken b t r : key_ok b t r -> key_ok false t r.
Proof. by intros [? _]. Qed.

(** What a request sends for a key leaves an entry there. *)
Lemma key_ok_exec b op ms t r :
  (forall v, op_value op = Some v -> exists e, v = entry_marshal e) ->
  (b = true -> op <> OpDelete key /\ T + 1 <= t + ms) -> key_ok b t r -> key_ok b t (exec ms op t r).
Proof.
  intros Hval Hop [Hwf Hh]. split.
  - destruct (decide (op_key op = key)) as [Hk|Hk]; [|intros v e; rewrite exec_other by (done || lia); apply Hwf].
    assert (Hset : forall v px r', op_value op = Some v -> SETPX t key v px r = Some r' ->
      forall v' e, view r' t key = Some (v', e) -> v' <> "" /\ is_Some (entry_unmarshal v')).
    { intros v px r' Hv Hr' v' e. erewrite SETPX_view by done. rewrite decide_True by done. simpl.
      case_bool_decide; [|done]. intros [= <- <-]. destruct (Hval _ Hv) as [ent ->].
      split; [apply entry_nonempty|by rewrite entry_roundtrip]. }
    destruct op as [k v|k v|k v|k]; simpl in *; subst k.
    + unfold acquireScript. destruct (GET t key r); [done|].
      destruct (SETPX t key v ms r) eqn:Hs; [|done]. by eapply Hset.
    + unfold completeScript. destruct (_ =? -2); [done|]. destruct (_ =? -1).
      * intros v' e. cbn [snd]. rewrite SET_view, decide_True by (done || lia). intros [= <- <-].
        destruct (Hval _ eq_refl) as [ent ->]. split; [apply entry_nonempty|by rewrite entry_roundtrip].
      * destruct (SETPX _ _ _ _ _) eqn:Hs; [|done]. by eapply Hset.
    + destruct (SETPX t key v ms r) eqn:Hs; [|done]. by eapply Hset.
    + intros v e. by rewrite DEL_view, decide_True by (done || lia).
  - intros Hb. destruct (Hop Hb) as [Hdel Hms]. apply held_exec; [|done|done|by apply Hh].
    destruct (op_value op) as [v|] eqn:Ev; [|done]. destruct (Hval v eq_refl) as [e ->].
    intros [= He]. by apply (entry_nonempty e).
Qed.

(** [m] keeps the key in order. *)
Definition safe b {A} (m : M St A) : Prop := forall w, inv b w -> inv b (m w).2.

Lemma inv_ticks b w w' n : inv b w -> w_env w' = Nat.iter n tick (w_env w) ->
  (forall t, rclock w' <= t -> view (prj (X := R) (w_st w')) t key = view (prj (w_st w)) t key) -> inv b w'.
Proof.
  intros (Hm & Hg & H0 & Hk) Hn Hv. destruct (rclock_ticks n w w' Hm Hn) as [Hm' Hc].
  split_and!; [done|rewrite Hn; by clear -Hg; induction n|lia|].
  apply (key_ok_later _ _ _ _ Hc) in Hk. unfold key_ok, held in *. rewrite (Hv (rclock w')) by lia. done.
Qed.

Lemma leaves_safe b {A} (m : M St A) : ticks m -> leaves key m -> safe b m.
Proof.
  intros Ht Hl w Hinv. destruct (Ht w) as [n Hn]. eapply inv_ticks; [done|done|].
  by apply Hl, Hinv.
Qed.

Lemma safe_ret b {A} (a : A) : safe b (mret a).
Proof. by intros w. Qed.

Lemma safe_bind b {A B} (m : M St A) (k : A -> M St B) : safe b m -> (forall a, safe b (k a)) -> safe b (mbind m k).
Proof. intros Hm Hk w Hw. unfold mbind. specialize (Hm w Hw). destruct (m w) as [a w1]. by apply Hk. Qed.

(** A Redis call under the invariant: its command ran at the server's clock, or
    it failed, with or without its effect. *)
Lemma wp_inv_call b b' {A} (cmd : Z -> R -> result A * R) (Q : result A -> world St -> Prop) w :
  inv b w ->
  (T0 <= rclock w -> key_ok b (rclock w) (prj (w_st w)) -> key_ok b' (rclock w) (cmd (rclock w) (prj (w_st w))).2) ->
  (forall w', inv b' w' -> rclock w <= rclock w' -> Q (cmd (rclock w) (prj (w_st w))).1 w') ->
  (forall e w', is_sent RedisNil e = false -> inv b w' \/ inv b' w' -> rclock w <= rclock w' -> Q (Err e) w') ->
  wp (redis_call cmd) Q w.
Proof.
  intros (Hm & Hg & H0 & Hk) Hcmd Hok Herr. apply wp_call. intros t f -> Hf. fold (rclock w).
  specialize (Hcmd H0 Hk). destruct (rclock_ticks 1 w (World (tick (w_env w)) (w_st w)) Hm eq_refl) as [_ Hc].
  assert (Hinv : forall b r', key_ok b (rclock w) r' -> inv b (World (tick (w_env w)) (upd r' (w_st w)))).
  { intros c r' Hr'. split_and!; [done|done|unfold rclock in *; simpl in *; lia|]. simpl. rewrite prj_upd.
    by eapply key_ok_later. }
  assert (Hsame : inv b (World (tick (w_env w)) (w_st w))).
  { split_and!; [done|done|unfold rclock in *; simpl in *; lia|]. simpl. by eapply key_ok_later. }
  destruct f as [|e|e]; unfold faulty; destruct (cmd (rclock w) (prj (w_st w))) as [a r'] eqn:Ec; simpl in *;
    rewrite ?Ec; simpl.
  - apply Hok; [by apply Hinv|done].
  - apply Herr; [apply (Hg (e_tick (w_env w))); by left|by left|done].
  - apply Herr; [apply (Hg (e_tick (w_env w))); by right|right; by apply Hinv|done].
Qed.

Lemma safe_call b {A} (cmd : Z -> R -> result A * R) :
  (forall t r, T0 <= t -> key_ok b t r -> key_ok b t (cmd t r).2) -> safe b (redis_call cmd).
Proof.
  intros Hc w Hinv. eapply (wp_inv_call b b cmd (λ _ w', inv b w')); [done|by apply Hc|done|].
  by intros e w' _ [Hw'|Hw'].
Qed.

Lemma inv_true b w : inv true w -> inv b w.
Proof. intros (Hm & Hg & H0 & Hwf & Hh). split_and!; [done|done|done|]. split; [done|auto]. Qed.

Lemma inv_false b w : inv b w -> inv false w.
Proof. intros (Hm & Hg & H0 & Hk). split_and!; [done..|]. by eapply key_ok_weaken. Qed.

(** Acquiring the key: only when it was free, and then it is taken beyond
    [T]. *)
Lemma acquire_spec b u h w : buildKey u h = key -> inv b w ->
  wp (idem_acquire (cfg_idem_ttl cfg) u h) (λ r w',
    match r with
    | Ok (_, true) => inv true w' /\ (b = true -> T < rclock w')
    | _ => inv b w'
    end) w.
Proof.
  intros Hkey Hinv. unfold idem_acquire, adapter_Acquire, store_Acquire, acquire_round at 1. rewrite Hkey.
  do 2 apply wp_bind. apply wp_ask. set (entry := Build_Entry _ _ _ _ _).
  set (w1 := World (tick (w_env w)) (w_st w)). apply wp_bind.
  assert (Hinv1 : inv b w1) by (by eapply (inv_ticks b w w1 1)).
  destruct (view (prj (X := R) (w_st w1)) (rclock w1) key) as [[v e]|] eqn:Hview.
  - assert (Hcmd : acquireScript key (entry_marshal entry) ttlMs (rclock w1) (prj (w_st w1)) = (Ok v, prj (w_st w1)))
      by (unfold acquireScript; by rewrite GET_view, Hview).
    eapply (wp_inv_call b b); [done|by fold ttlMs; rewrite Hcmd| |].
    + intros w2 Hw2 _. fold ttlMs. rewrite Hcmd. cbn [fst].
      destruct Hinv1 as (_ & _ & _ & Hwf & _). destruct (Hwf v e Hview) as [Hne [ent Hent]].
      rewrite bool_decide_false by done. rewrite Hent. by wp_steps.
    + intros err w2 Hnil Hw2 _. rewrite Hnil. wp_steps. by destruct Hw2.
  - destruct (acquire_fresh ttlMs key (entry_marshal entry) (rclock w1) (prj (w_st w1)) Hview Hpos)
      as (r' & Hcmd & _ & Hset).
    eapply (wp_inv_call b true); [done| | |].
    + intros H0 Hk. fold ttlMs. rewrite Hcmd. cbn [snd]. split.
      * destruct (key_ok_exec false (OpAcquire key (entry_marshal entry)) ttlMs (rclock w1) (prj (w_st w1))) as [Hwf _];
          [intros v [= <-]; by eexists|done|by eapply key_ok_weaken|].
        cbn [exec] in Hwf. by rewrite Hcmd in Hwf.
      * intros _. eapply held_set; [done|apply entry_nonempty|lia].
    + intros w2 Hw2 Hc2. fold ttlMs. rewrite Hcmd. cbn [fst]. rewrite bool_decide_true by done. wp_steps.
      split; [done|]. intros ->. destruct Hinv1 as (_ & _ & _ & _ & Hh).
      destruct (Z.lt_ge_cases (rclock w1) (T + 1)) as [Hlt|]; [|lia].
      destruct (Hh eq_refl Hlt) as (v & x & Hv & _). by rewrite Hv in Hview.
    + intros err w2 Hnil Hw2 _. rewrite Hnil. wp_steps. destruct Hw2 as [|]; [done|by apply inv_true].
Qed.

Lemma ttl_pos : 0 < cfg_idem_ttl cfg.
Proof.
  destruct (Z.lt_ge_cases 0 (cfg_idem_ttl cfg)) as [|Hle]; [done|]. unfold ttlMs in Hpos.
  pose proof (Z.quot_le_mono (cfg_idem_ttl cfg) 0 1000000 ltac:(lia) Hle) as Hq.
  change (Z.quot 0 1000000) with 0 in Hq. lia.
Qed.

(** Completing keeps the key, also where it restores it. *)
Lemma safe_complete_script b k id st q : safe b (redis_call (completeScript k (completed q id st))).
Proof.
  apply safe_call. intros t r H0 Hk. apply (key_ok_exec b (OpComplete k (completed q id st)) ttlMs); [|intros _; split; [done|lia]|done].
  intros v [= <-]. by eexists.
Qed.

Lemma safe_restore b k id st q : safe b (cache_SetWithTTL k (completed q id st) (cfg_idem_ttl cfg)).
Proof.
  unfold cache_SetWithTTL. apply safe_bind; [|intros; apply safe_ret]. apply safe_call. intros t r H0 Hk.
  rewrite bool_decide_true by apply ttl_pos. rewrite px_of_duration_ms by apply Hpos. fold ttlMs.
  assert (Hex := key_ok_exec b (OpRestore k (completed q id st)) ttlMs t r). cbn [exec op_value] in Hex.
  destruct (SETPX _ _ _ _ _); simpl in *; [|done]. apply Hex; [intros v [= <-]; by eexists|intros _; split; [done|lia]|done].
Qed.

Lemma safe_ctx b : safe b ctx_Err.
Proof. intros w Hinv. by eapply (inv_ticks b w _ 1). Qed.

Lemma safe_again b pl id st n : safe b (again pl id st n).
Proof. unfold again. destruct n; [apply safe_ret|]. apply safe_bind; [apply safe_ctx|]. intros. apply safe_ret. Qed.

Lemma safe_completing b q pl id st n :
  safe b (step cfg q (Completing pl id st n)) /\ safe b (step cfg q (Restoring pl id st n)).
Proof.
  split.
  - destruct n as [|n]; [apply safe_ret|]. simpl. apply safe_bind; [apply safe_ctx|]. intros [e|]; [apply safe_ret|].
    apply safe_bind; [apply safe_complete_script|]. intros [m|e]; [apply safe_ret|apply safe_again].
  - simpl. apply safe_bind; [apply safe_restore|]. intros [[]|e]; [apply safe_ret|apply safe_again].
Qed.

Lemma safe_cleanup u h : safe false (adapter_FailCleanup u h).
Proof.
  unfold adapter_FailCleanup, store_FailCleanup, cache_Delete.
  do 2 (apply safe_bind; [|intros; apply safe_ret]). apply safe_call. intros t r _ Hk.
  by apply (key_ok_exec false (OpDelete (buildKey u h)) 0).
Qed.

(** *** A step of a request *)

Hypothesis Hkey : exists u h, key = buildKey u h.

Lemma leaves_acquire u h : buildKey u h <> key -> leaves key (idem_acquire (cfg_idem_ttl cfg) u h).
Proof.
  intros Hne. unfold idem_acquire, adapter_Acquire, store_Acquire. apply leaves_bind; [|intros; apply leaves_ret].
  assert (Hround : forall again, (forall m, again = Some m -> leaves key m) ->
    leaves key (acquire_round (cfg_idem_ttl cfg) u h again)).
  { intros again Hagain. unfold acquire_round.
    assert (Hcall : forall v, leaves key (redis_call (acquireScript (buildKey u h) v (Z.quot (cfg_idem_ttl cfg) 1000000)))).
    { intros v. apply leaves_redis_call. intros t r t' Ht.
      by apply (exec_other (Z.quot (cfg_idem_ttl cfg) 1000000) (OpAcquire (buildKey u h) v)). }
    assert (Hdel := leaves_cache_Delete (St := St) key (buildKey u h) Hne).
    destruct again as [m|]; [specialize (Hagain m eq_refl)|]; repeat leave_step. }
  apply Hround. intros m [= <-]. by apply Hround.
Qed.

Lemma leaves_cleanup u h : buildKey u h <> key -> leaves key (adapter_FailCleanup u h).
Proof.
  intros Hne. unfold adapter_FailCleanup, store_FailCleanup. apply leaves_bind; [|intros; apply leaves_ret].
  by apply leaves_cache_Delete.
Qed.

Lemma leaves_find u m ty price n t : leaves key (FindOrderForIdempotencyRecovery u m ty price n t).
Proof.
  apply leaves_frame; [apply ticks_find|]. unfold FindOrderForIdempotencyRecovery, pool_Exec. frame_solve.
Qed.

(** What a step does to the key: a request of the key may take it, only when
    nobody has it, and a request that failed gives it back. *)
Definition step_post b q p p' w' : Prop :=
  (rq_key q <> key -> inv b w') /\
  (rq_key q = key -> (b = true -> rclock w' <= T) -> (weight p = 1%nat -> b = true) ->
   (weight p' = weight p /\ inv b w') \/ (weight p = 1%nat /\ weight p' = 0%nat /\ inv false w') \/
   (weight p = 0%nat /\ weight p' = 1%nat /\ b = false /\ inv true w')).

Lemma post_stays b q p p' w' : inv b w' -> weight p' = weight p -> step_post b q p p' w'.
Proof. intros Hinv Hw. split; [done|]. intros _ _ _. by left. Qed.

Lemma wp_stays b q p {A} (m : M St A) (k : A -> point) w :
  inv b w -> safe b m -> (forall a, weight (k a) = weight p) ->
  wp (let! a := m in mret (k a)) (step_post b q p) w.
Proof.
  intros Hinv Hm Hk. apply wp_bind. apply (Hm w) in Hinv. unfold wp. destruct (m w) as [a w1].
  apply post_stays; [exact Hinv|apply Hk].
Qed.

Lemma step_safe b q p w : inv b w -> wp (step cfg q p) (step_post b q p) w.
Proof.
  intros Hinv. destruct Hkey as (u0 & h0 & Hk0).
  assert (Hlim : limiter_key (provideRateLimiters cfg).1 (rq_UserID q) <> key) by (rewrite Hk0; apply limiter_key_idem).
  assert (Hblk : blockKey (rq_MarketID q) <> key) by (rewrite Hk0; apply blockKey_idem).
  destruct p as [|i| | | |pl id st n|pl id st n|err|pl r]; cbn [step].
  - apply wp_bind. destruct (decide (rq_key q = key)) as [Heq|Hne].
    + eapply wp_mono; [by apply acquire_spec|]. intros [[i []]|e] w1 Hr; apply wp_ret; (split; [done|]); intros _ HT _.
      * right. right. destruct Hr as [Hr Hlt]. destruct b; [|by split_and!]. specialize (HT eq_refl). specialize (Hlt eq_refl). lia.
      * by left.
      * by left.
    + assert (Hs : safe b (idem_acquire (cfg_idem_ttl cfg) (rq_UserID q) (rq_hash q)))
        by (apply leaves_safe; [apply ticks_idem_acquire|by apply leaves_acquire]).
      apply (Hs w) in Hinv. unfold wp. destruct (idem_acquire _ _ _ w) as [r w1]. by split.
  - destruct (idr_IsCompleted i).
    { destruct (checkIdempotencyResult i) as [[id st] err]. by apply wp_ret, post_stays. }
    destruct (negb _); [by apply wp_ret, post_stays|]. destruct (_ =? _); [by apply wp_ret, post_stays|].
    apply wp_stays; [done|apply leaves_safe; [apply ticks_find|apply leaves_find]|by intros []].
  - apply wp_stays; [done|apply leaves_safe; [apply ticks_checkRateLimit|by apply leaves_checkRateLimit]|by intros []].
  - apply wp_stays; [done|apply leaves_safe; [apply ticks_validateMarket|by apply leaves_validateMarket]|by intros []].
  - apply wp_stays; [done|apply leaves_safe; [apply ticks_saveOrder|apply leaves_saveOrder]|by intros [[]|]].
  - apply post_stays; [by apply safe_completing|exact (proj2 (proj1 (completes_step cfg q pl id st n w)))].
  - apply post_stays; [by apply safe_completing|exact (proj2 (proj2 (completes_step cfg q pl id st n w)))].
  - simpl. destruct (decide (rq_key q = key)) as [Heq|Hne].
    + apply inv_false, (safe_cleanup (rq_UserID q) (rq_hash q) w) in Hinv. unfold wp, mbind.
      destruct (adapter_FailCleanup _ _ w) as [r w1]. split; [done|]. intros _ _ _. right. by left.
    + assert (Hs : safe b (adapter_FailCleanup (rq_UserID q) (rq_hash q)))
        by (apply leaves_safe; [apply ticks_cleanup|by apply leaves_cleanup]).
      apply (Hs w) in Hinv. unfold wp, mbind. destruct (adapter_FailCleanup _ _ w) as [r w1]. by split.
  - by apply wp_ret, post_stays.
Qed.
End Key.

(** ** The pool *)

Section Pool.
Context {St R : Type} `{HRd : Redis R} `{!RedisLaws R} `{PT : PgTypes} `{DL : DecimalLib} `{PC : PriceColumn}
  `{U : GoLib} `{L : LuaNumbers} `{EC : EntryCodec} `{!EntryCodecLaws EC} `{SH : Sha256} `{TT : PbTime}
  `{PB : !ProtoCodec}.
Context `{HD : !Has (pg OrderDB) St} `{HR : !Has R St} `{HQ : !Has block_queue St} `{MV : !MarketViewer St}.
Context `{HA : !Apart R (pg OrderDB) St} `{HB : !Apart block_queue (pg OrderDB) St}
  `{HA' : !Apart (pg OrderDB) R St} `{HB' : !Apart block_queue R St}.
Variable cfg : svc_config.
Implicit Types (w : world St) (q : request) (p : point) (l : list (request * point)).

Lemma holders_middle key l1 q p l2 :
  holders key (l1 ++ (q, p) :: l2) =
  (holders key (l1 ++ l2) + if decide (rq_key q = key) then weight p else 0)%nat.
Proof.
  unfold holders, own. rewrite !filter_app.
  destruct (decide (rq_key q = key)) as [Hq|Hq]; [rewrite filter_cons_True by done|rewrite filter_cons_False by done];
    rewrite !sum_list_with_app; simpl; lia.
Qed.

Lemma placed_middle l1 q p l2 :
  placed_by (l1 ++ (q, p) :: l2) ≡ₚ
  match placed p with
  | Some id => (id, (rq_UserID q, rq_MarketID q)) :: placed_by (l1 ++ l2)
  | None => placed_by (l1 ++ l2)
  end.
Proof.
  unfold placed_by. rewrite !omap_app. cbn [omap list_omap]. destruct (placed p); cbn; [|done].
  by rewrite Permutation_middle.
Qed.

Lemma weight_placed p : (weight p <= 1)%nat /\ forall id, placed p = Some id -> weight p = 1%nat.
Proof. split; [destruct p; simpl; try case_match; lia|]. intros id. by destruct p; simpl; try intros ->. Qed.

Lemma placed_own key l : (length (placed_by (own key l)) <= holders key l)%nat.
Proof.
  unfold holders, placed_by. induction (own key l) as [|[q p] l' IH]; [done|]. cbn [omap list_omap sum_list_with].
  destruct (weight_placed p) as [_ Hw]. destruct (placed p) as [id|]; simpl in *; [rewrite (Hw id eq_refl)|]; lia.
Qed.

(** *** The key *)

Definition key_inv key T0 T l w : Prop :=
  (holders key l <= 1)%nat /\ inv key T0 T (bool_decide (holders key l = 1%nat)) w.

Lemma key_inv_step key T0 T c c' :
  T < T0 + ttlMs cfg -> 0 < ttlMs cfg -> (exists u h, key = buildKey u h) ->
  pool_step cfg key c c' -> rclock c'.2 <= T -> key_inv key T0 T c.1 c.2 -> key_inv key T0 T c'.1 c'.2.
Proof.
  intros Hspan Hpos Hkey [l1 q p l2 w p' w' Hs|l w w' ([n Hn] & _ & _ & Hv)] HT [Hle Hinv]; simpl in *.
  - assert (Hpost := step_safe cfg key T0 T Hspan Hpos Hkey _ q p w Hinv). unfold wp in Hpost. rewrite Hs in Hpost.
    destruct Hpost as [Hother Hown]. unfold key_inv. rewrite !holders_middle in *.
    destruct (decide (rq_key q = key)) as [Hq|Hq]; [|split; [lia|by apply Hother]].
    assert (Hheld : weight p = 1%nat -> bool_decide (holders key (l1 ++ l2) + weight p = 1)%nat = true)
      by (intros H1; apply bool_decide_true; lia).
    simpl in Hown. destruct (Hown Hq (λ _, HT) Hheld) as [[Heq Hi]|[(H1 & H0 & Hi)|(H0 & H1 & Hb & Hi)]].
    + by rewrite Heq.
    + split; [lia|]. by rewrite bool_decide_false by lia.
    + apply bool_decide_eq_false in Hb. split; [lia|]. by rewrite bool_decide_true by lia.
  - split; [done|]. by eapply inv_ticks.
Qed.

Lemma key_inv_run key T0 T c c' :
  T < T0 + ttlMs cfg -> 0 < ttlMs cfg -> (exists u h, key = buildKey u h) -> redis_monotone (w_env c.2) ->
  rtc (pool_step cfg key) c c' -> rclock c'.2 <= T -> key_inv key T0 T c.1 c.2 -> key_inv key T0 T c'.1 c'.2.
Proof.
  intros Hspan Hpos Hkey Hmono Hrun. induction Hrun as [c|c c1 c' Hs Hrun IH]; [done|]. intros HT Hinv.
  destruct (pool_ticks _ _ _ _ Hs) as [n Hn]. destruct (pool_runs _ _ _ _ Hrun) as [k Hk].
  destruct (rclock_ticks n c.2 c1.2 Hmono Hn) as [Hmono1 _]. destruct (rclock_ticks k c1.2 c'.2 Hmono1 Hk) as [_ Hc].
  apply IH; [done|done|]. eapply key_inv_step; [done..| |done]. lia.
Qed.

(** *** The orders *)

Definition orders_inv (o : gmap UUID (UUID * UUID)) l w : Prop :=
  answered (w_env w) /\ tx_of (D := OrderDB) (w_st w) = TxNone /\ NoDup (placed_by l).*1 /\
  (forall id, id ∈ (placed_by l).*1 -> o !! id = None) /\
  owners (db_of (w_st w)) = list_to_map (placed_by l) ∪ o.

Lemma orders_inv_perm o l l' w : placed_by l ≡ₚ placed_by l' -> orders_inv o l w -> orders_inv o l' w.
Proof.
  intros Hp (Ha & Ht & Hnd & Hnew & Ho).
  split_and!; [done|done|by rewrite <- Hp|intros id; rewrite <- Hp; apply Hnew|].
  by rewrite Ho, (list_to_map_proper _ _ Hnd Hp).
Qed.

Lemma orders_inv_step o key c c' :
  pool_step cfg key c c' -> orders_inv o c.1 c.2 -> orders_inv o c'.1 c'.2.
Proof.
  intros [l1 q p l2 w p' w' Hs|l w w' ([n Hn] & Htx & How & _)]; simpl.
  2: { intros (Ha & _ & Hnd & Hnew & Ho). split_and!; try done; [by rewrite Hn, answered_ticks|by rewrite How]. }
  intros (Ha & Ht & Hnd & Hnew & Ho). assert (Hstep := step_orders cfg q p w Ha Ht). unfold wp in Hstep.
  assert (Ha' : answered (w_env w')) by (destruct (ticks_step cfg q p w) as [n Hn]; rewrite Hs in Hn; simpl in Hn; by rewrite Hn, answered_ticks).
  rewrite Hs in Hstep. cbn [fst snd] in Hstep. destruct Hstep as [Ht' [[Hpl How]|(Hnone & id & Hsome & Hfresh & How)]].
  - apply (orders_inv_perm _ (l1 ++ (q, p) :: l2)); [by rewrite !placed_middle, Hpl|]. simpl in How.
    split_and!; try done. by rewrite How.
  - assert (Hm := placed_middle l1 q p l2). rewrite Hnone in Hm.
    assert (Hm' := placed_middle l1 q p' l2). simpl in Hsome. rewrite Hsome in Hm'.
    rewrite Ho in Hfresh. apply lookup_union_None in Hfresh as [Hfresh Hfresh'].
    assert (Hnd2 : NoDup (placed_by (l1 ++ l2)).*1) by (by rewrite <- Hm).
    assert (Hmap : list_to_map (placed_by (l1 ++ (q, p) :: l2)) = list_to_map (M := gmap UUID (UUID * UUID)) (placed_by (l1 ++ l2)))
      by (by apply list_to_map_proper).
    assert (Hnotin : id ∉ (placed_by (l1 ++ l2)).*1) by (rewrite Hmap in Hfresh; by apply not_elem_of_list_to_map).
    assert (Hnd' : NoDup (placed_by (l1 ++ (q, p') :: l2)).*1) by (rewrite Hm'; simpl; by constructor).
    split_and!; [done|done|done| |].
    + intros i. rewrite Hm'. simpl. rewrite elem_of_cons. intros [->|Hi]; [done|]. apply Hnew. by rewrite Hm.
    + simpl in How. rewrite How, Ho, (list_to_map_proper _ _ Hnd' Hm'), Hmap. simpl. by rewrite insert_union_l.
Qed.

Lemma orders_inv_run o key c c' :
  rtc (pool_step cfg key) c c' -> orders_inv o c.1 c.2 -> orders_inv o c'.1 c'.2.
Proof. induction 1 as [|c c1 c' Hs _ IH]; [done|]. intros Hinv. by eapply IH, orders_inv_step. Qed.

(** C3 Any number of CreateOrder requests, of any users and instances, interleaved
    with everything else the system does: while the time to live of a key that
    was free has not passed, at most one of the requests with this key places
    an order.  The orders that all of them placed are new, and they are the
    only ones that were added.  Calls may fail and requests may be abandoned at
    any point; only a reply that is lost after the call took effect is
    excluded. *)
Theorem one_order_per_key userID requestHash qs w l' w' :
  let key := buildKey userID requestHash in
  answered (w_env w) -> genuine (w_env w) -> redis_monotone (w_env w) ->
  tx_of (D := OrderDB) (w_st w) = TxNone -> 0 < ttlMs cfg ->
  view (prj (X := R) (w_st w)) (rclock w) key = None ->
  rtc (pool_step cfg key) ((λ q, (q, Arrived)) <$> qs, w) (l', w') ->
  rclock w' < rclock w + ttlMs cfg ->
  (length (placed_by (own key l')) <= 1)%nat /\
  NoDup (placed_by l').*1 /\ (forall id, id ∈ (placed_by l').*1 -> owners (db_of (w_st w)) !! id = None) /\
  owners (db_of (w_st w')) = list_to_map (placed_by l') ∪ owners (db_of (w_st w)).
Proof.
  intros key Hans Hgen Hmono Hidle Hpos Hfresh Hrun Hlt.
  assert (Hnone : placed_by ((λ q, (q, Arrived)) <$> qs) = []) by (clear; by induction qs).
  assert (Hzero : holders key ((λ q, (q, Arrived)) <$> qs) = 0%nat).
  { unfold holders, own. clear. induction qs as [|q qs IH]; [done|]. rewrite fmap_cons.
    destruct (decide (rq_key q = key)); [rewrite filter_cons_True by done|rewrite filter_cons_False by done]; done. }
  assert (Hkey : key_inv key (rclock w) (rclock w') l' w').
  { apply (key_inv_run key (rclock w) (rclock w') ((λ q, (q, Arrived)) <$> qs, w) (l', w') Hlt Hpos ltac:(by do 2 eexists) Hmono Hrun); [done|].
    split; simpl; rewrite Hzero; [lia|]. rewrite bool_decide_false by done. split_and!; [done|done|done|].
    split; [|done]. intros v e. by rewrite Hfresh. }
  assert (Hord : orders_inv (owners (db_of (w_st w))) l' w').
  { apply (orders_inv_run _ _ ((λ q, (q, Arrived)) <$> qs, w) (l', w') Hrun). unfold orders_inv. simpl. rewrite Hnone. simpl.
    split_and!; [done|done|constructor|by intros id Hid%elem_of_nil|by rewrite map_empty_union]. }
  destruct Hkey as [Hle _], Hord as (_ & _ & Hnd & Hnew & Ho). split_and!; [|done|done|done].
  pose proof (placed_own key l'). lia.
Qed.

(** A schedule names the request that takes the next step. *)
Definition advance (i : nat) (c : list (request * point) * world St) : list (request * point) * world St :=
  match c.1 !! i with
  | Some (q, p) => let '(p', w') := step cfg q p c.2 in (<[i := (q, p')]> c.1, w')
  | None => c
  end.

Lemma advance_runs key schedule c : rtc (pool_step cfg key) c (foldl (λ c i, advance i c) c schedule).
Proof.
  revert c. induction schedule as [|i schedule IH]; intros [l w]; [done|]. simpl. etrans; [|apply IH].
  unfold advance. simpl. destruct (l !! i) as [[q p]|] eqn:Hl; [|done].
  destruct (step cfg q p w) as [p' w'] eqn:Hs. apply rtc_once.
  assert (Hi : (i < length l)%nat) by by apply lookup_lt_Some in Hl.
  rewrite insert_take_drop by done. rewrite <- (take_drop_middle _ _ _ Hl) at 1. by constructor.
Qed.
End Pool.

(** ** Two deliveries of a request, interleaved *)

Section ConcurrentWitness.
#[local] Existing Instance MemRedis.mem_redis.
#[local] Existing Instance MemRedis.mem_redis_laws.
#[local] Existing Instance DecLib.
#[local] Existing Instance DecLib_laws.
#[local] Existing Instance IntDec.
#[local] Existing Instance IntDec_laws.
#[local] Existing Instance IntPrice.
#[local] Existing Instance IntPrice_laws.
#[local] Existing Instance MicroPg.
#[local] Existing Instance MicroPg_laws.
#[local] Existing Instance IntLua.
#[local] Existing Instance TextEntryCodec.
#[local] Existing Instance TextEntryCodec_laws.
#[local] Existing Instance IdTime.
#[local] Existing Instance TextProto.
#[local] Existing Instance raw_sha.
#[local] Existing Instance open_viewer.

Notation demo_state := (pg OrderDB * (gmap string (string * option Z) * block_queue))%type.

Definition demo_request : request := {|
  rq_UserID := 7%N; rq_MarketID := 9%N; rq_Type := OrderTypeLimit; rq_Price := demo_price; rq_Quantity := 3 |}.

(** The second one arrives before the first one has saved its order, finds the
    key taken, and recovers the order once it is there. *)
Definition demo_deliveries : list (request * point) * world demo_state :=
  foldl (λ c i, advance demo_cfg i c) ((λ q, (q, Arrived)) <$> [demo_request; demo_request], demo_start)
    [0; 0; 0; 1; 0; 1; 0; 1]%nat.

Example demo_deliveries_replies :
  demo_deliveries.1.*2 = [Replied (Some 8%N) (Ok (8%N, OrderStatusCreated)); Replied None (Ok (8%N, OrderStatusCreated))].
Proof. vm_compute. reflexivity. Qed.

Lemma one_order_per_key_witness :
  (length (placed_by (own (rq_key demo_request) demo_deliveries.1)) <= 1)%nat /\
  owners (db_of (w_st demo_deliveries.2)) = {[8%N := (7%N, 9%N)]}.
Proof.
  destruct (one_order_per_key demo_cfg 7%N (rq_hash demo_request) [demo_request; demo_request] demo_start
    demo_deliveries.1 demo_deliveries.2) as (Hone & _ & _ & Ho).
  - intros n x. done.
  - by intros n x [|].
  - by intros m n _.
  - reflexivity.
  - vm_compute. reflexivity.
  - vm_compute. reflexivity.
  - rewrite <- surjective_pairing. apply advance_runs.
  - vm_compute. reflexivity.
  - split; [exact Hone|]. etrans; [exact Ho|]. vm_compute. reflexivity.
Defined.
(** With the reply to COMMIT lost, the first delivery fails although its order
    is there, gives the key back, and the second one places another order. *)
Definition lossy_env : env :=
  Env (λ n, if (n =? 11)%nat then FAfter (EMsg "connection reset") else FNone) (λ _, None) (λ _, 0) (λ _, 0) (λ _, 0)
    (λ n, N.of_nat (S n)) 0.

Example lost_commit_two_orders :
  let c := foldl (λ c i, advance demo_cfg i c)
    ((λ q, (q, Arrived)) <$> [demo_request; demo_request], World lossy_env (w_st demo_start))
    [0; 0; 0; 0; 0; 1; 1; 1; 1; 1]%nat in
  (length (own (rq_key demo_request) c.1), length (map_to_list (owners (db_of (w_st c.2))))) = (2, 2)%nat.
Proof. vm_compute. reflexivity. Qed.
End ConcurrentWitness.
