(* ===== verification/Compensation.v ===== *)
(** * Market compensation
      (orderService/internal/services/order/compensation_service.go,
       services/consumer/market_consumer.go)

    When a market becomes unavailable its active orders are cancelled, each
    with an outbox event, in one transaction with the inbox row that makes the
    event's processing idempotent; the block state in Redis follows after the
    commit.  The properties: all of it or none of it happens under every
    pattern of failures, a processed event never acts again however often it
    is delivered, and no committed inbox row says "processing". *)

From S2P Require Import Prelude GoStrings GoErrors Effects Redis Pg Kafka Outbox Domain Events OrderDb MarketBlock OrderService OrderCorrect.
Local Open Scope string_scope.
Local Open Scope list_scope.
Local Open Scope Z_scope.

Section Service.
Context {St R : Type} `{HRd : Redis R} `{PT : PgTypes} `{DL : DecimalLib} `{PC : PriceColumn}
  `{U : GoLib} `{L : LuaNumbers} `{TT : PbTime} `{PB : !ProtoCodec}.
Context `{HD : !Has (pg OrderDB) St} `{HR : !Has R St}.
Variable blockTtl : Z.

(** The market of the event takes no more orders. *)
Definition unavailable (event : MarketStateChangedEvent) : bool :=
  negb (mse_Enabled event && match mse_DeletedAt event with None => true | _ => false end).

Definition cancel_reason : string := "market became unavailable".

Definition publishCancelledOrderEvents (marketEvent : MarketStateChangedEvent)
    (orderIDs : list UUID) : M St (option error) :=
  for_each orderIDs (λ orderID,
    let! id := uuid_New in
    let! now := time_Now in
    let! r := ProduceOrderStatusUpdated {|
      osu_EventID := id; osu_OrderID := orderID; osu_NewStatus := OrderStatusCancelled;
      osu_Reason := cancel_reason; osu_CorrelationID := mse_EventID marketEvent;
      osu_UpdatedAt := now |} in
    mret match r with
         | Ok _ => None
         | Err e => Some (wrap ("publish cancelled order status event for order " +:+
                                uuid_string orderID) e)
         end).

Definition applyCompensationTransaction (event : MarketStateChangedEvent) : M St (result unit) :=
  if negb (unavailable event) then mret (Ok tt)
  else
    let! r := CancelActiveOrdersByMarket (mse_MarketID event) in
    match r with
    | Err err => mret (Err err)
    | Ok cancelledIDs =>
        let! r := publishCancelledOrderEvents event cancelledIDs in
        mret match r with Some err => Err err | None => Ok tt end
    end.

Definition failProcessing (op : string) (inboxEvent : InboxEvent) (processErr : error) :
    M St (result unit) :=
  rollbackTransaction ;;!
  let! r := SaveFailed inboxEvent (error_text processErr) in
  mret match r with
       | Err saveErr =>
           Err (EWrap (op +:+ ": ") processErr
                  (" (additionally failed to persist inbox failure: " +:+ error_text saveErr +:+ ")"))
       | Ok _ => Err (wrap op processErr)
       end.

Definition synchronizeMarketBlockState (event : MarketStateChangedEvent) : M St (result bool) :=
  SynchronizeState blockTtl (mse_MarketID event) (unavailable event) (mse_UpdatedAt event).

(** Errors are logged and counted. *)
Definition trySynchronizeMarketBlockState (event : MarketStateChangedEvent) : M St unit :=
  synchronizeMarketBlockState event ;;! mret tt.

(** The flag says that the transaction is closed. *)
Definition handleSkippedEvent (event : MarketStateChangedEvent) (currentStatus : string) :
    M St (bool * option error) :=
  let! r := commitTransaction in
  match r with
  | Err err => mret (false, Some (wrap "commit skipped transaction" err))
  | Ok _ =>
      (if bool_decide (currentStatus = InboxEventStatusProcessed) then
         trySynchronizeMarketBlockState event
       else if bool_decide (currentStatus = InboxEventStatusProcessing) then
         trySynchronizeMarketBlockState event
       else mret tt) ;;!
      mret (true, None)
  end.

Definition op_Process : string := "MarketCompensationService.ProcessMarketStateChanged".

(** The columns the INSERT does not name are set by the statements. *)
Definition new_inbox_event (id eventID : UUID) (topic consumerGroup rawPayload : string) : InboxEvent := {|
  ie_ID := id; ie_EventID := eventID; ie_Topic := topic; ie_ConsumerGroup := consumerGroup;
  ie_Payload := rawPayload; ie_Status := InboxEventStatusProcessing; ie_ReceivedAt := zero_time;
  ie_ProcessedAt := None; ie_FailedAt := None; ie_ErrorMessage := None |}.

Definition ProcessMarketStateChanged (topic consumerGroup rawPayload : string)
    (event : MarketStateChangedEvent) : M St (result unit) :=
  try! _ := tx_Begin else wrap (op_Process +:+ ": begin transaction") in
  let! id := uuid_New in
  let inboxEvent := new_inbox_event id (mse_EventID event) topic consumerGroup rawPayload in
  let! r := BeginProcessing inboxEvent in
  match r with
  | Err err => failProcessing op_Process inboxEvent err
  | Ok (shouldProcess, currentStatus) =>
      if negb shouldProcess then
        let! (transactionClosed, err) := handleSkippedEvent event currentStatus in
        (if transactionClosed : bool then mret tt else rollbackTransaction) ;;!
        mret match err with Some e => Err e | None => Ok tt end
      else
        let! r := applyCompensationTransaction event in
        match r with
        | Err err => failProcessing op_Process inboxEvent err
        | Ok _ =>
            let! r := MarkProcessed (mse_EventID event) consumerGroup in
            match r with
            | Err err => failProcessing op_Process inboxEvent err
            | Ok _ =>
                let! r := commitTransaction in
                match r with
                | Err err =>
                    rollbackTransaction ;;!
                    mret (Err (wrap (op_Process +:+ ": commit transaction") err))
                | Ok _ => trySynchronizeMarketBlockState event ;;! mret (Ok tt)
                end
            end
        end
  end.

(** market_consumer.go. *)
Definition op_handleMarket : string := "MarketConsumer.handleMarketStateChanged".

Definition handleMarketStateChanged (consumerGroup : string) (topic value : string) :
    M St (result unit) :=
  match UnmarshalMarketStateChanged value with
  | Err err => mret (Err (ENonRetryable (wrap op_handleMarket err)))
  | Ok event =>
      let! r := ProcessMarketStateChanged topic consumerGroup value event in
      mret (map_err (wrap op_handleMarket) r)
  end.
End Service.

(** ** What processing an event may leave behind *)

Section Outcome.
Context `{PT : PgTypes} `{DL : DecimalLib} `{PC : PriceColumn} `{U : GoLib} `{TT : PbTime}
  `{PB : !ProtoCodec}.
Variables (event : MarketStateChangedEvent) (consumerGroup : string).

Definition event_key : UUID * string := (mse_EventID event, consumerGroup).

Definition active_ids (d : OrderDB) : list UUID :=
  or_ID <$> filter (λ r, cancellable (mse_MarketID event) r = true) (map_to_list (db_orders d)).*2.

Definition cancelled_ids (d : OrderDB) : list UUID :=
  if unavailable event then active_ids d else [].

Definition cancelled_orders (d : OrderDB) : gmap UUID OrderRow :=
  if unavailable event then
    (λ r, if cancellable (mse_MarketID event) r then cancel_row r else r) <$> db_orders d
  else db_orders d.

(** The outbox event that tells of a cancelled order. *)
Definition cancel_event (ev : OutboxEvent) : Prop :=
  oe_EventType ev = OrderStatusUpdatedEventType /\ oe_Status ev = OutboxEventStatusPending /\
  oe_RetryCount ev = 0 /\ exists upd, MarshalOrderStatusUpdated upd = Ok (oe_Payload ev) /\
    osu_OrderID upd = oe_AggregateID ev /\ osu_NewStatus upd = OrderStatusCancelled /\
    osu_CorrelationID upd = mse_EventID event.

(** New events, one for each of these orders. *)
Definition events_added (ids : list UUID) (t t' : outbox) : Prop :=
  exists evs, t' = upsert_rows evs t /\ NoDup (oe_ID <$> evs) /\
    Forall (λ ev, t !! oe_ID ev = None) evs /\ oe_AggregateID <$> evs ≡ₚ ids /\
    Forall cancel_event evs.

Record compensated (d d' : OrderDB) : Prop := {
  comp_orders : db_orders d' = cancelled_orders d;
  comp_events : events_added (cancelled_ids d) (db_outbox d) (db_outbox d');
  comp_inbox : exists row, db_inbox d' = <[event_key := row]> (db_inbox d) /\
    ie_Status row = InboxEventStatusProcessed;
  comp_first : forall row, db_inbox d !! event_key = Some row -> ie_Status row = InboxEventStatusFailed
}.

(** Only the failure was recorded. *)
Record failure_recorded (d d' : OrderDB) : Prop := {
  fail_orders : db_orders d' = db_orders d;
  fail_events : db_outbox d' = db_outbox d;
  fail_inbox : exists row, db_inbox d' = <[event_key := row]> (db_inbox d) /\
    ie_Status row = InboxEventStatusFailed;
  fail_prior : forall row, db_inbox d !! event_key = Some row ->
    ie_Status row <> InboxEventStatusProcessed
}.

Definition skipped (d d' : OrderDB) : Prop :=
  d' = d /\ exists row, db_inbox d !! event_key = Some row /\ ie_Status row <> InboxEventStatusFailed.

Definition comp_outcome (e : env) (d : OrderDB) (r : result unit) (d' : OrderDB) : Prop :=
  match r with
  | Ok _ => compensated d d' \/ skipped d d'
  | Err _ => d' = d \/ failure_recorded d d' \/ (~ answered e /\ compensated d d')
  end.

Lemma events_added_nil t : events_added [] t t.
Proof. exists []. split_and!; try done; constructor. Qed.

Lemma events_added_snoc ids t t1 id ev stored now :
  events_added ids t t1 -> t1 !! oe_ID ev = None -> stored_event now ev stored ->
  oe_AggregateID ev = id -> cancel_event stored ->
  events_added (ids ++ [id]) t (<[oe_ID ev := stored]> t1).
Proof.
  intros (evs & -> & Hnd & Hfresh & Hids & Hev) Hn (Hs1 & _ & Hs3 & _) Hid Hc.
  assert (Hnin : oe_ID stored ∉ (oe_ID <$> evs)).
  { rewrite Hs1. intros (e' & Heq & Hin)%list_elem_of_fmap. rewrite Heq in Hn.
    by rewrite (upsert_rows_in _ _ _ Hnd Hin) in Hn. }
  exists (stored :: evs). split_and!.
  - simpl. by rewrite Hs1.
  - rewrite fmap_cons. by constructor.
  - constructor; [|done]. rewrite <- Hs1 in Hn. by rewrite upsert_rows_notin in Hn.
  - rewrite fmap_cons, Hs3, Hid, Hids. by rewrite Permutation_app_comm.
  - by constructor.
Qed.
End Outcome.

(** ** The transaction *)

Section Steps.
Context {St : Type} `{PT : PgTypes} `{!PgTypesLaws PT} `{DL : DecimalLib} `{PC : PriceColumn}
  `{U : GoLib} `{TT : PbTime} `{PB : !ProtoCodec} `{HD : !Has (pg OrderDB) St}.

(** Inside the transaction that began from [d0]. *)
Definition in_tx (d0 : OrderDB) (s : St) : Prop := exists tx, prj s = Pg d0 tx.

Lemma publishCancelled_spec event ids d0 now d w :
  prj (w_st w) = Pg d0 (TxOpen now d) ->
  wp (publishCancelledOrderEvents event ids) (λ r w', match r with
     | Some _ => in_tx d0 (w_st w')
     | None => exists t, prj (w_st w') = Pg d0 (TxOpen now (set_outbox t d)) /\
                 events_added event ids (db_outbox d) t
     end /\ exists n, w_env w' = Nat.iter n tick (w_env w)) w.
Proof.
  intros Hp. apply wp_conj.
  2: { apply ticks_wp. unfold publishCancelledOrderEvents, ProduceOrderStatusUpdated,
         buildOrderStatusUpdatedOutboxEvent, SaveOutboxEvent, uuid_New, time_Now, tx_Exec, lift_pg. tick_solve. }
  apply (wp_for_each ids _ (λ done w', exists t, prj (w_st w') = Pg d0 (TxOpen now (set_outbox t d)) /\
    events_added event done (db_outbox d) t) (λ _ w', in_tx d0 (w_st w'))).
  - exists (db_outbox d). split; [|apply events_added_nil]. rewrite Hp. by destruct d.
  - intros done id rest w1 _ (t & Hp1 & Hadd). wp_steps. unfold ProduceOrderStatusUpdated.
    set (upd := Build_OrderStatusUpdatedEvent _ _ _ _ _ _).
    destruct (MarshalOrderStatusUpdated upd) as [payload|] eqn:Em.
    2: { wp_steps. by eexists. }
    unfold buildOrderStatusUpdatedOutboxEvent, SaveOutboxEvent. do 4 (wp_step; simpl). apply wp_bind, wp_bind.
    eapply wp_tx_Exec; [done|intros e w2 _ Hw2; wp_steps; by eexists|].
    intros [] d2 w2 _ (stored & -> & Hfree & Hst)%on_outbox_insert_Ok Hw2. wp_steps.
    eexists. split; [exact Hw2|]. eapply events_added_snoc; [done|exact Hfree|exact Hst|done|].
    destruct Hst as (_ & Hs2 & Hs3 & Hs4 & Hs5 & Hs6 & _). simpl in *.
    split_and!; [done|done|done|]. exists upd. by rewrite Hs3, Hs4.
Qed.

Lemma applyCompensation_spec event d0 now d w :
  prj (w_st w) = Pg d0 (TxOpen now d) ->
  wp (applyCompensationTransaction event) (λ r w', match r with
     | Err _ => in_tx d0 (w_st w')
     | Ok _ => exists d2, prj (w_st w') = Pg d0 (TxOpen now d2) /\
         db_orders d2 = cancelled_orders event d /\ db_inbox d2 = db_inbox d /\
         events_added event (cancelled_ids event d) (db_outbox d) (db_outbox d2)
     end /\ exists n, w_env w' = Nat.iter n tick (w_env w)) w.
Proof.
  intros Hp. unfold applyCompensationTransaction, cancelled_orders, cancelled_ids.
  destruct (unavailable event); simpl.
  2: { apply wp_ret. split; [|by exists 0%nat]. exists d. split_and!; [done|done|done|apply events_added_nil]. }
  unfold CancelActiveOrdersByMarket. apply wp_bind, wp_bind.
  eapply wp_tx_Exec; [done| |].
  { intros e w1 He Hw1. wp_steps. split; [by eexists|by exists 1%nat]. }
  intros ids d1 w1 He [= <- <-] Hw1. wp_steps.
  eapply wp_mono; [by eapply publishCancelled_spec|]. intros [e|] w2 [Hr [n Hn]]; wp_steps;
    (split; [|exists (n + 1)%nat; by rewrite Hn, He, Nat.iter_add]); [done|].
  destruct Hr as (t & Hw2 & evs & Ht & Hnd & Hfresh & Hids & Hev). exists (set_outbox t (set_orders
    ((λ r, if cancellable (mse_MarketID event) r then cancel_row r else r) <$> db_orders d) d)).
  split_and!; [done|done|done|]. exists evs. split_and!; try done. rewrite Hids. apply pg_any_order_perm.
Qed.

(** The inbox row of the event before and after BeginProcessing. *)
Lemma BeginProcessing_spec ev d0 now d w :
  prj (w_st w) = Pg d0 (TxOpen now d) ->
  wp (BeginProcessing ev) (λ r w', match r with
     | Err _ => in_tx d0 (w_st w')
     | Ok (true, _) => exists row, prj (w_st w') =
           Pg d0 (TxOpen now (set_inbox (<[inbox_key ev := row]> (db_inbox d)) d)) /\
         ie_Status row = InboxEventStatusProcessing /\
         (forall row0, db_inbox d !! inbox_key ev = Some row0 -> ie_Status row0 = InboxEventStatusFailed)
     | Ok (false, st) => prj (w_st w') = Pg d0 (TxOpen now d) /\
         exists row, db_inbox d !! inbox_key ev = Some row /\ ie_Status row = st /\
           st <> InboxEventStatusFailed
     end) w.
Proof.
  intros Hp. unfold BeginProcessing, tryStartProcessing, getCurrentStatus. apply wp_bind, wp_bind.
  eapply wp_tx_Exec; [done| |].
  - intros e w1 _ Hw1. wp_steps. destruct (is_sent _ _); [|wp_steps; by eexists].
    apply wp_bind, wp_bind. eapply wp_tx_Exec_aborted; [done|]. intros e2 w2 _ Hw2. wp_steps. by eexists.
  - intros rows d1 w1 _ Hb Hw1. unfold sql_begin_inbox in Hb. wp_steps.
    destruct (db_inbox d !! inbox_key ev) as [row|] eqn:Er.
    + destruct (bool_decide (ie_Status row = InboxEventStatusFailed)) eqn:Ef; injection Hb as <- <-; wp_steps.
      * apply bool_decide_eq_true in Ef. eexists. split; [exact Hw1|]. split; [done|]. by intros ? [= <-].
      * apply wp_bind, wp_bind. eapply wp_tx_Exec; [done|intros e w2 _ Hw2; wp_steps; by eexists|].
        unfold sql_inbox_status. fold (inbox_key ev). rewrite Er. intros rows d2 w2 _ [= <- <-] Hw2. wp_steps.
        split; [done|]. exists row. split_and!; [done|done|]. by apply bool_decide_eq_false in Ef.
    + destruct (has_inbox_id _ _); [done|]. injection Hb as <- <-. wp_steps.
      eexists. split; [exact Hw1|]. by split.
Qed.

Lemma ticks_BeginProcessing ev : ticks (BeginProcessing (St := St) ev).
Proof. unfold BeginProcessing, tryStartProcessing, getCurrentStatus, tx_Exec, lift_pg. tick_solve. Qed.

Lemma MarkProcessed_spec id group row d0 now d w :
  prj (w_st w) = Pg d0 (TxOpen now d) -> db_inbox d !! (id, group) = Some row ->
  ie_Status row = InboxEventStatusProcessing ->
  wp (MarkProcessed id group) (λ r w', match r with
     | Err _ => in_tx d0 (w_st w')
     | Ok _ => exists row', prj (w_st w') =
          Pg d0 (TxOpen now (set_inbox (<[(id, group) := row']> (db_inbox d)) d)) /\
          ie_Status row' = InboxEventStatusProcessed
     end /\ exists n, w_env w' = Nat.iter n tick (w_env w)) w.
Proof.
  intros Hp Hrow Hst. unfold MarkProcessed. apply wp_bind. eapply wp_tx_Exec; [done| |].
  - intros e w1 He Hw1. wp_steps. split; [by eexists|by exists 1%nat].
  - intros n d1 w1 He Hm Hw1. unfold sql_mark_processed in Hm. rewrite Hrow, bool_decide_true in Hm by done.
    injection Hm as <- <-. wp_steps. split; [|by exists 1%nat]. eexists. split; [exact Hw1|done].
Qed.

(** After a rollback the failure is recorded, or it is not. *)
Lemma failProcessing_spec op event group id topic payload err d0 w :
  in_tx d0 (w_st w) ->
  wp (failProcessing op (new_inbox_event id (mse_EventID event) topic group payload) err)
    (λ r w', is_Ok r = false /\ tx_of (w_st w') = TxNone /\
       (db_of (w_st w') = d0 \/ failure_recorded event group d0 (db_of (w_st w')))) w.
Proof.
  intros [tx Hp]. unfold failProcessing. apply wp_bind, wp_Rollback. intros w1 Hdb Htx.
  unfold db_of in Hdb at 2. rewrite Hp in Hdb. simpl in Hdb. unfold SaveFailed, pool_Exec.
  apply wp_bind, wp_bind, wp_pg. intros t f w2 Hw2. wp_steps.
  assert (Hop : pg_tx (faulty (pg_pool (sql_save_failed (new_inbox_event id (mse_EventID event) topic group payload)
      (error_text err)) t) f (prj (w_st w1))).2 = TxNone /\
    (pg_db (faulty (pg_pool (sql_save_failed (new_inbox_event id (mse_EventID event) topic group payload)
      (error_text err)) t) f (prj (w_st w1))).2 = d0 \/
     failure_recorded event group d0 (pg_db (faulty (pg_pool (sql_save_failed
      (new_inbox_event id (mse_EventID event) topic group payload) (error_text err)) t) f (prj (w_st w1))).2))).
  { apply (faulty_inv _ (λ p, pg_tx p = TxNone /\ (pg_db p = d0 \/ failure_recorded event group d0 (pg_db p)))).
    - split; [done|by left].
    - unfold pg_pool, sql_save_failed. fold (db_of (w_st w1)). rewrite Hdb.
      change (inbox_key _) with (event_key event group).
      destruct (db_inbox d0 !! event_key event group) as [row|] eqn:Er.
      + destruct (_ || _) eqn:Eb; simpl; (split; [done|]); [right|by left]. split; simpl; [done|done|by eexists|].
        rewrite Er. intros ? [= <-] Hs. by rewrite Hs in Eb.
      + destruct (has_inbox_id _ _); simpl; (split; [done|]); [by left|right].
        split; simpl; [done|done|by eexists|]. by rewrite Er. }
  unfold tx_of, db_of. rewrite Hw2. destruct Hop as [Ht Hd]. split_and!; [|done|done].
  by destruct (expect_row _ _ _).
Qed.
End Steps.

Section Process.
Context {St R : Type} `{HRd : Redis R} `{PT : PgTypes} `{!PgTypesLaws PT} `{DL : DecimalLib}
  `{PC : PriceColumn} `{U : GoLib} `{L : LuaNumbers} `{TT : PbTime} `{PB : !ProtoCodec}.
Context `{HD : !Has (pg OrderDB) St} `{HR : !Has R St} `{HA : !Apart R (pg OrderDB) St}.
Variables (blockTtl : Z) (event : MarketStateChangedEvent) (consumerGroup : string).

Lemma frames_trySynchronize : frames (prj (X := pg OrderDB)) (trySynchronizeMarketBlockState blockTtl event).
Proof.
  unfold trySynchronizeMarketBlockState, synchronizeMarketBlockState, SynchronizeState,
    invalidateCorruptedState, cache_Delete. frame_solve.
Qed.

Lemma ticks_trySynchronize : ticks (trySynchronizeMarketBlockState (St := St) blockTtl event).
Proof.
  unfold trySynchronizeMarketBlockState, synchronizeMarketBlockState, SynchronizeState,
    invalidateCorruptedState, cache_Delete, redis_call. tick_solve.
Qed.

(** The condition on the final state, with the tables at the start and the
    environment. *)
Definition comp_post (e : env) (d : OrderDB) (r : result unit) (s' : St) : Prop :=
  tx_of (D := OrderDB) s' = TxNone /\ comp_outcome event consumerGroup e d r (db_of s').

(** Framed steps after the outcome is fixed. *)
Lemma wp_frame_post {A} (m : M St A) r e d w :
  frames (prj (X := pg OrderDB)) m -> comp_post e d r (w_st w) ->
  wp (m ;;! mret r) (λ r w', comp_post e d r (w_st w')) w.
Proof.
  intros Hm Hpost. apply wp_bind. eapply wp_mono; [apply Hm|]. simpl. intros _ w' Hw. wp_steps.
  unfold comp_post, tx_of, db_of in *. by rewrite Hw.
Qed.

Lemma wp_fail_post op id topic payload err e d w :
  in_tx d (w_st w) ->
  wp (failProcessing op (new_inbox_event id (mse_EventID event) topic consumerGroup payload) err)
    (λ r w', comp_post e d r (w_st w')) w.
Proof.
  intros Hin. eapply wp_mono; [by eapply (failProcessing_spec op event)|].
  intros [[]|err'] w' (Hr & Htx & Hd); [done|]. split; [done|]. simpl. by destruct Hd; [left|right; left].
Qed.

Lemma handleSkipped_spec st e d now w :
  prj (w_st w) = Pg d (TxOpen now d) -> skipped event consumerGroup d d ->
  wp (let! (transactionClosed, err) := handleSkippedEvent blockTtl event st in
      (if transactionClosed : bool then mret tt else rollbackTransaction) ;;!
      mret match err with Some e => Err e | None => Ok tt end)
    (λ r w', comp_post e d r (w_st w')) w.
Proof.
  intros Hp Hsk. unfold handleSkippedEvent. apply wp_bind, wp_bind. unfold commitTransaction.
  assert (Herr : forall err w1, prj (w_st w1) = Pg d (TxNone (D := OrderDB)) ->
    wp (rollbackTransaction ;;! mret (Err (wrap "commit skipped transaction" err)))
      (λ r w', comp_post e d r (w_st w')) w1).
  { intros err w1 Hw1. apply wp_bind, wp_Rollback. intros w2 Hdb Htx. wp_steps. split; [done|].
    left. rewrite Hdb. unfold db_of. by rewrite Hw1. }
  eapply wp_commit; [done| |intros err w1 _ Hw1; apply wp_ret, Herr, Hw1
    |intros err w1 _ _ Hw1; apply wp_ret, Herr, Hw1].
  intros w1 _ Hw1. apply wp_bind.
  assert (Hf : frames (prj (X := pg OrderDB))
    (if bool_decide (st = InboxEventStatusProcessed) then trySynchronizeMarketBlockState blockTtl event
     else if bool_decide (st = InboxEventStatusProcessing) then trySynchronizeMarketBlockState blockTtl event
     else mret tt)).
  { repeat case_bool_decide; first [apply frames_trySynchronize | apply frames_ret]. }
  eapply wp_mono; [apply Hf|]. simpl. intros _ w2 Hw2. wp_steps.
  unfold comp_post, tx_of, db_of. rewrite Hw2, Hw1. split; [done|]. by right.
Qed.

Lemma process_spec topic payload w :
  tx_of (D := OrderDB) (w_st w) = TxNone ->
  wp (ProcessMarketStateChanged blockTtl topic consumerGroup payload event)
    (λ r w', comp_post (w_env w) (db_of (w_st w)) r (w_st w')) w.
Proof.
  intros Hidle. unfold ProcessMarketStateChanged. apply wp_bind.
  set (d := db_of (D := OrderDB) (w_st w)).
  assert (Hp : prj (w_st w) = Pg d (TxNone (D := OrderDB))).
  { unfold d, db_of, tx_of in *. destruct (prj (w_st w)). simpl in *. by subst. }
  apply wp_pg_env. intros t f w1 _ He1 Hw1. rewrite Hp in *. destruct f as [|e|e]; simpl in *;
    [|wp_steps; unfold comp_post, tx_of, db_of; rewrite Hw1; split; [done|by left]..].
  wp_steps. rename w1 into w0. set (id := e_uuid (w_env w0) (e_tick (w_env w0))).
  eapply wp_mono; [apply wp_conj; [by eapply BeginProcessing_spec|apply ticks_wp, ticks_BeginProcessing]|].
  intros [[[] st]|err] w1 [Hb [m Hm]]; simpl in Hm; [| |by apply wp_fail_post].
  2: { destruct Hb as (Hw2 & row & Hrow & Hst & Hne). eapply handleSkipped_spec; [done|].
       split; [done|]. exists row. split; [done|]. by rewrite Hst. }
  destruct Hb as (row & Hw2 & Hrow & Hfirst). simpl. apply wp_bind.
  eapply wp_mono; [by eapply applyCompensation_spec|]. intros [[]|err] w2 [Hr [n Hn]]; [|by apply wp_fail_post].
  destruct Hr as (d2 & Hw3 & Ho & Hi & Hev). simpl in Hi. apply wp_bind.
  eapply wp_mono; [eapply (MarkProcessed_spec _ _ row); [done| |done]|].
  { by rewrite Hi, lookup_insert_eq. }
  intros [[]|err] w3 [Hr [k Hk]]; [|by apply wp_fail_post]. destruct Hr as (row' & Hw4 & Hst').
  set (d3 := set_inbox _ d2) in Hw4.
  assert (Hdone : compensated event consumerGroup d d3).
  { split; simpl; [done|done| |done]. exists row'. split; [|done]. rewrite Hi. by rewrite insert_insert_eq. }
  apply wp_bind. unfold commitTransaction. eapply wp_commit; [done| | |].
  - intros w4 _ Hw5. apply wp_frame_post; [apply frames_trySynchronize|].
    unfold comp_post, tx_of, db_of. rewrite Hw5. split; [done|]. by left.
  - intros err w4 _ Hw5. apply wp_bind, wp_Rollback. intros w5 Hdb Htx. wp_steps. split; [done|].
    left. rewrite Hdb. unfold db_of. by rewrite Hw5.
  - intros err w4 _ Hna Hw5. apply wp_bind, wp_Rollback. intros w5 Hdb Htx. wp_steps. split; [done|].
    right. right. rewrite Hdb. unfold db_of. rewrite Hw5. split; [|done].
    intros Ha. apply Hna. rewrite Hk, answered_ticks, Hn, answered_ticks, Hm, answered_ticks, answered_tick, He1. done.
Qed.

(** *** Properties *)

(** C6 Compensation is atomic under every pattern of failing calls and lost
    replies.  Success means that the event was skipped as already handled, or
    that in one commit every active order of an unavailable market was
    cancelled, one status event per cancelled order was added to the outbox,
    and the inbox row was marked processed.  An error means that nothing
    changed, or only the failure was recorded in the inbox, or all of it
    happened and the reply to COMMIT was lost.  No transaction stays open. *)
Theorem compensation_atomic topic payload w :
  tx_of (D := OrderDB) (w_st w) = TxNone ->
  wp (ProcessMarketStateChanged blockTtl topic consumerGroup payload event)
    (λ r w', tx_of (D := OrderDB) (w_st w') = TxNone /\
       comp_outcome event consumerGroup (w_env w) (db_of (w_st w)) r (db_of (w_st w'))) w.
Proof. apply process_spec. Qed.

(** The event's inbox row is final. *)
Definition processed (key : UUID * string) (d : OrderDB) : Prop :=
  exists row, db_inbox d !! key = Some row /\ ie_Status row = InboxEventStatusProcessed.

(** Anything the service commits: some delivery's effect, or a change outside
    the inbox. *)
Inductive db_step (d d' : OrderDB) : Prop :=
| db_compensated ev group : compensated ev group d d' -> db_step d d'
| db_failed ev group : failure_recorded ev group d d' -> db_step d d'
| db_outside : db_inbox d' = db_inbox d -> db_step d d'.

Lemma processed_step key d d' : db_step d d' -> processed key d -> processed key d'.
Proof.
  intros Hs (row & Hrow & Hst). unfold processed. destruct Hs as [ev g [_ _ (r & Hi & Hr) Hf]|ev g [_ _ (r & Hi & Hr) Hf]|Hi].
  - rewrite Hi. destruct (decide (event_key ev g = key)) as [<-|Hne].
    + rewrite lookup_insert_eq. by eexists.
    + rewrite lookup_insert_ne by done. by eexists.
  - rewrite Hi. destruct (decide (event_key ev g = key)) as [<-|Hne].
    + by destruct (Hf row Hrow).
    + rewrite lookup_insert_ne by done. by eexists.
  - rewrite Hi. by eexists.
Qed.

Lemma processed_steps key d d' : rtc db_step d d' -> processed key d -> processed key d'.
Proof. induction 1; eauto using processed_step. Qed.

(** C7 Exactly once: after one delivery of an event took effect, and whatever
    else the service committed since, delivering the event again, any number
    of times and under any failures, changes no order, no outbox row and no
    inbox row. *)
Theorem compensation_once topic payload d1 d2 w :
  compensated event consumerGroup d1 d2 -> rtc db_step d2 (db_of (w_st w)) ->
  tx_of (D := OrderDB) (w_st w) = TxNone ->
  wp (ProcessMarketStateChanged blockTtl topic consumerGroup payload event)
    (λ _ w', db_of (D := OrderDB) (w_st w') = db_of (w_st w)) w.
Proof.
  intros [_ _ (row & Hi & Hst) _] Hsteps Hidle.
  destruct (processed_steps (event_key event consumerGroup) _ _ Hsteps) as (row' & Hrow' & Hst').
  { exists row. by rewrite Hi, lookup_insert_eq. }
  eapply wp_mono; [by apply process_spec|]. intros [[]|e] w' [_ Ho]; simpl in Ho.
  - destruct Ho as [[_ _ _ Hf]|[Ho _]]; [|done]. specialize (Hf _ Hrow'). by rewrite Hf in Hst'.
  - destruct Ho as [Ho|[[_ _ _ Hf]|[_ [_ _ _ Hf]]]]; [done|by destruct (Hf _ Hrow')|].
    specialize (Hf _ Hrow'). by rewrite Hf in Hst'.
Qed.

Definition inbox_settled (d : OrderDB) : Prop :=
  map_Forall (λ _ row, ie_Status row <> InboxEventStatusProcessing) (db_inbox d).

(** No inbox row is ever committed as "processing": the marker lives inside
    the transaction that also finishes the event, so a crash or failure at any
    point leaves the event processed, failed or unrecorded, and redelivery is
    never blocked by a stale marker. *)
Theorem inbox_never_stuck topic payload w :
  tx_of (D := OrderDB) (w_st w) = TxNone -> inbox_settled (db_of (w_st w)) ->
  wp (ProcessMarketStateChanged blockTtl topic consumerGroup payload event)
    (λ _ w', inbox_settled (db_of (w_st w'))) w.
Proof.
  intros Hidle Hs. eapply wp_mono; [by apply process_spec|]. intros r w' [_ Ho].
  assert (Hins : forall d', (exists row, db_inbox d' = <[event_key event consumerGroup := row]>
      (db_inbox (db_of (D := OrderDB) (w_st w))) /\ ie_Status row <> InboxEventStatusProcessing) -> inbox_settled d').
  { intros d' (row & Hi & Hst). unfold inbox_settled. rewrite Hi. by apply map_Forall_insert_2. }
  assert (Hc : forall d', compensated event consumerGroup (db_of (w_st w)) d' -> inbox_settled d').
  { intros d' [_ _ (row & Hi & Hst) _]. apply Hins. exists row. by rewrite Hst. }
  destruct r as [[]|e]; simpl in Ho.
  - destruct Ho as [Ho|[-> _]]; auto.
  - destruct Ho as [->|[[_ _ (row & Hi & Hst) _]|[_ Ho]]]; auto. apply Hins. exists row. by rewrite Hst.
Qed.

(** Compensation cancels exactly the active orders of the market: when the
    first processing of an event of an unavailable market succeeds, every
    created or pending order of the market is cancelled and has a new status
    event, and every other order is as before. *)
Theorem compensation_cancels topic payload w :
  tx_of (D := OrderDB) (w_st w) = TxNone -> orders_keyed (db_of (w_st w)) ->
  unavailable event = true ->
  (forall row, db_inbox (db_of (D := OrderDB) (w_st w)) !! event_key event consumerGroup = Some row ->
     ie_Status row = InboxEventStatusFailed) ->
  wp (ProcessMarketStateChanged blockTtl topic consumerGroup payload event)
    (λ r w', r = Ok tt -> forall id,
       db_orders (db_of (w_st w')) !! id =
         (λ row, if cancellable (mse_MarketID event) row then cancel_row row else row) <$>
           db_orders (db_of (w_st w)) !! id /\
       (forall row, db_orders (db_of (w_st w)) !! id = Some row ->
          cancellable (mse_MarketID event) row = true ->
          exists evID ev, db_outbox (db_of (w_st w)) !! evID = None /\
            db_outbox (db_of (w_st w')) !! evID = Some ev /\ oe_AggregateID ev = id /\
            cancel_event event ev)) w.
Proof.
  intros Hidle Hkeyed Hun Hfirst. eapply wp_mono; [by apply process_spec|].
  intros r w' [_ Ho] ->. simpl in Ho. destruct Ho as [[Hord Hev _ _]|[_ (row & Hrow & Hne)]];
    [|by specialize (Hfirst _ Hrow)].
  intros id. rewrite Hord. unfold cancelled_orders, cancelled_ids in *. rewrite Hun in *.
  split; [apply lookup_fmap|]. intros row Hrow Hc.
  destruct Hev as (evs & Ht & Hnd & Hfresh & Hids & Hev).
  assert (Hin : id ∈ oe_AggregateID <$> evs).
  { rewrite Hids. unfold active_ids. apply list_elem_of_fmap. exists row.
    split; [by rewrite (Hkeyed _ _ Hrow)|]. apply list_elem_of_filter. split; [done|].
    apply elem_of_values. by exists id. }
  apply list_elem_of_fmap in Hin as (ev & -> & Hin). exists (oe_ID ev), ev.
  rewrite Forall_forall in Hfresh, Hev. rewrite Ht. split_and!; [by apply Hfresh| |done|by apply Hev].
  by apply upsert_rows_in.
Qed.
End Process.

(** ** Closed instances *)

Section Witness.
#[local] Existing Instance MemRedis.mem_redis.
#[local] Existing Instance DecLib.
#[local] Existing Instance IntDec.
#[local] Existing Instance IntPrice.
#[local] Existing Instance MicroPg.
#[local] Existing Instance MicroPg_laws.
#[local] Existing Instance IntLua.
#[local] Existing Instance IdTime.
#[local] Existing Instance TextProto.

Notation demo_state := (pg OrderDB * (gmap string (string * option Z) * block_queue))%type.

(** Market 9, in which user 7 has an order, is disabled. *)
Definition demo_event : MarketStateChangedEvent := {|
  mse_EventID := 50%N; mse_MarketID := 9%N; mse_Enabled := false; mse_DeletedAt := None;
  mse_UpdatedAt := 5000000 |}.

Definition demo_open : world demo_state := demo_saved.

Definition demo_process : M demo_state (result unit) :=
  ProcessMarketStateChanged 60000000000 "markets" "g" "payload" demo_event.

Definition demo_done : world demo_state := (demo_process demo_open).2.

Example demo_processed : (demo_process demo_open).1 = Ok tt /\
  (or_Status <$> db_orders (db_of (w_st demo_done)) !! 2%N) = Some OrderStatusCancelled.
Proof. vm_compute. split; reflexivity. Qed.

Lemma compensation_atomic_witness :
  wp demo_process (λ r w', tx_of (D := OrderDB) (w_st w') = TxNone /\
    comp_outcome demo_event "g" (w_env demo_open) (db_of (w_st demo_open)) r (db_of (w_st w'))) demo_open.
Proof. apply (compensation_atomic 60000000000 demo_event "g" "markets" "payload" demo_open). reflexivity. Defined.

Lemma demo_compensated :
  compensated demo_event "g" (db_of (w_st demo_open)) (db_of (w_st demo_done)).
Proof.
  assert (H := process_spec 60000000000 demo_event "g" "markets" "payload" demo_open eq_refl).
  unfold wp in H. fold demo_process demo_done in H.
  replace (demo_process demo_open).1 with (Ok tt) in H by (vm_compute; reflexivity).
  destruct H as [_ [H|[_ (row & Hrow & _)]]]; [exact H|]. vm_compute in Hrow. discriminate.
Defined.

Lemma compensation_once_witness :
  wp demo_process (λ _ w', db_of (D := OrderDB) (w_st w') = db_of (w_st demo_done)) demo_done.
Proof.
  apply (compensation_once 60000000000 demo_event "g" "markets" "payload" (db_of (w_st demo_open))
           (db_of (w_st demo_done)) demo_done).
  - apply demo_compensated.
  - apply rtc_refl.
  - reflexivity.
Defined.

Lemma inbox_never_stuck_witness :
  wp demo_process (λ _ w', inbox_settled (db_of (w_st w'))) demo_open.
Proof.
  apply (inbox_never_stuck 60000000000 demo_event "g" "markets" "payload" demo_open).
  - reflexivity.
  - intros k row Hrow. vm_compute in Hrow. discriminate.
Defined.

Lemma compensation_cancels_witness :
  wp demo_process (λ r w', r = Ok tt -> forall id,
       db_orders (db_of (w_st w')) !! id =
         (λ row, if cancellable 9%N row then cancel_row row else row) <$>
           db_orders (db_of (w_st demo_open)) !! id /\
       (forall row, db_orders (db_of (w_st demo_open)) !! id = Some row ->
          cancellable 9%N row = true ->
          exists evID ev, db_outbox (db_of (w_st demo_open)) !! evID = None /\
            db_outbox (db_of (w_st w')) !! evID = Some ev /\ oe_AggregateID ev = id /\
            cancel_event demo_event ev)) demo_open.
Proof.
  apply (compensation_cancels 60000000000 demo_event "g" "markets" "payload" demo_open).
  - reflexivity.
  - apply (created_keyed _ _ _ _ _ _ _ _ _ demo_placed). apply map_Forall_empty.
  - reflexivity.
  - intros row Hrow. vm_compute in Hrow. discriminate.
Defined.
End Witness.
