(* ===== verification/Auth.v ===== *)
(** * Authentication
      (shared/models/user_roles.go, shared/auth/jwt, shared/auth/session,
       shared/requestctx, shared/interceptors/auth,
       orderService/internal/infrastructure/redis/auth,
       orderService/internal/services/auth, grpc/auth)

    Tokens are signed claims; the JWT library is the class [JwtLib].  A refresh
    token is valid while Redis holds its key, the user's session key names its
    session and the user's pointer names its key; a rotation replaces all
    three in one script.  The properties: a refresh token works once, a new
    login revokes the old tokens, generated tokens parse back until they
    expire, and a protected handler only runs with the token's identity. *)

From S2P Require Import Prelude GoStrings GoErrors Effects Redis.
Local Open Scope string_scope.
Local Open Scope list_scope.
Local Open Scope Z_scope.

(** ** Roles *)

Notation UserRole := Z (only parsing).
Definition UserRoleUnspecified : UserRole := 0.
Definition UserRoleUser : UserRole := 1.
Definition UserRoleAdmin : UserRole := 2.
Definition UserRoleViewer : UserRole := 3.

Definition UserRole_String (r : UserRole) : string :=
  if r =? UserRoleUser then "ROLE_USER"
  else if r =? UserRoleAdmin then "ROLE_ADMIN"
  else if r =? UserRoleViewer then "ROLE_VIEWER"
  else "ROLE_UNSPECIFIED".

Definition ParseUserRole (value : string) : UserRole * bool :=
  let v := ToUpper (TrimSpace value) in
  if bool_decide (v = "ROLE_USER") then (UserRoleUser, true)
  else if bool_decide (v = "ROLE_ADMIN") then (UserRoleAdmin, true)
  else if bool_decide (v = "ROLE_VIEWER") then (UserRoleViewer, true)
  else (UserRoleUnspecified, false).

(** The loop of ParseUserRolesClaims; [seen] and [out] hold the same roles. *)
Fixpoint parse_roles (rawRoles : list string) (out : list UserRole) : result (list UserRole) :=
  match rawRoles with
  | [] => Ok out
  | raw :: rawRoles =>
      let '(role, ok) := ParseUserRole raw in
      if negb ok || (role =? UserRoleUnspecified) then Err (ESentinel ErrInvalidUserRoles)
      else if decide (role ∈ out) then parse_roles rawRoles out
      else parse_roles rawRoles (out ++ [role])
  end.

Definition ParseUserRolesClaims (rawRoles : list string) : result (list UserRole) :=
  match rawRoles with
  | [] => Err (ESentinel ErrMissingUserRoles)
  | _ =>
      match parse_roles rawRoles [] with
      | Err e => Err e
      | Ok [] => Err (ESentinel ErrMissingUserRoles)
      | Ok out => Ok out
      end
  end.

Fixpoint claim_roles (roles : list UserRole) (out : list string) : list string :=
  match roles with
  | [] => out
  | role :: roles =>
      if role =? UserRoleUnspecified then claim_roles roles out
      else if decide (UserRole_String role ∈ out) then claim_roles roles out
      else claim_roles roles (out ++ [UserRole_String role])
  end.

Definition UserRolesToClaims (roles : list UserRole) : result (list string) :=
  match roles with
  | [] => Err (ESentinel ErrBuildTokenClaimsFailed)
  | _ =>
      match claim_roles roles [] with
      | [] => Err (ESentinel ErrBuildTokenClaimsFailed)
      | out => Ok out
      end
  end.

(** ** Claims and the JWT library *)

Definition TokenTypeAccess : string := "access".
Definition TokenTypeRefresh : string := "refresh".

Record Claims := {
  cl_ID : string; cl_Subject : string; cl_IssuedAt : Z; cl_ExpiresAt : Z;
  cl_TokenType : string; cl_SessionID : string; cl_UserRoles : list string
}.

Inductive jwt_result := JwtExpired | JwtInvalid | JwtValid (claims : Claims).

(** golang-jwt with HS256: signing with a secret, and parsing at a time. *)
Class JwtLib := {
  jwt_sign : string -> Claims -> option string;
  jwt_parse : string -> Z -> string -> jwt_result
}.

(** Documented behaviour: HS256 signs any claims, and a token signed with the
    secret parses to its claims until it expires. *)
Class JwtLaws (J : JwtLib) := {
  jwt_sign_total secret c : is_Some (jwt_sign secret c);
  jwt_parse_signed secret c token now :
    jwt_sign secret c = Some token ->
    jwt_parse secret now token = if now <? cl_ExpiresAt c then JwtValid c else JwtExpired
}.

(** jwt.NewNumericDate: whole seconds. *)
Definition NewNumericDate (t : Z) : Z := t / 1000000000 * 1000000000.

Section Manager.
Context {St : Type} `{J : JwtLib} `{U : GoLib}.

Record Manager := { m_secret : string; m_accessTTL : Z; m_refreshTTL : Z }.

Variable m : Manager.

Definition GenerateAccessToken (userID : UUID) (roles : list UserRole) (sessionID : string) :
    M St (result string) :=
  let! now := time_Now in
  mret match UserRolesToClaims roles with
       | Err err => Err err
       | Ok userRoles =>
           match jwt_sign (m_secret m) {|
               cl_ID := ""; cl_Subject := uuid_string userID; cl_IssuedAt := NewNumericDate now;
               cl_ExpiresAt := NewNumericDate (now + m_accessTTL m); cl_TokenType := TokenTypeAccess;
               cl_SessionID := sessionID; cl_UserRoles := userRoles |} with
           | Some signed => Ok signed
           | None => Err (ESentinel ErrSignAccessTokenFailed)
           end
       end.

Definition GenerateRefreshToken (userID : UUID) (roles : list UserRole) (jti sessionID : string) :
    M St (result string) :=
  let! now := time_Now in
  mret match UserRolesToClaims roles with
       | Err err => Err err
       | Ok userRoles =>
           match jwt_sign (m_secret m) {|
               cl_ID := jti; cl_Subject := uuid_string userID; cl_IssuedAt := NewNumericDate now;
               cl_ExpiresAt := NewNumericDate (now + m_refreshTTL m); cl_TokenType := TokenTypeRefresh;
               cl_SessionID := sessionID; cl_UserRoles := userRoles |} with
           | Some signed => Ok signed
           | None => Err (ESentinel ErrSignRefreshTokenFailed)
           end
       end.

Definition check_claims (expectedType : string) (parsed : jwt_result) : result Claims :=
  match parsed with
  | JwtExpired => Err (ESentinel ErrTokenExpired)
  | JwtInvalid => Err (ESentinel ErrInvalidToken)
  | JwtValid claims =>
      if negb (bool_decide (cl_TokenType claims = expectedType)) then Err (ESentinel ErrInvalidTokenType)
      else if bool_decide (cl_Subject claims = "") then Err (ESentinel ErrMissingTokenSubject)
      else if bool_decide (cl_SessionID claims = "") then Err (ESentinel ErrMissingTokenSessionID)
      else Ok claims
  end.

Definition ParseToken (tokenString expectedType : string) : M St (result Claims) :=
  let! now := time_Now in
  mret (check_claims expectedType (jwt_parse (m_secret m) now tokenString)).
End Manager.

(** ** Keys and scripts *)

Section Scripts.
Context {R : Type} `{Redis R} `{U : GoLib}.

Definition SessionKey (userID : UUID) : string := "auth_session" +:+ ":" +:+ uuid_string userID.
Definition refreshKey (userID : UUID) (jti : string) : string :=
  "refresh" +:+ ":" +:+ uuid_string userID +:+ ":" +:+ jti.
Definition currentRefreshKey (userID : UUID) : string := "auth_refresh" +:+ ":" +:+ uuid_string userID.

Definition ErrInvalidPsetex : error := EMsg "ERR invalid expire time in 'psetex' command".

(** The three PSETEX of both scripts; a refused one stops the script where it
    is. *)
Definition store_token (newRefreshKey sessionKey pointerKey newSessionID : string)
    (ttlMs t : Z) (r : R) : option R * R :=
  match SETPX t newRefreshKey "1" ttlMs r with
  | None => (None, r)
  | Some r1 =>
      match SETPX t sessionKey newSessionID ttlMs r1 with
      | None => (None, r1)
      | Some r2 =>
          match SETPX t pointerKey newRefreshKey ttlMs r2 with
          | None => (None, r2)
          | Some r3 => (Some r3, r3)
          end
      end
  end.

Definition rotateScript (oldRefreshKey newRefreshKey sessionKey currentRefreshPointerKey : string)
    (ttlMs : Z) (oldSessionID newSessionID : string) (t : Z) (r : R) : result Z * R :=
  if negb (bool_decide (GET t sessionKey r = Some oldSessionID)) then (Ok 0, r)
  else if EXISTS t oldRefreshKey r =? 0 then (Ok 0, r)
  else if match GET t currentRefreshPointerKey r with
          | Some tracked => negb (bool_decide (tracked = "")) && negb (bool_decide (tracked = oldRefreshKey))
          | None => false
          end then (Ok 0, r)
  else match store_token newRefreshKey sessionKey currentRefreshPointerKey newSessionID ttlMs t r with
       | (None, r) => (Err ErrInvalidPsetex, r)
       | (Some r, _) => (Ok 1, DEL t oldRefreshKey r)
       end.

Definition replaceScript (newRefreshKey sessionKey currentRefresh : string) (ttlMs : Z)
    (sessionID : string) (t : Z) (r : R) : result Z * R :=
  let r := match GET t currentRefresh r with
           | Some old => if bool_decide (old = "") then r else DEL t old r
           | None => r
           end in
  match store_token newRefreshKey sessionKey currentRefresh sessionID ttlMs t r with
  | (None, r) => (Err ErrInvalidPsetex, r)
  | (Some r, _) => (Ok 1, r)
  end.
End Scripts.

Section Store.
Context {St R : Type} `{Redis R} `{HR : !Has R St} `{U : GoLib}.
Variable ttl : Z.

(** RefreshTokenStore. *)
Definition Replace (userID : UUID) (newJTI newSessionID : string) : M St (result unit) :=
  let! r := redis_call (replaceScript (refreshKey userID newJTI) (SessionKey userID)
              (currentRefreshKey userID) (Z.quot ttl 1000000) newSessionID) in
  mret match r with
       | Err err => Err (wrap "replace refresh token: lua script error" err)
       | Ok _ => Ok tt
       end.

Definition Rotate (userID : UUID) (oldJTI oldSessionID newJTI newSessionID : string) :
    M St (result bool) :=
  let! r := redis_call (rotateScript (refreshKey userID oldJTI) (refreshKey userID newJTI)
              (SessionKey userID) (currentRefreshKey userID) (Z.quot ttl 1000000)
              oldSessionID newSessionID) in
  mret match r with
       | Err err => Err (wrap "rotate refresh token: lua script error" err)
       | Ok n => Ok (n =? 1)
       end.

(** session.Store. *)
Definition IsSessionActive (userID : UUID) (sessionID : string) : M St (result bool) :=
  let! r := cache_Get (SessionKey userID) in
  mret match r with
       | Err err => if is_sent ErrCacheNotFound err then Ok false
                    else Err (wrap "get active session" err)
       | Ok raw => Ok (bool_decide (raw = sessionID))
       end.
End Store.

(** ** AuthService *)

Section Service.
Context {St R : Type} `{Redis R} `{HR : !Has R St} `{U : GoLib} `{J : JwtLib}.
Variables (m : Manager) (ttl : Z).

Definition validateRefreshToken (refreshToken : string) :
    M St (result (UUID * list UserRole * string * string)) :=
  let! r := ParseToken m refreshToken TokenTypeRefresh in
  match r with
  | Err err => mret (Err err)
  | Ok claims =>
      match uuid_parse (cl_Subject claims) with
      | None => mret (Err (ESentinel ErrInvalidSubject))
      | Some userID =>
          if bool_decide (cl_ID claims = "") then mret (Err (ESentinel ErrInvalidJTI))
          else
            match ParseUserRolesClaims (cl_UserRoles claims) with
            | Err err => mret (Err err)
            | Ok roles =>
                let! r := IsSessionActive userID (cl_SessionID claims) in
                mret match r with
                     | Err _ => Err (ESentinel ErrSessionValidationFailed)
                     | Ok active =>
                         if active then Ok (userID, roles, cl_ID claims, cl_SessionID claims)
                         else Err (ESentinel ErrTokenRevoked)
                     end
            end
      end
  end.

Definition generateTokenPair (userID : UUID) (roles : list UserRole) (refreshJTI sessionID : string) :
    M St (result (string * string)) :=
  try! accessToken := GenerateAccessToken m userID roles sessionID else id in
  try! refreshToken := GenerateRefreshToken m userID roles refreshJTI sessionID else id in
  mret (Ok (accessToken, refreshToken)).

Definition rotateTokens (userID : UUID) (roles : list UserRole) (oldJTI oldSessionID : string) :
    M St (result (string * string)) :=
  let! id := uuid_New in
  let newJTI := uuid_string id in
  let newSessionID := oldSessionID in
  let! r := generateTokenPair userID roles newJTI newSessionID in
  match r with
  | Err err => mret (Err err)
  | Ok (newAccessToken, newRefreshToken) =>
      let! r := Rotate ttl userID oldJTI oldSessionID newJTI newSessionID in
      mret match r with
           | Err _ => Err (ESentinel ErrSaveTokenFailed)
           | Ok rotated => if rotated then Ok (newAccessToken, newRefreshToken)
                           else Err (ESentinel ErrTokenRevoked)
           end
  end.

Definition Refresh (refreshToken : string) : M St (result (string * string)) :=
  let! r := validateRefreshToken refreshToken in
  match r with
  | Err err => mret (Err err)
  | Ok (userID, roles, oldJTI, oldSessionID) => rotateTokens userID roles oldJTI oldSessionID
  end.

(** serverAPI.RefreshToken. *)
Definition handle_RefreshToken (request : option string) : M St (result (string * string)) :=
  match request with
  | None => mret (Err (EStatus 3 "request is required"))
  | Some refreshToken =>
      if bool_decide (refreshToken = "") then mret (Err (EStatus 3 "refresh_token is required"))
      else Refresh refreshToken
  end.
End Service.

(** ** Request contexts and the interceptors *)

Definition metadata := gmap string (list string).

(** The values a context carries. *)
Record reqctx := {
  rc_incoming : option metadata; rc_outgoing : option metadata;
  rc_user : option UUID; rc_roles : option (list UserRole)
}.

Definition ContextWithUserID (c : reqctx) (userID : UUID) : reqctx :=
  {| rc_incoming := rc_incoming c; rc_outgoing := rc_outgoing c; rc_user := Some userID;
     rc_roles := rc_roles c |}.
Definition UserIDFromContext (c : reqctx) : option UUID := rc_user c.
Definition ContextWithUserRoles (c : reqctx) (roles : list UserRole) : reqctx :=
  {| rc_incoming := rc_incoming c; rc_outgoing := rc_outgoing c; rc_user := rc_user c;
     rc_roles := Some roles |}.
Definition UserRolesFromContext (c : reqctx) : option (list UserRole) :=
  match rc_roles c with
  | Some [] | None => None
  | Some roles => Some roles
  end.

Definition authorizationHeader : string := "authorization".
Definition bearerPrefix : string := "bearer ".

(** metadata.MD.Get. *)
Definition md_Get (md : metadata) (key : string) : list string := default [] (md !! key).

Definition makeSkipMethods (methods : list string) : gset string :=
  list_to_set (filter (λ m, m <> "") (TrimSpace <$> methods)).

Definition shouldSkip (fullMethod : string) (skipMethods : gset string) : bool :=
  bool_decide (fullMethod ∈ skipMethods).

Definition bearerTokenFromContext (c : reqctx) : result string :=
  match rc_incoming c with
  | None => Err (ESentinel ErrMissingMetadata)
  | Some md =>
      match md_Get md authorizationHeader with
      | [] => Err (ESentinel ErrMissingAuthToken)
      | value :: _ =>
          let authHeader := TrimSpace value in
          if negb (HasPrefix (ToLower authHeader) bearerPrefix) then Err (ESentinel ErrMissingAuthToken)
          else
            let tokenString := TrimSpace (str_drop (String.length bearerPrefix) authHeader) in
            if bool_decide (tokenString = "") then Err (ESentinel ErrMissingAuthToken)
            else Ok tokenString
      end
  end.

Section Interceptor.
Context {St : Type} `{J : JwtLib} `{U : GoLib}.

Definition UnaryServerInterceptor {A} (m : Manager) (skipList : list string) (fullMethod : string)
    (handler : reqctx -> M St (result A)) (c : reqctx) : M St (result A) :=
  if shouldSkip fullMethod (makeSkipMethods skipList) then handler c
  else
    match bearerTokenFromContext c with
    | Err err => mret (Err err)
    | Ok tokenString =>
        let! r := ParseToken m tokenString TokenTypeAccess in
        match r with
        | Err err => mret (Err err)
        | Ok claims =>
            match ParseUserRolesClaims (cl_UserRoles claims) with
            | Err err => mret (Err err)
            | Ok userRoles =>
                match uuid_parse (cl_Subject claims) with
                | None => mret (Err (ESentinel ErrInvalidUserIDInToken))
                | Some userID => handler (ContextWithUserRoles (ContextWithUserID c userID) userRoles)
                end
            end
        end
    end.

(** The client interceptor hands the caller's header on. *)
Definition UnaryClientAuthInterceptor {A} (invoker : reqctx -> A) (c : reqctx) : A :=
  match rc_incoming c with
  | None => invoker c
  | Some md =>
      match md_Get md authorizationHeader with
      | [] => invoker c
      | authHeader :: _ =>
          let out := <[authorizationHeader := [authHeader]]> (default ∅ (rc_outgoing c)) in
          invoker {| rc_incoming := rc_incoming c; rc_outgoing := Some out;
                     rc_user := rc_user c; rc_roles := rc_roles c |}
      end
  end.
End Interceptor.

(** ** Roles and tokens *)

Section Tokens.
Definition valid_role (r : UserRole) : Prop := 1 <= r <= 3.

Lemma ParseUserRole_String r : valid_role r -> ParseUserRole (UserRole_String r) = (r, true).
Proof.
  intros Hr. unfold valid_role in Hr. assert (r = 1 \/ r = 2 \/ r = 3) as [->|[->| ->]] by lia;
    vm_compute; done.
Qed.

Lemma UserRole_String_inj r r' :
  valid_role r -> valid_role r' -> UserRole_String r = UserRole_String r' -> r = r'.
Proof.
  intros Hr Hr' Heq. apply (f_equal ParseUserRole) in Heq.
  rewrite !ParseUserRole_String in Heq by done. congruence.
Qed.

Lemma claim_roles_dedup roles out :
  Forall valid_role roles -> Forall valid_role out ->
  claim_roles roles (UserRole_String <$> out) = UserRole_String <$> (out ++ dedup out roles).
Proof.
  revert out; induction roles as [|r roles IH]; intros out Hr Ho; simpl; [by rewrite app_nil_r|].
  apply Forall_cons in Hr as [Hr Hrs].
  destruct (Z.eqb_spec r UserRoleUnspecified) as [->|]; [unfold valid_role, UserRoleUnspecified in Hr; lia|].
  assert (Hiff : UserRole_String r ∈ UserRole_String <$> out <-> r ∈ out).
  { rewrite list_elem_of_fmap. split; [|intros Hin; by exists r].
    intros (r' & Heq & Hin). rewrite Forall_forall in Ho.
    by rewrite (UserRole_String_inj r r' Hr (Ho _ Hin) Heq). }
  destruct (decide (UserRole_String r ∈ _)) as [Hin|Hin]; rewrite Hiff in Hin.
  - rewrite decide_True by done. by apply IH.
  - rewrite decide_False by done.
    replace ((UserRole_String <$> out) ++ [UserRole_String r]) with (UserRole_String <$> (out ++ [r]))
      by by rewrite fmap_app.
    rewrite IH; [|done|by apply Forall_app_2; [|constructor]].
    rewrite <- app_assoc. simpl. do 3 f_equal. apply dedup_seen_perm. intros x. set_solver.
Qed.

Lemma parse_roles_strings roles out :
  Forall valid_role roles -> NoDup roles -> (forall r, r ∈ roles -> r ∉ out) ->
  parse_roles (UserRole_String <$> roles) out = Ok (out ++ roles).
Proof.
  revert out; induction roles as [|r roles IH]; intros out Hr Hnd Hout; simpl; [by rewrite app_nil_r|].
  apply Forall_cons in Hr as [Hr Hrs]. apply NoDup_cons in Hnd as [Hn Hnd].
  rewrite ParseUserRole_String by done. simpl.
  destruct (Z.eqb_spec r UserRoleUnspecified) as [->|]; [unfold valid_role, UserRoleUnspecified in Hr; lia|].
  rewrite decide_False by (apply Hout; left).
  rewrite IH, <- app_assoc; [done|done|done|].
  intros x Hx. rewrite not_elem_of_app, list_elem_of_singleton. split.
  - apply Hout. by right.
  - by intros ->.
Qed.

(** What the claims of these roles read back as. *)
Lemma roles_roundtrip roles :
  Forall valid_role roles -> roles <> [] ->
  exists claims, UserRolesToClaims roles = Ok claims /\ ParseUserRolesClaims claims = Ok (dedup [] roles).
Proof.
  intros Hr Hne. unfold UserRolesToClaims. destruct roles as [|r roles]; [done|].
  pose proof (claim_roles_dedup (r :: roles) [] Hr ltac:(constructor)) as Hc.
  change (UserRole_String <$> []) with (@nil string) in Hc. rewrite Hc. rewrite app_nil_l.
  set (d := dedup [] (r :: roles)).
  assert (Hd : Forall valid_role d).
  { apply Forall_forall. intros x [Hx _]%elem_of_dedup. rewrite Forall_forall in Hr. by apply Hr. }
  assert (Hnd : NoDup d) by apply NoDup_dedup.
  pose proof (parse_roles_strings d [] Hd Hnd ltac:(intros; apply not_elem_of_nil)) as Hp.
  assert (Hdne : exists x d', d = x :: d').
  { destruct d as [|x d'] eqn:E; [|by eauto]. exfalso.
    assert (Hin : r ∈ d) by (apply elem_of_dedup; split; [left|apply not_elem_of_nil]).
    rewrite E in Hin. by apply elem_of_nil in Hin. }
  destruct Hdne as (x & d' & Hd'). rewrite Hd' in *. simpl in Hp |- *. eexists. split; [done|].
  unfold ParseUserRolesClaims. simpl. by rewrite Hp.
Qed.

(** Whole seconds. *)
Lemma NewNumericDate_bound t : NewNumericDate t <= t < NewNumericDate t + 1000000000.
Proof.
  unfold NewNumericDate. pose proof (Z.div_mod t 1000000000). pose proof (Z.mod_pos_bound t 1000000000). lia.
Qed.

Context {St : Type} `{J : JwtLib} `{!JwtLaws J} `{U : GoLib} `{!UuidLaws U}.

Lemma uuid_text_nonempty u : uuid_string u <> "".
Proof. intros H. pose proof (uuid_parse_string u) as Hp. rewrite H, uuid_parse_empty in Hp. done. Qed.

(** The identity a token carries. *)
Definition carries (c : Claims) (userID : UUID) (roles : list UserRole) (sessionID jti : string) : Prop :=
  uuid_parse (cl_Subject c) = Some userID /\ ParseUserRolesClaims (cl_UserRoles c) = Ok roles /\
  cl_SessionID c = sessionID /\ cl_ID c = jti.

(** What a manager's token parses to at a time, for each expected type. *)
Definition parses_to (m : Manager) (token tokenType : string) (userID : UUID) (roles : list UserRole)
    (sessionID jti : string) (expires : Z) : Prop :=
  forall expectedType now,
    let r := check_claims expectedType (jwt_parse (m_secret m) now token) in
    if expires <=? now then r = Err (ESentinel ErrTokenExpired)
    else if bool_decide (expectedType = tokenType) then
      exists c, r = Ok c /\ carries c userID roles sessionID jti
    else r = Err (ESentinel ErrInvalidTokenType).

Lemma signed_parses m jti userID iat exp tokenType sessionID claims roles token :
  ParseUserRolesClaims claims = Ok roles -> sessionID <> "" ->
  jwt_sign (m_secret m) {| cl_ID := jti; cl_Subject := uuid_string userID; cl_IssuedAt := iat;
    cl_ExpiresAt := exp; cl_TokenType := tokenType; cl_SessionID := sessionID;
    cl_UserRoles := claims |} = Some token ->
  parses_to m token tokenType userID roles sessionID jti exp.
Proof.
  intros Hr Hs Hsign expectedType now. rewrite (jwt_parse_signed _ _ _ now Hsign). simpl.
  destruct (Z.leb_spec exp now), (Z.ltb_spec now exp); try lia; [done|]. simpl.
  case_bool_decide as He.
  - subst. rewrite bool_decide_true by done. simpl.
    rewrite bool_decide_false by apply uuid_text_nonempty. rewrite bool_decide_false by done.
    eexists. split; [done|]. split_and!; [apply uuid_parse_string|done|done|done].
  - by rewrite bool_decide_false by congruence.
Qed.

Lemma sign_never_fails secret c : jwt_sign secret c = None -> False.
Proof. intros Hn. destruct (jwt_sign_total secret c) as [t Ht]. congruence. Qed.

Lemma GenerateAccessToken_spec m userID roles sessionID (w : world St) :
  Forall valid_role roles -> roles <> [] -> sessionID <> "" ->
  wp (GenerateAccessToken m userID roles sessionID) (λ r w',
    w' = World (tick (w_env w)) (w_st w) /\ exists token, r = Ok token /\
      parses_to m token TokenTypeAccess userID (dedup [] roles) sessionID ""
        (NewNumericDate (e_now (w_env w) (e_tick (w_env w)) + m_accessTTL m))) w.
Proof.
  intros Hr Hne Hs. unfold GenerateAccessToken. wp_steps. split; [done|].
  destruct (roles_roundtrip roles Hr Hne) as (claims & -> & Hp).
  destruct (jwt_sign (m_secret m) _) as [token|] eqn:E.
  - exists token. split; [done|]. by eapply signed_parses.
  - by destruct (sign_never_fails _ _ E).
Qed.

Lemma GenerateRefreshToken_spec m userID roles jti sessionID (w : world St) :
  Forall valid_role roles -> roles <> [] -> sessionID <> "" ->
  wp (GenerateRefreshToken m userID roles jti sessionID) (λ r w',
    w' = World (tick (w_env w)) (w_st w) /\ exists token, r = Ok token /\
      parses_to m token TokenTypeRefresh userID (dedup [] roles) sessionID jti
        (NewNumericDate (e_now (w_env w) (e_tick (w_env w)) + m_refreshTTL m))) w.
Proof.
  intros Hr Hne Hs. unfold GenerateRefreshToken. wp_steps. split; [done|].
  destruct (roles_roundtrip roles Hr Hne) as (claims & -> & Hp).
  destruct (jwt_sign (m_secret m) _) as [token|] eqn:E.
  - exists token. split; [done|]. by eapply signed_parses.
  - by destruct (sign_never_fails _ _ E).
Qed.
End Tokens.

(** ** The keys under any interleaving of logins and refreshes *)

Section Rotation.
Context {R : Type} `{HR : Redis R} `{!RedisLaws R} `{U : GoLib} `{!UuidLaws U}.
Variable ttlMs : Z.

Definition rotate (u : UUID) (oldJTI oldS newJTI newS : string) : Z -> R -> result Z * R :=
  rotateScript (refreshKey u oldJTI) (refreshKey u newJTI) (SessionKey u) (currentRefreshKey u)
    ttlMs oldS newS.

Definition replace (u : UUID) (newJTI newS : string) : Z -> R -> result Z * R :=
  replaceScript (refreshKey u newJTI) (SessionKey u) (currentRefreshKey u) ttlMs newS.

Inductive auth_op :=
| OpRotate (u : UUID) (oldJTI oldS newJTI newS : string)
| OpReplace (u : UUID) (newJTI newS : string).

Definition exec (op : auth_op) (t : Z) (r : R) : R :=
  match op with
  | OpRotate u oldJTI oldS newJTI newS => (rotate u oldJTI oldS newJTI newS t r).2
  | OpReplace u newJTI newS => (replace u newJTI newS t r).2
  end.

(** The refresh token an operation would issue. *)
Definition issues (op : auth_op) : UUID * string :=
  match op with OpRotate u _ _ newJTI _ | OpReplace u newJTI _ => (u, newJTI) end.

Fixpoint exec_all (ops : list (Z * auth_op)) (r : R) : R :=
  match ops with
  | [] => r
  | (t, op) :: ops => exec_all ops (exec op t r)
  end.

Fixpoint clocked (t : Z) (ops : list (Z * auth_op)) (t' : Z) : Prop :=
  match ops with
  | [] => t <= t'
  | (t1, _) :: ops => t <= t1 /\ clocked t1 ops t'
  end.

Lemma refreshKey_inj u j u' j' : refreshKey u j = refreshKey u' j' -> u = u' /\ j = j'.
Proof.
  unfold refreshKey. intros Heq. injection Heq as Heq. rewrite !str_app_colon in Heq.
  change (uuid_string u +:+ String ":" j = uuid_string u' +:+ String ":" j') in Heq.
  apply (f_equal (cut ":")) in Heq. rewrite !cut_app in Heq by apply uuid_string_no_colon.
  injection Heq as Hu Hj. split; [|done]. apply (f_equal uuid_parse) in Hu.
  rewrite !uuid_parse_string in Hu. congruence.
Qed.

(** No token key under this name from [t] on. *)
Definition gone (r : R) (key : string) (t : Z) : Prop := view r t key = None.

Lemma gone_later r key t t' : t <= t' -> gone r key t -> gone r key t'.
Proof. unfold gone. intros Ht Hv. by rewrite (view_later _ t), Hv. Qed.

(** The key after the three writes. *)
Lemma store_token_view n s p v t r t' k :
  0 < ttlMs -> t <= t' ->
  exists r', store_token n s p v ttlMs t r = (Some r', r') /\
    view r' t' k =
      if decide (p = k) then alive t' (Some (n, Some (t + ttlMs)))
      else if decide (s = k) then alive t' (Some (v, Some (t + ttlMs)))
      else if decide (n = k) then alive t' (Some ("1", Some (t + ttlMs)))
      else view r t' k.
Proof.
  intros Hpos Ht. unfold store_token.
  destruct (proj1 (SETPX_ok t n "1" ttlMs r) Hpos) as [r1 E1]. rewrite E1.
  destruct (proj1 (SETPX_ok t s v ttlMs r1) Hpos) as [r2 E2]. rewrite E2.
  destruct (proj1 (SETPX_ok t p n ttlMs r2) Hpos) as [r3 E3]. rewrite E3.
  exists r3. split; [done|]. erewrite SETPX_view by done. case_decide; [done|].
  erewrite SETPX_view by done. case_decide; [done|]. by erewrite SETPX_view.
Qed.

Lemma store_token_fail n s p v t r : ttlMs <= 0 -> store_token n s p v ttlMs t r = (None, r).
Proof.
  intros Hle. unfold store_token. destruct (SETPX t n "1" ttlMs r) eqn:E; [|done].
  assert (0 < ttlMs) by (apply (SETPX_ok t n "1" ttlMs r); by eexists). lia.
Qed.

Lemma gone_store u newJTI v t r u' j :
  (u, newJTI) <> (u', j) -> gone r (refreshKey u' j) t ->
  gone (store_token (refreshKey u newJTI) (SessionKey u) (currentRefreshKey u) v ttlMs t r).2
    (refreshKey u' j) t.
Proof.
  intros Hne Hg. destruct (Z.lt_ge_cases 0 ttlMs) as [Hpos|Hle]; [|by rewrite store_token_fail].
  destruct (store_token_view (refreshKey u newJTI) (SessionKey u) (currentRefreshKey u) v t r t
    (refreshKey u' j) Hpos ltac:(lia)) as (r' & -> & Hv). simpl. unfold gone. rewrite Hv.
  rewrite !decide_False; [done| |done|done]. intros [-> ->]%refreshKey_inj. done.
Qed.

Lemma gone_DEL r k key t : gone r key t -> gone (DEL t k r) key t.
Proof. unfold gone. intros Hg. rewrite DEL_view by lia. by case_decide. Qed.

Lemma gone_exec op u j t r :
  issues op <> (u, j) -> gone r (refreshKey u j) t -> gone (exec op t r) (refreshKey u j) t.
Proof.
  intros Hne Hg. destruct op as [u' oj os nj ns|u' nj ns]; simpl in *.
  - unfold rotate, rotateScript. destruct (negb _); [done|]. destruct (_ =? 0); [done|].
    destruct (match GET _ _ _ with Some _ => _ | None => _ end); [done|].
    pose proof (gone_store u' nj ns t r u j Hne Hg) as Hs.
    destruct (store_token _ _ _ _ _ _ _) as [[r'|] r''] eqn:E; simpl in *; [|done].
    apply gone_DEL. unfold store_token in E. by split_match_hyp E.
  - unfold replace, replaceScript.
    set (r0 := match GET _ _ _ with Some _ => _ | None => _ end).
    assert (Hg0 : gone r0 (refreshKey u j) t).
    { unfold r0. destruct (GET _ _ _); [|done]. case_bool_decide; [done|]. by apply gone_DEL. }
    pose proof (gone_store u' nj ns t r0 u j Hne Hg0) as Hs.
    destruct (store_token _ _ _ _ _ _ _) as [[r'|] r''] eqn:E; simpl in *; [|done].
    unfold store_token in E. by split_match_hyp E.
Qed.

Lemma gone_exec_all ops u j t t' r :
  Forall (λ '(_, op), issues op <> (u, j)) ops -> clocked t ops t' ->
  gone r (refreshKey u j) t -> gone (exec_all ops r) (refreshKey u j) t'.
Proof.
  revert t r; induction ops as [|[t1 op] ops IH]; intros t r Hops Hc Hg; simpl in *.
  { by eapply gone_later. }
  destruct Hc as [Ht Hc]. apply Forall_cons in Hops as [Hop Hops].
  apply (IH t1); [done|done|]. apply gone_exec; [done|]. by eapply gone_later.
Qed.

Lemma rotate_gone u j s nj ns t r : gone r (refreshKey u j) t -> rotate u j s nj ns t r = (Ok 0, r).
Proof.
  unfold gone. intros Hg. unfold rotate, rotateScript. destruct (negb _); [done|].
  by rewrite EXISTS_view, Hg.
Qed.

Lemma rotate_spent u j s nj ns t r r' :
  rotate u j s nj ns t r = (Ok 1, r') -> gone r' (refreshKey u j) t.
Proof.
  unfold rotate, rotateScript. intros E. split_match_hyp E. unfold gone.
  rewrite DEL_view by lia. by rewrite decide_True.
Qed.

(** What a successful rotation leaves: the old key gone, the new one stored
    and tracked, the session prolonged. *)
Lemma rotate_ok u j s nj ns t r :
  0 < ttlMs -> GET t (SessionKey u) r = Some s -> EXISTS t (refreshKey u j) r = 1 ->
  (GET t (currentRefreshKey u) r = None \/ GET t (currentRefreshKey u) r = Some (refreshKey u j)) ->
  j <> nj ->
  exists r', rotate u j s nj ns t r = (Ok 1, r') /\ gone r' (refreshKey u j) t /\
    (forall t', t <= t' ->
       view r' t' (refreshKey u nj) = alive t' (Some ("1", Some (t + ttlMs))) /\
       view r' t' (SessionKey u) = alive t' (Some (ns, Some (t + ttlMs))) /\
       view r' t' (currentRefreshKey u) = alive t' (Some (refreshKey u nj, Some (t + ttlMs)))).
Proof.
  intros Hpos Hs He Hp Hj. unfold rotate, rotateScript. rewrite Hs, bool_decide_true by done. simpl.
  rewrite He. simpl.
  assert (Hpt : match GET t (currentRefreshKey u) r with
    | Some tracked => negb (bool_decide (tracked = "")) && negb (bool_decide (tracked = refreshKey u j))
    | None => false end = false).
  { destruct Hp as [-> | ->]; [done|]. rewrite (bool_decide_true (refreshKey u j = refreshKey u j)) by done. apply andb_false_r. }
  rewrite Hpt.
  destruct (store_token_view (refreshKey u nj) (SessionKey u) (currentRefreshKey u) ns t r t "" Hpos ltac:(lia))
    as (r' & E & _). rewrite E. exists (DEL t (refreshKey u j) r'). split; [done|]. split.
  { unfold gone. rewrite DEL_view by lia. by rewrite decide_True. }
  intros t' Ht'. rewrite !DEL_view by done.
  assert (Hv : forall k, view r' t' k =
      if decide (currentRefreshKey u = k) then alive t' (Some (refreshKey u nj, Some (t + ttlMs)))
      else if decide (SessionKey u = k) then alive t' (Some (ns, Some (t + ttlMs)))
      else if decide (refreshKey u nj = k) then alive t' (Some ("1", Some (t + ttlMs))) else view r t' k).
  { intros k. destruct (store_token_view (refreshKey u nj) (SessionKey u) (currentRefreshKey u) ns t r t' k Hpos Ht')
      as (r2 & E2 & Hv). rewrite E2 in E. injection E as <-. exact Hv. }
  rewrite !Hv. split_and!.
  - rewrite !decide_False by first [done | intros [_ ?]%refreshKey_inj; congruence]. by rewrite decide_True.
  - rewrite !decide_False by done. by rewrite decide_True.
  - rewrite decide_False by done. by rewrite decide_True.
Qed.
End Rotation.

(** ** Properties *)

Section Properties.
Context {R : Type} `{HR : Redis R} `{!RedisLaws R} `{U : GoLib} `{!UuidLaws U}.

(** C21 A refresh token works once: after a rotation that accepted it, every
    later attempt with it is refused and changes nothing, whatever logins and
    refreshes of any users run in between, as long as the same token id is not
    issued again. *)
Theorem refresh_single_use ttlMs u j s nj ns s2 nj2 ns2 t0 t ops (r r1 : R) :
  rotate ttlMs u j s nj ns t0 r = (Ok 1, r1) -> clocked t0 ops t ->
  Forall (λ '(_, op), issues op <> (u, j)) ops ->
  rotate ttlMs u j s2 nj2 ns2 t (exec_all ttlMs ops r1) = (Ok 0, exec_all ttlMs ops r1).
Proof.
  intros Hr Hc Hops. apply rotate_gone. eapply gone_exec_all; [done|done|].
  by eapply rotate_spent.
Qed.

(** A login revokes every older token of the user: after a replacement, a
    rotation with any other token id is refused at any later time, and so is
    any other session, until something else writes the user's keys. *)
Theorem replace_revokes ttlMs u j s j' s' nj ns t0 t (r r1 : R) :
  replace ttlMs u j s t0 r = (Ok 1, r1) -> t0 <= t -> j' <> j \/ s' <> s ->
  rotate ttlMs u j' s' nj ns t r1 = (Ok 0, r1).
Proof.
  intros Hrep Ht Hne.
  assert (Hviews : view r1 t (SessionKey u) = alive t (Some (s, Some (t0 + ttlMs))) /\
    view r1 t (currentRefreshKey u) = alive t (Some (refreshKey u j, Some (t0 + ttlMs)))).
  { unfold replace, replaceScript in Hrep. set (r0 := match GET _ _ _ with Some _ => _ | None => _ end) in Hrep.
    destruct (Z.lt_ge_cases 0 ttlMs) as [Hpos|Hle].
    2: { by rewrite store_token_fail in Hrep. }
    split.
    - destruct (store_token_view ttlMs (refreshKey u j) (SessionKey u) (currentRefreshKey u) s t0 r0 t
        (SessionKey u) Hpos Ht) as (r' & E & Hv). rewrite E in Hrep. injection Hrep as <-.
      rewrite Hv, decide_False by done. by rewrite decide_True.
    - destruct (store_token_view ttlMs (refreshKey u j) (SessionKey u) (currentRefreshKey u) s t0 r0 t
        (currentRefreshKey u) Hpos Ht) as (r' & E & Hv). rewrite E in Hrep. injection Hrep as <-.
      rewrite Hv. by rewrite decide_True. }
  destruct Hviews as [Hs Hp]. unfold rotate, rotateScript. rewrite !GET_view, Hs, Hp. simpl.
  destruct (bool_decide (t < t0 + ttlMs)); simpl; [|done].
  destruct (decide (s = s')) as [->|Hss].
  - rewrite bool_decide_true by done. simpl. destruct (_ =? 0); [done|].
    rewrite bool_decide_false; [done|].
    intros [_ ?]%refreshKey_inj. destruct Hne; congruence.
  - rewrite bool_decide_false by congruence. done.
Qed.
End Properties.

Section Flow.
Context {St R : Type} `{HRd : Redis R} `{!RedisLaws R} `{HR : !Has R St} `{U : GoLib}
  `{!UuidLaws U} `{J : JwtLib} `{!JwtLaws J}.
Variables (m : Manager) (ttl : Z).

(** The clock readings of one refresh: the session check and the rotation. *)
Definition check_at (w : world St) : Z := e_rnow (w_env w) (S (e_tick (w_env w))).
Definition rotate_at (w : world St) : Z := e_rnow (w_env w) (5 + e_tick (w_env w)).
Definition now_at (n : nat) (w : world St) : Z := e_now (w_env w) (n + e_tick (w_env w)).

(** Redis knows the token as the user's current one. *)
Definition current_token (u : UUID) (j s : string) (t : Z) (r : R) : Prop :=
  GET t (SessionKey u) r = Some s /\ EXISTS t (refreshKey u j) r = 1 /\
  (GET t (currentRefreshKey u) r = None \/ GET t (currentRefreshKey u) r = Some (refreshKey u j)).

Lemma GET_earlier r k v t t' : t <= t' -> GET t' k r = Some v -> GET t k r = Some v.
Proof.
  intros Ht. rewrite !GET_view, (view_later _ t t') by done.
  destruct (view r t k) as [[x [e|]]|]; simpl; [|done..]. case_bool_decide; done.
Qed.

Lemma IsSessionActive_ok u s (Q : result bool -> world St -> Prop) w :
  no_faults (w_env w) ->
  GET (e_rnow (w_env w) (e_tick (w_env w))) (SessionKey u) (prj (w_st w)) = Some s ->
  (forall w', w_env w' = tick (w_env w) -> prj (X := R) (w_st w') = prj (w_st w) -> Q (Ok true) w') ->
  wp (IsSessionActive u s) Q w.
Proof.
  intros Hnf Hget HQ. unfold IsSessionActive, cache_Get. apply wp_bind, wp_bind.
  apply wp_redis_call_ok; [done|]. intros t ->. wp_steps. rewrite Hget. simpl.
  rewrite bool_decide_true by done. apply HQ; [done|]. apply prj_upd.
Qed.

(** C22 Refreshing rotates the session: when nothing fails, a valid refresh
    token that Redis knows as the user's current one is exchanged for an
    access token and a refresh token of the same user, session and roles,
    which parse until they expire and are rejected as expired afterwards and
    for the other purpose; the old token is gone from Redis, and the new one
    is the user's current token for the whole time to live. *)
Theorem refresh_rotates token c u roles w :
  no_faults (w_env w) -> check_at w <= rotate_at w -> 0 < Z.quot ttl 1000000 ->
  check_claims TokenTypeRefresh (jwt_parse (m_secret m) (now_at 0 w) token) = Ok c ->
  carries c u roles (cl_SessionID c) (cl_ID c) -> cl_ID c <> "" -> cl_SessionID c <> "" ->
  NoDup roles -> Forall valid_role roles -> roles <> [] ->
  current_token u (cl_ID c) (cl_SessionID c) (rotate_at w) (prj (w_st w)) ->
  let nj := uuid_string (e_uuid (w_env w) (2 + e_tick (w_env w))) in
  nj <> cl_ID c ->
  wp (Refresh m ttl token) (λ r w', exists access refresh, r = Ok (access, refresh) /\
    parses_to m access TokenTypeAccess u roles (cl_SessionID c) ""
      (NewNumericDate (now_at 3 w + m_accessTTL m)) /\
    parses_to m refresh TokenTypeRefresh u roles (cl_SessionID c) nj
      (NewNumericDate (now_at 4 w + m_refreshTTL m)) /\
    gone (prj (X := R) (w_st w')) (refreshKey u (cl_ID c)) (rotate_at w) /\
    forall t, rotate_at w <= t < rotate_at w + Z.quot ttl 1000000 ->
      current_token u nj (cl_SessionID c) t (prj (w_st w'))) w.
Proof.
  intros Hnf Hclock Httl Hparse (Hu & Hroles & _ & _) Hid Hsid Hnd Hvalid Hne (Hget & Hex & Hptr) nj Hnj.
  unfold Refresh, validateRefreshToken. apply wp_bind, wp_bind. unfold ParseToken. wp_steps.
  unfold now_at in Hparse. simpl in Hparse. rewrite Hparse, Hu. rewrite bool_decide_false by done.
  rewrite Hroles. apply wp_bind. apply IsSessionActive_ok; [done| |].
  { eapply GET_earlier; [exact Hclock|]. done. }
  intros w1 Henv1 Hst1. simpl in Henv1, Hst1. wp_steps. unfold rotateTokens. wp_steps.
  rewrite Henv1. simpl. fold nj. unfold generateTokenPair. apply wp_bind.
  eapply wp_mono; [by apply GenerateAccessToken_spec|]. intros ra w2 [-> (access & -> & Hacc)].
  apply wp_bind. eapply wp_mono; [by apply GenerateRefreshToken_spec|].
  intros rr w3 [-> (refresh & -> & Href)]. wp_steps. unfold Rotate. wp_steps.
  apply wp_redis_call_ok; [done|]. simpl. intros t Ht.
  change (t = rotate_at w) in Ht. subst t. rewrite Hst1.
  destruct (rotate_ok (Z.quot ttl 1000000) u (cl_ID c) (cl_SessionID c) nj (cl_SessionID c) (rotate_at w)
    (prj (w_st w)) Httl Hget Hex Hptr ltac:(congruence)) as (r' & Hrot & Hgone & Hviews).
  change (uuid_string (e_uuid (w_env w) (S (S (e_tick (w_env w)))))) with nj.
  unfold rotate in Hrot. rewrite Hrot. simpl. wp_steps. rewrite prj_upd.
  rewrite (dedup_NoDup_id roles) in Hacc, Href by (done || (intros; apply not_elem_of_nil)).
  exists access, refresh. simpl in Hacc, Href. split_and!; [done|done|done|done|].
  intros t Ht. destruct (Hviews t ltac:(lia)) as (Hv1 & Hv2 & Hv3).
  unfold current_token. rewrite !GET_view, EXISTS_view, Hv1, Hv2, Hv3. simpl.
  rewrite bool_decide_true by lia. simpl. split_and!; [done|done|by right].
Qed.
End Flow.

Section Interception.
Context {St : Type} `{J : JwtLib} `{U : GoLib}.

(** The errors the interceptor refuses a request with. *)
Definition auth_sentinels : list sentinel :=
  [ErrMissingMetadata; ErrMissingAuthToken; ErrInvalidToken; ErrTokenExpired; ErrInvalidTokenType;
   ErrMissingTokenSubject; ErrMissingTokenSessionID; ErrMissingUserRoles; ErrInvalidUserRoles;
   ErrInvalidUserIDInToken].

Ltac refused := eexists; split; [|reflexivity]; unfold auth_sentinels; set_solver.

Lemma bearer_error c e : bearerTokenFromContext c = Err e -> exists s, s ∈ auth_sentinels /\ e = ESentinel s.
Proof.
  unfold bearerTokenFromContext. intros H.
  repeat match type of H with context [match ?x with _ => _ end] => destruct x end; simplify_eq/=; refused.
Qed.

Lemma check_claims_error t p e : check_claims t p = Err e -> exists s, s ∈ auth_sentinels /\ e = ESentinel s.
Proof.
  unfold check_claims. intros H.
  repeat match type of H with context [match ?x with _ => _ end] => destruct x end; simplify_eq/=; refused.
Qed.

Lemma parse_roles_error raw out e : parse_roles raw out = Err e -> e = ESentinel ErrInvalidUserRoles.
Proof.
  revert out. induction raw as [|x raw IH]; intros out; simpl; [done|].
  destruct (ParseUserRole x) as [role ok]. destruct (negb ok || _); [by intros [= <-]|].
  case_decide; apply IH.
Qed.

Lemma roles_error raw e : ParseUserRolesClaims raw = Err e -> exists s, s ∈ auth_sentinels /\ e = ESentinel s.
Proof.
  unfold ParseUserRolesClaims. destruct raw as [|x raw]; [intros [= <-]; refused|].
  destruct (parse_roles (x :: raw) []) as [[|r out]|e'] eqn:E; [intros [= <-]; refused|done|].
  apply parse_roles_error in E as ->. intros [= <-]. refused.
Qed.

Lemma authenticate_cases {A} m skipList fullMethod (handler : reqctx -> M St (result A))
    (c : reqctx) w :
  let res := UnaryServerInterceptor m skipList fullMethod handler c w in
  (shouldSkip fullMethod (makeSkipMethods skipList) = true /\ res = handler c w) \/
  (shouldSkip fullMethod (makeSkipMethods skipList) = false /\
   ((exists s w', s ∈ auth_sentinels /\ res = (Err (ESentinel s), w') /\ w_st w' = w_st w) \/
    exists token claims userID roles c',
      bearerTokenFromContext c = Ok token /\
      check_claims TokenTypeAccess (jwt_parse (m_secret m) (e_now (w_env w) (e_tick (w_env w))) token) = Ok claims /\
      cl_TokenType claims = TokenTypeAccess /\
      uuid_parse (cl_Subject claims) = Some userID /\ ParseUserRolesClaims (cl_UserRoles claims) = Ok roles /\
      UserIDFromContext c' = Some userID /\ UserRolesFromContext c' = Some roles /\
      res = handler c' (World (tick (w_env w)) (w_st w)))).
Proof.
  simpl. unfold UnaryServerInterceptor. destruct (shouldSkip _ _); [by left|right]. split; [done|].
  destruct (bearerTokenFromContext c) as [token|e] eqn:Eb; [|left].
  2:{ destruct (bearer_error _ _ Eb) as (s & Hs & ->). by exists s, w. }
  unfold ParseToken, mbind, time_Now, ask, mret.
  destruct (check_claims _ _) as [claims|e] eqn:Ec.
  2:{ left. destruct (check_claims_error _ _ _ Ec) as (s & Hs & ->). by eexists s, _. }
  destruct (ParseUserRolesClaims _) as [roles|e] eqn:Er.
  2:{ left. destruct (roles_error _ _ Er) as (s & Hs & ->). by eexists s, _. }
  destruct (uuid_parse _) as [userID|] eqn:Eu.
  2:{ left. eexists ErrInvalidUserIDInToken, _. split_and!; [|done|done]. unfold auth_sentinels. set_solver. }
  right. exists token, claims, userID, roles, (ContextWithUserRoles (ContextWithUserID c userID) roles).
  assert (Ht : cl_TokenType claims = TokenTypeAccess).
  { unfold check_claims in Ec. destruct (jwt_parse _ _ _) as [| |cl]; [done|done|].
    destruct (bool_decide (cl_TokenType cl = TokenTypeAccess)) eqn:Et; simpl in Ec; [|done].
    apply bool_decide_eq_true in Et. split_match_hyp Ec. done. }
  assert (Hr : UserRolesFromContext (ContextWithUserRoles (ContextWithUserID c userID) roles) = Some roles).
  { unfold UserRolesFromContext. simpl. destruct roles; [|done]. unfold ParseUserRolesClaims in Er.
    by split_match_hyp Er. }
  by split_and!.
Qed.

(** A protected method only runs as the bearer of a valid access token: the
    interceptor either answers an error without calling the handler, or calls
    it exactly as the method's skip list says, or calls it with the user and
    the roles of an access token that the request carries in its bearer
    header and that the signing secret validates at this moment. *)
Theorem interceptor_authenticates {A} m skipList fullMethod (handler : reqctx -> M St (result A))
    (c : reqctx) w :
  let res := UnaryServerInterceptor m skipList fullMethod handler c w in
  (shouldSkip fullMethod (makeSkipMethods skipList) = true /\ res = handler c w) \/
  (shouldSkip fullMethod (makeSkipMethods skipList) = false /\
   ((exists e w', res = (Err e, w') /\ w_st w' = w_st w) \/
    exists token claims userID roles c',
      bearerTokenFromContext c = Ok token /\
      check_claims TokenTypeAccess (jwt_parse (m_secret m) (e_now (w_env w) (e_tick (w_env w))) token) = Ok claims /\
      cl_TokenType claims = TokenTypeAccess /\
      uuid_parse (cl_Subject claims) = Some userID /\ ParseUserRolesClaims (cl_UserRoles claims) = Ok roles /\
      UserIDFromContext c' = Some userID /\ UserRolesFromContext c' = Some roles /\
      res = handler c' (World (tick (w_env w)) (w_st w)))).
Proof.
  simpl. destruct (authenticate_cases m skipList fullMethod handler c w) as [H|[Hs [(s & w' & _ & H)|H]]];
    [by left|right..]; split; [done| |done|by right].
  left. by exists (ESentinel s), w'.
Qed.
End Interception.

(** ** Closed instances *)

#[export] Instance Claims_eq_dec : EqDecision Claims.
Proof. solve_decision. Defined.

#[export] Instance Claims_countable : Countable Claims.
Proof.
  refine (inj_countable'
    (λ c, (cl_ID c, cl_Subject c, cl_IssuedAt c, cl_ExpiresAt c, cl_TokenType c, cl_SessionID c, cl_UserRoles c))
    (λ '(i, s, a, e, t, d, r), Build_Claims i s a e t d r) _).
  by intros [].
Defined.

(** Tokens that show the secret and the claims. *)
Definition TextJwt : JwtLib := {|
  jwt_sign secret c := Some (text_encode (secret, c));
  jwt_parse secret now token :=
    match text_decode token with
    | Some (secret', c) =>
        if bool_decide (secret = secret') then
          if now <? cl_ExpiresAt c then JwtValid c else JwtExpired
        else JwtInvalid
    | None => JwtInvalid
    end
|}.

Lemma TextJwt_laws : JwtLaws TextJwt.
Proof.
  split; simpl; [by eexists|]. intros secret c token now [= <-].
  rewrite text_decode_encode. by rewrite bool_decide_true.
Qed.

Section Witness.
#[local] Existing Instance MemRedis.mem_redis.
#[local] Existing Instance MemRedis.mem_redis_laws.
#[local] Existing Instance DecLib.
#[local] Existing Instance DecLib_laws.
#[local] Existing Instance TextJwt.
#[local] Existing Instance TextJwt_laws.
Notation mem := (gmap string (string * option Z)).

(** User 1 is logged in with token "a" of session "s". *)
Definition demo_login : mem := (replace 1000 1%N "a" "s" 0 (∅ : mem)).2.
Definition demo_rotated : mem := (rotate 1000 1%N "a" "s" "b" "s" 10 demo_login).2.

Lemma refresh_single_use_witness :
  rotate 1000 1%N "a" "s" "c" "s" 30
    (exec_all 1000 [(20, OpRotate 1%N "b" "s" "c" "s")] demo_rotated) =
  (Ok 0, exec_all 1000 [(20, OpRotate 1%N "b" "s" "c" "s")] demo_rotated).
Proof.
  apply (refresh_single_use 1000 1%N "a" "s" "b" "s" "s" "c" "s" 10 30 _ demo_login).
  - apply pair_snd. vm_compute. reflexivity.
  - simpl. lia.
  - constructor; [discriminate|constructor].
Defined.

Lemma replace_revokes_witness :
  rotate 1000 1%N "a" "s" "d" "s" 40 (replace 1000 1%N "c" "s2" 20 demo_login).2 =
  (Ok 0, (replace 1000 1%N "c" "s2" 20 demo_login).2).
Proof.
  apply (replace_revokes 1000 1%N "c" "s2" "a" "s" "d" "s" 20 40 demo_login).
  - apply pair_snd. vm_compute. reflexivity.
  - lia.
  - left. discriminate.
Defined.

Definition demo_manager : Manager := {| m_secret := "k"; m_accessTTL := 60000000000; m_refreshTTL := 600000000000 |}.

Definition demo_claims : Claims := {|
  cl_ID := "a"; cl_Subject := "u1"; cl_IssuedAt := 0; cl_ExpiresAt := 600000000000;
  cl_TokenType := TokenTypeRefresh; cl_SessionID := "s"; cl_UserRoles := ["ROLE_USER"] |}.

Definition demo_world : world mem := World quiet_env demo_login.

Definition demo_jti : string := uuid_string (e_uuid (w_env demo_world) (2 + e_tick (w_env demo_world))).

Lemma refresh_rotates_witness :
  let token := text_encode ("k", demo_claims) in
  wp (Refresh demo_manager 1000000000 token) (λ r w', exists access refresh, r = Ok (access, refresh) /\
    parses_to demo_manager access TokenTypeAccess 1%N [1] (cl_SessionID demo_claims) ""
      (NewNumericDate (now_at 3 demo_world + m_accessTTL demo_manager)) /\
    parses_to demo_manager refresh TokenTypeRefresh 1%N [1] (cl_SessionID demo_claims) demo_jti
      (NewNumericDate (now_at 4 demo_world + m_refreshTTL demo_manager)) /\
    gone (prj (X := mem) (w_st w')) (refreshKey 1%N (cl_ID demo_claims)) (rotate_at demo_world) /\
    forall t, rotate_at demo_world <= t < rotate_at demo_world + Z.quot 1000000000 1000000 ->
      current_token 1%N demo_jti (cl_SessionID demo_claims) t (prj (w_st w'))) demo_world.
Proof.
  apply (refresh_rotates demo_manager 1000000000 (text_encode ("k", demo_claims)) demo_claims 1%N [1] demo_world).
  - apply quiet_env_no_faults.
  - vm_compute. discriminate.
  - vm_compute. reflexivity.
  - vm_compute. reflexivity.
  - repeat split; vm_compute; reflexivity.
  - discriminate.
  - discriminate.
  - constructor; [apply not_elem_of_nil|constructor].
  - constructor; [|constructor]. unfold valid_role. lia.
  - discriminate.
  - split; [vm_compute; reflexivity|]. split; [vm_compute; reflexivity|]. right. vm_compute. reflexivity.
  - discriminate.
Defined.
End Witness.
