(* ===== verification/SpotDb.v ===== *)
(** * The spot service's database
      (spotService/internal/infrastructure/postgres/{spot,cursor},
       application/dto/outbound/postgres, domain/models, migrations)

    The market table, the poller's cursor and the outbox, and one statement per
    store operation.  Visibility per role and the order of a page are those of
    the queries; [Collation] is the server's order on names. *)

From stdpp Require Import sorting.
From S2P Require Import Prelude GoStrings GoErrors Effects Pg Kafka Outbox Events OrderDb.
Local Open Scope string_scope.
Local Open Scope list_scope.
Local Open Scope Z_scope.

(** The order of TEXT values under the database's collation. *)
Class Collation := { name_le : string -> string -> bool }.

Class CollationLaws (C : Collation) := {
  name_le_total a b : name_le a b = true \/ name_le b a = true;
  name_le_trans a b c : name_le a b = true -> name_le b c = true -> name_le a c = true;
  name_le_antisym a b : name_le a b = true -> name_le b a = true -> a = b
}.

Record PollerCursor := { pc_PollerName : string; pc_LastSeenAt : Z; pc_LastSeenID : UUID }.

Record SpotDB := {
  sdb_markets : gmap UUID Market;
  sdb_cursors : gmap string PollerCursor;
  sdb_outbox : outbox
}.

#[export] Instance SpotDB_outbox : HasOutbox SpotDB := {
  outbox_of := sdb_outbox;
  set_outbox t d := {| sdb_markets := sdb_markets d; sdb_cursors := sdb_cursors d; sdb_outbox := t |};
  outbox_of_set _ _ := eq_refl
}.

Definition set_cursors (t : gmap string PollerCursor) (d : SpotDB) : SpotDB :=
  {| sdb_markets := sdb_markets d; sdb_cursors := t; sdb_outbox := sdb_outbox d |}.

Definition empty_spot : SpotDB := {| sdb_markets := ∅; sdb_cursors := ∅; sdb_outbox := ∅ |}.

Definition roleAdminKey : string := "admin".
Definition roleViewerKey : string := "viewer".
Definition roleUserKey : string := "user".

Section Statements.
Context `{PT : PgTypes} `{C : Collation}.

(** The WHERE clause of a role. *)
Definition visible (roleKey : string) (m : Market) : bool :=
  if bool_decide (roleKey = roleAdminKey) then true
  else if bool_decide (roleKey = roleViewerKey) then
    match mkt_DeletedAt m with None => true | Some _ => false end
  else match mkt_DeletedAt m with None => mkt_Enabled m | Some _ => false end.

(** ORDER BY name, id. *)
Definition page_order (m1 m2 : Market) : Prop :=
  name_le (mkt_Name m1) (mkt_Name m2) = true /\
  (name_le (mkt_Name m2) (mkt_Name m1) = true -> (mkt_ID m1 <= mkt_ID m2)%N).

#[export] Instance page_order_dec : RelDecision page_order.
Proof. intros m1 m2. unfold page_order. apply _. Defined.

(** Everything a role sees, in page order. *)
Definition visible_markets (roleKey : string) (d : SpotDB) : list Market :=
  merge_sort page_order (filter (λ m, visible roleKey m = true) (map_to_list (sdb_markets d)).*2).

Definition sql_page (roleKey : string) (limit offset : Z) : stmt SpotDB (list Market) := λ _ d,
  if limit <? 0 then (Err (EPg "2201W" "" "LIMIT must not be negative"), d)
  else if offset <? 0 then (Err (EPg "2201X" "" "OFFSET must not be negative"), d)
  else (Ok (take (Z.to_nat limit) (drop (Z.to_nat offset) (visible_markets roleKey d))), d).

Definition sql_any_market : stmt SpotDB bool := λ _ d,
  (Ok (negb (bool_decide (sdb_markets d = ∅))), d).

Definition sql_market_by_id (id : UUID) : stmt SpotDB (list Market) := λ _ d,
  (Ok match sdb_markets d !! id with Some m => [m] | None => [] end, d).

(** (updated_at, id) > ($1, $2). *)
Definition after_cursor (at_ : Z) (id : UUID) (m : Market) : bool :=
  (at_ <? mkt_UpdatedAt m) || ((at_ =? mkt_UpdatedAt m) && (id <? mkt_ID m)%N).

(** ORDER BY updated_at, id. *)
Definition update_order (m1 m2 : Market) : Prop :=
  mkt_UpdatedAt m1 < mkt_UpdatedAt m2 \/
  (mkt_UpdatedAt m1 = mkt_UpdatedAt m2 /\ (mkt_ID m1 <= mkt_ID m2)%N).

#[export] Instance update_order_dec : RelDecision update_order.
Proof. intros m1 m2. unfold update_order. apply _. Defined.

Definition updated_markets (at_ : Z) (id : UUID) (d : SpotDB) : list Market :=
  merge_sort update_order
    (filter (λ m, after_cursor at_ id m = true) (map_to_list (sdb_markets d)).*2).

Definition sql_updated_since (updatedAt : Z) (lastID : UUID) (limit : Z) : stmt SpotDB (list Market) :=
  λ _ d,
  if limit <? 0 then (Err (EPg "2201W" "" "LIMIT must not be negative"), d)
  else (Ok (take (Z.to_nat limit) (updated_markets (pg_time updatedAt) lastID d)), d).

Definition sql_get_cursor (pollerName : string) : stmt SpotDB (list PollerCursor) := λ _ d,
  (Ok match sdb_cursors d !! pollerName with Some c => [c] | None => [] end, d).

Definition sql_save_cursor (cursor : PollerCursor) : stmt SpotDB unit := λ _ d,
  (Ok tt, set_cursors (<[pc_PollerName cursor := {|
     pc_PollerName := pc_PollerName cursor; pc_LastSeenAt := pg_time (pc_LastSeenAt cursor);
     pc_LastSeenID := pc_LastSeenID cursor |}]> (sdb_cursors d)) d).
End Statements.

(** ** MarketStore and cursor.Store *)

Section Stores.
Context {St : Type} `{PT : PgTypes} `{C : Collation} `{HD : !Has (pg SpotDB) St}.

(** [int(x)] of a uint64. *)
Definition to_int (x : Z) : Z := wrap_s 64 x.

Definition loadMarketsPage (roleKey : string) (limit offset : Z) : M St (result (list Market)) :=
  let! r := pool_Exec (sql_page roleKey (to_int (wrap_u 64 (limit + 1))) (to_int offset)) in
  mret (map_err (wrap "postgres.MarketStore.loadMarketsPage") r).

Definition hasAnyMarkets : M St (result bool) := pool_Exec sql_any_market.

Definition emptyPageResult (offset : Z) : M St (result (list Market)) :=
  if 0 <? offset then mret (Ok [])
  else
    try! exists_ := hasAnyMarkets else id in
    mret (if exists_ : bool then Ok [] else Err (ESentinel Repo_ErrMarketStoreIsEmpty)).

Definition GetMarketsPage (roleKey : string) (limit offset : Z) : M St (result (list Market)) :=
  let op := "postgres.MarketStore.GetMarketsPage" in
  try! dtoMarkets := loadMarketsPage roleKey limit offset else wrap op in
  match dtoMarkets with
  | [] => let! r := emptyPageResult offset in mret (map_err (wrap op) r)
  | _ => mret (Ok dtoMarkets)
  end.

Definition store_GetMarketByID (id : UUID) : M St (result Market) :=
  let op := "postgres.MarketStore.GetMarketById" in
  let! rows := pool_Exec (sql_market_by_id id) in
  mret match CollectExactlyOneRow rows with
       | Err err =>
           if is_sent PgxErrNoRows err then Err (wrap op Repo_ErrMarketNotFound) else Err (wrap op err)
       | Ok marketDTO => Ok marketDTO
       end.

Definition ListUpdatedSince (updatedAt : Z) (lastID : UUID) (limit : Z) : M St (result (list Market)) :=
  let! r := pool_Exec (sql_updated_since updatedAt lastID limit) in
  mret (map_err (wrap "postgres.MarketStore.ListUpdatedSince: query updated markets") r).

Definition cursor_Get (pollerName : string) : M St (result PollerCursor) :=
  let! rows := pool_Exec (sql_get_cursor pollerName) in
  mret match rows with
       | Err err => if is_sent PgxErrNoRows err then Err (ESentinel PgxErrNoRows)
                    else Err (wrap "CursorStore.Get" err)
       | Ok [] => Err (ESentinel PgxErrNoRows)
       | Ok (cursor :: _) => Ok cursor
       end.

Definition SaveCursorTransaction (cursor : PollerCursor) : M St (result unit) :=
  let! r := tx_Exec (sql_save_cursor cursor) in
  mret (map_err (wrap "CursorStore.SaveCursorTransaction") r).
End Stores.

(** ** What a role sees *)

Section Visible.
Context `{C : Collation} `{!CollationLaws C}.

Definition markets_keyed (d : SpotDB) : Prop := map_Forall (λ id m, mkt_ID m = id) (sdb_markets d).

Lemma elem_of_visible roleKey d m :
  m ∈ visible_markets roleKey d <->
    visible roleKey m = true /\ exists id, sdb_markets d !! id = Some m.
Proof. unfold visible_markets. by rewrite merge_sort_Permutation, list_elem_of_filter, elem_of_values. Qed.

#[export] Instance page_order_total : Total page_order.
Proof.
  intros m1 m2. unfold page_order.
  destruct (name_le (mkt_Name m1) (mkt_Name m2)) eqn:E1, (name_le (mkt_Name m2) (mkt_Name m1)) eqn:E2.
  - destruct (N.le_gt_cases (mkt_ID m1) (mkt_ID m2)); [by left|right]. split; [done|]. intros _. lia.
  - by left.
  - by right.
  - destruct (name_le_total (mkt_Name m1) (mkt_Name m2)); congruence.
Qed.

#[export] Instance page_order_trans : Transitive page_order.
Proof.
  intros m1 m2 m3 [H1 H2] [H3 H4]. split; [by eapply name_le_trans|]. intros H5.
  assert (Ha : name_le (mkt_Name m2) (mkt_Name m1) = true) by (by eapply name_le_trans).
  assert (Hb : name_le (mkt_Name m3) (mkt_Name m2) = true) by (by eapply name_le_trans).
  specialize (H2 Ha). specialize (H4 Hb). lia.
Qed.

Lemma NoDup_visible roleKey d : markets_keyed d -> NoDup (mkt_ID <$> visible_markets roleKey d).
Proof.
  intros Hk. unfold visible_markets. rewrite merge_sort_Permutation.
  eapply sublist_NoDup; [|apply fmap_sublist, sublist_filter].
  rewrite <- list_fmap_compose.
  enough (mkt_ID ∘ snd <$> map_to_list (sdb_markets d) = (map_to_list (sdb_markets d)).*1) as ->
    by apply NoDup_fst_map_to_list.
  apply list_fmap_ext. intros i [id m] Hi%list_elem_of_lookup_2%elem_of_map_to_list. simpl. by apply Hk.
Qed.
End Visible.
