(* ===== verification/MarketView.v ===== *)
(** * Reading markets
      (spotService/internal/services/spot/market_viewer.go,
       infrastructure/redis, application/dto/outbound/redis,
       grpc/spot/spot_instrument_handler.go)

    Pages and single markets are served from Redis when they are there and from
    Postgres otherwise.  The properties: a caller only gets markets its role may
    see, following the offsets of the pages lists every visible market once, and
    a page or market from a warm cache is the one the database would give. *)

From stdpp Require Import sorting.
From S2P Require Import Prelude GoStrings GoErrors Effects Redis Pg Outbox Events OrderDb Auth SpotDb.
Local Open Scope string_scope.
Local Open Scope list_scope.
Local Open Scope Z_scope.

(** ** The cached form of a market *)

Record MarketRedisView := {
  rv_ID : string; rv_Name : string; rv_Enabled : bool;
  rv_DeletedAtNs : option Z; rv_UpdatedAtNs : option Z
}.

(** encoding/json on cached markets and lists of them.  JSON texts are Unicode:
    names that are valid UTF-8 survive. *)
Class MarketJson := {
  utf8_valid : string -> bool;
  marshal_view : MarketRedisView -> result string;
  unmarshal_view : string -> result MarketRedisView;
  marshal_views : list MarketRedisView -> result string;
  unmarshal_views : string -> result (list MarketRedisView)
}.

Definition view_utf8 `{MarketJson} (v : MarketRedisView) : Prop :=
  utf8_valid (rv_ID v) = true /\ utf8_valid (rv_Name v) = true.

Class MarketJsonLaws `{GoLib} (J : MarketJson) := {
  utf8_uuid u : utf8_valid (uuid_string u) = true;
  json_view v : view_utf8 v -> exists s, marshal_view v = Ok s /\ unmarshal_view s = Ok v;
  json_views l : Forall view_utf8 l -> exists s, marshal_views l = Ok s /\ unmarshal_views s = Ok l
}.

(** Time.UnixNano: an int64. *)
Definition UnixNano (t : Z) : Z := wrap_s 64 t.

Section Views.
Context `{U : GoLib}.

Definition ErrInvalidUuid : error := EMsg "invalid UUID".

Definition view_ToDomain (m : MarketRedisView) : result Market :=
  match uuid_parse (rv_ID m) with
  | None => Err ErrInvalidUuid
  | Some id => Ok {|
      mkt_ID := id; mkt_Name := rv_Name m; mkt_Enabled := rv_Enabled m;
      mkt_DeletedAt := rv_DeletedAtNs m;
      mkt_UpdatedAt := match rv_UpdatedAtNs m with Some ns => ns | None => zero_time end |}
  end.

Definition view_FromDomain (market : Market) : MarketRedisView := {|
  rv_ID := uuid_string (mkt_ID market); rv_Name := mkt_Name market; rv_Enabled := mkt_Enabled market;
  rv_DeletedAtNs := UnixNano <$> mkt_DeletedAt market;
  rv_UpdatedAtNs := if mkt_UpdatedAt market =? zero_time then None
                    else Some (UnixNano (mkt_UpdatedAt market)) |}.

Fixpoint views_ToDomain (l : list MarketRedisView) : result (list Market) :=
  match l with
  | [] => Ok []
  | v :: l => res_bind (view_ToDomain v) (λ m, res_map (cons m) (views_ToDomain l))
  end.

Context `{MJ : MarketJson}.

Definition encodeMarket (market : Market) : result string := marshal_view (view_FromDomain market).
Definition decodeCachedMarket (data : string) : result Market :=
  res_bind (unmarshal_view data) view_ToDomain.
Definition encodeMarkets (markets : list Market) : result string :=
  marshal_views (view_FromDomain <$> markets).
Definition decodeCachedMarkets (data : string) : result (list Market) :=
  res_bind (unmarshal_views data) views_ToDomain.
End Views.

(** ** The caches *)

Section Caches.
Context {St R : Type} `{Redis R} `{HR : !Has R St} `{U : GoLib} `{MJ : MarketJson}.

Definition cacheByIDKey (id : UUID) : string := "market:by_id" +:+ ":" +:+ uuid_string id.
Definition cacheKey (roleKey : string) : string := "market:cache" +:+ ":" +:+ roleKey.

Definition DeleteMarketByID (id : UUID) : M St (result unit) :=
  let! r := cache_Delete (cacheByIDKey id) in
  mret (map_err (wrap "redis.MarketByIDCacheRepository.DeleteMarketByID") r).

Definition cached_GetMarketByID (id : UUID) : M St (result Market) :=
  let op := "redis.MarketByIDCacheRepository.GetMarketByID" in
  let! data := cache_Get (cacheByIDKey id) in
  match data with
  | Err err =>
      if is_sent ErrCacheNotFound err then mret (Err Repo_ErrMarketNotFound)
      else mret (Err (wrap op err))
  | Ok data =>
      match decodeCachedMarket data with
      | Err _ =>
          (* invalidateCorruptedCache: its error is recorded *)
          DeleteMarketByID id ;;!
          mret (Err (wrap op (ESentinel Repo_ErrMarketCacheCorrupted)))
      | Ok market => mret (Ok market)
      end
  end.

Definition SetMarketByID (market : Market) (ttl : Z) : M St (result unit) :=
  let op := "redis.MarketByIDCacheRepository.SetMarketByID" in
  match encodeMarket market with
  | Err err => mret (Err (wrap op err))
  | Ok data =>
      let! r := cache_SetWithTTL (cacheByIDKey (mkt_ID market)) data ttl in
      mret (map_err (wrap op) r)
  end.

Definition DeleteMarkets (roleKey : string) : M St (result unit) :=
  let! r := cache_Delete (cacheKey roleKey) in
  mret (map_err (wrap "redis.MarketCacheRepository.DeleteMarkets") r).

Definition GetMarkets (roleKey : string) : M St (result (list Market)) :=
  let op := "redis.MarketCacheRepository.GetMarkets" in
  let! data := cache_Get (cacheKey roleKey) in
  match data with
  | Err err =>
      if is_sent ErrCacheNotFound err then mret (Err (ESentinel Repo_ErrMarketsNotFound))
      else mret (Err (wrap op err))
  | Ok data =>
      match decodeCachedMarkets data with
      | Err _ =>
          DeleteMarkets roleKey ;;!
          mret (Err (wrap op (ESentinel Repo_ErrMarketCacheCorrupted)))
      | Ok markets => mret (Ok markets)
      end
  end.

Definition SetMarkets (markets : list Market) (roleKey : string) (ttl : Z) : M St (result unit) :=
  let op := "redis.MarketCacheRepository.SetMarkets" in
  match encodeMarkets markets with
  | Err err => mret (Err (wrap op err))
  | Ok data =>
      let! r := cache_SetWithTTL (cacheKey roleKey) data ttl in
      mret (map_err (wrap op) r)
  end.
End Caches.

(** ** MarketViewer *)

Definition cacheRoleKeys : list string := [roleAdminKey; roleViewerKey; roleUserKey].

Record viewer_config := { vw_cacheTTL : Z; vw_defaultLimit : Z; vw_maxLimit : Z; vw_cacheLimit : Z }.

Definition page : Type := list Market * Z * bool.   (* markets, next offset, has more *)

Definition ErrSlicePanic : error := EMsg "runtime error: slice bounds out of range".

Definition buildPageResponse (markets : list Market) (limit offset : Z) : result page :=
  let hasMore := wrap_s 64 limit <? len markets in
  if hasMore && (max_u64 - limit <? offset) then
    Err (EWrap "" (ESentinel ErrInvalidPagination) ": next offset overflow")
  else if hasMore then
    if len markets <? limit then Err ErrSlicePanic
    else Ok (take (Z.to_nat limit) markets, offset + limit, true)
  else Ok (markets, 0, false).

(** The loop of effectiveUserRole with the role found so far. *)
Fixpoint effective_role (roles : list UserRole) (resultRole : string) : string * bool :=
  match roles with
  | [] => (resultRole, negb (bool_decide (resultRole = "")))
  | role :: roles =>
      if role =? UserRoleAdmin then (roleAdminKey, true)
      else if role =? UserRoleViewer then effective_role roles roleViewerKey
      else if role =? UserRoleUser then
        effective_role roles (if bool_decide (resultRole = "") then roleUserKey else resultRole)
      else effective_role roles resultRole
  end.

Definition effectiveUserRole (roles : list UserRole) : string * bool := effective_role roles "".

Definition getRoleKeyFromContext (c : reqctx) : result string :=
  match UserRolesFromContext c with
  | None => Err (ESentinel ErrUserRoleNotSpecified)
  | Some userRoles =>
      let '(roleKey, ok) := effectiveUserRole userRoles in
      if ok : bool then Ok roleKey else Err (ESentinel ErrUserRoleNotSpecified)
  end.

Definition normalizeLimit (limit defaultLimit maxLimit : Z) : Z :=
  if limit =? 0 then defaultLimit else if maxLimit <? limit then maxLimit else limit.

Section Viewer.
Context {St R : Type} `{Redis R} `{HR : !Has R St} `{PT : PgTypes} `{C : Collation}
  `{HD : !Has (pg SpotDB) St} `{U : GoLib} `{MJ : MarketJson}.
Variable cfg : viewer_config.

(** Its error is logged. *)
Definition warmHeadCache (roleKey : string) (markets : list Market) : M St (result unit) :=
  SetMarkets markets roleKey (vw_cacheTTL cfg).

Definition tryLoadHeadPage (roleKey : string) (limit : Z) : M St (result page) :=
  let! r := GetMarkets roleKey in
  match r with
  | Ok headMarkets => mret (buildPageResponse headMarkets limit 0)
  | Err _ =>
      let! r := GetMarketsPage roleKey (wrap_u 64 (vw_cacheLimit cfg + 1)) 0 in
      match r with
      | Err err =>
          if is_sent Repo_ErrMarketStoreIsEmpty err then mret (Err (ESentinel ErrMarketsNotFound))
          else mret (Err err)
      | Ok headMarkets =>
          match buildPageResponse headMarkets limit 0 with
          | Err err => mret (Err err)
          | Ok p => warmHeadCache roleKey headMarkets ;;! mret (Ok p)
          end
      end
  end.

Definition ViewMarkets (c : reqctx) (limit offset : Z) : M St (result page) :=
  let op := "MarketViewer.ViewMarkets" in
  match getRoleKeyFromContext c with
  | Err err => mret (Err (wrap op err))
  | Ok roleKey =>
      let limit := normalizeLimit limit (vw_defaultLimit cfg) (vw_maxLimit cfg) in
      if max_i64 <? offset then mret (Err (wrap op (ESentinel ErrInvalidPagination)))
      else if (offset =? 0) && (limit <=? vw_cacheLimit cfg) then
        let! r := tryLoadHeadPage roleKey limit in
        mret (map_err (wrap op) r)
      else
        let! r := GetMarketsPage roleKey limit offset in
        match r with
        | Err pageError =>
            mret (Err (wrap op (if is_sent Repo_ErrMarketStoreIsEmpty pageError
                                then ESentinel ErrMarketsNotFound else pageError)))
        | Ok markets => mret (map_err (wrap op) (buildPageResponse markets limit offset))
        end
  end.

Definition validateMarketAccess (roleKey : string) (market : Market) (id : UUID) : option error :=
  if bool_decide (roleKey = roleAdminKey) then None
  else if bool_decide (roleKey = roleViewerKey) then
    match mkt_DeletedAt market with Some _ => Some (EMarketNotFound id) | None => None end
  else if bool_decide (roleKey = roleUserKey) then
    match mkt_DeletedAt market with
    | Some _ => Some (EMarketNotFound id)
    | None => if negb (mkt_Enabled market) then Some (EDisabled id) else None
    end
  else Some (ESentinel ErrUserRoleNotSpecified).

Definition handleWarmupSetError (id : UUID) (market : Market) (cleanupCorruptedCache : bool) : M St Market :=
  if negb cleanupCorruptedCache then mret market
  else DeleteMarketByID id ;;! mret market.

Definition loadMarketAndWarmCache (id : UUID) (cleanupCorruptedCache : bool) : M St (result Market) :=
  let op := "MarketViewer.loadMarketAndWarmCache" in
  let! r := cached_GetMarketByID id in
  match r with
  | Ok market => mret (Ok market)
  | Err _ =>
      let! r := store_GetMarketByID id in
      match r with
      | Err err => mret (Err (wrap op err))
      | Ok market =>
          let! s := SetMarketByID market (vw_cacheTTL cfg) in
          match s with
          | Err _ => let! m := handleWarmupSetError id market cleanupCorruptedCache in mret (Ok m)
          | Ok _ => mret (Ok market)
          end
      end
  end.

(** singleflight.Group.Do runs the function for the first caller of the key and
    gives its result to the others that wait for it. *)
Definition getMarketWithSingleFlight (id : UUID) (cleanupCorruptedCache : bool) : M St (result Market) :=
  let! r := loadMarketAndWarmCache id cleanupCorruptedCache in
  mret (map_err (wrap "MarketViewer.getMarketWithSingleFlight") r).

Definition getMarketActual (id : UUID) : M St (result Market) :=
  let! r := cached_GetMarketByID id in
  match r with
  | Ok market => mret (Ok market)
  | Err err =>
      let! r := getMarketWithSingleFlight id (is_sent Repo_ErrMarketCacheCorrupted err) in
      mret match r with
           | Err err => if errors_Is err Repo_ErrMarketNotFound then Err (EMarketNotFound id)
                        else Err (wrap "MarketViewer.getMarketActual" err)
           | Ok market => Ok market
           end
  end.

Definition GetMarketByID (c : reqctx) (id : UUID) : M St (result Market) :=
  let op := "MarketViewer.GetMarketByID" in
  match getRoleKeyFromContext c with
  | Err err => mret (Err (wrap op err))
  | Ok roleKey =>
      try! market := getMarketActual id else (λ e, e) in
      mret match validateMarketAccess roleKey market id with
           | Some err => Err (wrap op err)
           | None => Ok market
           end
  end.

(** Keys of all roles when the store is empty. *)
Definition invalidateMarketsCache : M St (result unit) :=
  let op := "MarketViewer.invalidateMarketsCache" in
  let! r := for_each cacheRoleKeys (λ roleKey,
    let! r := DeleteMarkets roleKey in
    mret match r with
         | Err err => Some (wrap (op +:+ ": delete cache for role " +:+ roleKey) err)
         | Ok _ => None
         end) in
  mret match r with Some e => Err e | None => Ok tt end.

Definition RefreshAll : M St (result unit) :=
  let op := "MarketViewer.RefreshAll" in
  let! r := for_each cacheRoleKeys (λ roleKey,
    let! r := GetMarketsPage roleKey (wrap_u 64 (vw_cacheLimit cfg + 1)) 0 in
    match r with
    | Err err =>
        if is_sent Repo_ErrMarketStoreIsEmpty err then let! i := invalidateMarketsCache in mret (Some i)
        else mret (Some (Err (wrap (op +:+ ": load head cache for role " +:+ roleKey) err)))
    | Ok markets =>
        let! s := SetMarkets markets roleKey (vw_cacheTTL cfg) in
        mret match s with
             | Err err => Some (Err (wrap (op +:+ ": set cache for role " +:+ roleKey) err))
             | Ok _ => None
             end
    end) in
  mret (default (Ok tt) r).

(** errors.Join of a non-empty list. *)
Fixpoint join_all (e : error) (l : list error) : error :=
  match l with [] => e | e' :: l => EJoin (String "010" "") e (join_all e' l) end.

Fixpoint invalidate_ids (ids : list UUID) (errs : list error) : M St (list error) :=
  match ids with
  | [] => mret errs
  | id :: ids =>
      let! r := DeleteMarketByID id in
      invalidate_ids ids (errs ++ match r with
        | Err err => [wrap ("MarketViewer.InvalidateByIDs: delete market by id cache for market " +:+
                            uuid_string id) err]
        | Ok _ => []
        end)
  end.

Definition InvalidateByIDs (ids : list UUID) : M St (result unit) :=
  let! errs := invalidate_ids (dedup [] ids) [] in
  mret match errs with [] => Ok tt | e :: l => Err (join_all e l) end.

(** spot_instrument_handler.go. *)
Context `{PB : PbTime}.

Definition handle_ViewMarkets (c : reqctx) (request : option (Z * Z)) :
    M St (result (list MarketMsg * Z * bool)) :=
  match request with
  | None => mret (Err (EStatus 3 "request is required"))
  | Some (limit, offset) =>
      let! r := ViewMarkets c limit offset in
      mret (res_map (λ '(markets, nextOffset, hasMore), (MarketToProto <$> markets, nextOffset, hasMore)) r)
  end.

Definition handle_GetMarketByID (c : reqctx) (request : option string) : M St (result MarketMsg) :=
  match request with
  | None => mret (Err (EStatus 3 "request is required"))
  | Some market_id =>
      match uuid_parse market_id with
      | None => mret (Err (EStatus 3 "invalid market_id"))
      | Some marketID =>
          let! r := GetMarketByID c marketID in
          mret (res_map MarketToProto r)
      end
  end.
End Viewer.

(** ** The cached form round-trips *)

Section Codec.
Context `{U : GoLib} `{!UuidLaws U} `{MJ : MarketJson} `{!MarketJsonLaws MJ}.

(** A market as Postgres returns it: UTF-8 text and times in the range of
    UnixNano, or an unset update time. *)
Definition market_ok (m : Market) : Prop :=
  utf8_valid (mkt_Name m) = true /\
  (mkt_UpdatedAt m = zero_time \/ in_i64 (mkt_UpdatedAt m)) /\
  match mkt_DeletedAt m with Some t => in_i64 t | None => True end.

Lemma view_roundtrip m : market_ok m -> view_ToDomain (view_FromDomain m) = Ok m.
Proof.
  destruct m as [id name enabled deleted updated]. intros (Hn & Hu & Hd). simpl in *.
  unfold view_ToDomain, view_FromDomain, UnixNano. simpl. rewrite uuid_parse_string. do 2 f_equal.
  - destruct deleted as [t|]; simpl; [by rewrite wrap_s64_small|done].
  - destruct (Z.eqb_spec updated zero_time) as [->|]; [done|]. destruct Hu as [?|Hu]; [done|].
    by rewrite wrap_s64_small.
Qed.

Lemma views_roundtrip l : Forall market_ok l -> views_ToDomain (view_FromDomain <$> l) = Ok l.
Proof.
  induction 1 as [|m l Hm _ IH]; [done|]. rewrite fmap_cons. simpl. rewrite view_roundtrip by done.
  simpl. by rewrite IH.
Qed.

Lemma view_FromDomain_utf8 m : market_ok m -> view_utf8 (view_FromDomain m).
Proof. intros (Hn & _). split; [apply utf8_uuid|done]. Qed.

Lemma encodeMarket_ok m :
  market_ok m -> exists s, encodeMarket m = Ok s /\ decodeCachedMarket s = Ok m.
Proof.
  intros Hm. destruct (json_view _ (view_FromDomain_utf8 m Hm)) as (s & Hs & Hu).
  exists s. split; [done|]. unfold decodeCachedMarket. rewrite Hu. simpl. by apply view_roundtrip.
Qed.

Lemma encodeMarkets_ok l :
  Forall market_ok l -> exists s, encodeMarkets l = Ok s /\ decodeCachedMarkets s = Ok l.
Proof.
  intros Hl. destruct (json_views (view_FromDomain <$> l)) as (s & Hs & Hu).
  { apply Forall_fmap. eapply Forall_impl; [done|]. apply view_FromDomain_utf8. }
  exists s. split; [done|]. unfold decodeCachedMarkets. rewrite Hu. simpl. by apply views_roundtrip.
Qed.
End Codec.

(** ** Roles *)

Section Roles.
Definition is_roleKey (k : string) : Prop := k = roleAdminKey \/ k = roleViewerKey \/ k = roleUserKey.

Lemma effective_role_key roles acc k ok :
  acc = "" \/ is_roleKey acc -> effective_role roles acc = (k, ok) -> ok = true -> is_roleKey k.
Proof.
  revert acc; induction roles as [|r roles IH]; intros acc Hacc; simpl.
  - intros [= <- <-]. case_bool_decide; [done|]. by destruct Hacc.
  - destruct (r =? UserRoleAdmin); [intros [= <- <-] _; by left|].
    destruct (r =? UserRoleViewer); [apply IH; right; right; by left|].
    destruct (r =? UserRoleUser); [|by apply IH]. apply IH.
    case_bool_decide; [right; right; by right|by destruct Hacc; [|right]].
Qed.

Lemma getRoleKey_key c k : getRoleKeyFromContext c = Ok k -> is_roleKey k.
Proof.
  unfold getRoleKeyFromContext, effectiveUserRole. destruct (UserRolesFromContext c) as [roles|]; [|done].
  destruct (effective_role roles "") as [k' ok] eqn:E. destruct ok; [|done]. intros [= <-].
  by eapply effective_role_key; [left| |].
Qed.

(** The access check and the WHERE clause agree. *)
Lemma access_visible k m id :
  is_roleKey k -> validateMarketAccess k m id = None <-> visible k m = true.
Proof.
  intros [-> | [-> | ->]]; unfold validateMarketAccess, visible; simpl; try done;
    destruct (mkt_DeletedAt m); simpl; try done. destruct (mkt_Enabled m); done.
Qed.

(** The markets a role may see: an admin every one, a viewer those that are
    not deleted, a user those that are also enabled. *)
Definition may_see (k : string) (m : Market) : Prop :=
  k = roleAdminKey \/
  (mkt_DeletedAt m = None /\ (k = roleViewerKey \/ (k = roleUserKey /\ mkt_Enabled m = true))).

Lemma visible_may_see k m : is_roleKey k -> visible k m = true <-> may_see k m.
Proof.
  intros [-> | [-> | ->]]; unfold may_see, visible, roleAdminKey, roleViewerKey, roleUserKey; simpl;
    destruct (mkt_DeletedAt m); naive_solver.
Qed.

(** ORDER BY name, id. *)
Definition by_name_then_id `{Collation} (m1 m2 : Market) : Prop :=
  name_le (mkt_Name m1) (mkt_Name m2) = true /\
  (name_le (mkt_Name m2) (mkt_Name m1) = false \/ (mkt_ID m1 <= mkt_ID m2)%N).

Lemma page_order_by_name `{Collation} m1 m2 : page_order m1 m2 -> by_name_then_id m1 m2.
Proof.
  intros [H1 H2]. split; [done|]. destruct (name_le (mkt_Name m2) (mkt_Name m1)); [right; auto|by left].
Qed.

(** What each role is told about a row of the table, or about its absence. *)
Inductive market_answer (k : string) (id : UUID) : option Market -> result Market -> Prop :=
| answer_shown m : may_see k m -> market_answer k id (Some m) (Ok m)
| answer_unknown : market_answer k id None (Err (EMarketNotFound id))
| answer_deleted m :
    k <> roleAdminKey -> mkt_DeletedAt m <> None ->
    market_answer k id (Some m) (Err (wrap "MarketViewer.GetMarketByID" (EMarketNotFound id)))
| answer_disabled m :
    k = roleUserKey -> mkt_DeletedAt m = None -> mkt_Enabled m = false ->
    market_answer k id (Some m) (Err (wrap "MarketViewer.GetMarketByID" (EDisabled id))).

Lemma access_answer k id m : is_roleKey k ->
  market_answer k id (Some m)
    match validateMarketAccess k m id with
    | None => Ok m
    | Some e => Err (wrap "MarketViewer.GetMarketByID" e)
    end.
Proof.
  intros Hk. destruct (validateMarketAccess k m id) as [e|] eqn:He.
  2: { constructor. by apply visible_may_see, (access_visible k m id Hk). }
  destruct Hk as [-> | [-> | ->]]; unfold validateMarketAccess in He; simpl in He; [done|..];
    destruct (mkt_DeletedAt m) eqn:Hd; simplify_eq; [by constructor; [|rewrite Hd]..|].
  destruct (mkt_Enabled m) eqn:Hm; simpl in He; simplify_eq. by constructor.
Qed.
End Roles.

(** ** Pages *)

Section Pages.
(** The page of a list, as a specification. *)
Definition page_at (l : list Market) (limit offset : Z) : page :=
  let rest := drop (Z.to_nat offset) l in
  if limit <? len rest then (take (Z.to_nat limit) rest, offset + limit, true) else (rest, 0, false).

(** Limits and lists far below the width of the integers. *)
Definition sane_limit (limit : Z) : Prop := 0 < limit < 2 ^ 62.

Lemma to_int_small x : 0 <= x < 2 ^ 63 -> wrap_s 64 x = x.
Proof. intros. apply wrap_s64_small. unfold in_i64, min_i64, max_i64. lia. Qed.

(** A prefix with at least one row beyond the page builds the same page. *)
Lemma buildPageResponse_prefix rest n limit offset :
  sane_limit limit -> 0 <= offset < 2 ^ 62 -> limit < n -> len rest < 2 ^ 62 ->
  buildPageResponse (take (Z.to_nat n) rest) limit offset =
    Ok (if limit <? len rest then (take (Z.to_nat limit) rest, offset + limit, true)
        else (rest, 0, false)).
Proof.
  intros [Hl0 Hl] Ho Hn Hlen. unfold buildPageResponse. rewrite to_int_small by lia.
  assert (Htl : len (take (Z.to_nat n) rest) = Z.min n (len rest)).
  { unfold len. rewrite length_take. lia. }
  rewrite Htl. destruct (Z.ltb_spec limit (len rest)).
  - rewrite (proj2 (Z.ltb_lt limit _)) by lia. simpl.
    rewrite (proj2 (Z.ltb_ge (max_u64 - limit) offset)) by (unfold max_u64; lia).
    rewrite (proj2 (Z.ltb_ge (Z.min n (len rest)) limit)) by lia. rewrite take_take.
    by rewrite Nat.min_l by lia.
  - rewrite (proj2 (Z.ltb_ge limit _)) by lia. simpl. rewrite take_ge; [done|]. unfold len in *. lia.
Qed.
End Pages.

Section Reading.
Context {St R : Type} `{HRd : Redis R} `{!RedisLaws R} `{HR : !Has R St} `{PT : PgTypes}
  `{C : Collation} `{HD : !Has (pg SpotDB) St} `{HA : !Apart R (pg SpotDB) St}
  `{HA' : !Apart (pg SpotDB) R St} `{U : GoLib} `{!UuidLaws U} `{MJ : MarketJson} `{!MarketJsonLaws MJ}.
Variable cfg : viewer_config.

Definition sdb (w : world St) : SpotDB := db_of (D := SpotDB) (w_st w).


Definition head (roleKey : string) (d : SpotDB) : list Market :=
  take (Z.to_nat (vw_cacheLimit cfg + 2)) (visible_markets roleKey d).

(** From [t] on, what is cached under the key is missing, undecodable or
    right. *)
Definition coherent {A} (decode : string -> result A) (ok : A -> Prop) (key : string) (t : Z) (r : R) : Prop :=
  forall t', t <= t' -> match GET t' key r with
                        | Some data => match decode data with Ok a => ok a | Err _ => True end
                        | None => True
                        end.

Definition head_coherent (roleKey : string) (w : world St) : Prop :=
  coherent decodeCachedMarkets (λ l, l = head roleKey (sdb w)) (cacheKey roleKey) (rnow w) (prj (X := R) (w_st w)).

Definition id_coherent (id : UUID) (w : world St) : Prop :=
  coherent decodeCachedMarket (λ m, sdb_markets (sdb w) !! id = Some m) (cacheByIDKey id) (rnow w)
    (prj (X := R) (w_st w)).

Section Coherent.
Context {A : Type} (decode : string -> result A) (ok : A -> Prop).

Lemma coherent_later key t t' r : t <= t' -> coherent decode ok key t r -> coherent decode ok key t' r.
Proof. intros Ht Hc t2 Ht2. apply Hc. lia. Qed.

Lemma coherent_view key t r r' :
  (forall t', t <= t' -> view r' t' key = view r t' key) -> coherent decode ok key t r ->
  coherent decode ok key t r'.
Proof. intros Hv Hc t' Ht'. specialize (Hc t' Ht'). rewrite GET_view in *. by rewrite Hv. Qed.

Lemma coherent_stored key value t r r' :
  stored key value t r r' -> (forall a, decode value = Ok a -> ok a) -> coherent decode ok key t r'.
Proof.
  intros Hs Hok t' Ht'. specialize (Hs t' key Ht'). rewrite decide_True in Hs by done.
  destruct Hs as [-> | ->]; [|done]. destruct (decode value) eqn:E; auto.
Qed.

Lemma coherent_DEL key k t r : coherent decode ok key t r -> coherent decode ok key t (DEL t k r).
Proof.
  intros Hc t' Ht'. specialize (Hc t' Ht'). rewrite GET_view in *. rewrite DEL_view by done.
  by case_decide.
Qed.
End Coherent.

Lemma rnow_tick (w w' : world St) :
  calm (w_env w) -> w_env w' = tick (w_env w) -> rnow w <= rnow w'.
Proof. intros [_ Hm] He. unfold rnow. rewrite He. simpl. apply Hm. lia. Qed.

(** The rows of the table survive the cache. *)
Definition rows_ok (d : SpotDB) : Prop := map_Forall (λ id m, mkt_ID m = id /\ market_ok m) (sdb_markets d).

Lemma rows_ok_visible d roleKey : rows_ok d -> Forall market_ok (visible_markets roleKey d).
Proof.
  intros Hr. apply Forall_forall. intros m [_ [id Hm]]%elem_of_visible. by apply (Hr id m Hm).
Qed.

Lemma rows_ok_head d roleKey : rows_ok d -> Forall market_ok (head roleKey d).
Proof. intros Hr. apply Forall_take. by apply rows_ok_visible. Qed.

(** A read of the pool. *)
Lemma wp_read {A} (s : stmt SpotDB A) (Q : result A -> world St -> Prop) w :
  no_faults (w_env w) -> (forall now d, (s now d).2 = d) ->
  (forall w' now, w_env w' = tick (w_env w) -> prj (X := R) (w_st w') = prj (w_st w) ->
     prj (X := pg SpotDB) (w_st w') = prj (w_st w) -> Q (s now (sdb w)).1 w') ->
  wp (pool_Exec s) Q w.
Proof.
  intros Hnf Hs HQ. apply wp_call. intros t f _ ->. destruct Hnf as [Hf Hc]. rewrite Hf. simpl.
  assert (Hp : pg_pool s t (prj (w_st w)) = ((s t (sdb w)).1, prj (w_st w))).
  { unfold pg_pool, sdb, db_of. specialize (Hs t (pg_db (prj (w_st w)))).
    destruct (s t (pg_db (prj (w_st w)))) as [a d]. simpl in *. subst. by destruct a, (prj (w_st w)). }
  rewrite Hp. simpl. apply HQ; [done|apply prj_apart|apply prj_upd].
Qed.

(** What a step keeps: the environment advances calmly and the tables stay. *)
Definition next (w w' : world St) : Prop :=
  calm (w_env w') /\ rnow w <= rnow w' /\ prj (X := pg SpotDB) (w_st w') = prj (w_st w).

Lemma next_sdb w w' : next w w' -> sdb w' = sdb w.
Proof. intros (_ & _ & Hp). unfold sdb, db_of. by rewrite Hp. Qed.

Lemma next_step w w' :
  calm (w_env w) -> w_env w' = tick (w_env w) -> prj (X := pg SpotDB) (w_st w') = prj (w_st w) -> next w w'.
Proof. intros Hc He Hp. split_and!; [by rewrite He|by apply rnow_tick|done]. Qed.

Lemma next_trans w1 w2 w3 : next w1 w2 -> next w2 w3 -> next w1 w3.
Proof. intros (?&?&H1) (?&?&H2). split_and!; [done|lia|congruence]. Qed.

Lemma next_refl w : calm (w_env w) -> next w w.
Proof. intros Hc. unfold next. split_and!; [done|lia|done]. Qed.

Lemma head_coherent_next roleKey w w' :
  next w w' -> (forall t, rnow w <= t -> view (prj (X := R) (w_st w')) t (cacheKey roleKey) =
                                        view (prj (X := R) (w_st w)) t (cacheKey roleKey)) ->
  head_coherent roleKey w -> head_coherent roleKey w'.
Proof.
  intros Hn Hv Hc. unfold head_coherent. rewrite (next_sdb _ _ Hn).
  eapply coherent_view; [|by eapply coherent_later; [apply Hn|]].
  intros t Ht. apply Hv. destruct Hn as (_ & ? & _). lia.
Qed.

(** One page of the table. *)
Lemma GetMarketsPage_spec roleKey limit offset (Q : result (list Market) -> world St -> Prop) w :
  calm (w_env w) -> sdb_markets (sdb w) <> ∅ -> 0 <= limit < 2 ^ 62 + 1 -> 0 <= offset < 2 ^ 62 ->
  (forall w', next w w' -> prj (X := R) (w_st w') = prj (w_st w) ->
     Q (Ok (take (Z.to_nat (limit + 1)) (drop (Z.to_nat offset) (visible_markets roleKey (sdb w))))) w') ->
  wp (GetMarketsPage roleKey limit offset) Q w.
Proof.
  intros Hcalm Hne Hl Ho HQ. unfold GetMarketsPage, loadMarketsPage. apply wp_bind, wp_bind.
  apply wp_read; [apply Hcalm|by intros; unfold sql_page; repeat case_match|].
  intros w1 now He1 Hr1 Hp1. unfold sql_page, to_int.
  rewrite wrap_u_small by lia. rewrite !to_int_small by lia.
  rewrite !(proj2 (Z.ltb_ge _ 0)) by lia. simpl. apply wp_ret. simpl.
  assert (Hn1 : next w w1) by by apply next_step.
  set (rows := take _ _) in *. destruct rows as [|m ms] eqn:Erows.
  - unfold emptyPageResult. apply wp_bind. destruct (Z.ltb_spec 0 offset).
    { apply wp_ret, wp_ret. by apply HQ. }
    apply wp_bind. unfold hasAnyMarkets. apply wp_read; [apply Hn1|done|].
    intros w2 now2 He2 Hr2 Hp2. simpl. rewrite (next_sdb _ _ Hn1), bool_decide_false by done. simpl.
    apply wp_ret, wp_ret. apply HQ; [|congruence]. eapply next_trans; [done|]. apply next_step; [apply Hn1|done|done].
  - apply wp_ret. by apply HQ.
Qed.

(** The first page of an empty table is an error of its own. *)
Lemma GetMarketsPage_empty roleKey limit (Q : result (list Market) -> world St -> Prop) w :
  calm (w_env w) -> sdb_markets (sdb w) = ∅ -> 0 <= limit < 2 ^ 62 ->
  (forall e w', next w w' -> prj (X := R) (w_st w') = prj (w_st w) ->
     is_sent Repo_ErrMarketStoreIsEmpty e = true -> Q (Err e) w') ->
  wp (GetMarketsPage roleKey limit 0) Q w.
Proof.
  intros Hcalm He Hl HQ. unfold GetMarketsPage, loadMarketsPage. apply wp_bind, wp_bind.
  apply wp_read; [apply Hcalm|by intros; unfold sql_page; repeat case_match|].
  intros w1 now He1 Hr1 Hp1. unfold sql_page, to_int.
  rewrite wrap_u_small by lia. rewrite !to_int_small by lia.
  rewrite !(proj2 (Z.ltb_ge _ 0)) by lia. simpl. apply wp_ret. simpl.
  assert (Hn1 : next w w1) by by apply next_step.
  unfold visible_markets. rewrite He, map_to_list_empty. simpl. rewrite ?drop_0, take_nil.
  unfold emptyPageResult. simpl. apply wp_bind, wp_bind. unfold hasAnyMarkets.
  apply wp_read; [apply Hn1|done|]. intros w2 now2 He2 Hr2 Hp2. simpl.
  rewrite (next_sdb _ _ Hn1), bool_decide_true by done. simpl. apply wp_ret, wp_ret.
  apply HQ; [|congruence|done]. eapply next_trans; [done|]. apply next_step; [apply Hn1|done|done].
Qed.

(** The cached head page, or an error that sends the request to the table. *)
Lemma GetMarkets_spec roleKey (Q : result (list Market) -> world St -> Prop) w :
  calm (w_env w) -> head_coherent roleKey w ->
  (forall r w', next w w' -> head_coherent roleKey w' ->
     (r = Ok (head roleKey (sdb w)) \/ exists e, r = Err e) -> Q r w') ->
  wp (GetMarkets roleKey) Q w.
Proof.
  intros Hcalm Hco HQ. unfold GetMarkets. apply wp_bind.
  apply (wp_cache_Get_ok (Y := pg SpotDB)); [apply Hcalm|]. intros w1 He1 Hr1 Hp1.
  assert (Hn1 : next w w1) by by apply next_step.
  assert (Hc1 : head_coherent roleKey w1) by (apply (head_coherent_next roleKey w w1 Hn1); [by rewrite Hr1|done]).
  pose proof (Hco (rnow w) ltac:(lia)) as Hnow.
  destruct (GET (rnow w) (cacheKey roleKey) (prj (w_st w))) as [data|].
  2: { simpl. apply wp_ret. apply HQ; [done|done|right; by eexists]. }
  destruct (decodeCachedMarkets data) as [l|e] eqn:Ed.
  { apply wp_ret. apply HQ; [done|done|left; by rewrite Hnow]. }
  unfold DeleteMarkets. apply wp_bind, wp_bind.
  apply (wp_cache_Delete_ok (Y := pg SpotDB)); [apply Hn1|]. intros w2 He2 Hp2 Hr2. apply wp_ret, wp_ret.
  assert (Hn2 : next w1 w2) by (apply next_step; [apply Hn1|done|done]).
  apply HQ; [by eapply next_trans| |right; by eexists].
  unfold head_coherent. rewrite (next_sdb _ _ Hn2), Hr2.
  eapply coherent_later; [apply Hn2|]. by apply coherent_DEL.
Qed.

Lemma SetMarkets_spec roleKey (Q : result unit -> world St -> Prop) w :
  calm (w_env w) -> rows_ok (sdb w) ->
  (forall w', next w w' -> head_coherent roleKey w' ->
     (forall k t, rnow w <= t -> cacheKey roleKey <> k ->
        view (prj (X := R) (w_st w')) t k = view (prj (w_st w)) t k) -> Q (Ok tt) w') ->
  wp (SetMarkets (head roleKey (sdb w)) roleKey (vw_cacheTTL cfg)) Q w.
Proof.
  intros Hcalm Hrows HQ. unfold SetMarkets.
  destruct (encodeMarkets_ok (head roleKey (sdb w))) as (data & -> & Hdec); [by apply rows_ok_head|].
  apply wp_bind. apply (wp_cache_SetWithTTL_ok (Y := pg SpotDB)); [apply Hcalm|].
  intros w1 He1 Hp1 Hst. apply wp_ret. assert (Hn1 : next w w1) by by apply next_step.
  apply HQ; [done| |].
  - unfold head_coherent. rewrite (next_sdb _ _ Hn1). eapply coherent_later; [apply Hn1|].
    eapply coherent_stored; [done|]. intros l Hl. congruence.
  - intros k t Ht Hk. specialize (Hst t k Ht). by rewrite decide_False in Hst.
Qed.

Definition sane_cfg : Prop :=
  0 <= vw_cacheLimit cfg < 2 ^ 61 /\ 0 < vw_defaultLimit cfg < 2 ^ 61 /\ 0 < vw_maxLimit cfg < 2 ^ 61.

Definition page_limit (limit : Z) : Z := normalizeLimit limit (vw_defaultLimit cfg) (vw_maxLimit cfg).

Lemma page_limit_sane limit : sane_cfg -> 0 <= limit -> sane_limit (page_limit limit) /\ page_limit limit < 2 ^ 61.
Proof.
  intros (_ & Hd & Hm) Hl. unfold page_limit, normalizeLimit, sane_limit.
  destruct (Z.eqb_spec limit 0); [lia|]. destruct (Z.ltb_spec (vw_maxLimit cfg) limit); lia.
Qed.

Lemma head_page roleKey limit d :
  sane_cfg -> sane_limit limit -> limit <= vw_cacheLimit cfg -> len (visible_markets roleKey d) < 2 ^ 62 ->
  buildPageResponse (head roleKey d) limit 0 = Ok (page_at (visible_markets roleKey d) limit 0).
Proof.
  intros (Hc & _) Hl Hle Hlen. unfold head, page_at. rewrite drop_0.
  by rewrite (buildPageResponse_prefix _ _ limit 0) by (done || lia).
Qed.

Lemma ViewMarkets_spec c k limit offset (Q : result page -> world St -> Prop) w :
  getRoleKeyFromContext c = Ok k -> calm (w_env w) -> sane_cfg -> rows_ok (sdb w) ->
  sdb_markets (sdb w) <> ∅ -> len (visible_markets k (sdb w)) < 2 ^ 62 ->
  0 <= limit -> 0 <= offset < 2 ^ 62 -> head_coherent k w ->
  (forall w', next w w' -> head_coherent k w' ->
     Q (Ok (page_at (visible_markets k (sdb w)) (page_limit limit) offset)) w') ->
  wp (ViewMarkets cfg c limit offset) Q w.
Proof.
  intros Hk Hcalm Hcfg Hrows Hne Hlen Hlim Ho Hco HQ. unfold ViewMarkets. rewrite Hk. fold (page_limit limit).
  destruct (page_limit_sane limit Hcfg Hlim) as [Hsane Hsmall].
  assert (Hpos : 0 <= page_limit limit) by (destruct Hsane; lia).
  rewrite (proj2 (Z.ltb_ge max_i64 offset)) by (unfold max_i64; lia).
  destruct (Z.eqb_spec offset 0) as [->|Hoff]; [destruct (Z.leb_spec (page_limit limit) (vw_cacheLimit cfg)) as [Hle|Hgt]|];
    simpl.
  2,3: apply wp_bind; apply GetMarketsPage_spec; [done|done|lia|lia|]; intros w1 Hn1 Hr1; apply wp_ret;
    rewrite (buildPageResponse_prefix _ _ (page_limit limit)) by
      (done || lia || (unfold len in *; rewrite length_drop; lia)); apply HQ; [done|];
    apply (head_coherent_next k w w1 Hn1); [by rewrite Hr1|done].
  apply wp_bind. unfold tryLoadHeadPage. apply wp_bind. apply GetMarkets_spec; [done|done|].
  intros r w1 Hn1 Hc1 Hr. destruct Hr as [->|[e ->]].
  { apply wp_ret, wp_ret. rewrite (head_page k) by done. by apply HQ. }
  destruct Hcfg as (Hcl & Hd & Hm). apply wp_bind. rewrite wrap_u_small by lia.
  apply GetMarketsPage_spec; [apply Hn1|by rewrite (next_sdb _ _ Hn1)|lia|lia|].
  intros w2 Hn2 Hr2. rewrite drop_0. replace (vw_cacheLimit cfg + 1 + 1) with (vw_cacheLimit cfg + 2) by lia.
  rewrite (next_sdb _ _ Hn1). fold (head k (sdb w)). rewrite (head_page k) by (done || by repeat split).
  assert (Hd2 : sdb w2 = sdb w) by (rewrite (next_sdb _ _ Hn2); by apply next_sdb).
  rewrite <- Hd2. unfold warmHeadCache. apply wp_bind.
  apply SetMarkets_spec; [apply Hn2|by rewrite Hd2|]. intros w3 Hn3 Hc3 _. apply wp_ret, wp_ret.
  rewrite Hd2. simpl. apply HQ; [|done]. eapply next_trans; [done|]. by eapply next_trans.
Qed.
End Reading.

(** ** Properties of the viewer *)

Section Properties.
Context {St R : Type} `{HRd : Redis R} `{!RedisLaws R} `{HR : !Has R St} `{PT : PgTypes}
  `{C : Collation} `{HD : !Has (pg SpotDB) St} `{HA : !Apart R (pg SpotDB) St}
  `{HA' : !Apart (pg SpotDB) R St} `{U : GoLib} `{!UuidLaws U} `{MJ : MarketJson} `{!MarketJsonLaws MJ}.
Variable cfg : viewer_config.

(** C28 A caller only gets a market it may see.  In every environment, with
    whatever is cached, GetMarketByID answers a market only when the context
    carries a role and the market passes the role's visibility filter, the one
    of the WHERE clauses; without a role no call is made. *)
Theorem viewer_access (c : reqctx) (id : UUID) (w : world St) :
  wp (GetMarketByID cfg c id) (λ r w',
    match getRoleKeyFromContext c with
    | Err e => r = Err (wrap "MarketViewer.GetMarketByID" e) /\ w' = w
    | Ok k => match r with Ok m => visible k m = true | Err _ => True end
    end) w.
Proof.
  unfold GetMarketByID. destruct (getRoleKeyFromContext c) as [k|e] eqn:Hk; [|by apply wp_ret].
  apply wp_bind. eapply (wp_mono _ (λ _ _, True)); [done|]. intros [m|e] w' _; [|by apply wp_ret].
  apply wp_ret. destruct (validateMarketAccess k m id) as [e|] eqn:Ha; [done|].
  by apply (access_visible k m id (getRoleKey_key _ _ Hk)).
Qed.

(** What pages assume: a calm environment, sane configuration, markets that
    survive the cache and a head page that is not stale. *)
Definition view_ready (c : reqctx) (k : string) (w : world St) : Prop :=
  getRoleKeyFromContext c = Ok k /\ calm (w_env w) /\ sane_cfg cfg /\ rows_ok (sdb w) /\
  sdb_markets (sdb w) <> ∅ /\ len (visible_markets k (sdb w)) < 2 ^ 62 /\ head_coherent cfg k w.

(** C17 The head cache is invisible.  When nothing fails and the cached head
    page is missing, corrupt or current, ViewMarkets answers the page of the
    role's markets in the database, in its order, whether it is served from
    Redis or from Postgres; the table is untouched and the cached head page
    is again missing, corrupt or current. *)
Theorem view_markets_page c k limit offset w :
  view_ready c k w -> 0 <= limit -> 0 <= offset < 2 ^ 62 ->
  wp (ViewMarkets cfg c limit offset) (λ r w',
    r = Ok (page_at (visible_markets k (sdb w)) (page_limit cfg limit) offset) /\
    sdb w' = sdb w /\ head_coherent cfg k w') w.
Proof.
  intros (Hk & Hcalm & Hcfg & Hrows & Hne & Hlen & Hco) Hl Ho.
  apply (ViewMarkets_spec cfg c k); try done. intros w' Hn Hc. split_and!; [done|by apply next_sdb|done].
Qed.

(** A client that follows the offsets of the pages; [None] when the fuel runs
    out. *)
Fixpoint list_all (fuel : nat) (c : reqctx) (limit offset : Z) : M St (option (result (list Market))) :=
  match fuel with
  | O => mret None
  | S fuel =>
      let! r := ViewMarkets cfg c limit offset in
      match r with
      | Err e => mret (Some (Err e))
      | Ok (markets, next_offset, has_more) =>
          if has_more : bool then
            let! rest := list_all fuel c limit next_offset in
            mret (res_map (app markets) <$> rest)
          else mret (Some (Ok markets))
      end
  end.

Lemma visible_sorted `{!CollationLaws C} k d : StronglySorted by_name_then_id (visible_markets k d).
Proof.
  assert (Hs : StronglySorted page_order (visible_markets k d)).
  { apply StronglySorted_merge_sort; apply _. }
  induction Hs as [|m l Hs IH Hall]; constructor; [done|].
  eapply Forall_impl; [exact Hall|]. apply page_order_by_name.
Qed.

Lemma list_all_spec c k limit fuel offset w :
  view_ready c k w -> 0 <= limit -> 0 <= offset <= len (visible_markets k (sdb w)) ->
  len (visible_markets k (sdb w)) - offset < Z.of_nat fuel ->
  wp (list_all fuel c limit offset) (λ r w',
    r = Some (Ok (drop (Z.to_nat offset) (visible_markets k (sdb w)))) /\ sdb w' = sdb w) w.
Proof.
  revert offset w. induction fuel as [|fuel IH]; intros offset w Hready Hl Ho Hf; [lia|].
  pose proof Hready as (Hk & Hcalm & Hcfg & Hrows & Hne & Hlen & Hco). simpl. apply wp_bind.
  apply (ViewMarkets_spec cfg c k); try done; [lia|]. intros w1 Hn1 Hc1.
  pose proof (next_sdb _ _ Hn1) as Hs1. set (all := visible_markets k (sdb w)) in *. unfold page_at.
  destruct (page_limit_sane cfg limit Hcfg Hl) as [[Hp0 Hp1] _].
  assert (Hrest : len (drop (Z.to_nat offset) all) = len all - offset).
  { unfold len in *. rewrite length_drop. lia. }
  rewrite Hrest. destruct (Z.ltb_spec (page_limit cfg limit) (len all - offset)) as [Hmore|Hlast];
    [|by apply wp_ret]. apply wp_bind. eapply wp_mono; [apply IH|].
  - split_and!; try done; [apply Hn1|by rewrite Hs1|by rewrite Hs1|by rewrite Hs1].
  - done.
  - rewrite Hs1. fold all. lia.
  - rewrite Hs1. fold all. lia.
  - intros r w2 [-> Hs2]. apply wp_ret. rewrite Hs2, Hs1. fold all. split; [|done]. simpl. do 2 f_equal.
    replace (Z.to_nat (offset + page_limit cfg limit))
      with (Z.to_nat offset + Z.to_nat (page_limit cfg limit))%nat by lia.
    by rewrite <- drop_drop, take_drop.
Qed.


(** One market: the cache, then the table. *)
Lemma cached_GetMarketByID_spec id (Q : result Market -> world St -> Prop) w :
  calm (w_env w) -> id_coherent id w ->
  (forall r w', next w w' -> id_coherent id w' ->
     match r with Ok m => sdb_markets (sdb w) !! id = Some m | Err _ => True end -> Q r w') ->
  wp (cached_GetMarketByID id) Q w.
Proof.
  intros Hcalm Hco HQ. unfold cached_GetMarketByID. apply wp_bind.
  apply (wp_cache_Get_ok (Y := pg SpotDB)); [apply Hcalm|]. intros w1 He1 Hr1 Hp1.
  assert (Hn1 : next w w1) by by apply next_step.
  assert (Hc1 : id_coherent id w1).
  { unfold id_coherent. rewrite (next_sdb _ _ Hn1), Hr1. eapply coherent_later; [apply Hn1|done]. }
  pose proof (Hco (rnow w) ltac:(lia)) as Hnow.
  destruct (GET (rnow w) (cacheByIDKey id) (prj (w_st w))) as [data|].
  2: { apply wp_ret. by apply HQ. }
  destruct (decodeCachedMarket data) as [m|e] eqn:Ed; [by apply wp_ret, HQ|].
  unfold DeleteMarketByID. apply wp_bind, wp_bind.
  apply (wp_cache_Delete_ok (Y := pg SpotDB)); [apply Hn1|]. intros w2 He2 Hp2 Hr2. apply wp_ret, wp_ret.
  assert (Hn2 : next w1 w2) by (apply next_step; [apply Hn1|done|done]).
  apply HQ; [by eapply next_trans| |done].
  unfold id_coherent. rewrite (next_sdb _ _ Hn2), Hr2.
  eapply coherent_later; [apply Hn2|]. by apply coherent_DEL.
Qed.

Lemma id_coherent_stored id m data w w' :
  next w w' -> sdb_markets (sdb w) !! id = Some m -> decodeCachedMarket data = Ok m ->
  stored (cacheByIDKey id) data (rnow w) (prj (w_st w)) (prj (w_st w')) -> id_coherent id w'.
Proof.
  intros Hn Hm Hd Hst. unfold id_coherent. rewrite (next_sdb _ _ Hn).
  eapply coherent_later; [apply Hn|]. eapply coherent_stored; [done|]. intros a Ha. congruence.
Qed.

Lemma loadMarket_spec id cleanup (Q : result Market -> world St -> Prop) w :
  calm (w_env w) -> rows_ok (sdb w) -> id_coherent id w ->
  (forall r w', next w w' -> id_coherent id w' ->
     match sdb_markets (sdb w) !! id with
     | Some m => r = Ok m
     | None => exists e, r = Err e /\ errors_Is e Repo_ErrMarketNotFound = true
     end -> Q r w') ->
  wp (loadMarketAndWarmCache cfg id cleanup) Q w.
Proof.
  intros Hcalm Hrows Hco HQ. unfold loadMarketAndWarmCache. apply wp_bind.
  apply cached_GetMarketByID_spec; [done|done|]. intros r w1 Hn1 Hc1 Hr.
  destruct r as [m|e0]; [apply wp_ret, HQ; [done|done|by rewrite Hr]|]. clear Hr.
  apply wp_bind. unfold store_GetMarketByID. apply wp_bind.
  apply wp_read; [apply Hn1|done|]. intros w2 now He2 Hr2 Hp2. simpl.
  assert (Hn2 : next w1 w2) by (apply next_step; [apply Hn1|done|done]).
  assert (Hc2 : id_coherent id w2).
  { unfold id_coherent. rewrite (next_sdb _ _ Hn2), Hr2. eapply coherent_later; [apply Hn2|done]. }
  assert (Hn02 : next w w2) by by eapply next_trans.
  apply wp_ret. rewrite (next_sdb _ _ Hn1). destruct (sdb_markets (sdb w) !! id) as [m|] eqn:Em; simpl.
  2: { apply wp_ret, HQ; [done|done|]. by eexists. }
  destruct (Hrows id m Em) as [Hid Hok]. destruct (encodeMarket_ok m Hok) as (data & Henc & Hdec).
  unfold SetMarketByID. rewrite Henc, Hid. apply wp_bind, wp_bind.
  apply (wp_cache_SetWithTTL_ok (Y := pg SpotDB)); [apply Hn2|]. intros w3 He3 Hp3 Hst.
  assert (Hn3 : next w2 w3) by (apply next_step; [apply Hn2|done|done]).
  apply wp_ret, wp_ret, HQ; [by eapply next_trans| |done].
  eapply id_coherent_stored; [done|rewrite (next_sdb _ _ Hn02); done|done|done].
Qed.

(** C18 The market cache is invisible.  When nothing fails and what is cached
    under the id is missing, corrupt or current, GetMarketByID answers exactly
    what the table and the caller's role say: the market of the row when the
    role may see it (an admin every one, a viewer those that are not deleted,
    a user those that are also enabled); not found when there is no row, or a
    deleted one for a viewer or a user; disabled for a user when the row is
    not deleted but disabled. The table is untouched and the entry is again
    missing, corrupt or current. *)
Theorem market_by_id_transparent c k id w :
  getRoleKeyFromContext c = Ok k -> calm (w_env w) -> rows_ok (sdb w) -> id_coherent id w ->
  wp (GetMarketByID cfg c id) (λ r w',
    market_answer k id (sdb_markets (sdb w) !! id) r /\ sdb w' = sdb w /\ id_coherent id w') w.
Proof.
  intros Hk Hcalm Hrows Hco. pose proof (getRoleKey_key _ _ Hk) as Hrole.
  unfold GetMarketByID. rewrite Hk. apply wp_bind.
  unfold getMarketActual. apply wp_bind, cached_GetMarketByID_spec; [done|done|]. intros r w1 Hn1 Hc1 Hr.
  pose proof (next_sdb _ _ Hn1) as Hs1.
  destruct r as [m|e].
  { apply wp_ret, wp_ret. rewrite Hr. split_and!; [by apply access_answer|done|done]. }
  apply wp_bind. unfold getMarketWithSingleFlight. apply wp_bind.
  apply loadMarket_spec; [apply Hn1|by rewrite Hs1|done|]. intros r w2 Hn2 Hc2. rewrite Hs1.
  pose proof (next_sdb _ _ Hn2) as Hs2. intros Hres. rewrite Hs1 in Hs2. apply wp_ret, wp_ret.
  destruct (sdb_markets (sdb w) !! id) as [m|].
  { subst r. apply wp_ret. split_and!; [by apply access_answer|done|done]. }
  destruct Hres as (e' & -> & He). simpl. rewrite errors_Is_wrap, He. apply wp_ret.
  split_and!; [constructor|done|done].
Qed.

(** What keeps the entries of single markets. *)
Definition ids_kept (w w' : world St) : Prop := forall id, id_coherent id w -> id_coherent id w'.

Lemma ids_kept_view w w' :
  next w w' -> (forall id t, rnow w <= t -> view (prj (X := R) (w_st w')) t (cacheByIDKey id) =
                                          view (prj (X := R) (w_st w)) t (cacheByIDKey id)) ->
  ids_kept w w'.
Proof.
  intros Hn Hv id Hc. unfold id_coherent. rewrite (next_sdb _ _ Hn).
  eapply coherent_later; [apply Hn|]. eapply coherent_view; [|exact Hc]. intros t Ht. by apply Hv.
Qed.

Lemma ids_kept_trans w1 w2 w3 : ids_kept w1 w2 -> ids_kept w2 w3 -> ids_kept w1 w3.
Proof. unfold ids_kept. auto. Qed.

Lemma keys_differ k id : cacheKey k <> cacheByIDKey id.
Proof. unfold cacheKey, cacheByIDKey. simpl. intros H. by injection H. Qed.

Lemma DeleteMarkets_spec roleKey (Q : result unit -> world St -> Prop) w :
  calm (w_env w) ->
  (forall w', next w w' -> head_coherent cfg roleKey w' ->
     (forall k, head_coherent cfg k w -> head_coherent cfg k w') -> ids_kept w w' -> Q (Ok tt) w') ->
  wp (DeleteMarkets roleKey) Q w.
Proof.
  intros Hcalm HQ. unfold DeleteMarkets. apply wp_bind.
  apply (wp_cache_Delete_ok (Y := pg SpotDB)); [apply Hcalm|]. intros w1 He1 Hp1 Hr1. apply wp_ret.
  assert (Hn1 : next w w1) by by apply next_step.
  apply HQ; [done| | |].
  - unfold head_coherent. rewrite (next_sdb _ _ Hn1), Hr1. eapply coherent_later; [apply Hn1|].
    intros t Ht. rewrite GET_view, DEL_view by done. by rewrite decide_True.
  - intros k Hc. unfold head_coherent. rewrite (next_sdb _ _ Hn1), Hr1.
    eapply coherent_later; [apply Hn1|]. by apply coherent_DEL.
  - intros id Hc. unfold id_coherent. rewrite (next_sdb _ _ Hn1), Hr1.
    eapply coherent_later; [apply Hn1|]. by apply coherent_DEL.
Qed.

(** The head pages of these roles are not stale, and the entries of single
    markets are as good as before. *)
Definition refreshed (keys : list string) (w w' : world St) : Prop :=
  next w w' /\ (forall k, k ∈ keys -> head_coherent cfg k w') /\ ids_kept w w'.

Lemma refreshed_nil w : calm (w_env w) -> refreshed [] w w.
Proof. intros. split_and!; [by apply next_refl|set_solver|by intros id]. Qed.

Lemma invalidateMarketsCache_spec (Q : result unit -> world St -> Prop) w :
  calm (w_env w) -> (forall w', refreshed cacheRoleKeys w w' -> Q (Ok tt) w') ->
  wp invalidateMarketsCache Q w.
Proof.
  intros Hcalm HQ. unfold invalidateMarketsCache. apply wp_bind.
  eapply wp_mono; [apply (wp_for_each _ _ (λ done w', refreshed done w w') (λ _ _, False))|].
  - by apply refreshed_nil.
  - intros done k rest w1 _ (Hn1 & Hc1 & Hi1). apply wp_bind. apply DeleteMarkets_spec; [apply Hn1|].
    intros w2 Hn2 Hk Hkeep Hi2. apply wp_ret.
    split; [by eapply next_trans|split; [|by eapply ids_kept_trans]].
    intros k' [Hk'|Hk']%elem_of_app; [by auto|]. apply list_elem_of_singleton in Hk' as ->. done.
  - intros [e|] w1 H1; [done|]. by apply wp_ret, HQ.
Qed.

Lemma head_refresh k : 0 <= vw_cacheLimit cfg < 2 ^ 61 ->
  take (Z.to_nat (wrap_u 64 (vw_cacheLimit cfg + 1) + 1)) = take (Z.to_nat (vw_cacheLimit cfg + 2)) (A := k).
Proof. intros. rewrite wrap_u_small by lia. f_equal. lia. Qed.

Lemma RefreshAll_role done k w w1 (Q : option (result unit) -> world St -> Prop) :
  sane_cfg cfg -> rows_ok (sdb w) -> refreshed done w w1 ->
  (forall w', refreshed cacheRoleKeys w w' -> Q (Some (Ok tt)) w') ->
  (forall w', refreshed (done ++ [k]) w w' -> Q None w') ->
  wp (let! r := GetMarketsPage k (wrap_u 64 (vw_cacheLimit cfg + 1)) 0 in
      match r with
      | Err err =>
          if is_sent Repo_ErrMarketStoreIsEmpty err then let! i := invalidateMarketsCache in mret (Some i)
          else mret (Some (Err (wrap ("MarketViewer.RefreshAll" +:+ ": load head cache for role " +:+ k) err)))
      | Ok markets =>
          let! s := SetMarkets markets k (vw_cacheTTL cfg) in
          mret match s with
               | Err err => Some (Err (wrap ("MarketViewer.RefreshAll" +:+ ": set cache for role " +:+ k) err))
               | Ok _ => None
               end
      end) Q w1.
Proof.
  intros Hcfg Hrows (Hn1 & Hc1 & Hi1) Hempty HQ. pose proof (next_sdb _ _ Hn1) as Hs1. apply wp_bind.
  assert (Hlim : 0 <= vw_cacheLimit cfg < 2 ^ 61) by apply Hcfg.
  assert (Hunread : forall w2, next w1 w2 -> prj (X := R) (w_st w2) = prj (w_st w1) -> ids_kept w1 w2).
  { intros w2 Hn2 Hr2. apply ids_kept_view; [done|]. by rewrite Hr2. }
  destruct (decide (sdb_markets (sdb w) = ∅)) as [He|Hne].
  - apply GetMarketsPage_empty; [apply Hn1|by rewrite Hs1|rewrite wrap_u_small; lia|].
    intros e w2 Hn2 Hr2 He2. rewrite He2.
    apply wp_bind, invalidateMarketsCache_spec; [apply Hn2|]. intros w3 (Hn3 & Hc3 & Hi3). apply wp_ret, Hempty.
    split; [eapply next_trans; [|done]; by eapply next_trans|]. split; [done|].
    eapply ids_kept_trans; [done|]. eapply ids_kept_trans; [by apply Hunread|done].
  - apply GetMarketsPage_spec; [apply Hn1|by rewrite Hs1|rewrite wrap_u_small; lia|lia|].
    intros w2 Hn2 Hr2. rewrite drop_0, head_refresh by done. fold (head cfg k (sdb w1)).
    pose proof (next_sdb _ _ Hn2) as Hs2. rewrite <- Hs2. apply wp_bind.
    apply SetMarkets_spec; [apply Hn2|by rewrite Hs2, Hs1|]. intros w3 Hn3 Hk3 Hkeep3. apply wp_ret, HQ.
    split; [eapply next_trans; [by eapply next_trans|done]|]. split.
    + intros k' [Hk'|Hk']%elem_of_app; [|by apply list_elem_of_singleton in Hk' as ->].
      destruct (decide (k' = k)) as [->|Hkk]; [done|].
      apply (head_coherent_next cfg k' w2 w3 Hn3).
      * intros t Ht. apply Hkeep3; [done|]. unfold cacheKey. intros Heq. apply Hkk. by simplify_eq.
      * apply (head_coherent_next cfg k' w1 w2 Hn2); [by rewrite Hr2|by apply Hc1].
    + eapply ids_kept_trans; [done|]. eapply ids_kept_trans; [by apply Hunread|].
      apply ids_kept_view; [done|]. intros id t Ht. apply Hkeep3; [done|apply keys_differ].
Qed.

Lemma RefreshAll_spec (Q : result unit -> world St -> Prop) w :
  calm (w_env w) -> sane_cfg cfg -> rows_ok (sdb w) ->
  (forall w', refreshed cacheRoleKeys w w' -> Q (Ok tt) w') -> wp (RefreshAll cfg) Q w.
Proof.
  intros Hcalm Hcfg Hrows HQ. unfold RefreshAll. apply wp_bind.
  eapply wp_mono; [apply (wp_for_each _ _ (λ done w', refreshed done w w')
    (λ r w', r = Ok tt /\ refreshed cacheRoleKeys w w'))|].
  - by apply refreshed_nil.
  - intros done k rest w1 _ H1. by apply (RefreshAll_role done k w).
  - intros [r|] w1 H1; apply wp_ret; simpl; [destruct H1 as [-> H1]|]; by apply HQ.
Qed.

(** RefreshAll restores the head caches from any state of Redis.  When
    nothing fails it returns no error, leaves the table alone and every role's
    cached head page is then missing or the current one; so the pages served
    until the next change of the table are the table's
    ([view_markets_page]).  Entries of single markets stay as they were. *)
Theorem refresh_restores_coherence w :
  calm (w_env w) -> sane_cfg cfg -> rows_ok (sdb w) ->
  wp (RefreshAll cfg) (λ r w',
    r = Ok tt /\ sdb w' = sdb w /\ (forall k, is_roleKey k -> head_coherent cfg k w') /\ ids_kept w w') w.
Proof.
  intros Hcalm Hcfg Hrows. apply RefreshAll_spec; try done. intros w' (Hn & Hc & Hi).
  split_and!; [done|by apply next_sdb| |done]. intros k Hk. apply Hc. unfold cacheRoleKeys.
  destruct Hk as [-> | [-> | ->]]; set_solver.
Qed.

(** Entries of single markets go away with their deletion. *)
Lemma invalidate_ids_spec ids (Q : list error -> world St -> Prop) w :
  calm (w_env w) ->
  (forall w', next w w' -> ids_kept w w' -> (forall id, id ∈ ids -> id_coherent id w') -> Q [] w') ->
  wp (invalidate_ids ids []) Q w.
Proof.
  revert w. induction ids as [|id ids IH]; intros w Hcalm HQ; simpl.
  { apply wp_ret, HQ; [by apply next_refl|by intros i|set_solver]. }
  unfold DeleteMarketByID. apply wp_bind, wp_bind.
  apply (wp_cache_Delete_ok (Y := pg SpotDB)); [apply Hcalm|]. intros w1 He1 Hp1 Hr1. apply wp_ret. simpl.
  assert (Hn1 : next w w1) by by apply next_step.
  assert (Hi1 : ids_kept w w1).
  { intros i Hc. unfold id_coherent. rewrite (next_sdb _ _ Hn1), Hr1.
    eapply coherent_later; [apply Hn1|]. by apply coherent_DEL. }
  assert (Hgone : id_coherent id w1).
  { unfold id_coherent. rewrite Hr1. eapply coherent_later; [apply Hn1|].
    intros t Ht. rewrite GET_view, DEL_view by done. by rewrite decide_True. }
  apply IH; [apply Hn1|]. intros w2 Hn2 Hi2 Hall.
  apply HQ; [by eapply next_trans|by eapply ids_kept_trans|].
  intros i [->|Hi]%elem_of_cons; [by apply Hi2|by apply Hall].
Qed.

Lemma InvalidateByIDs_spec ids (Q : result unit -> world St -> Prop) w :
  calm (w_env w) ->
  (forall w', next w w' -> ids_kept w w' -> (forall id, id ∈ ids -> id_coherent id w') -> Q (Ok tt) w') ->
  wp (InvalidateByIDs ids) Q w.
Proof.
  intros Hcalm HQ. unfold InvalidateByIDs. apply wp_bind, invalidate_ids_spec; [done|].
  intros w' Hn Hi Hall. apply wp_ret, HQ; [done|done|]. intros id Hid. apply Hall, elem_of_dedup. set_solver.
Qed.

(** Cached markets are exact.  A market with UTF-8 text and times in the
    range of UnixNano (or an unset update time) is always encodable for Redis
    and decodes to itself, alone and in a list. *)
Theorem market_cache_roundtrip m l :
  market_ok m -> Forall market_ok l ->
  (exists data, encodeMarket m = Ok data /\ decodeCachedMarket data = Ok m) /\
  (exists data, encodeMarkets l = Ok data /\ decodeCachedMarkets data = Ok l).
Proof. intros. split; [by apply encodeMarket_ok|by apply encodeMarkets_ok]. Qed.
End Properties.

(** ** Closed instances *)

#[export] Instance MarketRedisView_eq_dec : EqDecision MarketRedisView.
Proof. solve_decision. Defined.

#[export] Instance MarketRedisView_countable : Countable MarketRedisView.
Proof.
  refine (inj_countable'
    (λ v, (rv_ID v, rv_Name v, rv_Enabled v, rv_DeletedAtNs v, rv_UpdatedAtNs v))
    (λ '(i, n, e, d, u), Build_MarketRedisView i n e d u) _).
  by intros [].
Defined.

Definition TextJson : MarketJson := {|
  utf8_valid _ := true;
  marshal_view v := Ok (text_encode v);
  unmarshal_view s := match text_decode s with Some v => Ok v | None => Err (EMsg "invalid character") end;
  marshal_views l := Ok (text_encode l);
  unmarshal_views s := match text_decode s with Some l => Ok l | None => Err (EMsg "invalid character") end
|}.

Lemma TextJson_laws `{GoLib} : MarketJsonLaws TextJson.
Proof.
  split; [done| |]; intros; eexists; (split; [reflexivity|]); simpl; by rewrite text_decode_encode.
Qed.

(** Names in the order of their codes. *)
Definition CodeOrder : Collation := {| name_le a b := (encode a <=? encode b)%positive |}.

Lemma CodeOrder_laws : CollationLaws CodeOrder.
Proof.
  split; simpl; intros a b.
  - destruct (Pos.leb_spec (encode a) (encode b)); [by left|right]. apply Pos.leb_le. lia.
  - intros c H1%Pos.leb_le H2%Pos.leb_le. apply Pos.leb_le. lia.
  - intros H1%Pos.leb_le H2%Pos.leb_le. apply (inj encode). lia.
Qed.

Section Witness.
#[local] Existing Instance MemRedis.mem_redis.
#[local] Existing Instance MemRedis.mem_redis_laws.
#[local] Existing Instance DecLib.
#[local] Existing Instance DecLib_laws.
#[local] Existing Instance MicroPg.
#[local] Existing Instance TextJson.
#[local] Existing Instance TextJson_laws.
#[local] Existing Instance CodeOrder.
#[local] Existing Instance CodeOrder_laws.
Notation mem := (gmap string (string * option Z)).

Definition shop_market (id : UUID) (name : string) (enabled : bool) : Market := {|
  mkt_ID := id; mkt_Name := name; mkt_Enabled := enabled; mkt_DeletedAt := None; mkt_UpdatedAt := 1000 |}.

Definition shop_db : SpotDB := {|
  sdb_markets := {[ 1%N := shop_market 1%N "BTC" true; 2%N := shop_market 2%N "ETH" false;
                    3%N := shop_market 3%N "XRP" true ]};
  sdb_cursors := ∅; sdb_outbox := ∅ |}.

(** Redis holds an undecodable entry for market 3 and no page. *)
Definition shop : world (mem * pg SpotDB) :=
  World quiet_env ({[ cacheByIDKey 3%N := ("junk", None) ]}, Pg shop_db TxNone).

Definition shop_config : viewer_config := {|
  vw_cacheTTL := 1000000000; vw_defaultLimit := 2; vw_maxLimit := 10; vw_cacheLimit := 1 |}.

Definition shop_user : reqctx := {|
  rc_incoming := None; rc_outgoing := None; rc_user := Some 7%N; rc_roles := Some [UserRoleUser] |}.

Lemma shop_calm : calm (w_env shop).
Proof. split; [apply quiet_env_no_faults|]. simpl. lia. Qed.

Lemma shop_rows : rows_ok (sdb shop).
Proof.
  intros id m. unfold sdb, db_of, shop; simpl. rewrite !lookup_insert_Some, lookup_singleton_Some.
  intros [[<- <-]|[_ [[<- <-]|[_ [<- <-]]]]]; (split; [done|split_and!; [done|right; unfold in_i64, min_i64, max_i64; simpl; lia|done]]).
Qed.

Lemma shop_ready : view_ready shop_config shop_user roleUserKey shop.
Proof.
  split; [done|]. split; [apply shop_calm|]. split; [vm_compute; by intuition|].
  split; [apply shop_rows|]. split; [|split].
  - intros He. assert (Hl : sdb_markets (sdb shop) !! 1%N = None) by by rewrite He. by vm_compute in Hl.
  - by vm_compute.
  - intros t Ht. by vm_compute.
Qed.

Lemma view_markets_page_witness :
  wp (ViewMarkets shop_config shop_user 1 0) (λ r w',
    r = Ok (page_at (visible_markets roleUserKey (sdb shop)) (page_limit shop_config 1) 0) /\
    sdb w' = sdb shop /\ head_coherent shop_config roleUserKey w') shop.
Proof. apply (view_markets_page shop_config shop_user roleUserKey 1 0 shop shop_ready); lia. Defined.


(** A user asks for the market whose cached entry is junk, and for the disabled
    one. *)
Lemma market_by_id_transparent_witness :
  wp (GetMarketByID shop_config shop_user 3%N) (λ r w',
    market_answer roleUserKey 3%N (sdb_markets (sdb shop) !! 3%N) r /\ sdb w' = sdb shop /\
    id_coherent 3%N w') shop /\
  wp (GetMarketByID shop_config shop_user 2%N) (λ r w',
    market_answer roleUserKey 2%N (sdb_markets (sdb shop) !! 2%N) r /\ sdb w' = sdb shop /\
    id_coherent 2%N w') shop /\
  (GetMarketByID shop_config shop_user 2%N shop).1 =
    Err (wrap "MarketViewer.GetMarketByID" (EDisabled 2%N)).
Proof.
  split; [|split; [|vm_compute; reflexivity]];
    (apply (market_by_id_transparent shop_config shop_user roleUserKey _ shop);
     [reflexivity|apply shop_calm|apply shop_rows|intros t Ht; vm_compute; exact I]).
Defined.

Lemma refresh_restores_coherence_witness :
  wp (RefreshAll shop_config) (λ r w',
    r = Ok tt /\ sdb w' = sdb shop /\ (forall k, is_roleKey k -> head_coherent shop_config k w') /\
    ids_kept shop w') shop.
Proof.
  apply (refresh_restores_coherence shop_config shop).
  - apply shop_calm.
  - vm_compute. by intuition.
  - apply shop_rows.
Defined.

Lemma market_cache_roundtrip_witness :
  (exists data, encodeMarket (shop_market 1%N "BTC" true) = Ok data /\
     decodeCachedMarket data = Ok (shop_market 1%N "BTC" true)) /\
  (exists data, encodeMarkets [shop_market 2%N "ETH" false] = Ok data /\
     decodeCachedMarkets data = Ok [shop_market 2%N "ETH" false]).
Proof.
  assert (Hok : forall id name b, market_ok (shop_market id name b)).
  { intros. split_and!; [done| |done]. right. unfold in_i64, min_i64, max_i64. simpl. lia. }
  apply market_cache_roundtrip; [apply Hok|]. constructor; [apply Hok|constructor].
Defined.

(** The page and the three pages of the client, run. *)
Example shop_first_page :
  (ViewMarkets shop_config shop_user 1 0 shop).1 = Ok ([shop_market 1%N "BTC" true], 1, true) \/
  (ViewMarkets shop_config shop_user 1 0 shop).1 = Ok ([shop_market 3%N "XRP" true], 1, true).
Proof. vm_compute. by left. Qed.

Example shop_disabled :
  (GetMarketByID shop_config shop_user 2%N shop).1 = Err (wrap "MarketViewer.GetMarketByID" (EDisabled 2%N)).
Proof. by vm_compute. Qed.
End Witness.
