(* ===== verification/MarketPoller.v ===== *)
(** * Announcing market changes
      (spotService/internal/services/spot/market_poller.go,
       services/producer/market_producer.go,
       the poller's part of application/spot/lifecycle.go)

    The poller walks the market table in (updated_at, id) order, and commits
    each batch of events to the outbox together with the cursor behind it.  The
    properties: under every pattern of failures the events committed are those
    of a prefix of the pending updates, the stored cursor never passes an update
    that has no event, and a poll in which nothing fails covers them all and
    leaves no stale cache. *)

From stdpp Require Import sorting.
From S2P Require Import Prelude GoStrings GoErrors Effects Redis Pg Kafka Outbox Events OrderDb Auth SpotDb MarketView.
Local Open Scope string_scope.
Local Open Scope list_scope.
Local Open Scope Z_scope.

Definition marketStateChangedPollerName : string := "market_state_changed_poller".

(** The fields of MarketPoller that change. *)
Record poller := { pl_lastSeenAt : Z; pl_lastSeenID : UUID }.

(** The others; the cache refresher is the market viewer. *)
Record poller_config := { pc_batchSize : Z; pc_cacheRefresher : option viewer_config }.

(** ** MarketProducer *)

Section Producer.
Context {St : Type} `{PT : PgTypes} `{U : GoLib} `{TT : PbTime} `{PB : !ProtoCodec}
  `{HD : !Has (pg SpotDB) St}.

Definition rollbackTransaction : M St unit := tx_Rollback ;;! mret tt.
Definition commitTransaction : M St (result unit) := tx_Commit.

Definition buildOutboxEvent (event : MarketStateChangedEvent) : M St (result OutboxEvent) :=
  match Marshal event with
  | Err err => mret (Err err)
  | Ok payload =>
      let! id := uuid_New in
      mret (Ok (new_outbox_event id (mse_EventID event) MarketStateChangedEventType
                  (mse_MarketID event) payload))
  end.

(** A deferred rollback closes the transaction on every path but the
    committed one. *)
Definition with_rollback (m : M St (result unit)) : M St (result unit) :=
  let! r := m in
  match r with
  | Ok _ => mret (Ok tt)
  | Err err => rollbackTransaction ;;! mret (Err err)
  end.

Definition saveCursor (cursor : PollerCursor) : M St (result unit) :=
  let op := "MarketProducer.saveCursorOnly" in
  try! _ := SpotWorker.BeginTransaction else wrap (op +:+ ": begin tx") in
  with_rollback (
    try! _ := SaveCursorTransaction cursor else wrap (op +:+ ": save cursor") in
    try! _ := commitTransaction else wrap (op +:+ ": commit") in
    mret (Ok tt)).

Definition op_PublishMarket : string := "MarketProducer.PublishMarketStateChanged".

(** The loop that saves the events. *)
Definition saveEvents (events : list MarketStateChangedEvent) : M St (option error) :=
  for_each events (λ event,
    let! b := buildOutboxEvent event in
    match b with
    | Err buildError => mret (Some (wrap (op_PublishMarket +:+ ": build outbox event") buildError))
    | Ok outboxEvent =>
        let! s := SpotWorker.SaveOutboxEvent outboxEvent in
        mret match s with
             | Err err => Some (wrap (op_PublishMarket +:+ ": save outbox event") err)
             | Ok _ => None
             end
    end).

Definition PublishMarketStateChanged (events : list MarketStateChangedEvent) (cursor : PollerCursor) :
    M St (result unit) :=
  match events with
  | [] => saveCursor cursor
  | _ =>
      try! _ := SpotWorker.BeginTransaction else wrap (op_PublishMarket +:+ ": begin tx") in
      with_rollback (
        let! r := saveEvents events in
        match r with
        | Some err => mret (Err err)
        | None =>
            try! _ := SaveCursorTransaction cursor else wrap (op_PublishMarket +:+ ": save cursor") in
            try! _ := commitTransaction else wrap (op_PublishMarket +:+ ": commit") in
            mret (Ok tt)
        end)
  end.
End Producer.

(** ** MarketPoller *)

Section Poller.
Context {St R : Type} `{HRd : Redis R} `{HR : !Has R St} `{PT : PgTypes} `{C : Collation}
  `{U : GoLib} `{MJ : MarketJson} `{TT : PbTime} `{PB : !ProtoCodec}
  `{HD : !Has (pg SpotDB) St} `{HP : !Has poller St}.
Variable cfg : poller_config.

Definition set_poller (lastSeenAt : Z) (lastSeenID : UUID) : M St unit :=
  modify (upd {| pl_lastSeenAt := lastSeenAt; pl_lastSeenID := lastSeenID |}).

Definition loadCursor : M St (result unit) :=
  let! r := cursor_Get marketStateChangedPollerName in
  match r with
  | Err err =>
      if is_sent PgxErrNoRows err then set_poller zero_time uuid_Nil ;;! mret (Ok tt)
      else mret (Err err)
  | Ok cursor => set_poller (pc_LastSeenAt cursor) (pc_LastSeenID cursor) ;;! mret (Ok tt)
  end.

Definition Init (nilContext : bool) : M St (result unit) :=
  if nilContext then mret (Err (EMsg "market poller init: nil context"))
  else
    try! _ := loadCursor else wrap "load market poller cursor" in
    mret (Ok tt).

Fixpoint buildMarketStateChangedEvents (markets : list Market) :
    M St (result (list MarketStateChangedEvent)) :=
  match markets with
  | [] => mret (Ok [])
  | market :: markets =>
      let! c := ctx_Err in
      match c with
      | Some err => mret (Err err)
      | None =>
          let! id := uuid_New in
          let event := {| mse_EventID := id; mse_MarketID := mkt_ID market;
                          mse_Enabled := mkt_Enabled market; mse_DeletedAt := mkt_DeletedAt market;
                          mse_UpdatedAt := mkt_UpdatedAt market |} in
          let! r := buildMarketStateChangedEvents markets in
          mret (res_map (cons event) r)
      end
  end.

(** [markets] is not empty: its first element stands in for the panic. *)
Definition buildNextPollerCursor (market : Market) (markets : list Market) : PollerCursor :=
  let last := List.last markets market in
  {| pc_PollerName := marketStateChangedPollerName; pc_LastSeenAt := mkt_UpdatedAt last;
     pc_LastSeenID := mkt_ID last |}.

Definition processNextBatch : M St (result (list UUID * bool)) :=
  let! s := get in
  let p : poller := prj s in
  try! markets := ListUpdatedSince (pl_lastSeenAt p) (pl_lastSeenID p) (pc_batchSize cfg) else id in
  match markets with
  | [] => mret (Ok ([], false))
  | market :: _ =>
      let updatedIDs := mkt_ID <$> markets in
      try! events := buildMarketStateChangedEvents markets else id in
      let nextCursor := buildNextPollerCursor market markets in
      try! _ := PublishMarketStateChanged events nextCursor else id in
      set_poller (pc_LastSeenAt nextCursor) (pc_LastSeenID nextCursor) ;;!
      mret (Ok (updatedIDs, len markets =? pc_batchSize cfg))
  end.

(** Its errors are logged. *)
Definition refreshCache (updatedIDs : list UUID) : M St unit :=
  match updatedIDs, pc_cacheRefresher cfg with
  | [], _ | _, None => mret tt
  | _, Some viewer =>
      InvalidateByIDs updatedIDs ;;!
      RefreshAll viewer ;;!
      mret tt
  end.

(** The loop of [poll]: [None] when the fuel runs out, with the ids collected
    so far. *)
Fixpoint poll_loop (fuel : nat) (updatedIDs : list UUID) : M St (option (result unit) * list UUID) :=
  match fuel with
  | O => mret (None, updatedIDs)
  | S fuel =>
      let! c := ctx_Err in
      match c with
      | Some err => mret (Some (Err err), updatedIDs)
      | None =>
          let! r := processNextBatch in
          match r with
          | Err err => mret (Some (Err err), updatedIDs)
          | Ok (batchUpdatedIDs, hasMore) =>
              let updatedIDs := updatedIDs ++ batchUpdatedIDs in
              if negb hasMore then mret (Some (Ok tt), updatedIDs) else poll_loop fuel updatedIDs
          end
      end
  end.

Definition poll (fuel : nat) : M St (option (result unit)) :=
  let! (r, updatedIDs) := poll_loop fuel [] in
  match r with
  | None => mret None
  | Some r => refreshCache updatedIDs ;;! mret (Some r)
  end.

(** Run for the ticks it receives before its context ends: [None] when a poll
    runs out of fuel. *)
Fixpoint Run_loop (fuel : nat) (what : string) (polls : nat) : M St (option (result unit)) :=
  match polls with
  | O => mret (Some (Ok tt))
  | S polls =>
      let! r := poll fuel in
      match r with
      | None => mret None
      | Some (Err err) =>
          let! c := ctx_Err in
          mret (Some match c with Some _ => Ok tt | None => Err (wrap what err) end)
      | Some (Ok _) => Run_loop fuel "scheduled poll" polls
      end
  end.

Definition Run (fuel : nat) (nilContext : bool) (ticks : nat) : M St (option (result unit)) :=
  if nilContext then mret (Some (Err (EMsg "market poller run: nil context")))
  else Run_loop fuel "initial poll" (S ticks).

(** lifecycle.go: Init once, then Run again after every error, with the
    number of ticks each run receives. *)
Fixpoint restart_loop (fuel : nat) (runs : list nat) : M St unit :=
  match runs with
  | [] => mret tt
  | ticks :: runs =>
      let! r := Run fuel false ticks in
      match r with
      | Some (Err _) =>
          let! c := ctx_Err in
          match c with Some _ => mret tt | None => restart_loop fuel runs end
      | _ => mret tt
      end
  end.

Definition poller_service (fuel : nat) (runs : list nat) : M St (result unit) :=
  try! _ := Init false else id in
  restart_loop fuel runs ;;! mret (Ok tt).
End Poller.

(** ** Updates in cursor order *)

Section Updates.
Context `{PT : PgTypes}.

(** The position of a market: (updated_at, id). *)
Definition position (m : Market) : Z * UUID := (mkt_UpdatedAt m, mkt_ID m).

Definition before (m1 m2 : Market) : Prop := after_cursor (mkt_UpdatedAt m1) (mkt_ID m1) m2 = true.

Lemma after_cursor_iff at_ id m :
  after_cursor at_ id m = true <-> at_ < mkt_UpdatedAt m \/ (at_ = mkt_UpdatedAt m /\ (id < mkt_ID m)%N).
Proof. unfold after_cursor. rewrite orb_true_iff, andb_true_iff, Z.ltb_lt, Z.eqb_eq, N.ltb_lt. done. Qed.

Lemma after_cursor_trans at_ id m1 m2 :
  after_cursor at_ id m1 = true -> before m1 m2 -> after_cursor at_ id m2 = true.
Proof. unfold before. rewrite !after_cursor_iff. lia. Qed.

#[export] Instance update_order_total : Total update_order.
Proof. intros m1 m2. unfold update_order. lia. Qed.

#[export] Instance update_order_trans : Transitive update_order.
Proof. intros m1 m2 m3. unfold update_order. lia. Qed.

(** Rows under their own ids, with instants a column can hold. *)
Definition market_rows_ok (d : SpotDB) : Prop :=
  map_Forall (λ id m, mkt_ID m = id /\ pg_time (mkt_UpdatedAt m) = mkt_UpdatedAt m) (sdb_markets d).

Lemma elem_of_updated at_ id d m :
  m ∈ updated_markets at_ id d <->
    after_cursor at_ id m = true /\ exists i, sdb_markets d !! i = Some m.
Proof. unfold updated_markets. by rewrite merge_sort_Permutation, list_elem_of_filter, elem_of_values. Qed.

Lemma updated_row at_ id d m :
  market_rows_ok d -> m ∈ updated_markets at_ id d ->
  sdb_markets d !! mkt_ID m = Some m /\ pg_time (mkt_UpdatedAt m) = mkt_UpdatedAt m.
Proof. intros Hok [_ [i Hi]]%elem_of_updated. destruct (Hok i m Hi) as [Hid Ht]. by rewrite Hid. Qed.

Lemma updated_ids at_ id d : market_rows_ok d -> NoDup (mkt_ID <$> updated_markets at_ id d).
Proof.
  intros Hok. unfold updated_markets. rewrite merge_sort_Permutation. apply NoDup_fmap_filter.
  rewrite <- list_fmap_compose.
  enough (mkt_ID ∘ snd <$> map_to_list (sdb_markets d) = (map_to_list (sdb_markets d)).*1) as ->
    by apply NoDup_fst_map_to_list.
  apply list_fmap_ext. intros i [j m] Hi%list_elem_of_lookup_2%elem_of_map_to_list. by apply Hok.
Qed.

(** Different rows are at different positions. *)
Lemma updated_strict at_ id d :
  market_rows_ok d -> StronglySorted before (updated_markets at_ id d).
Proof.
  intros Hok. assert (Hs : StronglySorted update_order (updated_markets at_ id d)).
  { apply Sorted_StronglySorted; [apply _|]. apply Sorted_merge_sort, _. }
  assert (Hnd := NoDup_fmap_1 _ _ (updated_ids at_ id d Hok)).
  assert (Hrow : forall m, m ∈ updated_markets at_ id d -> sdb_markets d !! mkt_ID m = Some m).
  { intros m Hm. by apply (updated_row at_ id). }
  induction Hs as [|m l Hs IH Hm]; [constructor|]. apply NoDup_cons in Hnd as [Hnin Hnd].
  constructor; [apply IH; [done|]; set_solver|]. apply Forall_forall. intros m2 Hm2.
  rewrite Forall_forall in Hm. specialize (Hm m2 Hm2). unfold before. rewrite after_cursor_iff.
  destruct Hm as [?|[? ?]]; [by left|right]. split; [done|].
  destruct (decide (mkt_ID m = mkt_ID m2)) as [He|]; [|lia]. exfalso. apply Hnin.
  pose proof (Hrow m ltac:(set_solver)). pose proof (Hrow m2 ltac:(set_solver)). congruence.
Qed.

(** Moving the cursor to a pending update leaves what comes after it. *)
Lemma filter_after (l1 l2 : list Market) m :
  StronglySorted before (l1 ++ m :: l2) ->
  filter (λ m', after_cursor (mkt_UpdatedAt m) (mkt_ID m) m' = true) (l1 ++ m :: l2) = l2.
Proof.
  intros Hs. rewrite filter_app, filter_cons. rewrite decide_False by (rewrite after_cursor_iff; lia).
  apply StronglySorted_app in Hs as (Hb & _ & Hs2). apply StronglySorted_inv in Hs2 as [_ Hall].
  rewrite (filter_all _ l2) by (rewrite Forall_forall in *; intros m2 H2; by apply Hall).
  rewrite (filter_none _ l1); [done|]. apply Forall_forall. intros m1 H1.
  specialize (Hb m1 m H1 ltac:(set_solver)). unfold before in Hb. rewrite !after_cursor_iff in *. lia.
Qed.

Lemma updated_next at_ id d l1 m l2 :
  market_rows_ok d -> updated_markets at_ id d = l1 ++ m :: l2 ->
  updated_markets (mkt_UpdatedAt m) (mkt_ID m) d = l2.
Proof.
  intros Hok Heq. pose proof (updated_strict at_ id d Hok) as Hs. rewrite Heq in Hs.
  rewrite <- (filter_after _ _ _ Hs), <- Heq.
assert (Hle : forall at_ id, StronglySorted update_order (updated_markets at_ id d)).
{ intros. apply Sorted_StronglySorted; [apply _|]. apply Sorted_merge_sort, _. }
apply (StronglySorted_unique_strong update_order); [| done | |].
- intros m1 m2 [_ [i1 H1]]%elem_of_updated [_ [_ [i2 H2]]%elem_of_updated]%list_elem_of_filter Ha Hb.
  assert (Hid : mkt_ID m1 = mkt_ID m2) by (unfold update_order in *; lia).
  destruct (Hok _ _ H1), (Hok _ _ H2). congruence.
- apply StronglySorted_filter, Hle.
- assert (Hm : m ∈ updated_markets at_ id d) by (rewrite Heq; set_solver).
  apply elem_of_updated in Hm as [Hm _]. unfold updated_markets. rewrite !merge_sort_Permutation.
  rewrite list_filter_filter_l; [done|]. intros x Hx. by eapply after_cursor_trans.
Qed.
End Updates.

(** ** What a poll commits *)

Section Committed.
Context `{PT : PgTypes} `{U : GoLib} `{TT : PbTime} `{PB : !ProtoCodec}.

(** The outbox row of an event. *)
Definition event_row (event : MarketStateChangedEvent) (ev : OutboxEvent) : Prop :=
  oe_EventID ev = mse_EventID event /\ oe_EventType ev = MarketStateChangedEventType /\
  oe_AggregateID ev = mse_MarketID event /\ oe_Status ev = OutboxEventStatusPending /\
  oe_RetryCount ev = 0 /\ Marshal event = Ok (oe_Payload ev).

(** A pending event with the state of the market. *)
Definition announces (m : Market) (ev : OutboxEvent) : Prop :=
  event_row {| mse_EventID := oe_EventID ev; mse_MarketID := mkt_ID m; mse_Enabled := mkt_Enabled m;
               mse_DeletedAt := mkt_DeletedAt m; mse_UpdatedAt := mkt_UpdatedAt m |} ev.

Definition cursor_at (m : Market) : PollerCursor := {|
  pc_PollerName := marketStateChangedPollerName; pc_LastSeenAt := pg_time (mkt_UpdatedAt m);
  pc_LastSeenID := mkt_ID m |}.

(** These updates were announced, one new event each and in order, and the
    stored cursor stands behind the last of them. *)
Definition announced (ms : list Market) (d d' : SpotDB) : Prop :=
  exists evs, rows_added evs (sdb_outbox d) (sdb_outbox d') /\ Forall2 announces ms evs /\
    sdb_markets d' = sdb_markets d /\
    sdb_cursors d' = match last ms with
                     | None => sdb_cursors d
                     | Some m => <[marketStateChangedPollerName := cursor_at m]> (sdb_cursors d)
                     end.

Lemma announced_nil d : announced [] d d.
Proof. exists []. split_and!; [apply rows_added_nil|constructor|done|done]. Qed.

Lemma announced_app l1 l2 d d1 d2 :
  announced l1 d d1 -> announced l2 d1 d2 -> announced (l1 ++ l2) d d2.
Proof.
  intros (e1 & Hr1 & Hf1 & Hm1 & Hc1) (e2 & Hr2 & Hf2 & Hm2 & Hc2). exists (e1 ++ e2). split_and!.
  - by eapply rows_added_app.
  - by apply Forall2_app.
  - congruence.
  - rewrite Hc2, last_app. destruct (last l2); [|done]. rewrite Hc1. destruct (last l1); [|done].
    by rewrite insert_insert_eq.
Qed.

(** The cursor in memory behind these updates. *)
Definition mem_after (ms : list Market) (p : poller) : poller :=
  match last ms with
  | None => p
  | Some m => {| pl_lastSeenAt := mkt_UpdatedAt m; pl_lastSeenID := mkt_ID m |}
  end.

Lemma mem_after_app l1 l2 p : mem_after (l1 ++ l2) p = mem_after l2 (mem_after l1 p).
Proof. unfold mem_after. rewrite last_app. by destruct (last l2). Qed.

Lemma last_cons_default {A} (x : A) l : last (x :: l) = Some (List.last (x :: l) x).
Proof.
  enough (H : forall y, last (x :: l) = Some (List.last (x :: l) y)) by apply H.
  revert x. induction l as [|z l IH]; intros x y; [done|].
  change (last (x :: z :: l)) with (last (z :: l)).
  change (List.last (x :: z :: l) y) with (List.last (z :: l) y). apply IH.
Qed.
End Committed.

Section Transaction.
Context {St : Type} `{PT : PgTypes} `{U : GoLib} `{TT : PbTime} `{PB : !ProtoCodec}
  `{HD : !Has (pg SpotDB) St}.

Definition in_tx (d0 : SpotDB) (s : St) : Prop := exists tx, prj s = Pg d0 tx.

Lemma saveEvents_spec events d0 now d w :
  prj (w_st w) = Pg d0 (TxOpen now d) ->
  wp (saveEvents events) (λ r w', match r with
     | Some _ => in_tx d0 (w_st w')
     | None => exists evs t, prj (w_st w') = Pg d0 (TxOpen now (set_outbox t d)) /\
         rows_added evs (sdb_outbox d) t /\ Forall2 event_row events evs
     end /\ exists n, w_env w' = Nat.iter n tick (w_env w)) w.
Proof.
  intros Hp. apply wp_conj.
  2: { apply ticks_wp. unfold saveEvents, buildOutboxEvent, SpotWorker.SaveOutboxEvent, uuid_New, tx_Exec, lift_pg.
       tick_solve. }
  apply (wp_for_each events _
    (λ done w', exists evs t, prj (w_st w') = Pg d0 (TxOpen now (set_outbox t d)) /\
       rows_added evs (sdb_outbox d) t /\ Forall2 event_row done evs) (λ _ w', in_tx d0 (w_st w'))).
  - exists [], (sdb_outbox d). split_and!; [|apply rows_added_nil|constructor]. rewrite Hp. by destruct d.
  - intros done event rest w1 _ (evs & t & Hp1 & Hadd & Hall). apply wp_bind. unfold buildOutboxEvent.
    destruct (Marshal event) as [payload|e] eqn:Em; [|wp_steps; by eexists].
    wp_steps. unfold SpotWorker.SaveOutboxEvent. apply wp_bind.
    eapply wp_tx_Exec; [done|intros e w2 _ Hw2; wp_steps; by eexists|].
    intros [] d2 w2 _ (stored & -> & Hfree & Hst)%on_outbox_insert_Ok Hw2. wp_steps.
    destruct Hst as (Hs1 & Hs2 & Hs3 & Hs4 & Hs5 & Hs6 & _ & Hs8). simpl in *.
    eexists (evs ++ [stored]), _. split_and!; [exact Hw2| |].
    + rewrite <- Hs1. apply rows_added_snoc; [done|]. by rewrite Hs1.
    + apply Forall2_app; [done|]. constructor; [|constructor]. split_and!; try done. by rewrite Hs4.
Qed.

(** What a successful PublishMarketStateChanged commits. *)
Definition published (events : list MarketStateChangedEvent) (cursor : PollerCursor) (d d' : SpotDB) : Prop :=
  exists evs, rows_added evs (sdb_outbox d) (sdb_outbox d') /\ Forall2 event_row events evs /\
    sdb_markets d' = sdb_markets d /\
    sdb_cursors d' = <[pc_PollerName cursor := {|
      pc_PollerName := pc_PollerName cursor; pc_LastSeenAt := pg_time (pc_LastSeenAt cursor);
      pc_LastSeenID := pc_LastSeenID cursor |}]> (sdb_cursors d).

Lemma with_rollback_spec (m : M St (result unit)) (Q : result unit -> world St -> Prop) w :
  wp m (λ r w', match r with
                | Ok _ => Q (Ok tt) w'
                | Err e => forall w2, db_of (D := SpotDB) (w_st w2) = db_of (w_st w') ->
                             tx_of (D := SpotDB) (w_st w2) = TxNone -> Q (Err e) w2
                end) w ->
  wp (with_rollback m) Q w.
Proof.
  intros Hm. unfold with_rollback. apply wp_bind. eapply wp_mono; [exact Hm|].
  intros [[]|e] w1 H1; [by apply wp_ret|]. unfold rollbackTransaction. apply wp_bind, wp_bind, wp_tx_Rollback.
  intros r w2 Hdb Htx. by apply wp_ret, wp_ret, H1.
Qed.

(** The end of both functions: the cursor, then COMMIT. *)
Lemma finish_spec cursor op1 op2 d0 now d e0 (Q : result unit -> world St -> Prop) w :
  prj (w_st w) = Pg d0 (TxOpen now d) -> (exists n, w_env w = Nat.iter n tick e0) ->
  (forall w', prj (w_st w') = Pg (sql_save_cursor cursor now d).2 TxNone -> Q (Ok tt) w') ->
  (forall e w', db_of (w_st w') = d0 \/
     (~ answered e0 /\ db_of (w_st w') = (sql_save_cursor cursor now d).2) -> Q (Err e) w') ->
  wp (try! _ := SaveCursorTransaction cursor else wrap op1 in
      try! _ := commitTransaction else wrap op2 in mret (Ok tt)) Q w.
Proof.
  intros Hp [n Hn] Hok Herr. unfold SaveCursorTransaction, commitTransaction. apply wp_bind, wp_bind.
  eapply wp_tx_Exec; [done| |].
  { intros e w1 _ Hw1. wp_steps. apply Herr. left. unfold db_of. by rewrite Hw1. }
  intros [] d1 w1 He1 [= <-] Hw1. wp_steps. eapply wp_commit; [done| | |].
  - intros w2 _ Hw2. wp_steps. by apply Hok.
  - intros e w2 _ Hw2. wp_steps. apply Herr. left. unfold db_of. by rewrite Hw2.
  - intros e w2 _ Hna Hw2. wp_steps. apply Herr. right. unfold db_of. rewrite Hw2. split; [|done].
    rewrite He1, Hn in Hna. by rewrite answered_tick, answered_ticks in Hna.
Qed.

Lemma Publish_spec events cursor w :
  tx_of (D := SpotDB) (w_st w) = TxNone ->
  wp (PublishMarketStateChanged events cursor) (λ r w',
    tx_of (D := SpotDB) (w_st w') = TxNone /\
    match r with
    | Ok _ => published events cursor (db_of (w_st w)) (db_of (w_st w'))
    | Err _ => db_of (D := SpotDB) (w_st w') = db_of (w_st w) \/
        (~ answered (w_env w) /\ published events cursor (db_of (w_st w)) (db_of (w_st w')))
    end) w.
Proof.
  intros Hidle. set (d := db_of (w_st w)).
  assert (Hp : prj (w_st w) = Pg d TxNone).
  { unfold d, db_of, tx_of in *. destruct (prj (w_st w)). simpl in *. by subst. }
  assert (Hpub : forall evs t now, rows_added evs (sdb_outbox d) t -> Forall2 event_row events evs ->
    published events cursor d (sql_save_cursor cursor now (set_outbox t d)).2).
  { intros evs t now Hadd Hall. by exists evs. }
  assert (Hbegin : forall op (k : M St (result unit)) (Q : result unit -> world St -> Prop),
    (forall now w1, w_env w1 = tick (w_env w) -> prj (w_st w1) = Pg d (TxOpen now d) -> wp k Q w1) ->
    (forall e w1, prj (w_st w1) = Pg d TxNone -> Q (Err e) w1) ->
    wp (try! _ := SpotWorker.BeginTransaction else op in k) Q w).
  { intros op k Q Hk Hq. unfold SpotWorker.BeginTransaction. apply wp_bind, wp_bind. eapply wp_tx_Begin; [done| |].
    - intros now w1 He Hw1. apply wp_ret. by eapply Hk.
    - intros e w1 _ Hw1. wp_steps. by apply Hq. }
  assert (Hsame : forall w', prj (w_st w') = Pg d TxNone ->
    tx_of (D := SpotDB) (w_st w') = TxNone /\ db_of (w_st w') = d).
  { intros w' Hw'. unfold tx_of, db_of. by rewrite Hw'. }
  unfold PublishMarketStateChanged, saveCursor. destruct events as [|event events].
  - apply Hbegin; [|intros e w1 [??]%Hsame; by split; [|left]]. intros now w1 He1 Hw1. apply with_rollback_spec.
    assert (Hd : sql_save_cursor cursor now d = sql_save_cursor cursor now (set_outbox (sdb_outbox d) d))
      by by destruct d.
    pose proof (Hpub [] (sdb_outbox d) now (rows_added_nil _) ltac:(constructor)) as Hpub0. rewrite <- Hd in Hpub0.
    eapply finish_spec; [done|exists 1%nat; exact He1| |].
    + intros w2 Hw2. split; unfold tx_of, db_of; by rewrite Hw2.
    + intros e w2 Hw2 w3 -> Htx. split; [done|]. destruct Hw2 as [->|[? ->]]; [by left|by right].
  - apply Hbegin; [|intros e w1 [??]%Hsame; by split; [|left]]. intros now w1 He1 Hw1. apply with_rollback_spec.
    apply wp_bind. eapply wp_mono; [by eapply saveEvents_spec|]. intros [e|] w2 [H2 [n Hn]].
    + apply wp_ret. destruct H2 as [tx H2]. intros w3 Hdb Htx. split; [done|]. left. rewrite Hdb. unfold db_of. by rewrite H2.
    + destruct H2 as (evs & t & Hw2 & Hadd & Hall).
      eapply finish_spec; [done|exists (n + 1)%nat; by rewrite Hn, He1, Nat.iter_add| |].
      * intros w3 Hw3. split; unfold tx_of, db_of; rewrite Hw3; [done|]. by eapply Hpub.
      * intros e w3 Hw3 w4 -> Htx. split; [done|].
        destruct Hw3 as [->|[? ->]]; [by left|right]. split; [done|]. by eapply Hpub.
Qed.
End Transaction.

(** ** One batch and one poll, under every environment *)

Section Polling.
Context {St R : Type} `{HRd : Redis R} `{HR : !Has R St} `{PT : PgTypes} `{C : Collation}
  `{U : GoLib} `{MJ : MarketJson} `{TT : PbTime} `{PB : !ProtoCodec}
  `{HD : !Has (pg SpotDB) St} `{HP : !Has poller St}
  `{HA1 : !Apart (pg SpotDB) poller St} `{HA2 : !Apart poller (pg SpotDB) St}
  `{HA3 : !Apart R poller St} `{HA4 : !Apart R (pg SpotDB) St}.
Variable cfg : poller_config.

Notation mem w := (prj (X := poller) (w_st w)).
Notation db w := (db_of (D := SpotDB) (w_st w)).
Notation idle w := (@tx_of _ SpotDB HD (w_st w) = TxNone).

Lemma frames_Publish events cursor :
  frames (prj (X := poller)) (PublishMarketStateChanged (St := St) events cursor).
Proof.
  unfold PublishMarketStateChanged, saveCursor, with_rollback, saveEvents, buildOutboxEvent,
    SpotWorker.BeginTransaction, SpotWorker.SaveOutboxEvent, SaveCursorTransaction, commitTransaction,
    rollbackTransaction, tx_Begin, tx_Exec, tx_Commit, tx_Rollback.
  destruct events; frame_solve.
Qed.

Lemma ticks_Publish events cursor : ticks (PublishMarketStateChanged (St := St) events cursor).
Proof.
  unfold PublishMarketStateChanged, saveCursor, with_rollback, saveEvents, buildOutboxEvent,
    SpotWorker.BeginTransaction, SpotWorker.SaveOutboxEvent, SaveCursorTransaction, commitTransaction,
    rollbackTransaction, uuid_New, tx_Begin, tx_Exec, tx_Commit, tx_Rollback, lift_pg.
  destruct events; tick_solve.
Qed.

Lemma ticks_buildEvents ms : ticks (buildMarketStateChangedEvents (St := St) ms).
Proof. induction ms as [|m ms IH]; simpl; unfold ctx_Err, uuid_New; tick_solve. Qed.

Lemma ticks_batch : ticks (processNextBatch (St := St) cfg).
Proof.
  unfold processNextBatch, ListUpdatedSince, set_poller, pool_Exec, lift_pg.
  repeat (tick_step || apply ticks_buildEvents || apply ticks_Publish).
Qed.

(** The events carry the markets, in their order. *)
Definition event_of (m : Market) (event : MarketStateChangedEvent) : Prop :=
  mse_MarketID event = mkt_ID m /\ mse_Enabled event = mkt_Enabled m /\
  mse_DeletedAt event = mkt_DeletedAt m /\ mse_UpdatedAt event = mkt_UpdatedAt m.

Lemma buildEvents_spec ms (w : world St) :
  wp (buildMarketStateChangedEvents ms) (λ r w', w_st w' = w_st w /\
    match r with Ok events => Forall2 event_of ms events | Err _ => True end) w.
Proof.
  revert w. induction ms as [|m ms IH]; intros w; simpl; [by apply wp_ret|]. wp_steps.
  destruct (e_ctx (w_env w) (e_tick (w_env w))); [by apply wp_ret|]. wp_steps.
  eapply wp_mono; [apply IH|]. intros [events|e] w' [Hs Hall]; wp_steps; (split; [done|]); [|done].
  by constructor.
Qed.

Lemma announces_events ms events evs :
  Forall2 event_of ms events -> Forall2 event_row events evs -> Forall2 announces ms evs.
Proof.
  intros H1. revert evs. induction H1 as [|m event ms events (Ha&Hb&Hc&Hd) _ IH]; intros evs Hr.
  { apply Forall2_nil_inv_l in Hr as ->. constructor. }
  apply Forall2_cons_inv_l in Hr as (ev & evs' & Hev & Hr & ->). constructor; [|by apply IH].
  unfold announces. destruct Hev as (Hid & Hrest). destruct event; simpl in *. by subst.
Qed.

Lemma published_announced m ms events d d' :
  Forall2 event_of (m :: ms) events ->
  published events (buildNextPollerCursor m (m :: ms)) d d' -> announced (m :: ms) d d'.
Proof.
  intros Hev (evs & Hadd & Hrows & Hm & Hc). exists evs. split_and!; [done| |done|].
  - by eapply announces_events.
  - by rewrite Hc, last_cons_default.
Qed.

(** What is pending for the cursor in memory. *)
Definition pending (w : world St) : list Market :=
  updated_markets (pg_time (pl_lastSeenAt (mem w))) (pl_lastSeenID (mem w)) (db w).

Definition batch (w : world St) : list Market := take (Z.to_nat (pc_batchSize cfg)) (pending w).

(** One batch: acknowledged, or failed without or (if the reply to COMMIT was
    lost) with its effect. *)
Lemma processNextBatch_spec w :
  idle w -> 0 < pc_batchSize cfg ->
  wp (processNextBatch cfg) (λ r w', idle w' /\
    match r with
    | Ok (ids, more) => announced (batch w) (db w) (db w') /\ mem w' = mem_after (batch w) (mem w) /\
        ids = mkt_ID <$> batch w /\ more = (len (batch w) =? pc_batchSize cfg)
    | Err _ => mem w' = mem w /\
        (db w' = db w \/ (~ answered (w_env w) /\ announced (batch w) (db w) (db w')))
    end) w.
Proof.
  intros Hidle Hb. unfold processNextBatch. wp_step. apply wp_get, wp_bind. unfold ListUpdatedSince. apply wp_bind.
  eapply wp_mono; [apply wp_conj; [apply (frames_lift_pg (Y := poller))|apply wp_conj; [apply (ticks_wp (pool_Exec _)); unfold pool_Exec, lift_pg; tick_solve|]]|].
  { apply (wp_pool_read _ (λ r w1, prj (X := pg SpotDB) (w_st w1) = prj (w_st w) /\
      (r = Ok (batch w) \/ exists e, r = Err e))).
    - intros now d. unfold sql_updated_since. by case_match.
    - intros r w1 Hp _ [[now ->]|(n & e & -> & _)]; (split; [done|]); [left|right; by eexists].
      unfold sql_updated_since. by rewrite (proj2 (Z.ltb_ge _ 0)) by lia. }
  intros r w1 (Hm1 & [n1 Hn1] & Hp1 & Hr). simpl in Hm1.
  assert (Hi1 : idle w1) by (unfold tx_of in *; by rewrite Hp1).
  assert (Hd1 : db w1 = db w) by (unfold db_of; by rewrite Hp1).
  apply wp_ret. destruct Hr as [->|[e ->]]; simpl; [|apply wp_ret; split; [done|]; split; [done|by left]].
  destruct (batch w) as [|m ms] eqn:Eb.
  { apply wp_ret. split_and!; try done; [rewrite Hd1; apply announced_nil|]. symmetry. apply Z.eqb_neq.
    change (len (@nil Market)) with 0. lia. }
  rewrite <- Eb. apply wp_bind. eapply wp_mono; [apply wp_conj; [apply buildEvents_spec|apply ticks_wp, ticks_buildEvents]|].
  intros [events|e] w2 [[Hs2 Hev] [n2 Hn2]].
  2: { apply wp_ret. rewrite Hs2, Hm1, Hd1. split; [done|]. split; [done|by left]. }
  apply wp_bind. eapply wp_mono; [apply wp_conj; [apply frames_Publish|apply Publish_spec; by rewrite Hs2]|].
  intros [[]|e] w3 (Hm3 & Hi3 & H3); simpl in Hm3; rewrite Hs2, Hm1 in Hm3; rewrite Hs2, Hd1 in H3.
  - unfold set_poller. wp_steps. unfold tx_of, db_of in *. rewrite !(prj_apart (X := poller) (Y := pg SpotDB)). split; [done|]. rewrite Eb in *. split_and!.
    + by eapply published_announced.
    + rewrite prj_upd. unfold mem_after. by rewrite last_cons_default.
    + done.
    + done.
  - apply wp_ret. split; [done|]. split; [done|]. destruct H3 as [H3|[Hna H3]]; [by left|right]. split.
    + rewrite Hn2, Hn1, !answered_ticks in Hna. done.
    + rewrite Eb in *. by eapply published_announced.
Qed.

Lemma updated_markets_ext at_ id d d' :
  sdb_markets d' = sdb_markets d -> updated_markets at_ id d' = updated_markets at_ id d.
Proof. unfold updated_markets. by intros ->. Qed.

(** With the cursor behind a prefix the rest is pending. *)
Lemma pending_after w w' l rest :
  market_rows_ok (db w) -> sdb_markets (db w') = sdb_markets (db w) -> pending w = l ++ rest ->
  mem w' = mem_after l (mem w) -> pending w' = rest.
Proof.
  intros Hok Hm HL Hmem. unfold pending at 1. rewrite Hmem, (updated_markets_ext _ _ _ _ Hm). unfold mem_after.
  destruct (last l) as [m|] eqn:El; [|apply last_None in El as ->; exact HL].
  apply last_Some in El as [l0 ->]. rewrite <- app_assoc in HL. simpl in HL.
  assert (Hin : m ∈ pending w) by (rewrite HL; set_solver).
  apply updated_row in Hin as [_ Ht]; [|done]. simpl. rewrite Ht. by eapply updated_next.
Qed.

Lemma pending_next w w' :
  market_rows_ok (db w) -> announced (batch w) (db w) (db w') -> mem w' = mem_after (batch w) (mem w) ->
  pending w' = drop (Z.to_nat (pc_batchSize cfg)) (pending w).
Proof.
  intros Hok (evs & _ & _ & Hm & _) Hmem. eapply pending_after; [done|done| |done].
  unfold batch. by rewrite take_drop.
Qed.

(** A split of the pending updates: acknowledged, committed without the poller
    knowing, and left for later. *)
Definition poll_outcome (w : world St) (r : option (result unit)) (ids : list UUID) (w' : world St) : Prop :=
  exists acked unacked rest, pending w = acked ++ unacked ++ rest /\
    announced (acked ++ unacked) (db w) (db w') /\ mem w' = mem_after acked (mem w) /\
    ids = mkt_ID <$> acked /\ idle w' /\
    (unacked = [] \/ (~ answered (w_env w) /\ exists e, r = Some (Err e))) /\
    (r = Some (Ok tt) -> unacked ++ rest = []).

Lemma poll_outcome_none w r : idle w -> r <> Some (Ok tt) -> poll_outcome w r [] w.
Proof.
  intros Hi Hr. exists [], [], (pending w). split_and!; try done; [apply announced_nil|by left].
Qed.

Lemma poll_loop_spec fuel ids0 w :
  idle w -> market_rows_ok (db w) -> 0 < pc_batchSize cfg ->
  wp (poll_loop cfg fuel ids0) (λ '(r, ids) w',
    (exists new, ids = ids0 ++ new /\ poll_outcome w r new w') /\
    ((length (pending w) < fuel)%nat -> r <> None)) w.
Proof.
  revert ids0 w. induction fuel as [|fuel IH]; intros ids0 w Hi Hok Hb; simpl.
  { apply wp_ret. split; [|lia]. exists []. rewrite app_nil_r. split; [done|]. by apply poll_outcome_none. }
  wp_steps. set (w0 := World (tick (w_env w)) (w_st w)).
  assert (H0 : forall r ids w', poll_outcome w0 r ids w' -> poll_outcome w r ids w') by done.
  destruct (e_ctx _ _) as [e|].
  { apply wp_ret. split; [|done]. exists []. rewrite app_nil_r. split; [done|]. by apply H0, poll_outcome_none. }
  apply wp_bind. eapply wp_mono; [apply wp_conj; [apply (processNextBatch_spec w0); done|apply ticks_wp, ticks_batch]|].
  intros [[bids more]|e] w1 [[Hi1 H1] [n1 Hn1]].
  2: { apply wp_ret. split; [|done]. exists []. rewrite app_nil_r. split; [done|]. destruct H1 as [Hm1 [Hd1|[Hna Hann]]].
    - exists [], [], (pending w). split_and!; try done; [|by left]. rewrite Hd1. apply announced_nil.
    - exists [], (batch w), (drop (Z.to_nat (pc_batchSize cfg)) (pending w)). unfold batch at 1. simpl.
      rewrite take_drop. split_and!; try done. right. split; [done|by eexists]. }
  destruct H1 as (Hann & Hm1 & -> & ->).
  pose proof (pending_next w0 w1 Hok Hann Hm1) as Hnext.
  change (batch w0) with (batch w) in *. change (pending w0) with (pending w) in *.
  assert (Hsplit : pending w = batch w ++ pending w1) by (rewrite Hnext; unfold batch; by rewrite take_drop).
  assert (Hcons : forall r new w', poll_outcome w1 r new w' -> poll_outcome w r ((mkt_ID <$> batch w) ++ new) w').
  { intros r new w' (l1 & l2 & l3 & HL & Hann2 & Hmem & -> & Hi2 & Hl2 & Hdone).
    exists (batch w ++ l1), l2, l3. rewrite <- !app_assoc, <- HL. split_and!; try done.
    - by eapply announced_app.
    - rewrite mem_after_app. by rewrite Hmem, Hm1.
    - by rewrite fmap_app.
    - destruct Hl2 as [?|[Hna He]]; [by left|right]. split; [|done].
      by rewrite Hn1, answered_ticks in Hna. }
  destruct (Z.eqb_spec (len (batch w)) (pc_batchSize cfg)) as [Hfull|Hpart]; simpl.
  - eapply wp_mono; [apply (IH _ w1); [done| |done]|].
    + destruct Hann as (_ & _ & _ & Hm & _). unfold market_rows_ok. by rewrite Hm.
    + intros [r ids] w2 [(new & -> & Ho) Hfuel]. split; [exists ((mkt_ID <$> batch w) ++ new)|].
      * rewrite app_assoc. split; [done|by apply Hcons].
      * intros Hlen. apply Hfuel. rewrite Hsplit, length_app in Hlen. unfold len in Hfull. lia.
  - apply wp_ret. split; [|done]. exists (mkt_ID <$> batch w). split; [done|].
    rewrite <- (app_nil_r (mkt_ID <$> batch w)). apply Hcons. exists [], [], (pending w1).
    assert (Hempty : pending w1 = []).
    { apply nil_length_inv. rewrite Hnext, length_drop.
      unfold len, batch in Hpart. rewrite length_take in Hpart. lia. }
    rewrite Hempty. split_and!; try done; [apply announced_nil|by left].
Qed.

(** The caches are apart from the tables and the cursor. *)
Lemma frames_spot_read {A} (s : stmt SpotDB A) :
  (forall now d, (s now d).2 = d) -> frames (prj (X := pg SpotDB)) (pool_Exec (St := St) s).
Proof. intros Hs w. apply wp_pool_read; [done|]. by intros. Qed.

Lemma frames_page_pg k limit offset :
  frames (prj (X := pg SpotDB)) (GetMarketsPage (St := St) k limit offset).
Proof.
  assert (H1 : frames (prj (X := pg SpotDB)) (pool_Exec (St := St) sql_any_market)) by by apply frames_spot_read.
  assert (H2 : forall l o, frames (prj (X := pg SpotDB)) (pool_Exec (St := St) (sql_page k l o))).
  { intros. apply frames_spot_read. intros. unfold sql_page. by repeat case_match. }
  unfold GetMarketsPage, loadMarketsPage, emptyPageResult, hasAnyMarkets.
  repeat (frame_step || apply H1 || apply H2).
Qed.

Lemma frames_page_mem k limit offset :
  frames (prj (X := poller)) (GetMarketsPage (St := St) k limit offset).
Proof.
  unfold GetMarketsPage, loadMarketsPage, emptyPageResult, hasAnyMarkets, pool_Exec. frame_solve.
Qed.

Lemma frames_refresh {Y} `{HY : !Has Y St} `{!Apart R Y St} ids :
  (forall k l o, frames (prj (X := Y)) (GetMarketsPage (St := St) k l o)) ->
  frames (prj (X := Y)) (refreshCache (St := St) cfg ids).
Proof.
  intros Hpage.
  assert (Hids : forall ids errs, frames (prj (X := Y)) (invalidate_ids (St := St) ids errs)).
  { intros l. induction l as [|id l IH]; intros errs; simpl; [apply frames_ret|].
    unfold DeleteMarketByID, cache_Delete. repeat (frame_step || apply IH). }
  unfold refreshCache, InvalidateByIDs, RefreshAll, invalidateMarketsCache, DeleteMarkets, SetMarkets,
    cache_Delete, cache_SetWithTTL.
  destruct ids, (pc_cacheRefresher cfg); repeat (apply Hids || apply Hpage || frame_step).
Qed.

Lemma ticks_page k limit offset : ticks (GetMarketsPage (St := St) k limit offset).
Proof.
  unfold GetMarketsPage, loadMarketsPage, emptyPageResult, hasAnyMarkets, pool_Exec, lift_pg. tick_solve.
Qed.

Lemma ticks_refresh ids : ticks (refreshCache (St := St) cfg ids).
Proof.
  assert (Hids : forall ids errs, ticks (invalidate_ids (St := St) ids errs)).
  { intros l. induction l as [|id l IH]; intros errs; simpl; [apply ticks_ret|].
    unfold DeleteMarketByID, cache_Delete, redis_call. repeat (tick_step || apply IH). }
  unfold refreshCache, InvalidateByIDs, RefreshAll, invalidateMarketsCache, DeleteMarkets, SetMarkets,
    cache_Delete, cache_SetWithTTL, redis_call.
  destruct ids, (pc_cacheRefresher cfg); repeat (apply Hids || apply ticks_page || tick_step).
Qed.

Lemma ticks_poll_loop fuel ids : ticks (poll_loop (St := St) cfg fuel ids).
Proof.
  revert ids. induction fuel as [|fuel IH]; intros ids; simpl; unfold ctx_Err;
    repeat (tick_step || apply ticks_batch || apply IH).
Qed.

(** What a poll has committed when it returns. *)
Definition poll_committed (w : world St) (r : option (result unit)) (w' : world St) : Prop :=
  exists acked unacked rest, pending w = acked ++ unacked ++ rest /\
    announced (acked ++ unacked) (db w) (db w') /\ mem w' = mem_after acked (mem w) /\ idle w' /\
    (unacked = [] \/ (~ answered (w_env w) /\ exists e, r = Some (Err e))) /\
    (r = Some (Ok tt) -> unacked ++ rest = []).

Lemma poll_spec fuel w :
  idle w -> market_rows_ok (db w) -> 0 < pc_batchSize cfg ->
  wp (poll cfg fuel) (λ r w', (poll_committed w r w' /\ ((length (pending w) < fuel)%nat -> r <> None)) /\
    exists n, w_env w' = Nat.iter n tick (w_env w)) w.
Proof.
  intros Hi Hok Hb. apply wp_conj.
  2: { apply ticks_wp. unfold poll. repeat (tick_step || apply ticks_poll_loop || apply ticks_refresh). }
  unfold poll. apply wp_bind. eapply wp_mono; [by apply poll_loop_spec|].
  intros [r ids] w1 [(new & -> & l1 & l2 & l3 & HL & Hann & Hmem & -> & Hi1 & Hl2 & Hdone) Hfuel].
  destruct r as [r|]; [|apply wp_ret; split; [|done]; by exists l1, l2, l3].
  apply wp_bind.
  eapply wp_mono; [apply wp_conj; [apply (frames_refresh (Y := poller)), frames_page_mem|
    apply (frames_refresh (Y := pg SpotDB)), frames_page_pg]|].
  intros _ w2 [Hm2 Hp2]. simpl in Hm2, Hp2. apply wp_ret. split; [|done]. exists l1, l2, l3.
  unfold db_of, tx_of in *. rewrite Hm2, Hp2. done.
Qed.

(** C11 A poll announces a prefix of the pending updates, atomically with the
    cursor.  In every environment, a poll that has finished or failed has
    committed one new pending event per market, in (updated_at, id) order, for a
    prefix of the updates behind its cursor, and the stored cursor stands behind
    the last of them; no transaction stays open.  The cursor in memory is the
    stored one unless the reply to a COMMIT was lost and the poll reported the
    error; a poll that returns nil has announced everything.  With more fuel
    than pending updates a poll terminates. *)
Theorem poll_announces_prefix fuel w :
  idle w -> market_rows_ok (db w) -> 0 < pc_batchSize cfg ->
  wp (poll cfg fuel) (λ r w', poll_committed w r w' /\
    ((length (pending w) < fuel)%nat -> r <> None)) w.
Proof. intros. eapply wp_mono; [by apply poll_spec|]. by intros r w' [? _]. Qed.

(** *** The supervised service *)

(** The cursor Init loads. *)
Definition stored_position (d : SpotDB) : poller :=
  match sdb_cursors d !! marketStateChangedPollerName with
  | Some c => {| pl_lastSeenAt := pc_LastSeenAt c; pl_lastSeenID := pc_LastSeenID c |}
  | None => {| pl_lastSeenAt := zero_time; pl_lastSeenID := uuid_Nil |}
  end.

Definition pending_at_start (d : SpotDB) : list Market :=
  updated_markets (pg_time (pl_lastSeenAt (stored_position d))) (pl_lastSeenID (stored_position d)) d.

(** The outbox has an event with the state of the market. *)
Definition is_announced (d : SpotDB) (m : Market) : Prop :=
  exists ev, sdb_outbox d !! oe_ID ev = Some ev /\ announces m ev.

(** pgx reports a lost connection or a timeout with other errors. *)
Definition no_rows_is_an_answer (e : env) : Prop :=
  forall n x, e_fault e n = FBefore x \/ e_fault e n = FAfter x -> is_sent PgxErrNoRows x = false.

Lemma Init_spec w :
  no_rows_is_an_answer (w_env w) -> idle w ->
  wp (Init (St := St) false) (λ r w', db w' = db w /\ idle w' /\
    (exists n, w_env w' = Nat.iter n tick (w_env w)) /\
    match r with Ok _ => mem w' = stored_position (db w) | Err _ => True end) w.
Proof.
  intros Hrows Hi. unfold Init, loadCursor, cursor_Get. apply wp_bind, wp_bind, wp_bind, wp_pool_read; [done|].
  intros r w1 Hp He Hr.
  assert (Hset : forall p, db (World (w_env w1) (upd (p : poller) (w_st w1))) = db w /\
    idle (World (w_env w1) (upd p (w_st w1)))).
  { intros p. unfold db_of, tx_of in *. simpl. by rewrite !(prj_apart (X := poller) (Y := pg SpotDB)), Hp. }
  assert (Hticks : exists n, w_env w1 = Nat.iter n tick (w_env w)) by by exists 1%nat.
  assert (Hsame : db w1 = db w /\ idle w1) by (unfold db_of, tx_of in *; by rewrite Hp).
  unfold set_poller, stored_position. destruct Hr as [[now ->]|(n & e & -> & Hf)].
  - unfold sql_get_cursor. simpl. destruct (sdb_cursors (db w) !! _) as [c|]; wp_steps; rewrite prj_upd;
      (split_and!; [apply Hset|apply Hset|done|done]).
  - specialize (Hrows n e Hf). rewrite Hrows. wp_steps.
    change (is_sent PgxErrNoRows (wrap "CursorStore.Get" e)) with (errors_Is (wrap "CursorStore.Get" e) (ESentinel PgxErrNoRows)).
    rewrite errors_Is_wrap. fold (is_sent PgxErrNoRows e). rewrite Hrows. wp_steps.
    split_and!; [apply Hsame|apply Hsame|done|done].
Qed.

Lemma announced_is l d d' m : announced l d d' -> m ∈ l -> is_announced d' m.
Proof.
  intros (evs & Hadd & Hall & _) Hm. apply list_elem_of_lookup in Hm as [i Hi].
  destruct (Forall2_lookup_l _ _ _ _ _ Hall Hi) as (ev & Hev & Ha). exists ev. split; [|done].
  eapply rows_added_new; [done|]. by eapply list_elem_of_lookup_2.
Qed.

Lemma announced_keeps l d d' m : announced l d d' -> is_announced d m -> is_announced d' m.
Proof. intros (evs & Hadd & _) (ev & Hev & Ha). exists ev. split; [|done]. by eapply rows_added_lookup. Qed.

(** Between polls: a prefix of what was pending at the start is behind the
    cursor in memory, a longer one is announced and behind the stored cursor;
    when every COMMIT is answered they are the same and nothing is announced
    twice. *)
Record service_inv (e0 : env) (d0 : SpotDB) (w : world St) : Prop := {
  si_env : exists n, w_env w = Nat.iter n tick e0;
  si_idle : idle w;
  si_markets : sdb_markets (db w) = sdb_markets d0;
  si_split : exists l1 l2 l3, pending_at_start d0 = l1 ++ l2 ++ l3 /\ pending w = l2 ++ l3 /\
    (forall m, m ∈ l1 ++ l2 -> is_announced (db w) m) /\
    sdb_cursors (db w) = match last (l1 ++ l2) with
                         | None => sdb_cursors d0
                         | Some m => <[marketStateChangedPollerName := cursor_at m]> (sdb_cursors d0)
                         end /\
    (answered e0 -> l2 = [] /\ announced l1 d0 (db w))
}.

Lemma service_inv_poll fuel e0 d0 w :
  market_rows_ok d0 -> 0 < pc_batchSize cfg -> service_inv e0 d0 w ->
  wp (poll cfg fuel) (λ _ w', service_inv e0 d0 w') w.
Proof.
  intros Hok0 Hb [[n0 Hn0] Hi Hm (l1 & l2 & l3 & HL & Hpend & Hall & Hcur & Hans)].
  assert (Hok : market_rows_ok (db w)) by (unfold market_rows_ok; by rewrite Hm).
  eapply wp_mono; [by apply poll_spec|].
  intros r w' [[(a & u & rest & Hsplit & Hann & Hmem & Hi' & Hu & _) _] [n Hn]].
  pose proof Hann as (evs & _ & _ & Hm' & Hc').
  split; [exists (n + n0)%nat; by rewrite Hn, Hn0, Nat.iter_add|done|congruence|].
  assert (Hpend' : pending w' = u ++ rest) by by eapply pending_after.
  rewrite Hpend in Hsplit.
  assert (Hna : answered e0 -> u = []).
  { intros Ha. destruct Hu as [->|[Hna _]]; [done|]. by rewrite Hn0, answered_ticks in Hna. }
  destruct (decide (a ++ u = [])) as [Hnil|Hne].
  - apply app_nil in Hnil as [-> ->]. simpl in *. exists l1, l2, l3. rewrite Hpend', <- Hsplit.
    split_and!; [done|done| |by rewrite Hc'|].
    + intros m Hin. eapply announced_keeps; [done|by apply Hall].
    + intros Ha. destruct (Hans Ha) as [-> Ha1]. split; [done|].
      rewrite <- (app_nil_r l1). by eapply announced_app.
  - exists (l1 ++ a), u, rest. rewrite <- !app_assoc.
    split_and!; [by rewrite HL, Hsplit|done| | |].
    + intros m Hin. apply elem_of_app in Hin as [Hin|Hin]; [|by eapply announced_is].
      eapply announced_keeps; [done|]. apply Hall. set_solver.
    + rewrite Hc', (last_app l1 (a ++ u)). destruct (last (a ++ u)) as [m|] eqn:El; [|by apply last_None in El].
      rewrite Hcur. destruct (last (l1 ++ l2)); [|done]. by rewrite insert_insert_eq.
    + intros Ha. rewrite (Hna Ha) in *. rewrite app_nil_r in *. split; [done|].
      destruct (Hans Ha) as [_ Ha1]. by eapply announced_app.
Qed.

Lemma service_inv_tick e0 d0 w : service_inv e0 d0 w -> service_inv e0 d0 (World (tick (w_env w)) (w_st w)).
Proof.
  intros [[n Hn] Hi Hm Hs]. split; [|done|done|exact Hs]. exists (S n). simpl. by rewrite Hn.
Qed.

Lemma service_inv_Run fuel what polls e0 d0 w :
  market_rows_ok d0 -> 0 < pc_batchSize cfg -> service_inv e0 d0 w ->
  wp (Run_loop cfg fuel what polls) (λ _ w', service_inv e0 d0 w') w.
Proof.
  intros Hok Hb. revert what w. induction polls as [|polls IH]; intros what w Hinv; simpl; [by apply wp_ret|].
  apply wp_bind. eapply wp_mono; [by apply service_inv_poll|]. intros [[[]|e]|] w1 H1.
  - by apply IH.
  - wp_steps. by apply service_inv_tick.
  - by apply wp_ret.
Qed.

Lemma service_inv_restart fuel runs e0 d0 w :
  market_rows_ok d0 -> 0 < pc_batchSize cfg -> service_inv e0 d0 w ->
  wp (restart_loop cfg fuel runs) (λ _ w', service_inv e0 d0 w') w.
Proof.
  intros Hok Hb. revert w. induction runs as [|ticks runs IH]; intros w Hinv; [by apply wp_ret|].
  cbn [restart_loop]. apply wp_bind. unfold Run. eapply wp_mono; [by apply service_inv_Run|].
  intros [[[]|e]|] w1 H1; [by apply wp_ret| |by apply wp_ret].
  wp_steps. destruct (e_ctx _ _); [by apply wp_ret, service_inv_tick|by apply IH, service_inv_tick].
Qed.

(** Behind the stored cursor. *)
Definition passed (d : SpotDB) (m : Market) : Prop :=
  match sdb_cursors d !! marketStateChangedPollerName with
  | Some c => after_cursor (pc_LastSeenAt c) (pc_LastSeenID c) m = false
  | None => False
  end.

Definition cursor_rows_ok (d : SpotDB) : Prop :=
  map_Forall (λ _ c, pg_time (pc_LastSeenAt c) = pc_LastSeenAt c) (sdb_cursors d).

(** C10 The poller never skips an update.  In every environment, through any
    number of polls and restarts after errors, each market that was pending when
    the service started and that the stored cursor has passed has an outbox
    event with its state; when no reply to a COMMIT is lost, the events added
    are exactly one for each market of a prefix of the pending updates and the
    stored cursor stands behind that prefix. *)
Theorem poller_never_skips fuel runs w :
  no_rows_is_an_answer (w_env w) -> idle w -> market_rows_ok (db w) -> cursor_rows_ok (db w) ->
  0 < pc_batchSize cfg ->
  wp (poller_service cfg fuel runs) (λ _ w',
    (forall m, m ∈ pending_at_start (db w) -> passed (db w') m -> is_announced (db w') m) /\
    (answered (w_env w) -> exists l rest, pending_at_start (db w) = l ++ rest /\ announced l (db w) (db w'))) w.
Proof.
  intros Hrows Hi Hok Hcok Hb.
  assert (Hend : forall w', service_inv (w_env w) (db w) w' ->
    (forall m, m ∈ pending_at_start (db w) -> passed (db w') m -> is_announced (db w') m) /\
    (answered (w_env w) -> exists l rest, pending_at_start (db w) = l ++ rest /\ announced l (db w) (db w'))).
  { intros w' [_ _ Hm (l1 & l2 & l3 & HL & Hpend & Hall & Hcur & Hans)]. split.
    2: { intros Ha. destruct (Hans Ha) as [-> Ha1]. by exists l1, l3. }
    intros m Hin Hpass. apply Hall. rewrite HL, app_assoc in Hin. apply elem_of_app in Hin as [Hin|Hin]; [done|].
    exfalso. unfold passed in Hpass. rewrite Hcur in Hpass.
    pose proof (updated_strict (pg_time (pl_lastSeenAt (stored_position (db w)))) (pl_lastSeenID (stored_position (db w)))
      (db w) Hok) as Hs. fold (pending_at_start (db w)) in Hs. rewrite HL, app_assoc in Hs.
    destruct (last (l1 ++ l2)) as [x|] eqn:El.
    - rewrite lookup_insert_eq in Hpass. simpl in Hpass. apply last_Some in El as [l0 El].
      assert (Hx : x ∈ pending_at_start (db w)) by (rewrite HL, app_assoc, El; set_solver).
      apply updated_row in Hx as [_ Hx]; [|done]. rewrite Hx in Hpass.
      apply StronglySorted_app in Hs as (Hs & _). specialize (Hs x m). unfold before in Hs.
      rewrite Hs in Hpass; [done|rewrite El; set_solver|done].
    - assert (Hin0 : m ∈ pending_at_start (db w)) by (rewrite HL, app_assoc; set_solver).
      unfold pending_at_start, stored_position in Hin0.
      destruct (sdb_cursors (db w) !! _) as [c|] eqn:Ec; [|done].
      apply elem_of_updated in Hin0 as [Ha _]. simpl in Ha. rewrite (Hcok _ _ Ec) in Ha. congruence. }
  unfold poller_service. apply wp_bind. eapply wp_mono; [by apply Init_spec|].
  intros r w1 (Hd1 & Hi1 & [n1 Hn1] & Hr). destruct r as [[]|e].
  2: { apply wp_ret. rewrite Hd1. split; [|intros _; exists [], (pending_at_start (db w)); split; [done|apply announced_nil]].
       intros m Hin Hpass. exfalso. apply elem_of_updated in Hin as [Ha _]. unfold passed, stored_position in *.
       destruct (sdb_cursors (db w) !! _) as [c|] eqn:Ec; [|done]. simpl in Ha. rewrite (Hcok _ _ Ec) in Ha. congruence. }
  apply wp_bind. enough (Hloop : forall w2, service_inv (w_env w) (db w) w2 ->
    wp (restart_loop cfg fuel runs) (λ _ w', service_inv (w_env w) (db w) w') w2).
  { eapply wp_mono; [apply Hloop|].
    - split; [by exists n1|done|by rewrite Hd1|]. exists [], [], (pending_at_start (db w)).
      split_and!; [done| |set_solver|by rewrite Hd1|].
      + unfold pending, pending_at_start. by rewrite Hr, Hd1.
      + intros _. split; [done|]. rewrite Hd1. apply announced_nil.
    - intros ? w2 H2. by apply wp_ret, Hend. }
  intros w2 H2. by apply service_inv_restart.
Qed.
End Polling.

(** ** A poll in which nothing fails *)

Section Live.
Context {St R : Type} `{HRd : Redis R} `{!RedisLaws R} `{HR : !Has R St} `{PT : PgTypes} `{C : Collation}
  `{U : GoLib} `{!UuidLaws U} `{MJ : MarketJson} `{!MarketJsonLaws MJ} `{TT : PbTime} `{PB : !ProtoCodec}
  `{HD : !Has (pg SpotDB) St} `{HP : !Has poller St}
  `{HA1 : !Apart (pg SpotDB) poller St} `{HA2 : !Apart poller (pg SpotDB) St}
  `{HA3 : !Apart R poller St} `{HA4 : !Apart R (pg SpotDB) St} `{HA5 : !Apart (pg SpotDB) R St}.
Variable cfg : poller_config.

(** proto.Marshal accepts every event. *)
Definition marshal_total : Prop := forall event, exists payload, Marshal event = Ok payload.

Notation db w := (db_of (D := SpotDB) (w_st w)).
Notation idle w := (@tx_of _ SpotDB HD (w_st w) = TxNone).

Lemma buildEvents_ok ms (w : world St) :
  no_faults (w_env w) ->
  wp (buildMarketStateChangedEvents ms) (λ r w', exists events ns, r = Ok events /\
    mse_EventID <$> events = e_uuid (w_env w) <$> ns /\ NoDup ns /\
    (forall n, n ∈ ns -> (e_tick (w_env w) <= n < e_tick (w_env w'))%nat) /\
    length events = length ms) w.
Proof.
  revert w. induction ms as [|m ms IH]; intros w Hnf; simpl.
  { apply wp_ret. exists [], []. split_and!; try done; [constructor|set_solver]. }
  wp_steps. destruct Hnf as [Hf Hc]. rewrite Hc. wp_steps.
  eapply wp_mono; [apply wp_conj; [by apply IH|apply ticks_wp, ticks_buildEvents]|].
  intros r w' [(events & ns & -> & Heq & Hnd & Hns & Hlen) [k Hk]]. apply wp_ret. simpl in *.
  pose proof (iter_tick_clocks k (tick (tick (w_env w)))) as (_ & _ & _ & Ht). rewrite <- Hk in Ht. simpl in Ht.
  eexists (_ :: events), (S (e_tick (w_env w)) :: ns). split_and!; [done| | | |].
  - rewrite !fmap_cons. simpl. by rewrite Heq.
  - constructor; [|done]. intros Hin. specialize (Hns _ Hin). lia.
  - intros n [->|Hin]%elem_of_cons; [lia|]. specialize (Hns _ Hin). lia.
  - simpl. by rewrite Hlen.
Qed.

Lemma saveEvents_ok events ns d0 now d w :
  marshal_total -> no_faults (w_env w) -> prj (w_st w) = Pg d0 (TxOpen now d) ->
  mse_EventID <$> events = e_uuid (w_env w) <$> ns -> NoDup ns ->
  (forall n, n ∈ ns -> (n < e_tick (w_env w))%nat) ->
  fresh_on (λ n, n ∈ ns \/ (e_tick (w_env w) <= n)%nat) (e_uuid (w_env w)) (sdb_outbox d) ->
  wp (saveEvents events) (λ r w', r = None /\ exists t k, prj (w_st w') = Pg d0 (TxOpen now (set_outbox t d)) /\
    w_env w' = Nat.iter k tick (w_env w) /\ fresh_ids (w_env w') t) w.
Proof.
  intros Hmar. revert ns d w. unfold saveEvents.
  induction events as [|event events IH]; intros ns d w Hnf Hp Hids Hnd Hns Hfr; simpl.
  { apply wp_ret. split; [done|]. exists (sdb_outbox d), 0%nat. split_and!; [rewrite Hp; by destruct d|done|].
    eapply fresh_on_mono; [|exact Hfr]. intros n Hn. by right. }
  destruct ns as [|n0 ns]; [done|]. rewrite !fmap_cons in Hids. injection Hids as Hev Hids.
  apply NoDup_cons in Hnd as [Hn0 Hnd]. apply wp_bind, wp_bind. unfold buildOutboxEvent.
  destruct (Hmar event) as [payload ->]. wp_steps. set (k := e_tick (w_env w)) in *. set (u := e_uuid (w_env w)) in *.
  unfold SpotWorker.SaveOutboxEvent. apply wp_bind.
  set (ev := new_outbox_event (u k) (mse_EventID event) MarketStateChangedEventType (mse_MarketID event) payload).
  pose proof Hfr as [Hinj Hnew].
  destruct (sql_insert_fresh ev now (sdb_outbox d)) as [t1 Ht1].
  { destruct (sdb_outbox d !! oe_ID ev) as [e|] eqn:E; [|done]. exfalso.
    by destruct (Hnew k _ e (or_intror (le_n _)) E). }
  { intros id e He. simpl. rewrite Hev. apply (Hnew n0 id e); [left; set_solver|done]. }
  pose proof (insert_event_Ok _ _ _ _ Ht1) as (stored & -> & _ & _ & _ & _ & _ & _ & _ & _ & Hst).
  eapply wp_tx_Exec_ok; [done|done|unfold on_outbox; simpl; by rewrite Ht1|]. intros w1 He1 Hw1. wp_steps.
  eapply wp_mono; [apply (IH ns (set_outbox (<[oe_ID ev := stored]> (sdb_outbox d)) d) w1)|].
  - by rewrite He1.
  - done.
  - by rewrite He1.
  - done.
  - rewrite He1. simpl. fold k. intros n Hn. specialize (Hns n ltac:(set_solver)). lia.
  - rewrite He1. simpl. fold k u. eapply fresh_on_mono;
      [|apply (fresh_on_insert _ u _ k n0 stored Hfr); [by right|left; set_solver|by rewrite Hst]].
    intros n Hn. simpl. destruct Hn as [Hn|Hn].
    + assert (n < k)%nat by (apply Hns; set_solver). split_and!; [left; set_solver|lia|]. by intros ->.
    + split_and!; [right; lia|lia|]. assert (n0 < k)%nat by (apply Hns; set_solver). lia.
  - intros r w2 (-> & t & j & Hw2 & Hj & Hfr2). split; [done|]. exists t, (j + 2)%nat. split_and!; [done| |done].
    rewrite Hj, He1, Nat.iter_add. done.
Qed.

Lemma Publish_ok events ns cursor w :
  marshal_total -> no_faults (w_env w) -> idle w -> events <> [] ->
  mse_EventID <$> events = e_uuid (w_env w) <$> ns -> NoDup ns ->
  (forall n, n ∈ ns -> (n < e_tick (w_env w))%nat) ->
  fresh_on (λ n, n ∈ ns \/ (e_tick (w_env w) <= n)%nat) (e_uuid (w_env w)) (sdb_outbox (db w)) ->
  wp (PublishMarketStateChanged events cursor) (λ r w', r = Ok tt /\ fresh_ids (w_env w') (sdb_outbox (db w'))) w.
Proof.
  intros Hmar Hnf Hi Hne Hids Hnd Hns Hfr.
  assert (Hp : prj (w_st w) = Pg (db w) TxNone).
  { unfold db_of, tx_of in *. destruct (prj (w_st w)). simpl in *. by subst. }
  unfold PublishMarketStateChanged. destruct events as [|event events]; [done|].
  unfold SpotWorker.BeginTransaction. apply wp_bind, wp_bind. eapply wp_tx_Begin_ok; [done|done|].
  intros now w1 He1 Hw1. apply wp_ret. simpl. unfold with_rollback. apply wp_bind, wp_bind.
  eapply wp_mono; [apply (saveEvents_ok _ ns (db w) now (db w)); try rewrite He1; try done|].
  { simpl. intros n Hn. specialize (Hns n Hn). lia. }
  { eapply fresh_on_mono; [|exact Hfr]. simpl. intros n [?|?]; [by left|right; lia]. }
  intros r w2 (-> & t & k & Hw2 & Hk & Hfr2). unfold SaveCursorTransaction, commitTransaction.
  assert (Hnf2 : no_faults (w_env w2)) by (rewrite Hk, He1; by apply no_faults_ticks).
  apply wp_bind, wp_bind. eapply wp_tx_Exec_ok; [done|done|done|]. intros w3 He3 Hw3. wp_steps.
  eapply wp_tx_Commit_ok; [by rewrite He3|done|]. intros w4 He4 Hw4. wp_steps. split; [done|].
  unfold db_of. rewrite Hw4, He4, He3. simpl. apply (fresh_ids_later 2). done.
Qed.

Lemma processNextBatch_ok w :
  marshal_total -> no_faults (w_env w) -> idle w -> 0 < pc_batchSize cfg ->
  fresh_ids (w_env w) (sdb_outbox (db w)) ->
  wp (processNextBatch cfg) (λ r w', (exists v, r = Ok v) /\ fresh_ids (w_env w') (sdb_outbox (db w'))) w.
Proof.
  intros Hmar Hnf Hi Hb Hfr. unfold processNextBatch. wp_step. apply wp_get, wp_bind.
  unfold ListUpdatedSince. apply wp_bind, wp_pool_read.
  { intros now d. unfold sql_updated_since. by case_match. }
  intros r w1 Hp1 He1 Hr. assert (Hd1 : db w1 = db w) by (unfold db_of; by rewrite Hp1).
  assert (Hfr1 : fresh_ids (w_env w1) (sdb_outbox (db w1))) by (rewrite He1, Hd1; by apply (fresh_ids_later 1)).
  assert (Hnf1 : no_faults (w_env w1)) by by rewrite He1.
  destruct Hr as [[now ->]|(n & e & -> & Hf)]; [|destruct Hnf as [Hnf _]; rewrite Hnf in Hf; by destruct Hf].
  apply wp_ret. unfold sql_updated_since. rewrite (proj2 (Z.ltb_ge _ 0)) by lia. simpl.
  destruct (take _ _) as [|m ms]; [apply wp_ret; split; [by eexists|done]|].
  apply wp_bind. eapply wp_mono; [apply wp_conj; [by apply buildEvents_ok|
    apply wp_conj; [apply buildEvents_spec|apply ticks_wp, ticks_buildEvents]]|].
  intros r w2 [(events & ns & -> & Hids & Hnd & Hns & Hlen) [[Hs2 _] [k2 Hk2]]].
  assert (He2 : e_uuid (w_env w2) = e_uuid (w_env w1)) by (rewrite Hk2; by apply iter_tick_clocks).
  apply wp_bind. eapply wp_mono; [apply wp_conj; [apply (Publish_ok _ ns); try done|apply ticks_wp, ticks_Publish]|].
  - rewrite Hk2. by apply no_faults_ticks.
  - rewrite Hs2. unfold tx_of. by rewrite Hp1.
  - intros ->. done.
  - by rewrite He2.
  - intros n Hn. specialize (Hns n Hn). lia.
  - rewrite He2, Hs2. eapply fresh_on_mono; [|exact Hfr1]. simpl. intros n [Hn|Hn].
    + specialize (Hns n Hn). lia.
    + pose proof (iter_tick_clocks k2 (w_env w1)) as (_ & _ & _ & Ht). rewrite <- Hk2 in Ht. lia.
  - intros r w3 [[-> Hfr3] _]. unfold set_poller. wp_steps. split; [by eexists|].
    unfold db_of in *. by rewrite (prj_apart (X := poller) (Y := pg SpotDB)).
Qed.

Lemma poll_loop_ok fuel ids w :
  marshal_total -> no_faults (w_env w) -> idle w -> market_rows_ok (db w) -> 0 < pc_batchSize cfg ->
  fresh_ids (w_env w) (sdb_outbox (db w)) ->
  wp (poll_loop cfg fuel ids) (λ '(r, _) _, forall e, r <> Some (Err e)) w.
Proof.
  intros Hmar. revert ids w. induction fuel as [|fuel IH]; intros ids w Hnf Hi Hok Hb Hfr; simpl; [by apply wp_ret|].
  wp_steps. pose proof Hnf as [_ Hc]. rewrite Hc. set (w0 := World (tick (w_env w)) (w_st w)).
  apply wp_bind. eapply wp_mono; [apply wp_conj; [apply (processNextBatch_ok w0); try done|
    apply wp_conj; [apply (processNextBatch_spec cfg w0); done|apply ticks_wp, ticks_batch]]|].
  { by apply (fresh_ids_later 1). }
  intros r w1 [[[[bids more] ->] Hfr1] [[Hi1 (Hann & _)] [k Hk]]]. destruct more; simpl; [|by apply wp_ret].
  apply IH; try done.
  - rewrite Hk. by apply no_faults_ticks.
  - destruct Hann as (_ & _ & _ & Hm & _). unfold market_rows_ok. by rewrite Hm.
Qed.

(** What a complete poll assumes of its surroundings. *)
Record poll_ready (viewer : viewer_config) (fuel : nat) (w : world St) : Prop := {
  pr_calm : calm (w_env w);
  pr_idle : idle w;
  pr_rows : market_rows_ok (db w) /\ rows_ok (db w);
  pr_config : 0 < pc_batchSize cfg /\ pc_cacheRefresher cfg = Some viewer /\ sane_cfg viewer;
  pr_fresh : fresh_ids (w_env w) (sdb_outbox (db w));
  pr_fuel : (length (pending w) < fuel)%nat
}.

(** C36 A poll in which nothing fails announces every pending update and leaves
    no stale cache.  It returns nil after announcing all of them in order with
    the cursor behind the last; when there was one, every role's cached head
    page and the cached entry of each announced market is then missing, corrupt
    or current, whatever Redis held before. *)
Theorem poll_complete viewer fuel w :
  marshal_total -> poll_ready viewer fuel w ->
  wp (poll cfg fuel) (λ r w', r = Some (Ok tt) /\ announced (pending w) (db w) (db w') /\
    (pending w <> [] -> (forall k, is_roleKey k -> head_coherent viewer k w') /\
       forall m, m ∈ pending w -> id_coherent (mkt_ID m) w')) w.
Proof.
  intros Hmar [Hcalm Hi [Hok Hrows] (Hb & Hcfg & Hsane) Hfr Hfuel]. unfold poll. apply wp_bind.
  eapply wp_mono; [apply wp_conj; [by apply (poll_loop_spec cfg fuel [])|
    apply wp_conj; [apply poll_loop_ok; try done; apply Hcalm|apply ticks_wp, ticks_poll_loop]]|].
  intros [r ids] w1 [[(new & -> & l1 & l2 & l3 & HL & Hann & Hmem & -> & Hi1 & _ & Hdone) Hnone] [Herr [k Hk]]].
  destruct r as [[[]|e]|]; [|by destruct (Herr e)|by destruct (Hnone Hfuel)].
  specialize (Hdone eq_refl). apply app_nil in Hdone as [-> ->]. rewrite !app_nil_r in *. subst l1.
  pose proof Hann as (_ & _ & _ & Hm & _). simpl.
  assert (Hcalm1 : calm (w_env w1)).
  { destruct Hcalm as [Hnf Hmono]. split; [rewrite Hk; by apply no_faults_ticks|].
    rewrite Hk. by destruct (iter_tick_clocks k (w_env w)) as (-> & _). }
  apply wp_bind. unfold refreshCache. rewrite Hcfg. destruct (pending w) as [|m ms] eqn:Ep.
  { apply wp_ret, wp_ret. by split_and!. }
  rewrite fmap_cons. cbn [fmap]. rewrite <- fmap_cons, <- Ep in *. apply wp_bind, InvalidateByIDs_spec; [done|].
  intros w2 Hn2 Hk2 Hgone. pose proof (next_sdb _ _ Hn2) as Hs2.
  apply wp_bind, (RefreshAll_spec viewer); [apply Hn2|done| |].
  { unfold rows_ok, sdb in *. by rewrite Hs2, Hm. }
  intros w3 (Hn3 & Hheads & Hk3). pose proof (next_sdb _ _ Hn3) as Hs3. apply wp_ret, wp_ret.
  split; [done|]. unfold sdb in Hs2, Hs3. rewrite Hs3, Hs2. split; [done|]. intros _. split.
  - intros key Hkey. apply Hheads. unfold cacheRoleKeys. destruct Hkey as [-> | [-> | ->]]; set_solver.
  - intros x Hx. apply Hk3, Hgone. apply list_elem_of_fmap. by exists x.
Qed.
End Live.

(** ** Closed instances *)

Section Witness.
#[local] Existing Instance MemRedis.mem_redis.
#[local] Existing Instance MemRedis.mem_redis_laws.
#[local] Existing Instance DecLib.
#[local] Existing Instance DecLib_laws.
#[local] Existing Instance MicroPg.
#[local] Existing Instance TextJson.
#[local] Existing Instance TextJson_laws.
#[local] Existing Instance CodeOrder.
#[local] Existing Instance IdTime.
#[local] Existing Instance TextProto.
Notation mem := (gmap string (string * option Z)).

(** The shop of MarketView with a poller that has seen nothing. *)
Definition fresh_poller : poller := {| pl_lastSeenAt := zero_time; pl_lastSeenID := uuid_Nil |}.

Definition poller_world : world (mem * (pg SpotDB * poller)) :=
  World quiet_env ({[ cacheByIDKey 3%N := ("junk", None) ]}, (Pg shop_db TxNone, fresh_poller)).

Definition demo_poller : poller_config := {| pc_batchSize := 2; pc_cacheRefresher := Some shop_config |}.

Lemma shop_market_rows : market_rows_ok shop_db.
Proof.
  intros id m. unfold shop_db; simpl. rewrite !lookup_insert_Some, lookup_singleton_Some.
  intros [[<- <-]|[_ [[<- <-]|[_ [<- <-]]]]]; by split.
Qed.

Lemma poll_announces_prefix_witness :
  wp (poll demo_poller 4) (λ r w', poll_committed poller_world r w' /\
    ((length (pending poller_world) < 4)%nat -> r <> None)) poller_world.
Proof.
  apply (poll_announces_prefix demo_poller 4 poller_world).
  - reflexivity.
  - exact shop_market_rows.
  - reflexivity.
Defined.

Lemma poller_never_skips_witness :
  wp (poller_service demo_poller 4 [1%nat; 2%nat]) (λ _ w',
    (forall m, m ∈ pending_at_start (db_of (D := SpotDB) (w_st poller_world)) -> passed (db_of (D := SpotDB) (w_st w')) m -> is_announced (db_of (D := SpotDB) (w_st w')) m) /\
    (answered (w_env poller_world) -> exists l rest, pending_at_start (db_of (D := SpotDB) (w_st poller_world)) = l ++ rest /\
       announced l (db_of (D := SpotDB) (w_st poller_world)) (db_of (D := SpotDB) (w_st w')))) poller_world.
Proof.
  apply (poller_never_skips demo_poller 4 [1%nat; 2%nat] poller_world).
  - intros n x [Hx|Hx]; discriminate Hx.
  - reflexivity.
  - exact shop_market_rows.
  - exact (map_Forall_empty _).
  - reflexivity.
Defined.

Lemma demo_marshal_total : marshal_total.
Proof. intros event. by eexists. Qed.

Lemma poller_ready : poll_ready demo_poller shop_config 4 poller_world.
Proof.
  split.
  - exact shop_calm.
  - reflexivity.
  - split; [exact shop_market_rows|exact shop_rows].
  - split; [reflexivity|]. split; [reflexivity|]. vm_compute. by intuition.
  - split; [intros n m _ _; simpl; lia|]. intros n id ev _ Hev. discriminate Hev.
  - vm_compute. lia.
Qed.

Lemma poll_complete_witness :
  wp (poll demo_poller 4) (λ r w', r = Some (Ok tt) /\
    announced (pending poller_world) (db_of (w_st poller_world)) (db_of (w_st w')) /\
    (pending poller_world <> [] -> (forall k, is_roleKey k -> head_coherent shop_config k w') /\
       forall m, m ∈ pending poller_world -> id_coherent (mkt_ID m) w')) poller_world.
Proof. exact (poll_complete demo_poller shop_config 4 poller_world demo_marshal_total poller_ready). Defined.

(** The poll of the shop, run: three events in two batches, then nothing. *)
Example shop_polled :
  (poll demo_poller 4 poller_world).1 = Some (Ok tt) /\
  (length (map_to_list (sdb_outbox (db_of (w_st (poll demo_poller 4 poller_world).2)))) = 3)%nat.
Proof. by vm_compute. Qed.
End Witness.
