(* ===== verification/Config.v ===== *)
(** * Configuration
      (shared/config, orderService/config/load.go, spotService/config/load.go)

    The configuration records and their validators, which return the first
    violated rule.  The values read from the file and the environment are
    inputs of [OrderLoad] and [SpotLoad]; the file format and the environment
    are not modelled.  The components' own settings are projections of a
    configuration, and a validated one satisfies what their theorems ask
    for. *)

From S2P Require Import Prelude GoStrings GoErrors Effects Kafka KafkaConsumer RateLimit Outbox OrderService Auth SpotDb MarketView MarketPoller.
From Stdlib Require Import SpecFloat.
Local Open Scope string_scope.
Local Open Scope list_scope.
Local Open Scope Z_scope.

(** ** Parts of Go's library *)

(** The verbs %q of strings and %v of floats. *)
Class Fmt := { fmt_q : string -> string; fmt_v : spec_float -> string }.

Definition float_0 : spec_float := S754_zero false.
Definition float_1 : spec_float := S754_finite false 4503599627370496 (-52).

(** Position of the first and of the last occurrence of a byte. *)
Fixpoint IndexByte (s : string) (c : ascii) : option nat :=
  match s with
  | "" => None
  | String d s => if bool_decide (c = d) then Some 0%nat else S <$> IndexByte s c
  end.

Fixpoint LastIndexByte (s : string) (c : ascii) : option nat :=
  match s with
  | "" => None
  | String d s => match LastIndexByte s c with
                  | Some i => Some (S i)
                  | None => if bool_decide (c = d) then Some 0%nat else None
                  end
  end.

(** [s[i:j]]. *)
Definition slice (s : string) (i j : nat) : string := str_take (j - i) (str_drop i s).

(** net.SplitHostPort; the error is an [*AddrError]. *)
Definition SplitHostPort (hostport : string) : result (string * string) :=
  let addrErr why := Err (EMsg ("address " +:+ hostport +:+ ": " +:+ why)) in
  let n := String.length hostport in
  let missingPort := "missing port in address" in
  let tooManyColons := "too many colons in address" in
  match LastIndexByte hostport ":" with
  | None => addrErr missingPort
  | Some i =>
      let port := str_drop (S i) hostport in
      let finish host j k :=
        if str_mem "[" (str_drop j hostport) then addrErr "unexpected '[' in address"
        else if str_mem "]" (str_drop k hostport) then addrErr "unexpected ']' in address"
        else Ok (host, port) in
      match hostport with
      | String "[" _ =>
          match IndexByte hostport "]" with
          | None => addrErr "missing ']' in address"
          | Some end_ =>
              if (S end_ =? n)%nat then addrErr missingPort
              else if (S end_ =? i)%nat then finish (slice hostport 1 end_) 1%nat (S end_)
              else match str_drop (S end_) hostport with
                   | String ":" _ => addrErr tooManyColons
                   | _ => addrErr missingPort
                   end
          end
      | _ =>
          let host := str_take i hostport in
          if str_mem ":" host then addrErr tooManyColons else finish host 0%nat 0%nat
      end
  end.

(** ** Validators *)

(** The checks of a validator in order; the first that fails is its error. *)
Fixpoint first_error (checks : list (option error)) : option error :=
  match checks with
  | [] => None
  | None :: checks => first_error checks
  | Some err :: _ => Some err
  end.

Definition fail_if (condition : bool) (text : list string) : option error :=
  if condition then Some (EMsg (String.concat "" text)) else None.

(** ** The records *)

Record ServiceConfig := { sc_Address : string; sc_Name : string; sc_MaxRecvMsgSize : Z; sc_DBURI : string }.
Record ViewMarketsConfig := { vm_DefaultLimit : Z; vm_MaxLimit : Z; vm_CacheLimit : Z }.
Record TimeoutsConfig := { to_Service : Z; to_Check : Z }.
Record HealthConfig := { hc_CheckInterval : Z; hc_SuccessThreshold : Z; hc_FailureThreshold : Z }.
Record CircuitBreakerConfig := { cb_MaxRequests : Z; cb_Interval : Z; cb_Timeout : Z; cb_MaxFailures : Z }.
Record PostgresPoolConfig := {
  pp_MaxConnections : Z; pp_MinConnections : Z; pp_MaxConnLifetime : Z; pp_MaxConnIdleTime : Z }.
Record IdempotencyConfig := {
  ic_RequestTTL : Z; ic_CompleteAttempts : Z; ic_CompleteAttemptTimeout : Z; ic_CompleteRetryDelay : Z;
  ic_CleanupTimeout : Z }.
Record RedisConfig := {
  rc_Host : string; rc_Port : Z; rc_ConnectionTimeout : Z; rc_PoolSize : Z; rc_MinIdle : Z; rc_MaxIdle : Z;
  rc_MaxActiveConns : Z; rc_IdleTimeout : Z; rc_ConnMaxLifetime : Z; rc_CacheTTL : Z; rc_MarketBlockTTL : Z;
  rc_Idempotency : IdempotencyConfig }.
Record ProducerConfig := {
  pr_MaxRetries : Z; pr_RetryBackoff : Z; pr_Timeout : Z; pr_Compression : string; pr_ChannelBufferSize : Z }.
Record ConsumerConfig := {
  co_GroupID : string; co_SessionTimeout : Z; co_HeartbeatInterval : Z; co_MaxRetries : Z; co_RetryBackoff : Z;
  co_RetryJitter : spec_float; co_MaxMessageBytes : Z; co_DLQEnabled : bool; co_DLQMaxMessageBytes : Z;
  co_RestartBackoff : Z }.
Record TopicsConfig := {
  tp_OrderCreated : string; tp_OrderStatusUpdated : string; tp_MarketStateChanged : string;
  tp_MarketStateChangedDLQ : string }.
Record OutboxConfig := {
  ob_PollInterval : Z; ob_BatchSize : Z; ob_BatchTimeout : Z; ob_MaxRetries : Z; ob_ProcessingTimeout : Z }.
Record KafkaConfig := {
  kf_Brokers : list string; kf_Producer : ProducerConfig; kf_Consumer : ConsumerConfig; kf_Topics : TopicsConfig;
  kf_Outbox : OutboxConfig }.
Record MarketPollerConfig := {
  mp_PollInterval : Z; mp_ProcessingTimeout : Z; mp_BatchSize : Z; mp_RestartBackoff : Z }.
Record RateLimiterByUserConfig := { ru_CreateOrder : Z; ru_GetOrderStatus : Z; ru_Window : Z }.
Record OrderGRPCRateLimitConfig := { og_CreateOrder : Z; og_GetOrderStatus : Z; og_RefreshToken : Z }.
Record SpotGRPCRateLimitConfig := { sg_ViewMarkets : Z; sg_GetMarketByID : Z }.
Record TracingConfig := { tc_CollectorEndpoint : string; tc_Environment : string; tc_ServiceVersion : string }.
Record MetricsConfig := {
  mt_HTTPAddress : string; mt_ReadTimeout : Z; mt_WriteTimeout : Z; mt_IdleTimeout : Z; mt_ShutdownTimeout : Z }.
Record KeepAliveConfig := {
  ka_PingTime : Z; ka_PingTimeout : Z; ka_MinPingInterval : Z; ka_PermitWithoutStream : bool }.
Record AuthVerifierConfig := { av_JWTSecret : string; av_SkipMethods : list string }.
Record AuthIssuerConfig := { ai_AccessTokenTTL : Z; ai_RefreshTokenTTL : Z }.
Record RetryConfig := {
  re_MaxAttempts : Z; re_InitialBackoff : Z; re_Jitter : spec_float; re_PerRetryTimeout : Z }.
Record LoggingConfig := { lg_Level : string; lg_Format : string; lg_ContextFieldsMax : Z }.

Record OrderConfig := {
  oc_Service : ServiceConfig; oc_SpotAddress : string; oc_Timeouts : TimeoutsConfig; oc_Log : LoggingConfig;
  oc_AuthVerifier : AuthVerifierConfig; oc_Health : HealthConfig; oc_AuthIssuer : AuthIssuerConfig;
  oc_CircuitBreaker : CircuitBreakerConfig; oc_PostgresPool : PostgresPoolConfig;
  oc_GRPCRateLimit : OrderGRPCRateLimitConfig; oc_RateLimitByUser : RateLimiterByUserConfig;
  oc_Redis : RedisConfig; oc_Tracing : TracingConfig; oc_Metrics : MetricsConfig; oc_KeepAlive : KeepAliveConfig;
  oc_Retry : RetryConfig; oc_Kafka : KafkaConfig }.

Record SpotConfig := {
  sp_Service : ServiceConfig; sp_ViewMarkets : ViewMarketsConfig; sp_Log : LoggingConfig;
  sp_AuthVerifier : AuthVerifierConfig; sp_Timeouts : TimeoutsConfig; sp_Health : HealthConfig;
  sp_PostgresPool : PostgresPoolConfig; sp_GRPCRateLimit : SpotGRPCRateLimitConfig; sp_Redis : RedisConfig;
  sp_Tracing : TracingConfig; sp_Metrics : MetricsConfig; sp_KeepAlive : KeepAliveConfig; sp_Kafka : KafkaConfig;
  sp_MarketPoller : MarketPollerConfig }.

Definition RedisConfig_Address (r : RedisConfig) : string := rc_Host r +:+ ":" +:+ itoa (rc_Port r).

(** ** validate.go *)

Definition NormalizeKafkaCompression (value : string) : string := ToLower (TrimSpace value).

Section Shared.
Context `{F : Fmt}.

Definition ValidateTCPAddress (fieldName value : string) (allowEmptyHost : bool) : option error :=
  let value := TrimSpace value in
  if bool_decide (value = "") then Some (EMsg (fieldName +:+ " is required"))
  else
    match SplitHostPort value with
    | Err err => Some (EWrap (fieldName +:+ " must be a valid host:port, got " +:+ fmt_q value +:+ ": ") err "")
    | Ok (host, port) =>
        first_error [
          fail_if (negb allowEmptyHost && bool_decide (host = ""))
            [fieldName; " must include host, got "; fmt_q value];
          fail_if (bool_decide (port = "")) [fieldName; " must include port, got "; fmt_q value]]
    end.

Definition ValidateServiceConfig (fieldPrefix : string) (cfg : ServiceConfig) (allowEmptyHost : bool) :
    option error :=
  first_error [
    fail_if (bool_decide (TrimSpace (sc_Name cfg) = "")) [fieldPrefix; ".name is required"];
    fail_if (sc_MaxRecvMsgSize cfg <=? 0)
      [fieldPrefix; ".max_recv_msg_size must be greater than 0, got "; itoa (sc_MaxRecvMsgSize cfg)];
    ValidateTCPAddress (fieldPrefix +:+ ".address") (sc_Address cfg) allowEmptyHost].

Definition ValidateHealthConfig (fieldPrefix : string) (cfg : HealthConfig) : option error :=
  first_error [
    fail_if (hc_CheckInterval cfg <=? 0)
      [fieldPrefix; ".check_interval must be greater than 0, got "; duration_string (hc_CheckInterval cfg)];
    fail_if (hc_SuccessThreshold cfg <=? 0)
      [fieldPrefix; ".success_threshold must be greater than 0, got "; itoa (hc_SuccessThreshold cfg)];
    fail_if (hc_FailureThreshold cfg <=? 0)
      [fieldPrefix; ".failure_threshold must be greater than 0, got "; itoa (hc_FailureThreshold cfg)]].

Definition ValidatePostgresPoolConfig (fieldPrefix : string) (cfg : PostgresPoolConfig) : option error :=
  first_error [
    fail_if (pp_MaxConnections cfg <? 0)
      [fieldPrefix; ".max_conns must be greater than or equal to 0, got "; itoa (pp_MaxConnections cfg)];
    fail_if (pp_MinConnections cfg <? 0)
      [fieldPrefix; ".min_conns must be greater than or equal to 0, got "; itoa (pp_MinConnections cfg)];
    fail_if (pp_MaxConnLifetime cfg <? 0)
      [fieldPrefix; ".max_conn_lifetime must be greater than or equal to 0, got ";
       duration_string (pp_MaxConnLifetime cfg)];
    fail_if (pp_MaxConnIdleTime cfg <? 0)
      [fieldPrefix; ".max_conn_idle_time must be greater than or equal to 0, got ";
       duration_string (pp_MaxConnIdleTime cfg)];
    fail_if ((0 <? pp_MaxConnections cfg) && (pp_MaxConnections cfg <? pp_MinConnections cfg))
      [fieldPrefix; ".min_conns ("; itoa (pp_MinConnections cfg);
       ") must be less than or equal to max_conns ("; itoa (pp_MaxConnections cfg); ")"]].

Definition ValidateMetricsConfig (fieldPrefix : string) (cfg : MetricsConfig) : option error :=
  first_error [
    ValidateTCPAddress (fieldPrefix +:+ ".http_address") (mt_HTTPAddress cfg) true;
    fail_if (mt_ReadTimeout cfg <=? 0)
      [fieldPrefix; ".read_timeout must be greater than 0, got "; duration_string (mt_ReadTimeout cfg)];
    fail_if (mt_WriteTimeout cfg <=? 0)
      [fieldPrefix; ".write_timeout must be greater than 0, got "; duration_string (mt_WriteTimeout cfg)];
    fail_if (mt_IdleTimeout cfg <=? 0)
      [fieldPrefix; ".idle_timeout must be greater than 0, got "; duration_string (mt_IdleTimeout cfg)];
    fail_if (mt_ShutdownTimeout cfg <=? 0)
      [fieldPrefix; ".shutdown_timeout must be greater than 0, got "; duration_string (mt_ShutdownTimeout cfg)]].

Definition ValidateTracingConfig (fieldPrefix : string) (cfg : TracingConfig) : option error :=
  first_error [
    ValidateTCPAddress (fieldPrefix +:+ ".exporter_otlp_endpoint") (tc_CollectorEndpoint cfg) false;
    fail_if (bool_decide (TrimSpace (tc_Environment cfg) = "")) [fieldPrefix; ".environment is required"];
    fail_if (bool_decide (TrimSpace (tc_ServiceVersion cfg) = ""))
      [fieldPrefix; ".service_version is required"]].

Definition ValidateKeepAliveConfig (fieldPrefix : string) (cfg : KeepAliveConfig) : option error :=
  first_error [
    fail_if (ka_PingTime cfg <=? 0)
      [fieldPrefix; ".ping_time must be greater than 0, got "; duration_string (ka_PingTime cfg)];
    fail_if (ka_PingTimeout cfg <=? 0)
      [fieldPrefix; ".ping_timeout must be greater than 0, got "; duration_string (ka_PingTimeout cfg)];
    fail_if (ka_MinPingInterval cfg <=? 0)
      [fieldPrefix; ".min_ping_interval must be greater than 0, got "; duration_string (ka_MinPingInterval cfg)];
    fail_if (ka_PingTime cfg <=? ka_PingTimeout cfg)
      [fieldPrefix; ".ping_timeout ("; duration_string (ka_PingTimeout cfg); ") must be less than ping_time (";
       duration_string (ka_PingTime cfg); ")"];
    fail_if (ka_PingTime cfg <=? ka_MinPingInterval cfg)
      [fieldPrefix; ".min_ping_interval ("; duration_string (ka_MinPingInterval cfg);
       ") must be less than ping_time ("; duration_string (ka_PingTime cfg); ")"]].

Definition ValidateRedisBaseConfig (fieldPrefix : string) (cfg : RedisConfig) (serviceTimeout : Z) :
    option error :=
  first_error [
    fail_if (bool_decide (TrimSpace (rc_Host cfg) = "")) [fieldPrefix; ".host is required"];
    fail_if ((rc_Port cfg <=? 0) || (65535 <? rc_Port cfg))
      [fieldPrefix; ".port must be between 1 and 65535, got "; itoa (rc_Port cfg)];
    fail_if (rc_ConnectionTimeout cfg <=? 0)
      [fieldPrefix; ".connection_timeout must be greater than 0, got ";
       duration_string (rc_ConnectionTimeout cfg)];
    fail_if ((0 <? serviceTimeout) && (serviceTimeout <=? rc_ConnectionTimeout cfg))
      [fieldPrefix; ".connection_timeout ("; duration_string (rc_ConnectionTimeout cfg);
       ") must be less than service_timeout ("; duration_string serviceTimeout; ")"];
    fail_if (rc_PoolSize cfg <? 0)
      [fieldPrefix; ".pool_size must be greater than or equal to 0, got "; itoa (rc_PoolSize cfg)];
    fail_if (rc_MinIdle cfg <? 0)
      [fieldPrefix; ".min_idle must be greater than or equal to 0, got "; itoa (rc_MinIdle cfg)];
    fail_if (rc_MaxIdle cfg <? 0)
      [fieldPrefix; ".max_idle must be greater than or equal to 0, got "; itoa (rc_MaxIdle cfg)];
    fail_if (rc_MaxActiveConns cfg <? 0)
      [fieldPrefix; ".max_active_conns must be greater than or equal to 0, got "; itoa (rc_MaxActiveConns cfg)];
    fail_if (rc_IdleTimeout cfg <? 0)
      [fieldPrefix; ".idle_timeout must be greater than or equal to 0, got "; duration_string (rc_IdleTimeout cfg)];
    fail_if (rc_ConnMaxLifetime cfg <? 0)
      [fieldPrefix; ".max_conn_lifetime must be greater than or equal to 0, got ";
       duration_string (rc_ConnMaxLifetime cfg)]].

Fixpoint validate_brokers (fieldPrefix : string) (i : Z) (brokers : list string) : option error :=
  match brokers with
  | [] => None
  | broker :: brokers =>
      match ValidateTCPAddress (fieldPrefix +:+ "[" +:+ itoa i +:+ "]") broker false with
      | Some err => Some err
      | None => validate_brokers fieldPrefix (i + 1) brokers
      end
  end.

Definition ValidateKafkaBrokers (fieldPrefix : string) (brokers : list string) : option error :=
  first_error [
    fail_if (len brokers =? 0) [fieldPrefix; " must contain at least one broker"];
    validate_brokers fieldPrefix 0 brokers].

Definition ValidateKafkaProducerConfig (fieldPrefix : string) (cfg : ProducerConfig) : option error :=
  first_error [
    fail_if (pr_Timeout cfg <=? 0)
      [fieldPrefix; ".timeout must be greater than 0, got "; duration_string (pr_Timeout cfg)];
    fail_if (pr_RetryBackoff cfg <=? 0)
      [fieldPrefix; ".retry_backoff must be greater than 0, got "; duration_string (pr_RetryBackoff cfg)];
    fail_if (pr_MaxRetries cfg <? 0)
      [fieldPrefix; ".max_retries must be greater than or equal to 0, got "; itoa (pr_MaxRetries cfg)];
    fail_if (pr_ChannelBufferSize cfg <? 0)
      [fieldPrefix; ".channel_buffer_size must be >= 0, got "; itoa (pr_ChannelBufferSize cfg)];
    fail_if (negb (bool_decide (NormalizeKafkaCompression (pr_Compression cfg) ∈
                     ["none"; "gzip"; "snappy"; "lz4"; "zstd"])))
      [fieldPrefix; ".compression must be one of: none, gzip, snappy, lz4, zstd; got ";
       fmt_q (pr_Compression cfg)]].

(** Comparisons with a NaN are false. *)
Definition out_of_unit (x : spec_float) : bool := SFltb x float_0 || SFltb float_1 x.

Definition ValidateKafkaConsumerConfig (fieldPrefix : string) (cfg : ConsumerConfig) : option error :=
  first_error [
    fail_if (bool_decide (TrimSpace (co_GroupID cfg) = "")) [fieldPrefix; ".group_id is required"];
    fail_if (co_SessionTimeout cfg <=? 0)
      [fieldPrefix; ".session_timeout must be greater than 0, got "; duration_string (co_SessionTimeout cfg)];
    fail_if (co_HeartbeatInterval cfg <=? 0)
      [fieldPrefix; ".heartbeat_interval must be greater than 0, got "; duration_string (co_HeartbeatInterval cfg)];
    fail_if (co_SessionTimeout cfg <=? co_HeartbeatInterval cfg)
      [fieldPrefix; ".heartbeat_interval ("; duration_string (co_HeartbeatInterval cfg);
       ") must be less than session_timeout ("; duration_string (co_SessionTimeout cfg); ")"];
    fail_if (co_RetryBackoff cfg <=? 0)
      [fieldPrefix; ".retry_backoff must be greater than 0, got "; duration_string (co_RetryBackoff cfg)];
    fail_if (out_of_unit (co_RetryJitter cfg))
      [fieldPrefix; ".retry_jitter must be between 0 and 1 inclusive, got "; fmt_v (co_RetryJitter cfg)];
    fail_if (co_MaxRetries cfg <? 0)
      [fieldPrefix; ".max_retries must be greater than or equal to 0, got "; itoa (co_MaxRetries cfg)];
    fail_if (co_MaxMessageBytes cfg <=? 0)
      [fieldPrefix; ".max_message_bytes must be greater than 0, got "; itoa (co_MaxMessageBytes cfg)];
    fail_if (co_DLQMaxMessageBytes cfg <? 0)
      [fieldPrefix; ".dlq_max_message_bytes must be greater than or equal to 0, got ";
       itoa (co_DLQMaxMessageBytes cfg)];
    fail_if (co_DLQEnabled cfg && (co_DLQMaxMessageBytes cfg <=? 0))
      [fieldPrefix; ".dlq_max_message_bytes must be greater than 0 when dlq_enabled=true, got ";
       itoa (co_DLQMaxMessageBytes cfg)];
    fail_if (co_RestartBackoff cfg <=? 0)
      [fieldPrefix; ".restart_backoff must be greater than 0, got "; duration_string (co_RestartBackoff cfg)];
    fail_if (co_DLQEnabled cfg && (co_DLQMaxMessageBytes cfg <? co_MaxMessageBytes cfg))
      [fieldPrefix; ".dlq_max_message_bytes ("; itoa (co_DLQMaxMessageBytes cfg);
       ") must be greater than or equal to "; fieldPrefix; ".max_message_bytes ("; itoa (co_MaxMessageBytes cfg);
       ") when dlq_enabled=true"]].

Definition ValidateOutboxConfig (fieldPrefix : string) (cfg : OutboxConfig) : option error :=
  first_error [
    fail_if (ob_PollInterval cfg <=? 0)
      [fieldPrefix; ".poll_interval must be greater than 0, got "; duration_string (ob_PollInterval cfg)];
    fail_if (ob_ProcessingTimeout cfg <=? 0)
      [fieldPrefix; ".processing_timeout must be greater than 0, got "; duration_string (ob_ProcessingTimeout cfg)];
    fail_if (ob_BatchTimeout cfg <=? 0)
      [fieldPrefix; ".batch_timeout must be greater than 0, got "; duration_string (ob_BatchTimeout cfg)];
    fail_if (ob_BatchSize cfg <=? 0)
      [fieldPrefix; ".batch_size must be greater than 0, got "; itoa (ob_BatchSize cfg)];
    fail_if (ob_MaxRetries cfg <? 0)
      [fieldPrefix; ".max_retries must be greater than or equal to 0, got "; itoa (ob_MaxRetries cfg)];
    fail_if (ob_ProcessingTimeout cfg <=? ob_BatchTimeout cfg)
      [fieldPrefix; ".batch_timeout ("; duration_string (ob_BatchTimeout cfg);
       ") must be less than processing_timeout ("; duration_string (ob_ProcessingTimeout cfg); ")"]].
End Shared.

(** ** orderService/config/load.go *)

Section Order.
Context `{F : Fmt}.

Definition validateOrderService (cfg : OrderConfig) : option error :=
  first_error [
    fail_if (to_Service (oc_Timeouts cfg) <=? 0)
      ["timeouts.service must be greater than 0, got "; duration_string (to_Service (oc_Timeouts cfg))];
    fail_if (to_Check (oc_Timeouts cfg) <=? 0)
      ["timeouts.check must be greater than 0, got "; duration_string (to_Check (oc_Timeouts cfg))];
    ValidateServiceConfig "service" (oc_Service cfg) true;
    ValidateTCPAddress "spot_address" (oc_SpotAddress cfg) false].

Definition validateOrderRedis (cfg : OrderConfig) : option error :=
  let redis := oc_Redis cfg in
  let idem := rc_Idempotency redis in
  first_error [
    ValidateRedisBaseConfig "redis" redis (to_Service (oc_Timeouts cfg));
    fail_if (rc_MarketBlockTTL redis <=? 0)
      ["redis.market_block_ttl must be greater than 0, got "; duration_string (rc_MarketBlockTTL redis)];
    fail_if (ic_RequestTTL idem <=? 0)
      ["redis.idempotency_request_ttl must be greater than 0, got "; duration_string (ic_RequestTTL idem)];
    fail_if (ic_CleanupTimeout idem <=? 0)
      ["redis.idempotency_cleanup_timeout must be greater than 0, got "; duration_string (ic_CleanupTimeout idem)];
    fail_if (ic_CompleteRetryDelay idem <=? 0)
      ["redis.idempotency_complete_retry_delay must be greater than 0, got ";
       duration_string (ic_CompleteRetryDelay idem)];
    fail_if (ic_CompleteAttemptTimeout idem <=? 0)
      ["redis.idempotency_complete_attempt_timeout must be greater than 0, got ";
       duration_string (ic_CompleteAttemptTimeout idem)];
    fail_if (ic_CompleteAttempts idem <=? 0)
      ["redis.idempotency_complete_attempts must be greater than 0, got "; itoa (ic_CompleteAttempts idem)]].

Definition validateOrderCircuitBreaker (cfg : OrderConfig) : option error :=
  let cb := oc_CircuitBreaker cfg in
  let service := to_Service (oc_Timeouts cfg) in
  first_error [
    fail_if (cb_Interval cb <=? 0)
      ["circuit_breaker.interval must be greater than 0, got "; duration_string (cb_Interval cb)];
    fail_if (cb_Timeout cb <=? 0)
      ["circuit_breaker.timeout must be greater than 0, got "; duration_string (cb_Timeout cb)];
    fail_if (service <=? cb_Timeout cb)
      ["circuit_breaker.timeout ("; duration_string (cb_Timeout cb); ") must be less than service_timeout (";
       duration_string service; ")"];
    fail_if (cb_MaxRequests cb =? 0) ["circuit_breaker.max_requests must be greater than 0"];
    fail_if (cb_MaxFailures cb =? 0) ["circuit_breaker.max_failures must be greater than 0"]].

Definition validateOrderKeepAlive (cfg : OrderConfig) : option error :=
  ValidateKeepAliveConfig "keep_alive" (oc_KeepAlive cfg).

Definition validateOrderAuth (cfg : OrderConfig) : option error :=
  let auth := oc_AuthIssuer cfg in
  first_error [
    fail_if (ai_RefreshTokenTTL auth <=? ai_AccessTokenTTL auth)
      ["auth.refresh_token_ttl ("; duration_string (ai_RefreshTokenTTL auth);
       ") must be greater than access_token_ttl ("; duration_string (ai_AccessTokenTTL auth); ")"];
    fail_if (ai_AccessTokenTTL auth <=? 0)
      ["auth.access_token_ttl must be greater than 0, got "; duration_string (ai_AccessTokenTTL auth)];
    fail_if (ai_RefreshTokenTTL auth <=? 0)
      ["auth.refresh_token_ttl must be greater than 0, got "; duration_string (ai_RefreshTokenTTL auth)]].

Definition validateOrderRetry (cfg : OrderConfig) : option error :=
  let retry := oc_Retry cfg in
  let service := to_Service (oc_Timeouts cfg) in
  first_error [
    fail_if (re_MaxAttempts retry =? 0) ["retry.max_attempts must be greater than 0"];
    fail_if (re_InitialBackoff retry <=? 0)
      ["retry.initial_backoff must be greater than 0, got "; duration_string (re_InitialBackoff retry)];
    fail_if (out_of_unit (re_Jitter retry))
      ["retry.jitter must be between 0 and 1 inclusive, got "; fmt_v (re_Jitter retry)];
    fail_if (re_PerRetryTimeout retry <=? 0)
      ["retry.per_retry_timeout must be greater than 0, got "; duration_string (re_PerRetryTimeout retry)];
    fail_if (service <=? re_PerRetryTimeout retry)
      ["retry.per_retry_timeout ("; duration_string (re_PerRetryTimeout retry);
       ") must be less than service_timeout ("; duration_string service; ")"]].

Definition validateOrderKafka (cfg : OrderConfig) : option error :=
  let kafka := oc_Kafka cfg in
  let topics := kf_Topics kafka in
  first_error [
    ValidateKafkaBrokers "kafka.brokers" (kf_Brokers kafka);
    fail_if (bool_decide (tp_OrderCreated topics = "")) ["kafka.topics.order_created is required"];
    fail_if (bool_decide (tp_OrderStatusUpdated topics = "")) ["kafka.topics.order_status_updated is required"];
    fail_if (bool_decide (tp_MarketStateChanged topics = "")) ["kafka.topics.market_state_changed is required"];
    fail_if (co_DLQEnabled (kf_Consumer kafka) && bool_decide (tp_MarketStateChangedDLQ topics = ""))
      ["kafka.topics.market_state_changed_dlq is required when dlq_enabled=true"];
    ValidateKafkaProducerConfig "kafka.producer" (kf_Producer kafka);
    ValidateKafkaConsumerConfig "kafka.consumer" (kf_Consumer kafka);
    ValidateOutboxConfig "kafka.outbox" (kf_Outbox kafka)].

Definition validateOrderRateLimits (cfg : OrderConfig) : option error :=
  let grpc := oc_GRPCRateLimit cfg in
  let user := oc_RateLimitByUser cfg in
  first_error [
    fail_if (og_CreateOrder grpc <=? 0)
      ["grpc_rate_limit.create_order must be greater than 0, got "; itoa (og_CreateOrder grpc)];
    fail_if (og_GetOrderStatus grpc <=? 0)
      ["grpc_rate_limit.get_order_status must be greater than 0, got "; itoa (og_GetOrderStatus grpc)];
    fail_if (og_RefreshToken grpc <=? 0)
      ["grpc_rate_limit.refresh_token must be greater than 0, got "; itoa (og_RefreshToken grpc)];
    fail_if (ru_CreateOrder user <=? 0)
      ["rate_limit_by_user.create_order must be greater than 0, got "; itoa (ru_CreateOrder user)];
    fail_if (ru_GetOrderStatus user <=? 0)
      ["rate_limit_by_user.get_order_status must be greater than 0, got "; itoa (ru_GetOrderStatus user)];
    fail_if (ru_Window user <=? 0)
      ["rate_limit_by_user.window must be greater than 0, got "; duration_string (ru_Window user)]].

Definition validateOrderConfig (cfg : OrderConfig) : option error :=
  first_error [
    validateOrderService cfg;
    ValidateHealthConfig "health" (oc_Health cfg);
    ValidatePostgresPoolConfig "postgres_pool" (oc_PostgresPool cfg);
    validateOrderRedis cfg;
    validateOrderCircuitBreaker cfg;
    validateOrderKeepAlive cfg;
    validateOrderAuth cfg;
    validateOrderRetry cfg;
    validateOrderRateLimits cfg;
    ValidateTracingConfig "tracing" (oc_Tracing cfg);
    ValidateMetricsConfig "metrics" (oc_Metrics cfg);
    validateOrderKafka cfg].

Definition set_DBURI (uri : string) (s : ServiceConfig) : ServiceConfig := {|
  sc_Address := sc_Address s; sc_Name := sc_Name s; sc_MaxRecvMsgSize := sc_MaxRecvMsgSize s; sc_DBURI := uri |}.
Definition set_JWTSecret (secret : string) (a : AuthVerifierConfig) : AuthVerifierConfig := {|
  av_JWTSecret := secret; av_SkipMethods := av_SkipMethods a |}.
Definition set_Compression (value : string) (k : KafkaConfig) : KafkaConfig :=
  let p := kf_Producer k in {|
  kf_Brokers := kf_Brokers k;
  kf_Producer := {| pr_MaxRetries := pr_MaxRetries p; pr_RetryBackoff := pr_RetryBackoff p;
                    pr_Timeout := pr_Timeout p; pr_Compression := value;
                    pr_ChannelBufferSize := pr_ChannelBufferSize p |};
  kf_Consumer := kf_Consumer k; kf_Topics := kf_Topics k; kf_Outbox := kf_Outbox k |}.

(** Load, from what viper read and the two environment variables. *)
Definition OrderLoad (unmarshalled : result OrderConfig) (dbURI jwtSecret : string) : result OrderConfig :=
  match unmarshalled with
  | Err err => Err (wrap "unmarshal order config" err)
  | Ok cfg =>
      if bool_decide (dbURI = "") then Err (EMsg "ORDER_DB_URI is required")
      else if bool_decide (jwtSecret = "") then Err (EMsg "JWT_SECRET is required")
      else
        let kafka := oc_Kafka cfg in
        let cfg := {|
          oc_Service := set_DBURI dbURI (oc_Service cfg); oc_SpotAddress := oc_SpotAddress cfg;
          oc_Timeouts := oc_Timeouts cfg; oc_Log := oc_Log cfg;
          oc_AuthVerifier := set_JWTSecret jwtSecret (oc_AuthVerifier cfg); oc_Health := oc_Health cfg;
          oc_AuthIssuer := oc_AuthIssuer cfg; oc_CircuitBreaker := oc_CircuitBreaker cfg;
          oc_PostgresPool := oc_PostgresPool cfg; oc_GRPCRateLimit := oc_GRPCRateLimit cfg;
          oc_RateLimitByUser := oc_RateLimitByUser cfg; oc_Redis := oc_Redis cfg; oc_Tracing := oc_Tracing cfg;
          oc_Metrics := oc_Metrics cfg; oc_KeepAlive := oc_KeepAlive cfg; oc_Retry := oc_Retry cfg;
          oc_Kafka := set_Compression (NormalizeKafkaCompression (pr_Compression (kf_Producer kafka))) kafka |} in
        match validateOrderConfig cfg with
        | Some err => Err err
        | None => Ok cfg
        end
  end.
End Order.

(** ** spotService/config/load.go *)

Section Spot.
Context `{F : Fmt}.

Definition validateSpotService (cfg : SpotConfig) : option error :=
  first_error [
    fail_if (to_Service (sp_Timeouts cfg) <=? 0)
      ["timeouts.service must be greater than 0, got "; duration_string (to_Service (sp_Timeouts cfg))];
    fail_if (to_Check (sp_Timeouts cfg) <=? 0)
      ["timeouts.check must be greater than 0, got "; duration_string (to_Check (sp_Timeouts cfg))];
    ValidateServiceConfig "service" (sp_Service cfg) true].

(** The limits are unsigned; math.MaxInt is the largest int64. *)
Definition validateSpotViewMarkets (cfg : SpotConfig) : option error :=
  let maxInt := max_i64 in
  let vm := sp_ViewMarkets cfg in
  first_error [
    fail_if (vm_DefaultLimit vm <=? 0)
      ["view_markets.default_limit must be greater than 0, got "; itoa (vm_DefaultLimit vm)];
    fail_if (vm_MaxLimit vm <=? 0) ["view_markets.max_limit must be greater than 0, got "; itoa (vm_MaxLimit vm)];
    fail_if (vm_CacheLimit vm <=? 0)
      ["view_markets.cache_limit must be greater than 0, got "; itoa (vm_CacheLimit vm)];
    fail_if (maxInt <? vm_DefaultLimit vm)
      ["view_markets.default_limit must be less than or equal to "; itoa maxInt; ", got ";
       itoa (vm_DefaultLimit vm)];
    fail_if (maxInt <? vm_MaxLimit vm)
      ["view_markets.max_limit must be less than or equal to "; itoa maxInt; ", got "; itoa (vm_MaxLimit vm)];
    fail_if (maxInt <? vm_CacheLimit vm)
      ["view_markets.cache_limit must be less than or equal to "; itoa maxInt; ", got "; itoa (vm_CacheLimit vm)];
    fail_if (vm_MaxLimit vm <? vm_DefaultLimit vm)
      ["view_markets.default_limit must be less than or equal to view_markets.max_limit, got default_limit=";
       itoa (vm_DefaultLimit vm); " max_limit="; itoa (vm_MaxLimit vm)];
    fail_if (vm_CacheLimit vm <? vm_DefaultLimit vm)
      ["view_markets.cache_limit must be greater than or equal to view_markets.default_limit, got cache_limit=";
       itoa (vm_CacheLimit vm); " default_limit="; itoa (vm_DefaultLimit vm)]].

Definition validateSpotRedis (cfg : SpotConfig) : option error :=
  first_error [
    ValidateRedisBaseConfig "redis" (sp_Redis cfg) (to_Service (sp_Timeouts cfg));
    fail_if (rc_CacheTTL (sp_Redis cfg) <=? 0)
      ["redis.spot_cache_ttl must be greater than 0, got "; duration_string (rc_CacheTTL (sp_Redis cfg))]].

Definition validateSpotKeepAlive (cfg : SpotConfig) : option error :=
  ValidateKeepAliveConfig "keep_alive" (sp_KeepAlive cfg).

Definition validateSpotMarketPoller (cfg : SpotConfig) : option error :=
  let mp := sp_MarketPoller cfg in
  first_error [
    fail_if (mp_PollInterval mp <=? 0)
      ["market_poller.poll_interval must be greater than 0, got "; duration_string (mp_PollInterval mp)];
    fail_if (mp_ProcessingTimeout mp <=? 0)
      ["market_poller.processing_timeout must be greater than 0, got ";
       duration_string (mp_ProcessingTimeout mp)];
    fail_if (mp_BatchSize mp <=? 0)
      ["market_poller.batch_size must be greater than 0, got "; itoa (mp_BatchSize mp)];
    fail_if (mp_ProcessingTimeout mp <? mp_PollInterval mp)
      ["market_poller.processing_timeout ("; duration_string (mp_ProcessingTimeout mp);
       ") must be greater than or equal to market_poller.poll_interval (";
       duration_string (mp_PollInterval mp); ")"];
    fail_if (mp_RestartBackoff mp <=? 0)
      ["market_poller.restart_backoff must be greater than 0, got "; duration_string (mp_RestartBackoff mp)]].

Definition validateSpotKafka (cfg : SpotConfig) : option error :=
  let kafka := sp_Kafka cfg in
  first_error [
    ValidateKafkaBrokers "kafka.brokers" (kf_Brokers kafka);
    fail_if (bool_decide (tp_MarketStateChanged (kf_Topics kafka) = ""))
      ["kafka.topics.market_state_changed is required"];
    ValidateKafkaProducerConfig "kafka.producer" (kf_Producer kafka);
    ValidateOutboxConfig "kafka.outbox" (kf_Outbox kafka)].

Definition validateSpotRateLimits (cfg : SpotConfig) : option error :=
  let grpc := sp_GRPCRateLimit cfg in
  first_error [
    fail_if (sg_ViewMarkets grpc <=? 0)
      ["grpc_rate_limit.view_markets must be greater than 0, got "; itoa (sg_ViewMarkets grpc)];
    fail_if (sg_GetMarketByID grpc <=? 0)
      ["grpc_rate_limit.get_market_by_id must be greater than 0, got "; itoa (sg_GetMarketByID grpc)]].

Definition validateSpotConfig (cfg : SpotConfig) : option error :=
  first_error [
    validateSpotService cfg;
    ValidateHealthConfig "health" (sp_Health cfg);
    ValidatePostgresPoolConfig "postgres_pool" (sp_PostgresPool cfg);
    validateSpotViewMarkets cfg;
    validateSpotRedis cfg;
    validateSpotKeepAlive cfg;
    validateSpotRateLimits cfg;
    validateSpotMarketPoller cfg;
    ValidateTracingConfig "tracing" (sp_Tracing cfg);
    ValidateMetricsConfig "metrics" (sp_Metrics cfg);
    validateSpotKafka cfg].

Definition SpotLoad (unmarshalled : result SpotConfig) (dbURI jwtSecret : string) : result SpotConfig :=
  match unmarshalled with
  | Err err => Err (wrap "unmarshal spot config" err)
  | Ok cfg =>
      if bool_decide (dbURI = "") then Err (EMsg "SPOT_DB_URI is required")
      else if bool_decide (jwtSecret = "") then Err (EMsg "JWT_SECRET is required")
      else
        let kafka := sp_Kafka cfg in
        let cfg := {|
          sp_Service := set_DBURI dbURI (sp_Service cfg); sp_ViewMarkets := sp_ViewMarkets cfg;
          sp_Log := sp_Log cfg; sp_AuthVerifier := set_JWTSecret jwtSecret (sp_AuthVerifier cfg);
          sp_Timeouts := sp_Timeouts cfg; sp_Health := sp_Health cfg; sp_PostgresPool := sp_PostgresPool cfg;
          sp_GRPCRateLimit := sp_GRPCRateLimit cfg; sp_Redis := sp_Redis cfg; sp_Tracing := sp_Tracing cfg;
          sp_Metrics := sp_Metrics cfg; sp_KeepAlive := sp_KeepAlive cfg;
          sp_Kafka := set_Compression (NormalizeKafkaCompression (pr_Compression (kf_Producer kafka))) kafka;
          sp_MarketPoller := sp_MarketPoller cfg |} in
        match validateSpotConfig cfg with
        | Some err => Err err
        | None => Ok cfg
        end
  end.
End Spot.

(** ** What the components are given
      (application/order/service_providers.go, application/spot/service_providers.go) *)

Definition order_worker (cfg : OrderConfig) : worker_config :=
  let o := kf_Outbox (oc_Kafka cfg) in {|
  wc_pollInterval := ob_PollInterval o; wc_batchSize := ob_BatchSize o; wc_maxRetries := ob_MaxRetries o;
  wc_processingTimeout := ob_ProcessingTimeout o |}.

Definition order_service (cfg : OrderConfig) : svc_config := {|
  cfg_idem_ttl := ic_RequestTTL (rc_Idempotency (oc_Redis cfg));
  cfg_complete_attempts := ic_CompleteAttempts (rc_Idempotency (oc_Redis cfg));
  cfg_limit_create := ru_CreateOrder (oc_RateLimitByUser cfg);
  cfg_limit_get := ru_GetOrderStatus (oc_RateLimitByUser cfg);
  cfg_window := ru_Window (oc_RateLimitByUser cfg); cfg_block_ttl := rc_MarketBlockTTL (oc_Redis cfg) |}.

Definition order_consumer (cfg : OrderConfig) : consumer_config :=
  let k := oc_Kafka cfg in {|
  cc_DLQEnabled := co_DLQEnabled (kf_Consumer k); cc_DLQMaxMessageBytes := co_DLQMaxMessageBytes (kf_Consumer k);
  cc_MaxRetries := co_MaxRetries (kf_Consumer k); cc_DLQTopic := tp_MarketStateChangedDLQ (kf_Topics k) |}.

Definition provideJWTManager (cfg : OrderConfig) : Manager := {|
  m_secret := av_JWTSecret (oc_AuthVerifier cfg); m_accessTTL := ai_AccessTokenTTL (oc_AuthIssuer cfg);
  m_refreshTTL := ai_RefreshTokenTTL (oc_AuthIssuer cfg) |}.

Definition spot_worker (cfg : SpotConfig) : worker_config :=
  let o := kf_Outbox (sp_Kafka cfg) in {|
  wc_pollInterval := ob_PollInterval o; wc_batchSize := ob_BatchSize o; wc_maxRetries := ob_MaxRetries o;
  wc_processingTimeout := ob_ProcessingTimeout o |}.

Definition spot_viewer (cfg : SpotConfig) : viewer_config := {|
  vw_cacheTTL := rc_CacheTTL (sp_Redis cfg); vw_defaultLimit := vm_DefaultLimit (sp_ViewMarkets cfg);
  vw_maxLimit := vm_MaxLimit (sp_ViewMarkets cfg); vw_cacheLimit := vm_CacheLimit (sp_ViewMarkets cfg) |}.

Definition spot_poller (cfg : SpotConfig) : poller_config := {|
  pc_batchSize := mp_BatchSize (sp_MarketPoller cfg); pc_cacheRefresher := Some (spot_viewer cfg) |}.

(** ** Properties *)

Lemma first_error_None o l : first_error (o :: l) = None <-> o = None /\ first_error l = None.
Proof. destruct o; simpl; naive_solver. Qed.

Lemma fail_if_None b t : fail_if b t = None <-> b = false.
Proof. by destruct b. Qed.

(** Turn an accepted validator into the conditions it checked. *)
Ltac accepted H :=
  rewrite ?first_error_None, ?fail_if_None, ?orb_false_iff, ?Z.leb_gt, ?Z.ltb_ge, ?bool_decide_eq_false in H;
  repeat match type of H with
         | _ /\ _ => let H1 := fresh "Hc" in destruct H as [H1 H]
         end.

Section Sound.
Context `{F : Fmt}.

(** What Load accepts carries the two values of the environment. *)
Lemma OrderLoad_uses unmarshalled dbURI jwtSecret cfg :
  OrderLoad unmarshalled dbURI jwtSecret = Ok cfg ->
  sc_DBURI (oc_Service cfg) = dbURI /\ av_JWTSecret (oc_AuthVerifier cfg) = jwtSecret /\
  jwtSecret <> "" /\
  validateOrderConfig cfg = None.
Proof.
  unfold OrderLoad. destruct unmarshalled as [c|?]; [|done]. repeat case_bool_decide; try done.
  destruct (validateOrderConfig _) eqn:Hv; [done|]. by intros [= <-].
Qed.

Lemma SpotLoad_uses unmarshalled dbURI jwtSecret cfg :
  SpotLoad unmarshalled dbURI jwtSecret = Ok cfg ->
  sc_DBURI (sp_Service cfg) = dbURI /\ av_JWTSecret (sp_AuthVerifier cfg) = jwtSecret /\
  jwtSecret <> "" /\
  validateSpotConfig cfg = None.
Proof.
  unfold SpotLoad. destruct unmarshalled as [c|?]; [|done]. repeat case_bool_decide; try done.
  destruct (validateSpotConfig _) eqn:Hv; [done|]. by intros [= <-].
Qed.

(** What the settings of a worker have to satisfy. *)
Record worker_ok (w : worker_config) : Prop := {
  wok_batch : 0 < wc_batchSize w;
  wok_retries : 0 <= wc_maxRetries w;
  wok_poll : 0 < wc_pollInterval w;
  wok_timeout : 0 < wc_processingTimeout w
}.

Lemma outbox_ok p o : ValidateOutboxConfig p o = None ->
  worker_ok {| wc_pollInterval := ob_PollInterval o; wc_batchSize := ob_BatchSize o;
               wc_maxRetries := ob_MaxRetries o; wc_processingTimeout := ob_ProcessingTimeout o |}.
Proof. intros H. unfold ValidateOutboxConfig in H. accepted H. by split. Qed.

Lemma producer_ok p c : ValidateKafkaProducerConfig p c = None ->
  NormalizeKafkaCompression (pr_Compression c) ∈ ["none"; "gzip"; "snappy"; "lz4"; "zstd"].
Proof.
  intros H. unfold ValidateKafkaProducerConfig in H. accepted H. apply negb_false_iff in Hc3.
  by apply bool_decide_eq_true in Hc3.
Qed.

(** A configuration with which the order service starts gives its
    components settings they are correct with: the outbox worker positive
    batches, intervals and timeouts; the rate limiters positive limits and
    windows; idempotency and block state positive lifetimes; the token manager
    a secret and an access token that expires before the refresh token; and
    the consumer, when dead letters are on, a topic and a size limit no
    smaller than the largest message. *)
Theorem order_config_sound unmarshalled dbURI jwtSecret cfg :
  OrderLoad unmarshalled dbURI jwtSecret = Ok cfg ->
  worker_ok (order_worker cfg) /\
  (let s := order_service cfg in
   0 < cfg_idem_ttl s /\ 0 < cfg_complete_attempts s /\ 0 < cfg_block_ttl s /\
   0 < rl_limit (provideRateLimiters s).1 /\ 0 < rl_limit (provideRateLimiters s).2 /\ 0 < cfg_window s) /\
  (let m := provideJWTManager cfg in m_secret m <> "" /\ 0 < m_accessTTL m < m_refreshTTL m) /\
  (let c := order_consumer cfg in
   0 <= cc_MaxRetries c /\
   (cc_DLQEnabled c = true -> cc_DLQTopic c <> "" /\ 0 < cc_DLQMaxMessageBytes c /\
      co_MaxMessageBytes (kf_Consumer (oc_Kafka cfg)) <= cc_DLQMaxMessageBytes c)) /\
  NormalizeKafkaCompression (pr_Compression (kf_Producer (oc_Kafka cfg))) ∈ ["none"; "gzip"; "snappy"; "lz4"; "zstd"].
Proof.
  unfold OrderLoad. destruct unmarshalled as [cfg0|e]; [|done].
  repeat case_bool_decide; try done. set (c1 := Build_OrderConfig _ _ _ _ _ _ _ _ _ _ _ _ _ _ _ _ _).
  assert (Hjwt : av_JWTSecret (oc_AuthVerifier c1) <> "") by done. clearbody c1.
  destruct (validateOrderConfig c1) eqn:Hv; [done|]. intros [= ->].
  unfold validateOrderConfig in Hv. accepted Hv.
  match goal with H : validateOrderKafka cfg = None |- _ => rename H into Hk end.
  match goal with H : validateOrderRedis cfg = None |- _ => rename H into Hr end.
  match goal with H : validateOrderAuth cfg = None |- _ => rename H into Ha end.
  match goal with H : validateOrderRateLimits cfg = None |- _ => rename H into Hl end.
  refine (conj _ (conj _ (conj _ (conj _ _)))).
  - unfold validateOrderKafka in Hk. accepted Hk. by eapply outbox_ok.
  - unfold validateOrderRedis in Hr. unfold validateOrderRateLimits in Hl. accepted Hr. accepted Hl. cbv zeta. simpl. tauto.
  - unfold validateOrderAuth in Ha. accepted Ha. cbv zeta. simpl. tauto.
  - unfold validateOrderKafka in Hk. accepted Hk.
    match goal with H : ValidateKafkaConsumerConfig _ _ = None |- _ => rename H into Hcon end.
    match goal with H : co_DLQEnabled _ && bool_decide _ = false |- _ => rename H into Htopic end.
    unfold ValidateKafkaConsumerConfig in Hcon. accepted Hcon. unfold order_consumer. simpl. split; [done|].
    intros Hd. rewrite Hd in *. simpl in *.
    repeat match goal with
           | H : (_ <=? _) = false |- _ => apply Z.leb_gt in H
           | H : (_ <? _) = false |- _ => apply Z.ltb_ge in H
           | H : bool_decide _ = false |- _ => apply bool_decide_eq_false in H
           end. tauto.
  - unfold validateOrderKafka in Hk. accepted Hk. by eapply producer_ok.
Qed.

(** A configuration with which the spot service starts, with page limits
    below 2^61, gives the market viewer, the poller and the outbox worker
    settings their theorems ask for, a positive cache lifetime, and a head
    cache that holds at least a default page. *)
Theorem spot_config_sound unmarshalled dbURI jwtSecret cfg :
  SpotLoad unmarshalled dbURI jwtSecret = Ok cfg ->
  vm_MaxLimit (sp_ViewMarkets cfg) < 2 ^ 61 -> vm_CacheLimit (sp_ViewMarkets cfg) < 2 ^ 61 ->
  sane_cfg (spot_viewer cfg) /\ 0 < vw_cacheTTL (spot_viewer cfg) /\
  vw_defaultLimit (spot_viewer cfg) <= vw_cacheLimit (spot_viewer cfg) /\
  0 < pc_batchSize (spot_poller cfg) /\ worker_ok (spot_worker cfg) /\
  tp_MarketStateChanged (kf_Topics (sp_Kafka cfg)) <> "".
Proof.
  unfold SpotLoad. destruct unmarshalled as [cfg0|e]; [|done].
  repeat case_bool_decide; try done. set (c1 := Build_SpotConfig _ _ _ _ _ _ _ _ _ _ _ _ _ _). clearbody c1.
  destruct (validateSpotConfig c1) eqn:Hv; [done|]. intros [= ->] Hmax Hcache.
  unfold validateSpotConfig in Hv. accepted Hv.
  match goal with H : validateSpotKafka cfg = None |- _ => rename H into Hk end.
  match goal with H : validateSpotRedis cfg = None |- _ => rename H into Hr end.
  match goal with H : validateSpotViewMarkets cfg = None |- _ => rename H into Hm end.
  match goal with H : validateSpotMarketPoller cfg = None |- _ => rename H into Hp end.
  unfold validateSpotViewMarkets in Hm. accepted Hm. unfold validateSpotRedis in Hr. accepted Hr.
  unfold validateSpotMarketPoller in Hp. accepted Hp. unfold validateSpotKafka in Hk. accepted Hk.
  split_and!; try (simpl; lia); [unfold sane_cfg; simpl; lia|by eapply outbox_ok|done].
Qed.
End Sound.

(** ** Closed instances *)

Section Witness.
Definition PlainFmt : Fmt := {| fmt_q s := s; fmt_v _ := "float" |}.
#[local] Existing Instance PlainFmt.

Definition demo_kafka : KafkaConfig := {|
  kf_Brokers := ["kafka:9092"; "[::1]:9093"];
  kf_Producer := {| pr_MaxRetries := 3; pr_RetryBackoff := second; pr_Timeout := second;
                    pr_Compression := " GZIP "; pr_ChannelBufferSize := 0 |};
  kf_Consumer := {| co_GroupID := "order"; co_SessionTimeout := 10 * second; co_HeartbeatInterval := second;
                    co_MaxRetries := 3; co_RetryBackoff := second; co_RetryJitter := S754_nan;
                    co_MaxMessageBytes := 1000; co_DLQEnabled := true; co_DLQMaxMessageBytes := 1000;
                    co_RestartBackoff := second |};
  kf_Topics := {| tp_OrderCreated := "created"; tp_OrderStatusUpdated := "updated"; tp_MarketStateChanged := "markets";
                  tp_MarketStateChangedDLQ := "markets.dlq" |};
  kf_Outbox := {| ob_PollInterval := second; ob_BatchSize := 10; ob_BatchTimeout := second; ob_MaxRetries := 3;
                  ob_ProcessingTimeout := 5 * second |} |}.

Definition demo_redis_config : RedisConfig := {|
  rc_Host := "redis"; rc_Port := 6379; rc_ConnectionTimeout := second; rc_PoolSize := 0; rc_MinIdle := 0;
  rc_MaxIdle := 0; rc_MaxActiveConns := 0; rc_IdleTimeout := 0; rc_ConnMaxLifetime := 0; rc_CacheTTL := second;
  rc_MarketBlockTTL := second;
  rc_Idempotency := {| ic_RequestTTL := 60 * second; ic_CompleteAttempts := 3; ic_CompleteAttemptTimeout := second;
                       ic_CompleteRetryDelay := second; ic_CleanupTimeout := second |} |}.

Definition demo_service_config : ServiceConfig := {|
  sc_Address := ":50051"; sc_Name := "order"; sc_MaxRecvMsgSize := 1024; sc_DBURI := "" |}.
Definition demo_timeouts : TimeoutsConfig := {| to_Service := 5 * second; to_Check := second |}.
Definition demo_health : HealthConfig := {| hc_CheckInterval := second; hc_SuccessThreshold := 1; hc_FailureThreshold := 3 |}.
Definition demo_pool : PostgresPoolConfig := {|
  pp_MaxConnections := 4; pp_MinConnections := 1; pp_MaxConnLifetime := 0; pp_MaxConnIdleTime := 0 |}.
Definition demo_tracing : TracingConfig := {|
  tc_CollectorEndpoint := "otel:4317"; tc_Environment := "dev"; tc_ServiceVersion := "1" |}.
Definition demo_metrics : MetricsConfig := {|
  mt_HTTPAddress := ":9090"; mt_ReadTimeout := second; mt_WriteTimeout := second; mt_IdleTimeout := second;
  mt_ShutdownTimeout := second |}.
Definition demo_keepalive : KeepAliveConfig := {|
  ka_PingTime := 10 * second; ka_PingTimeout := second; ka_MinPingInterval := second; ka_PermitWithoutStream := true |}.
Definition demo_log : LoggingConfig := {| lg_Level := "info"; lg_Format := "json"; lg_ContextFieldsMax := 8 |}.

Definition demo_order_config : OrderConfig := {|
  oc_Service := demo_service_config; oc_SpotAddress := "spot:50052"; oc_Timeouts := demo_timeouts;
  oc_Log := demo_log; oc_AuthVerifier := {| av_JWTSecret := ""; av_SkipMethods := [] |}; oc_Health := demo_health;
  oc_AuthIssuer := {| ai_AccessTokenTTL := 60 * second; ai_RefreshTokenTTL := 600 * second |};
  oc_CircuitBreaker := {| cb_MaxRequests := 1; cb_Interval := second; cb_Timeout := second; cb_MaxFailures := 5 |};
  oc_PostgresPool := demo_pool;
  oc_GRPCRateLimit := {| og_CreateOrder := 10; og_GetOrderStatus := 10; og_RefreshToken := 10 |};
  oc_RateLimitByUser := {| ru_CreateOrder := 5; ru_GetOrderStatus := 5; ru_Window := 60 * second |};
  oc_Redis := demo_redis_config; oc_Tracing := demo_tracing; oc_Metrics := demo_metrics;
  oc_KeepAlive := demo_keepalive;
  oc_Retry := {| re_MaxAttempts := 3; re_InitialBackoff := second; re_Jitter := float_1; re_PerRetryTimeout := second |};
  oc_Kafka := demo_kafka |}.

Definition demo_spot_config : SpotConfig := {|
  sp_Service := demo_service_config;
  sp_ViewMarkets := {| vm_DefaultLimit := 20; vm_MaxLimit := 100; vm_CacheLimit := 50 |};
  sp_Log := demo_log; sp_AuthVerifier := {| av_JWTSecret := ""; av_SkipMethods := [] |};
  sp_Timeouts := demo_timeouts; sp_Health := demo_health; sp_PostgresPool := demo_pool;
  sp_GRPCRateLimit := {| sg_ViewMarkets := 10; sg_GetMarketByID := 10 |}; sp_Redis := demo_redis_config;
  sp_Tracing := demo_tracing; sp_Metrics := demo_metrics; sp_KeepAlive := demo_keepalive; sp_Kafka := demo_kafka;
  sp_MarketPoller := {| mp_PollInterval := second; mp_ProcessingTimeout := 2 * second; mp_BatchSize := 10;
                        mp_RestartBackoff := second |} |}.

Definition demo_order_loaded : OrderConfig :=
  match OrderLoad (Ok demo_order_config) "postgres://" "secret" with Ok cfg => cfg | Err _ => demo_order_config end.

Definition demo_spot_loaded : SpotConfig :=
  match SpotLoad (Ok demo_spot_config) "postgres://" "secret" with Ok cfg => cfg | Err _ => demo_spot_config end.

Example demo_no_secret : OrderLoad (Ok demo_order_config) "postgres://" "" = Err (EMsg "JWT_SECRET is required").
Proof. reflexivity. Qed.

Example demo_split :
  SplitHostPort "[::1]:9093" = Ok ("::1", "9093") /\
  SplitHostPort "::1" = Err (EMsg "address ::1: too many colons in address").
Proof. split; reflexivity. Qed.

Lemma order_config_sound_witness :
  worker_ok (order_worker demo_order_loaded) /\
  (let s := order_service demo_order_loaded in
   0 < cfg_idem_ttl s /\ 0 < cfg_complete_attempts s /\ 0 < cfg_block_ttl s /\
   0 < rl_limit (provideRateLimiters s).1 /\ 0 < rl_limit (provideRateLimiters s).2 /\ 0 < cfg_window s) /\
  (let m := provideJWTManager demo_order_loaded in m_secret m <> "" /\ 0 < m_accessTTL m < m_refreshTTL m) /\
  (let c := order_consumer demo_order_loaded in
   0 <= cc_MaxRetries c /\
   (cc_DLQEnabled c = true -> cc_DLQTopic c <> "" /\ 0 < cc_DLQMaxMessageBytes c /\
      co_MaxMessageBytes (kf_Consumer (oc_Kafka demo_order_loaded)) <= cc_DLQMaxMessageBytes c)) /\
  NormalizeKafkaCompression (pr_Compression (kf_Producer (oc_Kafka demo_order_loaded))) ∈
    ["none"; "gzip"; "snappy"; "lz4"; "zstd"].
Proof. apply (order_config_sound (Ok demo_order_config) "postgres://" "secret"). vm_compute. reflexivity. Defined.

Lemma spot_config_sound_witness :
  sane_cfg (spot_viewer demo_spot_loaded) /\ 0 < vw_cacheTTL (spot_viewer demo_spot_loaded) /\
  vw_defaultLimit (spot_viewer demo_spot_loaded) <= vw_cacheLimit (spot_viewer demo_spot_loaded) /\
  0 < pc_batchSize (spot_poller demo_spot_loaded) /\ worker_ok (spot_worker demo_spot_loaded) /\
  tp_MarketStateChanged (kf_Topics (sp_Kafka demo_spot_loaded)) <> "".
Proof.
  apply (spot_config_sound (Ok demo_spot_config) "postgres://" "secret"); vm_compute; reflexivity.
Defined.
End Witness.
