(* ===== verification/Loading.v ===== *)
(** * Reading the configuration
      (shared/config/load.go, both config/load.go and config/load_migrate.go)

    Where a configuration comes from: the directory named by CONFIG_DIR, its
    optional .env file, which fills the process environment, and config.yaml.
    The environment is a map from names to values; godotenv, viper and the file
    system are one class. *)

From S2P Require Import Prelude GoStrings GoErrors Config.
Local Open Scope string_scope.
Local Open Scope list_scope.

(** ** package filepath *)

(** Clean: the elements of a path without empty ones and [.], each [..]
    undoing the element before it; [out] holds the result backwards. *)
Fixpoint clean_elements (rooted : bool) (out elements : list string) : list string :=
  match elements with
  | [] => out
  | element :: elements =>
      clean_elements rooted
        (if bool_decide (element = "") || bool_decide (element = ".") then out
         else if bool_decide (element = "..") then
           match out with
           | [] => if rooted then [] else [".."]
           | last :: rest => if bool_decide (last = "..") then ".." :: out else rest
           end
         else element :: out)
        elements
  end.

Definition Clean (path : string) : string :=
  let rooted := HasPrefix path "/" in
  let body := String.concat "/" (reverse (clean_elements rooted [] (Split "/" path))) in
  if rooted then "/" +:+ body else if bool_decide (body = "") then "." else body.

(** Join of a directory and a file name. *)
Definition Join (dir file : string) : string :=
  match filter (λ element, element <> "") [dir; file] with
  | [] => ""
  | elements => Clean (String.concat "/" elements)
  end.

Example join_dirs :
  Join "." ".env" = ".env" /\ Join "/etc//order/" "config.yaml" = "/etc/order/config.yaml" /\
  Join "../deploy/./x/.." "config.yaml" = "../deploy/config.yaml".
Proof. by vm_compute. Qed.

(** ** The process environment *)

Definition vars : Type := gmap string string.

Definition Getenv (env : vars) (name : string) : string := default "" (env !! name).

(** The file system as os.Stat, godotenv and viper see it. *)
Class ConfigFiles (Doc : Type) := {
  os_Stat : string -> option error;
  godotenv_Load : string -> vars -> result vars;
  ReadInConfig : string -> result Doc
}.

(** godotenv.Load does not override a variable that is set already. *)
Class ConfigFilesLaws `{L : ConfigFiles Doc} := {
  godotenv_keeps path env env' name value :
    godotenv_Load path env = Ok env' -> env !! name = Some value -> env' !! name = Some value
}.

(** viper's UnmarshalKey into a target of the given type. *)
Class Unmarshal (Doc T : Type) := UnmarshalKey : Doc -> string -> result T.

(** What the migration tools read of the file. *)
Record migrateSection := { ms_PostgresPool : PostgresPoolConfig }.

(** ** shared/config/load.go *)

Section Load.
Context {Doc : Type} `{L : ConfigFiles Doc} `{F : Fmt}.

Definition file_error (what path : string) (err : error) : error :=
  EWrap (what +:+ " " +:+ fmt_q path +:+ ": ") err "".

(** The document viper holds afterwards and the environment. *)
Definition loadIntoViper (configDir : string) (env : vars) : result Doc * vars :=
  let configDir := if bool_decide (configDir = "") then "." else configDir in
  let envPath := Join configDir ".env" in
  let loaded :=
    match os_Stat envPath with
    | None => match godotenv_Load envPath env with
              | Err err => Err (file_error "load .env file" envPath err)
              | Ok env => Ok env
              end
    | Some _ => Ok env
    end in
  match loaded with
  | Err err => (Err err, env)
  | Ok env =>
      let configPath := Join configDir "config.yaml" in
      match os_Stat configPath with
      | Some err => (Err (file_error "load config.yaml file" configPath err), env)
      | None => match ReadInConfig configPath with
                | Err err => (Err (file_error "read config file" configPath err), env)
                | Ok doc => (Ok doc, env)
                end
      end
  end.

Definition NewViper (configDir : string) (env : vars) : result Doc * vars :=
  match loadIntoViper configDir env with
  | (Err err, env) => (Err err, env)
  | (Ok v, env) => (Ok v, env)
  end.

Definition LoadKey {T} `{!Unmarshal Doc T} (configDir key : string) (env : vars) : result T * vars :=
  match NewViper configDir env with
  | (Err err, env) => (Err err, env)
  | (Ok v, env) => match UnmarshalKey v key with
                   | Err err => (Err (EWrap ("unmarshal " +:+ key +:+ " config: ") err ""), env)
                   | Ok target => (Ok target, env)
                   end
  end.

(** config/load.go of either service. *)
Definition resolveConfigDir (env : vars) : string :=
  let configDir := Getenv env "CONFIG_DIR" in
  if bool_decide (configDir = "") then "." else configDir.

Context `{!Unmarshal Doc OrderConfig} `{!Unmarshal Doc SpotConfig} `{!Unmarshal Doc migrateSection}.

Definition Order_Load (env : vars) : result OrderConfig :=
  match NewViper (resolveConfigDir env) env with
  | (Err err, _) => Err err
  | (Ok viper, env) =>
      OrderLoad (UnmarshalKey viper "order") (Getenv env "ORDER_DB_URI") (Getenv env "JWT_SECRET")
  end.

Definition Spot_Load (env : vars) : result SpotConfig :=
  match NewViper (resolveConfigDir env) env with
  | (Err err, _) => Err err
  | (Ok viper, env) =>
      SpotLoad (UnmarshalKey viper "spot") (Getenv env "SPOT_DB_URI") (Getenv env "JWT_SECRET")
  end.

(** ** config/load_migrate.go *)

Record MigrateConfig := { mgc_DBURI : string; mgc_PostgresPool : PostgresPoolConfig }.

(** The two services read their own key and variable. *)
Record migrate_keys := { mk_section : string; mk_variable : string }.

Definition order_keys := {| mk_section := "order"; mk_variable := "ORDER_DB_URI" |}.
Definition spot_keys := {| mk_section := "spot"; mk_variable := "SPOT_DB_URI" |}.

Definition validateMigrateConfig (keys : migrate_keys) (cfg : MigrateConfig) : option error :=
  first_error [
    fail_if (bool_decide (mgc_DBURI cfg = "")) [mk_variable keys; " is required"];
    ValidatePostgresPoolConfig "postgres_pool" (mgc_PostgresPool cfg)].

Definition LoadMigrate (keys : migrate_keys) (env : vars) : result MigrateConfig :=
  match LoadKey (resolveConfigDir env) (mk_section keys) env with
  | (Err err, _) => Err err
  | (Ok section, env) =>
      let dbURI := Getenv env (mk_variable keys) in
      if bool_decide (dbURI = "") then Err (EMsg (mk_variable keys +:+ " is required"))
      else
        let cfg := {| mgc_DBURI := dbURI; mgc_PostgresPool := ms_PostgresPool section |} in
        match validateMigrateConfig keys cfg with
        | Some err => Err err
        | None => Ok cfg
        end
  end.

Definition Order_LoadMigrate : vars -> result MigrateConfig := LoadMigrate order_keys.
Definition Spot_LoadMigrate : vars -> result MigrateConfig := LoadMigrate spot_keys.

(** main.go: a fatal log line with its error, or the service with its
    configuration. *)
Inductive process (Cfg : Type) := Fatal (err : error) | Runs (cfg : Cfg).
Arguments Fatal {Cfg} err.
Arguments Runs {Cfg} cfg.

Definition main {Cfg} (loaded : result Cfg) : process Cfg :=
  match loaded with
  | Err err => Fatal (EWrap "failed to load config: " err "")
  | Ok cfg => Runs cfg
  end.

Definition order_main (env : vars) : process OrderConfig := main (Order_Load env).
Definition spot_main (env : vars) : process SpotConfig := main (Spot_Load env).

(** ** Properties *)

Context `{!ConfigFilesLaws}.

Lemma loadIntoViper_keeps configDir env name value :
  env !! name = Some value -> (loadIntoViper configDir env).2 !! name = Some value.
Proof.
  intros Hn. unfold loadIntoViper. case_match eqn:Hl; [|done].
  assert (a !! name = Some value).
  { destruct (os_Stat (Join _ ".env")); simplify_eq; [done|].
    destruct (godotenv_Load _ _) eqn:Hg; simplify_eq. by eapply godotenv_keeps. }
  by repeat case_match.
Qed.

Lemma NewViper_keeps configDir env doc env' name value :
  NewViper configDir env = (Ok doc, env') -> env !! name = Some value ->
  Getenv env' name = value.
Proof.
  intros Hv Hn. apply (loadIntoViper_keeps configDir) in Hn. unfold NewViper in Hv, Hn.
  destruct (loadIntoViper configDir env) as [[?|?] e] eqn:E; simplify_eq/=.
  unfold Getenv. by rewrite Hn.
Qed.

(** A service that starts uses the secret and the database of its process
    environment when they are set there, whatever the .env file says, and its
    configuration has passed every check. *)
Theorem process_environment_wins env cfg uri secret :
  Order_Load env = Ok cfg ->
  env !! "ORDER_DB_URI" = Some uri -> env !! "JWT_SECRET" = Some secret ->
  sc_DBURI (oc_Service cfg) = uri /\ av_JWTSecret (oc_AuthVerifier cfg) = secret /\
  validateOrderConfig cfg = None.
Proof.
  unfold Order_Load. destruct (NewViper _ env) as [[doc|?] env'] eqn:Hv; [|done].
  intros Hl Hu Hs. apply (NewViper_keeps _ _ _ _ _ _ Hv) in Hu, Hs. subst.
  apply OrderLoad_uses in Hl. tauto.
Qed.

(** A loaded migration configuration has a database and pool bounds that the
    validator accepts. *)
Theorem load_migrate_valid keys env cfg :
  LoadMigrate keys env = Ok cfg ->
  mgc_DBURI cfg <> "" /\ ValidatePostgresPoolConfig "postgres_pool" (mgc_PostgresPool cfg) = None.
Proof.
  unfold LoadMigrate. destruct (LoadKey _ _ _) as [[section|?] env']; [|done].
  case_bool_decide; [done|]. destruct (validateMigrateConfig _ _) eqn:Hv; [done|].
  intros [= <-]. split; [done|]. unfold validateMigrateConfig in Hv.
  rewrite !first_error_None in Hv. tauto.
Qed.
End Load.

(** ** Closed instances *)

Section LoadingWitness.
#[local] Existing Instance PlainFmt.

(** A directory with both files, the first defining two variables. *)
Definition DemoFiles : ConfigFiles unit := {|
  os_Stat path := if bool_decide (path ∈ ["conf/.env"; "conf/config.yaml"]) then None else Some (EMsg "not found");
  godotenv_Load _ env := Ok (env ∪ {[ "JWT_SECRET" := "file"; "ORDER_DB_URI" := "postgres://file" ]});
  ReadInConfig _ := Ok tt
|}.
#[local] Existing Instance DemoFiles.

Lemma DemoFiles_laws : ConfigFilesLaws.
Proof. split. intros _ env env' name value [= <-] Hn. by apply lookup_union_Some_l. Qed.
#[local] Existing Instance DemoFiles_laws.

#[local] Instance demo_unmarshal : Unmarshal unit OrderConfig := λ _ _, Ok demo_order_config.
#[local] Instance demo_unmarshal_section : Unmarshal unit migrateSection :=
  λ _ _, Ok {| ms_PostgresPool := demo_pool |}.

Definition demo_vars : vars :=
  {[ "CONFIG_DIR" := "conf"; "JWT_SECRET" := "process"; "ORDER_DB_URI" := "postgres://process" ]}.

Definition demo_started : OrderConfig :=
  match Order_Load demo_vars with Ok cfg => cfg | Err _ => demo_order_config end.

(** The file only fills what the process left unset. *)
Example demo_file_fills :
  (cfg ← match Order_Load (delete "JWT_SECRET" demo_vars) with Ok c => Some c | Err _ => None end;
   Some (av_JWTSecret (oc_AuthVerifier cfg), sc_DBURI (oc_Service cfg))) = Some ("file", "postgres://process").
Proof. by vm_compute. Qed.

Lemma process_environment_wins_witness :
  sc_DBURI (oc_Service demo_started) = "postgres://process" /\
  av_JWTSecret (oc_AuthVerifier demo_started) = "process" /\ validateOrderConfig demo_started = None.
Proof. apply (process_environment_wins demo_vars); vm_compute; reflexivity. Defined.

Lemma load_migrate_valid_witness :
  let cfg := {| mgc_DBURI := "postgres://process"; mgc_PostgresPool := demo_pool |} in
  mgc_DBURI cfg <> "" /\ ValidatePostgresPoolConfig "postgres_pool" (mgc_PostgresPool cfg) = None.
Proof. apply (load_migrate_valid order_keys demo_vars). vm_compute. reflexivity. Defined.
End LoadingWitness.
