(* ===== verification/DbPool.v ===== *)
(** * The database pool and the migrations
      (shared/infrastructure/db, shared/infrastructure/db/migrator, both
      cmd/migrate)

    A process opens a pgx pool at its start, or opens one, migrates the
    database and exits.  [pools] is what it has open; pgx, database/sql over a
    pool and goose are one class.  Whatever fails, no pool and no handle stays
    open that the caller does not hold. *)

From S2P Require Import Prelude GoStrings GoErrors Effects Config Loading.
Local Open Scope string_scope.
Local Open Scope list_scope.
Local Open Scope Z_scope.

(** ** Pools, handles and their library *)

Record PoolConfig := {
  pl_MaxConnections : Z; pl_MinConnections : Z; pl_MaxConnLifetime : Z; pl_MaxConnIdleTime : Z }.

(** [*pgxpool.Config]: what the code sets, and the connection string for what
    it leaves to pgx. *)
Record pgx_config := {
  px_ConnString : string; px_MaxConns : Z; px_MinConns : Z; px_MaxConnLifetime : Z; px_MaxConnIdleTime : Z }.

(** The open pools with their settings, the open [*sql.DB]s with their pool,
    and the schema of the database. *)
Record pools (Schema : Type) := Pools {
  ps_next : nat;
  ps_open : gmap nat pgx_config;
  ps_dbs : gmap nat nat;
  ps_schema : Schema
}.
Arguments Pools {Schema} _ _ _ _.
Arguments ps_next {Schema} _.
Arguments ps_open {Schema} _.
Arguments ps_dbs {Schema} _.
Arguments ps_schema {Schema} _.

Class PgxLib (FS Schema : Type) := {
  ParseConfig : string -> result pgx_config;
  pool_refused : pgx_config -> option error;     (* what NewWithConfig checks before it connects *)
  goose_NewProvider : FS -> option error;        (* parsing the migrations of the file system *)
  goose_Up : FS -> Schema -> result unit * Schema
}.

(** The pool underneath needs room for one connection. *)
Class PgxLaws (FS Schema : Type) `{L : PgxLib FS Schema} := {
  pool_size_positive cfg : (px_MaxConns cfg < 1)%Z -> pool_refused cfg <> None
}.

Definition ErrClosedPool : error := EMsg "closed pool".
Definition ErrDbClosed : error := EMsg "sql: database is closed".

(** [defer cleanup()]: it runs when the function returns, whatever it
    returns. *)
Definition deferred {St A} (cleanup : M St unit) (body : M St A) : M St A :=
  let! a := body in cleanup ;;! mret a.

Notation "'defer!' c 'in' m" := (deferred c m)
  (at level 200, c at level 100, m at level 200, format "'[v' 'defer!'  c  'in' '/' m ']'") : go_scope.

Section Pools.
Context {FS Schema St : Type} `{L : PgxLib FS Schema} `{H : !Has (pools Schema) St}.

Definition set_pools (f : pools Schema -> pools Schema) : M St unit :=
  modify (λ s, upd (f (prj s)) s).

(** pgxpool.NewWithConfig: a pool, or an error and none. *)
Definition NewWithConfig (cfg : pgx_config) : M St (result nat) :=
  call e_now (λ _ f s,
    let p := prj s in
    match pool_refused cfg with
    | Some err => (Err err, s)
    | None =>
        match f with
        | FNone => (Ok (ps_next p),
                    upd (Pools (S (ps_next p)) (<[ps_next p := cfg]> (ps_open p)) (ps_dbs p) (ps_schema p)) s)
        | FBefore err | FAfter err => (Err err, s)
        end
    end).

Definition pool_Close (pool : nat) : M St unit :=
  set_pools (λ p, Pools (ps_next p) (delete pool (ps_open p)) (ps_dbs p) (ps_schema p)).

Definition pool_Ping (pool : nat) : M St (result unit) :=
  call e_now (λ _, faulty (λ s,
    (match ps_open (prj s) !! pool with Some _ => Ok tt | None => Err ErrClosedPool end, s))).

(** stdlib.OpenDBFromPool; closing the handle leaves the pool open. *)
Definition OpenDBFromPool (pool : nat) : M St nat :=
  let! s := get in
  let p := prj s in
  set_pools (λ p, Pools (S (ps_next p)) (ps_open p) (<[ps_next p := pool]> (ps_dbs p)) (ps_schema p)) ;;!
  mret (ps_next p).

Definition sqlDB_Close (sqlDB : nat) : M St unit :=
  set_pools (λ p, Pools (ps_next p) (ps_open p) (delete sqlDB (ps_dbs p)) (ps_schema p)).

(** provider.Up on a handle whose pool is open. *)
Definition provider_Up (sqlDB : nat) (fs : FS) : M St (result unit) :=
  call e_now (λ _, faulty (λ s,
    let p := prj s in
    match ps_dbs p !! sqlDB ≫= λ pool, ps_open p !! pool with
    | None => (Err ErrDbClosed, s)
    | Some _ => let '(r, schema) := goose_Up fs (ps_schema p) in
                (r, upd (Pools (ps_next p) (ps_open p) (ps_dbs p) schema) s)
    end)).

(** provider.Close closes the handle the provider was given. *)
Definition provider_Close : nat -> M St unit := sqlDB_Close.

(** ** migrator/postgres_migrator.go *)

Record Migrator := { mg_db : nat; mg_migrationsFS : FS }.

Definition NewMigrator (db : nat) (migrationsFS : FS) : Migrator :=
  {| mg_db := db; mg_migrationsFS := migrationsFS |}.

Definition Migrator_Up (m : Migrator) : M St (result unit) :=
  match goose_NewProvider (mg_migrationsFS m) with
  | Some err => mret (Err (EWrap "goose.NewProvider: " err ""))
  | None => defer! provider_Close (mg_db m) in provider_Up (mg_db m) (mg_migrationsFS m)
  end.

(** ** postgres.go *)

Definition op_OpenPostgres := "db.OpenPostgres".
Definition op_MigratePostgres := "db.MigratePostgres".
Definition op_newPostgresPool := "db.newPostgresPool".
Definition op_runPostgresMigrations := "db.runPostgresMigrations".

Definition applyPoolConfig (cfg : pgx_config) (poolConfig : PoolConfig) : pgx_config := {|
  px_ConnString := px_ConnString cfg;
  px_MaxConns := pl_MaxConnections poolConfig;
  px_MinConns := pl_MinConnections poolConfig;
  px_MaxConnLifetime := pl_MaxConnLifetime poolConfig;
  px_MaxConnIdleTime := pl_MaxConnIdleTime poolConfig |}.

(** The deferred function closes the pool unless [ok] was set, which is the
    case when the result is no error. *)
Definition newPostgresPool (dbURI : string) (config : PoolConfig) : M St (result nat) :=
  match ParseConfig dbURI with
  | Err err => mret (Err (EWrap (op_newPostgresPool +:+ ": parse config: ") err ""))
  | Ok cfg =>
      let cfg := applyPoolConfig cfg config in
      try! pool := NewWithConfig cfg else λ err, EWrap (op_newPostgresPool +:+ ": create pool: ") err "" in
      let! err := pool_Ping pool in
      match err with
      | Err err => pool_Close pool ;;! mret (Err (EWrap (op_newPostgresPool +:+ ": ping db: ") err ""))
      | Ok _ => mret (Ok pool)
      end
  end.

Definition OpenPostgres (dbURI : string) (config : PoolConfig) : M St (result nat) :=
  try! pool := newPostgresPool dbURI config else wrap op_OpenPostgres in
  mret (Ok pool).

Definition runPostgresMigrations (pool : nat) (migrationsFS : FS) : M St (result unit) :=
  let! sqlDB := OpenDBFromPool pool in
  defer! sqlDB_Close sqlDB in
    (let dbMigrator := NewMigrator sqlDB migrationsFS in
     try! _ := Migrator_Up dbMigrator else λ err, EWrap (op_runPostgresMigrations +:+ ": run migrations: ") err "" in
     mret (Ok tt)).

Definition MigratePostgres (dbURI : string) (migrationsFS : FS) (config : PoolConfig) : M St (result unit) :=
  try! pool := newPostgresPool dbURI config else wrap op_MigratePostgres in
  defer! pool_Close pool in
    (let! err := runPostgresMigrations pool migrationsFS in
     match err with
     | Err err => pool_Close pool ;;! mret (Err (wrap op_MigratePostgres err))
     | Ok _ => mret (Ok tt)
     end).

(** ** The settings of a configuration and cmd/migrate/main.go *)

Definition pool_config (cfg : PostgresPoolConfig) : PoolConfig := {|
  pl_MaxConnections := pp_MaxConnections cfg; pl_MinConnections := pp_MinConnections cfg;
  pl_MaxConnLifetime := pp_MaxConnLifetime cfg; pl_MaxConnIdleTime := pp_MaxConnIdleTime cfg |}.

(** main: a fatal log line with its error, or the migrated database. *)
Definition migrate_main (name : string) (loaded : result MigrateConfig) (migrations : FS) : M St (result unit) :=
  match loaded with
  | Err err => mret (Err (EWrap "failed to load migrate config: " err ""))
  | Ok cfg =>
      try! _ := MigratePostgres (mgc_DBURI cfg) migrations (pool_config (mgc_PostgresPool cfg))
        else λ err, EWrap ("failed to migrate " +:+ name +:+ " db: ") err "" in
      mret (Ok tt)
  end.

Context `{C : ConfigFiles Doc} `{!Unmarshal Doc migrateSection} `{F : Fmt}.

Definition order_migrate_main (env : vars) (migrations : FS) : M St (result unit) :=
  migrate_main "order" (Order_LoadMigrate env) migrations.

Definition spot_migrate_main (env : vars) (migrations : FS) : M St (result unit) :=
  migrate_main "spot" (Spot_LoadMigrate env) migrations.

(** infra_providers.go of both services. *)
Definition order_providePostgresPool (cfg : OrderConfig) : M St (result nat) :=
  OpenPostgres (sc_DBURI (oc_Service cfg)) (pool_config (oc_PostgresPool cfg)).

Definition spot_providePostgresPool (cfg : SpotConfig) : M St (result nat) :=
  OpenPostgres (sc_DBURI (sp_Service cfg)) (pool_config (sp_PostgresPool cfg)).

(** ** Properties *)

(** Identifiers of pools and handles are not reused. *)
Definition pools_wf (p : pools Schema) : Prop :=
  (forall n, is_Some (ps_open p !! n) -> (n < ps_next p)%nat) /\
  (forall n, is_Some (ps_dbs p !! n) -> (n < ps_next p)%nat).

Lemma pools_wf_fresh p : pools_wf p ->
  ps_open p !! ps_next p = None /\ ps_dbs p !! ps_next p = None.
Proof.
  intros [Ho Hd]. split; apply eq_None_not_Some; intros Hs;
    [apply Ho in Hs|apply Hd in Hs]; lia.
Qed.

Definition pool_of (w : world St) : pools Schema := prj (w_st w).

Lemma wp_set_pools f (Q : unit -> world St -> Prop) w :
  (forall w', pool_of w' = f (pool_of w) -> Q tt w') -> wp (set_pools f) Q w.
Proof. intros HQ. apply wp_modify, HQ. unfold pool_of. simpl. by rewrite prj_upd. Qed.

Lemma wp_Ping pool Q w :
  (forall r, Q r (World (tick (w_env w)) (w_st w))) -> wp (pool_Ping pool) Q w.
Proof. intros HQ. apply wp_call. intros _ f _ _. destruct f; apply HQ. Qed.

(** A new pool is the only thing that a successful opening leaves. *)
Definition opened (uri : string) (config : PoolConfig) (p : pools Schema) (r : result nat) (p' : pools Schema) : Prop :=
  match r with
  | Ok pool => pool = ps_next p /\ exists cfg, ParseConfig uri = Ok cfg /\
      p' = Pools (S pool) (<[pool := applyPoolConfig cfg config]> (ps_open p)) (ps_dbs p) (ps_schema p)
  | Err _ => ps_open p' = ps_open p /\ ps_dbs p' = ps_dbs p /\ ps_schema p' = ps_schema p
  end.

Lemma newPostgresPool_opened uri config w : pools_wf (pool_of w) ->
  wp (newPostgresPool uri config) (λ r w', opened uri config (pool_of w) r (pool_of w')) w.
Proof.
  intros Hwf. destruct (pools_wf_fresh _ Hwf) as [Hf _]. unfold newPostgresPool.
  destruct (ParseConfig uri) as [cfg|err] eqn:Hp; [|by apply wp_ret].
  apply wp_bind, wp_call. intros _ f _ _. fold (pool_of w).
  destruct (pool_refused _); simpl; [by apply wp_ret|].
  destruct f; [|by apply wp_ret..]. simpl.
  apply wp_bind, wp_Ping. intros [[]|err]; simpl.
  - apply wp_ret. unfold pool_of. simpl. rewrite prj_upd. split; [done|]. by exists cfg.
  - apply wp_bind, wp_set_pools. intros w' Hw'. apply wp_ret. simpl. rewrite Hw'.
    unfold pool_of in *. simpl. rewrite prj_upd. simpl. by rewrite delete_insert_id.
Qed.

(** The schema after a run of the migrations with the given result. *)
Definition migrated (fs : FS) (before : Schema) (r : result unit) (after : Schema) : Prop :=
  match r with
  | Ok _ => goose_NewProvider fs = None /\ goose_Up fs before = (Ok tt, after)
  | Err _ => after = before \/ after = (goose_Up fs before).2
  end.

Lemma wp_provider_Up sqlDB fs Q w :
  goose_NewProvider fs = None ->
  (forall r w', ps_open (pool_of w') = ps_open (pool_of w) -> ps_dbs (pool_of w') = ps_dbs (pool_of w) ->
     migrated fs (ps_schema (pool_of w)) r (ps_schema (pool_of w')) -> Q r w') ->
  wp (provider_Up sqlDB fs) Q w.
Proof.
  intros Hn HQ. apply wp_call. intros _ f _ _.
  assert (Hup : forall r, (r = (goose_Up fs (ps_schema (pool_of w))).1 \/ exists err, r = Err err) ->
    Q r (World (tick (w_env w)) (upd (Pools (ps_next (pool_of w)) (ps_open (pool_of w)) (ps_dbs (pool_of w))
                                        (goose_Up fs (ps_schema (pool_of w))).2) (w_st w)))).
  { intros r Hr. apply HQ; unfold pool_of; simpl; rewrite ?prj_upd; try done. simpl. fold (pool_of w).
    destruct (goose_Up _ _) as [[[]|e] schema] eqn:E; destruct Hr as [->|[err ->]]; unfold migrated; simpl;
      rewrite ?E; auto. }
  destruct f as [|err|err]; simpl; [..|]; fold (pool_of w); try (apply HQ; try done; by left);
    (destruct (_ ≫= _); simpl; [|apply HQ; try done; by left]);
    destruct (goose_Up fs _) as [r schema] eqn:E; simpl in *; apply Hup; eauto.
Qed.

(** The provider gives back its handle. *)
Lemma Migrator_Up_spec m w :
  wp (Migrator_Up m) (λ r w',
    ps_open (pool_of w') = ps_open (pool_of w) /\
    delete (mg_db m) (ps_dbs (pool_of w')) = delete (mg_db m) (ps_dbs (pool_of w)) /\
    migrated (mg_migrationsFS m) (ps_schema (pool_of w)) r (ps_schema (pool_of w'))) w.
Proof.
  unfold Migrator_Up. destruct (goose_NewProvider _) eqn:Hn.
  { apply wp_ret. split_and!; [done..|by left]. }
  apply wp_bind, wp_provider_Up; [done|]. intros r w1 Ho Hd Hm.
  apply wp_bind, wp_set_pools. intros w2 Hw2. apply wp_ret. rewrite Hw2, Ho, Hd. simpl.
  by rewrite delete_delete_eq.
Qed.

Lemma runPostgresMigrations_spec pool fs w : pools_wf (pool_of w) ->
  wp (runPostgresMigrations pool fs) (λ r w',
    ps_open (pool_of w') = ps_open (pool_of w) /\ ps_dbs (pool_of w') = ps_dbs (pool_of w) /\
    migrated fs (ps_schema (pool_of w)) r (ps_schema (pool_of w'))) w.
Proof.
  intros Hwf. destruct (pools_wf_fresh _ Hwf) as [_ Hf]. unfold runPostgresMigrations, OpenDBFromPool.
  apply wp_bind, wp_bind, wp_get, wp_bind, wp_set_pools. intros w1 Hw1. apply wp_ret.
  fold (pool_of w) in *. apply wp_bind, wp_bind. eapply wp_mono; [apply Migrator_Up_spec|]. simpl.
  intros r w2 (Ho & Hd & Hm). rewrite Hw1 in Ho, Hd, Hm. simpl in *.
  assert (Hend : wp (sqlDB_Close (ps_next (pool_of w))) (λ _ w',
    ps_open (pool_of w') = ps_open (pool_of w) /\ ps_dbs (pool_of w') = ps_dbs (pool_of w) /\
    ps_schema (pool_of w') = ps_schema (pool_of w2)) w2).
  { apply wp_set_pools. intros w3 ->. simpl. rewrite Hd, delete_insert_id by done. auto. }
  destruct r as [[]|err]; apply wp_ret, wp_bind; (eapply wp_mono; [apply Hend|]);
    intros _ w3 (Ho3 & Hd3 & Hs); apply wp_ret; by rewrite Ho3, Hd3, Hs.
Qed.

(** Opening the pool of a service either fails and leaves nothing open, or
    returns the one pool it opened, with the settings of the configuration and
    the rest of pgx's defaults. *)
Theorem open_postgres_leaks_nothing uri config w : pools_wf (pool_of w) ->
  wp (OpenPostgres uri config) (λ r w', opened uri config (pool_of w) r (pool_of w')) w.
Proof.
  intros Hwf. unfold OpenPostgres. apply wp_bind.
  eapply wp_mono; [by apply newPostgresPool_opened|]. intros [pool|err] w' H'; by apply wp_ret.
Qed.

(** Migrating a database leaves no pool and no handle open, whatever failed;
    when it succeeds, every pending migration was applied. *)
Theorem migrate_leaves_nothing_open uri fs config w : pools_wf (pool_of w) ->
  wp (MigratePostgres uri fs config) (λ r w',
    ps_open (pool_of w') = ps_open (pool_of w) /\ ps_dbs (pool_of w') = ps_dbs (pool_of w) /\
    migrated fs (ps_schema (pool_of w)) r (ps_schema (pool_of w'))) w.
Proof.
  intros Hwf. unfold MigratePostgres. destruct (pools_wf_fresh _ Hwf) as [Hf _].
  apply wp_bind. eapply wp_mono; [by apply newPostgresPool_opened|]. intros [pool|err] w1; simpl.
  2:{ intros (Ho & Hd & Hs). apply wp_ret. split_and!; [done..|by left]. }
  intros (-> & cfg & Hc & Hw1).
  assert (Hwf1 : pools_wf (pool_of w1)).
  { destruct Hwf as [Hwo Hwd]. rewrite Hw1. split; simpl.
    - intros n [Hn|[_ Hn%Hwo]]%lookup_insert_is_Some; lia.
    - intros n Hn%Hwd. lia. }
  assert (Hclose : delete (ps_next (pool_of w)) (ps_open (pool_of w1)) = ps_open (pool_of w))
    by (rewrite Hw1; by apply delete_insert_id).
  apply wp_bind, wp_bind. eapply wp_mono; [by apply runPostgresMigrations_spec|]. intros r w2 (Ho & Hd & Hm).
  rewrite Hw1 in Hd, Hm. simpl in Hd, Hm. destruct r as [[]|err].
  - apply wp_ret, wp_bind, wp_set_pools. intros w3 Hw3. apply wp_ret. rewrite Hw3. simpl.
    rewrite Ho, Hclose. auto.
  - apply wp_bind, wp_set_pools. intros w3 Hw3. apply wp_ret, wp_bind, wp_set_pools. intros w4 Hw4.
    apply wp_ret. rewrite Hw4, Hw3. simpl. rewrite Ho, Hclose.
    rewrite delete_id by done. auto.
Qed.

(** cmd/migrate exits without a fatal error only if its configuration was
    accepted and the migrations were applied. *)
Theorem migrate_main_spec name loaded fs w : pools_wf (pool_of w) ->
  wp (migrate_main name loaded fs) (λ r w',
    ps_open (pool_of w') = ps_open (pool_of w) /\ ps_dbs (pool_of w') = ps_dbs (pool_of w) /\
    match r with
    | Ok _ => (exists cfg, loaded = Ok cfg) /\ goose_Up fs (ps_schema (pool_of w)) = (Ok tt, ps_schema (pool_of w'))
    | Err _ => ps_schema (pool_of w') = ps_schema (pool_of w) \/
               ps_schema (pool_of w') = (goose_Up fs (ps_schema (pool_of w))).2
    end) w.
Proof.
  intros Hwf. unfold migrate_main. destruct loaded as [cfg|err]; [|apply wp_ret; auto].
  apply wp_bind. eapply wp_mono; [by apply migrate_leaves_nothing_open|].
  intros [[]|err] w' (Ho & Hd & Hm); apply wp_ret; [destruct Hm|]; eauto.
Qed.

(** When nothing fails, the migration tool applies the migrations and exits
    without an error. *)
Theorem migrate_main_succeeds name cfg fs c schema w :
  pools_wf (pool_of w) -> no_faults (w_env w) ->
  ParseConfig (mgc_DBURI cfg) = Ok c ->
  pool_refused (applyPoolConfig c (pool_config (mgc_PostgresPool cfg))) = None ->
  goose_NewProvider fs = None -> goose_Up fs (ps_schema (pool_of w)) = (Ok tt, schema) ->
  wp (migrate_main name (Ok cfg) fs) (λ r w', r = Ok tt /\ ps_schema (pool_of w') = schema) w.
Proof.
  intros Hwf [Hf _] Hp Hr Hn Hu. enough (Hok : wp (migrate_main name (Ok cfg) fs) (λ r _, r = Ok tt) w).
  { eapply wp_mono; [apply wp_conj; [by apply migrate_main_spec|exact Hok]|].
    intros r w' ((_ & _ & Hr') & ->). destruct Hr' as [_ Hr']. split; [done|]. congruence. }
  unfold wp, migrate_main, MigratePostgres, newPostgresPool, runPostgresMigrations, Migrator_Up, deferred,
    NewWithConfig, pool_Ping, provider_Up, OpenDBFromPool, sqlDB_Close, provider_Close, set_pools, call, mbind,
    mret, get, modify. rewrite Hp, Hr, Hf. simpl. rewrite Hf. simpl. rewrite prj_upd. simpl.
  rewrite lookup_insert_eq. simpl. rewrite Hn. simpl. rewrite Hf. simpl. rewrite !prj_upd. simpl.
  rewrite lookup_insert_eq. simpl. rewrite lookup_insert_eq. unfold pool_of in Hu. by rewrite Hu.
Qed.

(** A maximum of no connections passes the validator, which takes 0 for
    "unset", but no pool can be opened with it. *)
Lemma no_connections_never_opens `{!PgxLaws FS Schema} uri config w :
  pl_MaxConnections config = 0 ->
  wp (OpenPostgres uri config) (λ r _, exists err, r = Err err) w.
Proof.
  intros Hz. unfold OpenPostgres, newPostgresPool. destruct (ParseConfig uri) as [cfg|]; [|by eexists].
  apply wp_bind, wp_bind, wp_call. intros _ f _ _.
  pose proof (pool_size_positive (applyPoolConfig cfg config)) as Hr. simpl in Hr.
  destruct (pool_refused _); [by eexists|]. destruct Hr; [lia|done].
Qed.
End Pools.

(** ** Closed instances *)

Section PoolWitness.
(** Migrations are numbers; a database holds those applied. *)
Definition DemoPgx : PgxLib (list nat) (list nat) := {|
  ParseConfig uri := if HasPrefix uri "postgres://" then
      Ok {| px_ConnString := uri; px_MaxConns := 4; px_MinConns := 0; px_MaxConnLifetime := 3600 * second;
            px_MaxConnIdleTime := 1800 * second |}
    else Err (EMsg "cannot parse");
  pool_refused cfg := if px_MaxConns cfg <? 1 then Some (EMsg "MaxSize must be >= 1") else None;
  goose_NewProvider fs := if bool_decide (fs = []) then Some (EMsg "no migrations found") else None;
  goose_Up fs schema := (Ok tt, schema ++ filter (λ m, m ∉ schema) fs)
|}.
#[local] Existing Instance DemoPgx.

Lemma DemoPgx_laws : PgxLaws (list nat) (list nat).
Proof. split. intros cfg Hc. simpl. by rewrite (proj2 (Z.ltb_lt _ _) Hc). Qed.

(** A process with one pool open, and an environment whose [n]-th call
    fails. *)
Definition demo_pools : pools (list nat) :=
  Pools 1 {[ 0%nat := {| px_ConnString := "postgres://other"; px_MaxConns := 1; px_MinConns := 0;
                         px_MaxConnLifetime := 0; px_MaxConnIdleTime := 0 |} ]} ∅ [1%nat].

Definition failing_at (k : nat) : env :=
  Env (λ n, if bool_decide (n = k) then FAfter (EMsg "connection reset") else FNone) (λ _, None)
    (λ _, 0) (λ _, 0) (λ _, 0) (λ n, N.of_nat n) 0.

Lemma demo_pools_wf : pools_wf demo_pools.
Proof.
  split; intros n Hn; simpl in *.
  - destruct Hn as [? [<- _]%lookup_singleton_Some]. lia.
  - destruct Hn as [? Hn]. by rewrite lookup_empty in Hn.
Qed.

Definition demo_migrate : MigrateConfig := {| mgc_DBURI := "postgres://order"; mgc_PostgresPool := demo_pool |}.

(** The migrations fail at their own call, after they were applied. *)
Example demo_migrate_fails :
  let '(r, w) := migrate_main "order" (Ok demo_migrate) [1; 2; 3]%nat (World (failing_at 2) demo_pools) in
  (is_Ok r, size (ps_open (w_st w)), size (ps_dbs (w_st w)), ps_schema (w_st w)) =
  (false, 1%nat, 0%nat, [1; 2; 3]%nat).
Proof. by vm_compute. Qed.

Lemma migrate_leaves_nothing_open_witness :
  let w := World (failing_at 2) demo_pools in
  wp (MigratePostgres "postgres://order" [1; 2]%nat (pool_config demo_pool)) (λ r w',
    ps_open (pool_of w') = ps_open (pool_of w) /\ ps_dbs (pool_of w') = ps_dbs (pool_of w) /\
    migrated [1; 2]%nat (ps_schema (pool_of w)) r (ps_schema (pool_of w'))) w.
Proof. apply migrate_leaves_nothing_open, demo_pools_wf. Defined.

Lemma open_postgres_leaks_nothing_witness :
  let w := World (failing_at 1) demo_pools in
  wp (OpenPostgres "postgres://order" (pool_config demo_pool)) (λ r w',
    opened "postgres://order" (pool_config demo_pool) (pool_of w) r (pool_of w')) w.
Proof. apply open_postgres_leaks_nothing, demo_pools_wf. Defined.

Lemma migrate_main_succeeds_witness :
  wp (migrate_main "order" (Ok demo_migrate) [1; 2; 3]%nat) (λ r w',
    r = Ok tt /\ ps_schema (pool_of w') = [1; 2; 3]%nat) (World quiet_env demo_pools).
Proof.
  eapply (migrate_main_succeeds "order" demo_migrate); [apply demo_pools_wf|done|reflexivity..].
Defined.
End PoolWitness.
