(* ===== verification/Wiring.v ===== *)
(** * Assembling the services
      (application/order/infra_providers.go, service_providers.go and
      grpc_providers.go, the same files of application/spot, and
      client/grpc/breaker)

    What the providers hand to the drivers and to the components: the settings
    of sarama, go-redis, gRPC and the breakers, and each component's
    parameters.  The drivers' own defaults are a class.  The theorems show that
    a configuration accepted at start-up gives every part the settings that it
    and the parts around it need. *)

From S2P Require Import Prelude GoStrings GoErrors Effects Kafka KafkaConsumer RateLimit Outbox OrderService ErrorMap Auth SpotDb MarketView MarketPoller Config.
From Stdlib Require Import SpecFloat.
Local Open Scope string_scope.
Local Open Scope list_scope.
Local Open Scope Z_scope.

(** ** Settings of the drivers *)

Inductive required_acks := NoResponse | WaitForLocal | WaitForAll.
Inductive codec := CompressionNone | CompressionGZIP | CompressionSnappy | CompressionLZ4 | CompressionZSTD.
Inductive initial_offset := OffsetNewest | OffsetOldest.

(** The fields of sarama.Config that the providers set. *)
Record sarama_net := { sn_DialTimeout : Z; sn_ReadTimeout : Z; sn_WriteTimeout : Z }.
Record sarama_metadata := { sm_Timeout : Z; sm_RetryMax : Z; sm_RetryBackoff : Z }.
Record sarama_producer := {
  spr_ReturnSuccesses : bool; spr_ReturnErrors : bool; spr_RequiredAcks : required_acks; spr_Timeout : Z;
  spr_RetryMax : Z; spr_RetryBackoff : Z; spr_Compression : codec }.
Record sarama_consumer := {
  scn_SessionTimeout : Z; scn_HeartbeatInterval : Z; scn_OffsetsInitial : initial_offset; scn_FetchMax : Z;
  scn_FetchDefault : Z; scn_RetryBackoff : Z }.
Record sarama_config := {
  sac_ClientID : string; sac_ChannelBufferSize : Z; sac_Net : sarama_net; sac_Metadata : sarama_metadata;
  sac_Producer : sarama_producer; sac_Consumer : sarama_consumer }.

(** sarama: its defaults, and connecting. *)
Class Sarama (P G : Type) := {
  sarama_NewConfig : sarama_config;
  NewAsyncProducer : list string -> sarama_config -> result P;
  NewConsumerGroup : list string -> string -> sarama_config -> result G
}.

Record redis_options := {
  ro_Addr : string; ro_DialTimeout : Z; ro_ReadTimeout : Z; ro_WriteTimeout : Z; ro_PoolSize : Z;
  ro_MinIdleConns : Z; ro_MaxIdleConns : Z; ro_MaxActiveConns : Z; ro_ConnMaxIdleTime : Z; ro_ConnMaxLifetime : Z }.

Record server_options := {
  so_MaxRecvMsgSize : Z; so_Time : Z; so_Timeout : Z; so_MinTime : Z; so_PermitWithoutStream : bool }.

(** The client's interceptors, outermost first. *)
Inductive client_interceptor :=
| CI_Auth
| CI_Tracing
| CI_Retry (max : Z) (initialBackoff : Z) (jitter : spec_float) (codes : list Z) (perRetryTimeout : Z).

Record client_options := {
  co_Target : string; co_Chain : list client_interceptor; co_Time : Z; co_KeepaliveTimeout : Z;
  co_Permit : bool }.

(** gobreaker.Settings. *)
Record breaker_settings := {
  bs_Name : string; bs_MaxRequests : Z; bs_Interval : Z; bs_Timeout : Z;
  bs_IsSuccessful : option error -> bool; bs_ReadyToTrip : Z -> bool }.

(** ** What both services do alike *)

Definition compression_of (value : string) : codec :=
  let value := NormalizeKafkaCompression value in
  if bool_decide (value = "gzip") then CompressionGZIP
  else if bool_decide (value = "snappy") then CompressionSnappy
  else if bool_decide (value = "lz4") then CompressionLZ4
  else if bool_decide (value = "zstd") then CompressionZSTD
  else CompressionNone.

Definition net_timeouts (t : Z) : sarama_net := {| sn_DialTimeout := t; sn_ReadTimeout := t; sn_WriteTimeout := t |}.

Definition async_producer_config (def : sarama_config) (name : string) (p : ProducerConfig) : sarama_config := {|
  sac_ClientID := name;
  sac_ChannelBufferSize := if 0 <? pr_ChannelBufferSize p then pr_ChannelBufferSize p else sac_ChannelBufferSize def;
  sac_Net := net_timeouts (pr_Timeout p);
  sac_Metadata := {| sm_Timeout := pr_Timeout p; sm_RetryMax := pr_MaxRetries p; sm_RetryBackoff := pr_RetryBackoff p |};
  sac_Producer := {| spr_ReturnSuccesses := true; spr_ReturnErrors := true; spr_RequiredAcks := WaitForAll;
                     spr_Timeout := pr_Timeout p; spr_RetryMax := pr_MaxRetries p;
                     spr_RetryBackoff := pr_RetryBackoff p; spr_Compression := compression_of (pr_Compression p) |};
  sac_Consumer := sac_Consumer def |}.

Definition redis_client_options (r : RedisConfig) : redis_options := {|
  ro_Addr := RedisConfig_Address r;
  ro_DialTimeout := rc_ConnectionTimeout r; ro_ReadTimeout := rc_ConnectionTimeout r;
  ro_WriteTimeout := rc_ConnectionTimeout r;
  ro_PoolSize := rc_PoolSize r; ro_MinIdleConns := rc_MinIdle r; ro_MaxIdleConns := rc_MaxIdle r;
  ro_MaxActiveConns := rc_MaxActiveConns r;
  ro_ConnMaxIdleTime := rc_IdleTimeout r; ro_ConnMaxLifetime := rc_ConnMaxLifetime r |}.

Definition grpc_server_options (service : ServiceConfig) (k : KeepAliveConfig) : server_options := {|
  so_MaxRecvMsgSize := sc_MaxRecvMsgSize service; so_Time := ka_PingTime k; so_Timeout := ka_PingTimeout k;
  so_MinTime := ka_MinPingInterval k; so_PermitWithoutStream := ka_PermitWithoutStream k |}.

(** The default topic and the service's name of a publisher. *)
Record publisher := { pub_service : string; pub_topic : string }.

(** ** The order service *)

Module Order.
Section Order.
Context {P G : Type} `{SA : !Sarama P G} `{SL : StatusLib}.
Variable cfg : OrderConfig.

(** infra_providers.go. *)
Definition provideRedisClient : redis_options := redis_client_options (oc_Redis cfg).

Definition provideBlockStore : Z := rc_MarketBlockTTL (oc_Redis cfg).

Definition producer_settings : sarama_config :=
  async_producer_config (sarama_NewConfig (P := P) (G := G)) (sc_Name (oc_Service cfg)) (kf_Producer (oc_Kafka cfg)).

Definition provideSaramaAsyncProducer : result P :=
  match NewAsyncProducer (kf_Brokers (oc_Kafka cfg)) producer_settings with
  | Err err => Err (EWrap "sarama.NewAsyncProducer: " err "")
  | Ok asyncProducer => Ok asyncProducer
  end.

Definition consumer_settings : sarama_config :=
  let def := sarama_NewConfig (P := P) (G := G) in
  let c := kf_Consumer (oc_Kafka cfg) in {|
  sac_ClientID := sc_Name (oc_Service cfg);
  sac_ChannelBufferSize := sac_ChannelBufferSize def;
  sac_Net := net_timeouts (co_SessionTimeout c);
  sac_Metadata := {| sm_Timeout := co_SessionTimeout c; sm_RetryMax := co_MaxRetries c;
                     sm_RetryBackoff := co_RetryBackoff c |};
  sac_Producer := sac_Producer def;
  sac_Consumer := {| scn_SessionTimeout := co_SessionTimeout c; scn_HeartbeatInterval := co_HeartbeatInterval c;
                     scn_OffsetsInitial := OffsetOldest; scn_FetchMax := co_MaxMessageBytes c;
                     scn_FetchDefault := co_MaxMessageBytes c; scn_RetryBackoff := co_RetryBackoff c |} |}.

Definition provideConsumerGroup : result G :=
  match NewConsumerGroup (kf_Brokers (oc_Kafka cfg)) (co_GroupID (kf_Consumer (oc_Kafka cfg))) consumer_settings with
  | Err err => Err (EWrap "sarama.NewConsumerGroup: " err "")
  | Ok group => Ok group
  end.

(** service_providers.go. *)
Definition provideRefreshTokenStore : Z := ai_RefreshTokenTTL (oc_AuthIssuer cfg).

Record auth_service := { as_jwtManager : Manager; as_refreshTTL : Z; as_timeout : Z }.

Definition provideAuthService (jwtManager : Manager) (refreshTTL : Z) : auth_service := {|
  as_jwtManager := jwtManager; as_refreshTTL := refreshTTL; as_timeout := to_Service (oc_Timeouts cfg) |}.

Definition provideKafkaClient : string := sc_Name (oc_Service cfg).

Definition provideKafkaPublisher : publisher := {|
  pub_service := provideKafkaClient; pub_topic := tp_OrderCreated (kf_Topics (oc_Kafka cfg)) |}.

(** [nil] is [None]. *)
Definition provideDLQPublisher : option publisher :=
  if negb (co_DLQEnabled (kf_Consumer (oc_Kafka cfg))) then None
  else Some {| pub_service := provideKafkaClient; pub_topic := tp_MarketStateChangedDLQ (kf_Topics (oc_Kafka cfg)) |}.

Inductive middleware :=
| M_DLQ (publisher : option publisher) (maxMessageBytes : Z)
| M_Retry (maxRetries backoff : Z) (jitter : spec_float).

Record consumer := { cn_middlewares : list middleware; cn_topics : list string; cn_service : string; cn_group : string }.

Definition provideConsumerService (dlqPublisher : option publisher) : consumer :=
  let c := kf_Consumer (oc_Kafka cfg) in
  let middlewares := if co_DLQEnabled c then [M_DLQ dlqPublisher (co_DLQMaxMessageBytes c)] else [] in
  let middlewares := middlewares ++ [M_Retry (co_MaxRetries c) (co_RetryBackoff c) (co_RetryJitter c)] in {|
  cn_middlewares := middlewares;
  cn_topics := [tp_MarketStateChanged (kf_Topics (oc_Kafka cfg))];
  cn_service := sc_Name (oc_Service cfg);
  cn_group := co_GroupID c |}.

Record idempotency_service := { is_requestTTL : Z; is_config : IdempotencyConfig }.

Definition provideIdempotencyService : idempotency_service := {|
  is_requestTTL := ic_RequestTTL (rc_Idempotency (oc_Redis cfg)); is_config := rc_Idempotency (oc_Redis cfg) |}.

(** The outbox worker with its send timeout. *)
Definition provideOutboxWorker : worker_config * Z := (order_worker cfg, ob_BatchTimeout (kf_Outbox (oc_Kafka cfg))).

Record container := {
  ct_JWTManager : Manager; ct_RefreshTTL : Z; ct_AuthService : auth_service; ct_OrderService : svc_config;
  ct_OrderTimeout : Z }.

Definition provideContainer (jwtManager : Manager) (refreshTTL : Z) (authService : auth_service)
    (orderService : svc_config) : container := {|
  ct_JWTManager := jwtManager; ct_RefreshTTL := refreshTTL; ct_AuthService := authService;
  ct_OrderService := orderService; ct_OrderTimeout := to_Service (oc_Timeouts cfg) |}.

Definition assemble : container :=
  let refreshTTL := provideRefreshTokenStore in
  provideContainer (provideJWTManager cfg) refreshTTL (provideAuthService (provideJWTManager cfg) refreshTTL)
    (order_service cfg).

(** grpc_providers.go. *)
Definition provideClientConnection : client_options := {|
  co_Target := oc_SpotAddress cfg;
  co_Chain := [CI_Auth; CI_Tracing;
               CI_Retry (re_MaxAttempts (oc_Retry cfg)) (re_InitialBackoff (oc_Retry cfg)) (re_Jitter (oc_Retry cfg))
                 [Code_DeadlineExceeded; Code_Unavailable] (re_PerRetryTimeout (oc_Retry cfg))];
  co_Time := ka_PingTime (oc_KeepAlive cfg); co_KeepaliveTimeout := ka_PingTimeout (oc_KeepAlive cfg);
  co_Permit := ka_PermitWithoutStream (oc_KeepAlive cfg) |}.

(** breaker.New. *)
Definition breaker_New (name : string) (cb : CircuitBreakerConfig) : breaker_settings := {|
  bs_Name := name; bs_MaxRequests := cb_MaxRequests cb; bs_Interval := cb_Interval cb; bs_Timeout := cb_Timeout cb;
  bs_IsSuccessful := isSuccessfulCall; bs_ReadyToTrip := ReadyToTrip (cb_MaxFailures cb) |}.

(** NewSpotClient: a breaker for each method. *)
Definition provideGRPCClient : breaker_settings * breaker_settings :=
  (breaker_New "spotService.ViewMarkets" (oc_CircuitBreaker cfg),
   breaker_New "spotService.GetMarketByID" (oc_CircuitBreaker cfg)).

Definition provideGRPCServer : server_options := grpc_server_options (oc_Service cfg) (oc_KeepAlive cfg).
End Order.
End Order.

(** ** The spot service *)

Module Spot.
Section Spot.
Context {P G : Type} `{SA : !Sarama P G}.
Variable cfg : SpotConfig.

Definition provideRedisClient : redis_options := redis_client_options (sp_Redis cfg).

Definition producer_settings : sarama_config :=
  async_producer_config (sarama_NewConfig (P := P) (G := G)) (sc_Name (sp_Service cfg)) (kf_Producer (sp_Kafka cfg)).

Definition provideSaramaAsyncProducer : result P :=
  match NewAsyncProducer (kf_Brokers (sp_Kafka cfg)) producer_settings with
  | Err err => Err (EWrap "sarama.NewAsyncProducer: " err "")
  | Ok asyncProducer => Ok asyncProducer
  end.

Definition provideKafkaClient : string := sc_Name (sp_Service cfg).

Definition provideMarketStateChangedProducer : publisher := {|
  pub_service := provideKafkaClient; pub_topic := tp_MarketStateChanged (kf_Topics (sp_Kafka cfg)) |}.

Definition provideSpotOutboxWorker : worker_config * Z := (spot_worker cfg, ob_BatchTimeout (kf_Outbox (sp_Kafka cfg))).

(** The viewer with its timeout. *)
Definition provideSpotService : viewer_config * Z := (spot_viewer cfg, to_Service (sp_Timeouts cfg)).

(** The poller with its interval and its timeout. *)
Definition provideMarketPoller : poller_config * Z * Z :=
  (spot_poller cfg, mp_PollInterval (sp_MarketPoller cfg), mp_ProcessingTimeout (sp_MarketPoller cfg)).

Definition provideGRPCServer : server_options := grpc_server_options (sp_Service cfg) (sp_KeepAlive cfg).
End Spot.
End Spot.

(** ** What a loaded configuration guarantees *)

Definition codec_name (c : codec) : string :=
  match c with
  | CompressionNone => "none"
  | CompressionGZIP => "gzip"
  | CompressionSnappy => "snappy"
  | CompressionLZ4 => "lz4"
  | CompressionZSTD => "zstd"
  end.

(** The client's acknowledgement loop hears of every message, a message counts
    only when every replica has it, and no wait is unbounded. *)
Record producer_ok (def s : sarama_config) : Prop := {
  po_reports : spr_ReturnSuccesses (sac_Producer s) = true /\ spr_ReturnErrors (sac_Producer s) = true;
  po_acks : spr_RequiredAcks (sac_Producer s) = WaitForAll;
  po_timeouts : 0 < spr_Timeout (sac_Producer s) /\ 0 < sn_DialTimeout (sac_Net s) /\
                0 < sn_ReadTimeout (sac_Net s) /\ 0 < sn_WriteTimeout (sac_Net s) /\ 0 < sm_Timeout (sac_Metadata s);
  po_retries : 0 <= spr_RetryMax (sac_Producer s) /\ 0 < spr_RetryBackoff (sac_Producer s);
  po_buffer : 0 < sac_ChannelBufferSize def -> 0 < sac_ChannelBufferSize s
}.

Lemma compression_named p : NormalizeKafkaCompression p ∈ ["none"; "gzip"; "snappy"; "lz4"; "zstd"] ->
  codec_name (compression_of p) = NormalizeKafkaCompression p.
Proof.
  unfold compression_of. generalize (NormalizeKafkaCompression p). intros n.
  rewrite !elem_of_cons. intros H. repeat case_bool_decide; subst; try done.
  by repeat destruct H as [->|H]; try done; apply elem_of_nil in H.
Qed.

Section Assembled.
Context {P G : Type} `{SA : !Sarama P G} `{F : Fmt} `{SL : StatusLib}.

Lemma async_producer_ok field def name p : ValidateKafkaProducerConfig field p = None ->
  producer_ok def (async_producer_config def name p) /\
  codec_name (spr_Compression (sac_Producer (async_producer_config def name p))) =
    NormalizeKafkaCompression (pr_Compression p).
Proof.
  intros Hv. split.
  - unfold ValidateKafkaProducerConfig in Hv. accepted Hv. split; simpl; auto.
    intros Hdef. destruct (0 <? pr_ChannelBufferSize p) eqn:E; [by apply Z.ltb_lt|done].
  - apply compression_named. by eapply Config.producer_ok.
Qed.

(** Connecting to Redis, reading from it and writing to it each end before the
    request does. *)
Definition redis_within (ro : redis_options) (limit : Z) : Prop :=
  0 < ro_DialTimeout ro < limit /\ 0 < ro_ReadTimeout ro < limit /\ 0 < ro_WriteTimeout ro < limit.

(** What the parts of an order service need of each other's settings. *)
Record order_assembled (cfg : OrderConfig) : Prop := {
  oa_producer : producer_ok (sarama_NewConfig (P := P) (G := G)) (Order.producer_settings (P := P) (G := G) cfg);
  oa_codec : codec_name (spr_Compression (sac_Producer (Order.producer_settings (P := P) (G := G) cfg))) =
               NormalizeKafkaCompression (pr_Compression (kf_Producer (oc_Kafka cfg)));
  oa_session : let c := sac_Consumer (Order.consumer_settings (P := P) (G := G) cfg) in
    0 < scn_HeartbeatInterval c < scn_SessionTimeout c /\ 0 < scn_FetchDefault c <= scn_FetchMax c /\
    scn_OffsetsInitial c = OffsetOldest /\ 0 < scn_RetryBackoff c;
  oa_dead_letters pub n :
    Order.M_DLQ pub n ∈ Order.cn_middlewares (Order.provideConsumerService cfg (Order.provideDLQPublisher cfg)) ->
    exists p, pub = Some p /\ pub_topic p <> "" /\
      scn_FetchMax (sac_Consumer (Order.consumer_settings (P := P) (G := G) cfg)) <= n;
  oa_retries max backoff jitter :
    Order.M_Retry max backoff jitter ∈
      Order.cn_middlewares (Order.provideConsumerService cfg (Order.provideDLQPublisher cfg)) ->
    0 <= max /\ 0 < backoff;
  oa_topics : Forall (λ t, t <> "") (Order.cn_topics (Order.provideConsumerService cfg (Order.provideDLQPublisher cfg))) /\
    pub_topic (Order.provideKafkaPublisher cfg) <> "";
  oa_worker : let '(w, batchTimeout) := Order.provideOutboxWorker cfg in
    worker_ok w /\ 0 < batchTimeout < wc_processingTimeout w;
  oa_nested : let c := Order.assemble cfg in
    let service := Order.ct_OrderTimeout c in
    0 < service /\ Order.as_timeout (Order.ct_AuthService c) = service /\
    redis_within (Order.provideRedisClient cfg) service /\
    bs_Timeout (Order.provideGRPCClient cfg).2 < service /\
    forall max backoff jitter codes per,
      CI_Retry max backoff jitter codes per ∈ co_Chain (Order.provideClientConnection cfg) ->
      max <> 0 /\ 0 < per < service;
  oa_lifetimes : let c := Order.assemble cfg in
    m_secret (Order.ct_JWTManager c) <> "" /\
    0 < m_accessTTL (Order.ct_JWTManager c) < Order.ct_RefreshTTL c /\
    m_refreshTTL (Order.ct_JWTManager c) = Order.ct_RefreshTTL c /\
    0 < Order.is_requestTTL (Order.provideIdempotencyService cfg) /\ 0 < Order.provideBlockStore cfg;
  oa_limits : let s := Order.ct_OrderService (Order.assemble cfg) in
    0 < rl_limit (provideRateLimiters s).1 /\ 0 < rl_limit (provideRateLimiters s).2 /\ 0 < cfg_window s /\
    0 < cfg_complete_attempts s;
  oa_keepalive : let s := Order.provideGRPCServer cfg in
    0 < so_Timeout s < so_Time s /\ 0 < so_MinTime s < so_Time s /\ 0 < so_MaxRecvMsgSize s
}.

Lemma kafka_accepted cfg : validateOrderKafka cfg = None ->
  let k := oc_Kafka cfg in
  tp_OrderCreated (kf_Topics k) <> "" /\ tp_MarketStateChanged (kf_Topics k) <> "" /\
  (co_DLQEnabled (kf_Consumer k) = true -> tp_MarketStateChangedDLQ (kf_Topics k) <> "") /\
  ValidateKafkaProducerConfig "kafka.producer" (kf_Producer k) = None /\
  ValidateKafkaConsumerConfig "kafka.consumer" (kf_Consumer k) = None /\
  ValidateOutboxConfig "kafka.outbox" (kf_Outbox k) = None.
Proof.
  intros H. unfold validateOrderKafka in H. accepted H. split_and!; try done.
  intros Hd. match goal with Ht : co_DLQEnabled _ && _ = false |- _ => rewrite Hd in Ht; simpl in Ht;
    by apply bool_decide_eq_false in Ht end.
Qed.

Lemma consumer_accepted field c : ValidateKafkaConsumerConfig field c = None ->
  0 < co_HeartbeatInterval c < co_SessionTimeout c /\ 0 < co_RetryBackoff c /\ 0 <= co_MaxRetries c /\
  0 < co_MaxMessageBytes c /\ (co_DLQEnabled c = true -> co_MaxMessageBytes c <= co_DLQMaxMessageBytes c).
Proof.
  intros H. unfold ValidateKafkaConsumerConfig in H. accepted H. split_and!; try lia.
  intros Hd. match goal with Ht : co_DLQEnabled _ && (_ <? _) = false |- _ => rewrite Hd in Ht; simpl in Ht; lia end.
Qed.

(** A connection timeout is only compared with a positive service timeout. *)
Lemma redis_accepted field r service : ValidateRedisBaseConfig field r service = None -> 0 < service ->
  0 < rc_ConnectionTimeout r < service.
Proof.
  intros H Hs. unfold ValidateRedisBaseConfig in H. accepted H.
  match goal with Ht : _ && _ = false |- _ => rewrite (proj2 (Z.ltb_lt _ _) Hs) in Ht; simpl in Ht end. lia.
Qed.

(** C33 The settings with which an order service starts fit together.  The
    producer reports every message and waits for all replicas, with the codec
    the configuration names; the consumer's heartbeat is within its session,
    it starts at the oldest message, the largest message it may fetch is not
    above the size limit of the dead-letter topic - before the headers that
    are added there -, whose middleware has a publisher; no topic is empty;
    connecting to Redis, reading from it, writing to it, one attempt of the
    spot call and the breaker's open period are each shorter than a request,
    and an outbox batch is shorter than the time after which its events count
    as stuck; access tokens
    expire before refresh tokens, which live as long as their records in
    Redis; limits and lifetimes are positive; and keep-alive pings are
    answered before the next one. *)
Theorem order_wiring_sound unmarshalled dbURI jwtSecret cfg :
  OrderLoad unmarshalled dbURI jwtSecret = Ok cfg -> order_assembled cfg.
Proof.
  intros (_ & <- & Hjwt & Hv)%OrderLoad_uses. unfold validateOrderConfig in Hv. accepted Hv.
  match goal with H : validateOrderKafka cfg = None |- _ =>
    apply kafka_accepted in H as (Ht1 & Ht2 & Ht3 & Hprod & Hcon & Hout) end.
  apply consumer_accepted in Hcon. pose proof (outbox_ok _ _ Hout) as Hworker.
  unfold ValidateOutboxConfig in Hout. accepted Hout.
  unfold validateOrderService, validateOrderRedis, validateOrderCircuitBreaker, validateOrderKeepAlive, validateOrderAuth,
    validateOrderRetry, validateOrderRateLimits, ValidateKeepAliveConfig in *.
  repeat match goal with H : first_error (_ :: _) = None |- _ => progress accepted H end.
  match goal with H : ValidateServiceConfig _ _ _ = None |- _ =>
    unfold ValidateServiceConfig in H; accepted H end.
  match goal with H : ValidateRedisBaseConfig _ _ _ = None |- _ => apply redis_accepted in H; [|done] end.
  destruct (async_producer_ok _ (sarama_NewConfig (P := P) (G := G)) (sc_Name (oc_Service cfg)) _ Hprod) as [Hpo Hcodec].
  destruct Hcon as (Hses & Hback & Hretr & Hmax & Hdlq).
  split; cbv zeta; unfold redis_within; try done; simpl; try tauto.
  - unfold Order.provideDLQPublisher. intros pub n Hin.
    destruct (co_DLQEnabled _); simpl in Hin; rewrite ?elem_of_cons, elem_of_nil in Hin; naive_solver.
  - intros max backoff jitter Hin. destruct (co_DLQEnabled _); simpl in Hin;
      rewrite ?elem_of_cons, elem_of_nil in Hin; naive_solver.
  - split; [by constructor|done].
  - split_and!; try done; try lia. intros max backoff jitter codes per.
    rewrite ?elem_of_cons, elem_of_nil. intros [[=]|[[=]|[[= -> -> -> _ ->]|[]]]].
    split_and!; [by apply Z.eqb_neq|lia..].
Qed.

(** The spot service likewise; the head cache also holds a default page. *)
Record spot_assembled (cfg : SpotConfig) : Prop := {
  sa_producer : producer_ok (sarama_NewConfig (P := P) (G := G)) (Spot.producer_settings (P := P) (G := G) cfg);
  sa_codec : codec_name (spr_Compression (sac_Producer (Spot.producer_settings (P := P) (G := G) cfg))) =
               NormalizeKafkaCompression (pr_Compression (kf_Producer (sp_Kafka cfg)));
  sa_topic : pub_topic (Spot.provideMarketStateChangedProducer cfg) <> "";
  sa_worker : let '(w, batchTimeout) := Spot.provideSpotOutboxWorker cfg in
    worker_ok w /\ 0 < batchTimeout < wc_processingTimeout w;
  sa_viewer : let '(v, timeout) := Spot.provideSpotService cfg in
    0 < timeout /\ 0 < vw_cacheTTL v /\ 0 < vw_defaultLimit v <= vw_maxLimit v /\ vw_defaultLimit v <= vw_cacheLimit v /\
    redis_within (Spot.provideRedisClient cfg) timeout;
  sa_poller : let '(p, interval, timeout) := Spot.provideMarketPoller cfg in
    0 < pc_batchSize p /\ 0 < interval <= timeout;
  sa_keepalive : let s := Spot.provideGRPCServer cfg in
    0 < so_Timeout s < so_Time s /\ 0 < so_MinTime s < so_Time s /\ 0 < so_MaxRecvMsgSize s
}.

Theorem spot_wiring_sound unmarshalled dbURI jwtSecret cfg :
  SpotLoad unmarshalled dbURI jwtSecret = Ok cfg -> spot_assembled cfg.
Proof.
  intros (_ & _ & _ & Hv)%SpotLoad_uses.
  unfold validateSpotConfig in Hv. accepted Hv.
  unfold validateSpotService, validateSpotViewMarkets, validateSpotRedis, validateSpotKeepAlive,
    validateSpotMarketPoller, validateSpotKafka, ValidateKeepAliveConfig in *.
  repeat match goal with H : first_error (_ :: _) = None |- _ => progress accepted H end.
  match goal with H : ValidateServiceConfig _ _ _ = None |- _ =>
    unfold ValidateServiceConfig in H; accepted H end.
  match goal with H : ValidateRedisBaseConfig _ _ _ = None |- _ => apply redis_accepted in H; [|done] end.
  match goal with H : ValidateKafkaProducerConfig _ _ = None |- _ =>
    destruct (async_producer_ok _ (sarama_NewConfig (P := P) (G := G)) (sc_Name (sp_Service cfg)) _ H) as [Hpo Hcodec] end.
  match goal with H : ValidateOutboxConfig _ _ = None |- _ =>
    pose proof (outbox_ok _ _ H) as Hworker; unfold ValidateOutboxConfig in H; accepted H end.
  split; cbv zeta; try done; simpl; try tauto; split_and!; lia.
Qed.
End Assembled.

(** The middlewares of the consumer's model are those the providers list. *)
Section Denote.
Context {St : Type} `{U : GoLib} `{O : Otel} `{HK : !Has kafka St}.

Definition denote (m : Order.middleware) : Middleware St :=
  match m with
  | Order.M_DLQ pub n => DLQMiddleware ((λ p, producer_SendMessage (pub_topic p)) <$> pub) n
  | Order.M_Retry max _ _ => RetryMiddleware max
  end.

Lemma consumer_wired cfg :
  KafkaConsumer.provideConsumerService (order_consumer cfg) =
  New (denote <$> Order.cn_middlewares (Order.provideConsumerService cfg (Order.provideDLQPublisher cfg))).
Proof.
  unfold KafkaConsumer.provideConsumerService, Order.provideConsumerService, Order.provideDLQPublisher,
    KafkaConsumer.provideDLQPublisher. simpl. by destruct (co_DLQEnabled _).
Qed.
End Denote.

(** ** Closed instances *)

Section WiringWitness.
#[local] Existing Instance PlainFmt.

Definition DemoSarama : Sarama unit unit := {|
  sarama_NewConfig := {|
    sac_ClientID := "sarama"; sac_ChannelBufferSize := 256; sac_Net := net_timeouts (30 * second);
    sac_Metadata := {| sm_Timeout := 60 * second; sm_RetryMax := 3; sm_RetryBackoff := 250000000 |};
    sac_Producer := {| spr_ReturnSuccesses := false; spr_ReturnErrors := true; spr_RequiredAcks := WaitForLocal;
                       spr_Timeout := 10 * second; spr_RetryMax := 3; spr_RetryBackoff := 100000000;
                       spr_Compression := CompressionNone |};
    sac_Consumer := {| scn_SessionTimeout := 10 * second; scn_HeartbeatInterval := 3 * second;
                       scn_OffsetsInitial := OffsetNewest; scn_FetchMax := 0; scn_FetchDefault := 1048576;
                       scn_RetryBackoff := 2 * second |} |};
  NewAsyncProducer _ _ := Ok tt;
  NewConsumerGroup _ _ _ := Ok tt
|}.
#[local] Existing Instance DemoSarama.
#[local] Existing Instance WalkStatus.

(** The configured codec, and the default buffer of a configuration that
    leaves it 0. *)
Example demo_producer_settings :
  let s := Order.producer_settings (P := unit) (G := unit) demo_order_loaded in
  (spr_Compression (sac_Producer s), sac_ChannelBufferSize s, spr_ReturnSuccesses (sac_Producer s)) =
  (CompressionGZIP, 256, true).
Proof. by vm_compute. Qed.

Lemma order_wiring_sound_witness : order_assembled (P := unit) (G := unit) demo_order_loaded.
Proof.
  apply (order_wiring_sound (Ok demo_order_config) "postgres://" "secret"). vm_compute. reflexivity.
Defined.

Lemma spot_wiring_sound_witness : spot_assembled (P := unit) (G := unit) demo_spot_loaded.
Proof.
  apply (spot_wiring_sound (Ok demo_spot_config) "postgres://" "secret"). vm_compute. reflexivity.
Defined.
End WiringWitness.
