(* ===== verification/Deadlines.v ===== *)
(** * Deadlines of contexts
      (contextWithTimeout of services/order, services/auth and services/spot,
      newOperationContext of the outbox workers, commitTransaction and
      rollbackTransaction, completeIdempotencySync)

    Elsewhere a context that ends is an answer of the environment; here is when
    it does.  A context is its deadline, if it has one.  A request never
    outlives its caller or the service's timeout; what finishes or undoes a
    request runs detached, with a timeout of its own; and the time granted to
    the completion of an idempotency key is enough for every attempt. *)

From S2P Require Import Prelude GoStrings GoErrors Effects Config OrderService.
Local Open Scope list_scope.
Local Open Scope Z_scope.

(** ** package context *)

Definition Deadline : Type := option Z.

(** context.Background, and a context detached from its parent. *)
Definition Background : Deadline := None.
Definition WithoutCancel (parent : Deadline) : Deadline := Background.

(** d.Sub(now), which saturates. *)
Definition saturate (x : Z) : Z := Z.max min_i64 (Z.min max_i64 x).

Section Contexts.
Context {St : Type}.

(** The earlier of the parent's deadline and [now + timeout]. *)
Definition WithTimeout (parent : Deadline) (timeout : Z) : M St Deadline :=
  let! now := time_Now in
  mret (Some (match parent with
              | Some current => if current <? now + timeout then current else now + timeout
              | None => now + timeout
              end)).

(** A nil context is [None]. *)
Definition contextWithTimeout (ctx : option Deadline) (timeout : Z) : M St Deadline :=
  let ctx := default Background ctx in
  if timeout <=? 0 then mret ctx
  else
    match ctx with
    | Some deadline =>
        let! now := time_Now in
        if saturate (deadline - now) <=? timeout then mret ctx else WithTimeout ctx timeout
    | None => WithTimeout ctx timeout
    end.

(** The same function in services/auth and services/spot. *)
Definition auth_contextWithTimeout := contextWithTimeout.
Definition spot_contextWithTimeout := contextWithTimeout.

(** newOperationContext of the two workers. *)
Definition order_newOperationContext (batchTimeout : Z) (parent : Deadline) : M St Deadline :=
  WithTimeout (WithoutCancel parent) batchTimeout.
Definition spot_newOperationContext (batchTimeout : Z) (parent : Deadline) : M St Deadline :=
  WithTimeout (WithoutCancel parent) batchTimeout.

(** The contexts in which a transaction is committed or rolled back. *)
Definition commit_context (timeout : Z) (ctx : Deadline) : M St Deadline := WithTimeout (WithoutCancel ctx) timeout.
Definition cleanup_context (timeout : Z) (ctx : Deadline) : M St Deadline := WithTimeout (WithoutCancel ctx) timeout.

(** completeIdempotencySync: the time for all attempts and the delays between
    them. *)
Definition totalTimeout (idem : IdempotencyConfig) : Z :=
  let attempts := ic_CompleteAttempts idem in
  let total := wrap_s 64 (attempts * ic_CompleteAttemptTimeout idem) in
  if 1 <? attempts then wrap_s 64 (total + wrap_s 64 ((attempts - 1) * ic_CompleteRetryDelay idem)) else total.

Definition complete_context (idem : IdempotencyConfig) (ctx : Deadline) : M St Deadline :=
  WithTimeout (WithoutCancel ctx) (totalTimeout idem).

(** ** Properties *)

(** The readings of the clock do not go back. *)
Definition clock_monotone (e : env) : Prop := forall m n, (m <= n)%nat -> e_now e m <= e_now e n.

Definition reading (e : env) : Z := e_now e (e_tick e).

(** A request's context ends no later than its caller's and no later than the
    timeout after it was made, and not earlier than the first of the two. *)
Theorem request_deadline ctx timeout w :
  0 < timeout -> timeout < max_i64 -> clock_monotone (w_env w) ->
  wp (contextWithTimeout (Some ctx) timeout) (λ d w', exists x, d = Some x /\
    x <= e_now (w_env w) (S (e_tick (w_env w))) + timeout /\
    match ctx with
    | Some caller => Z.min caller (reading (w_env w) + timeout) <= x <= caller
    | None => reading (w_env w) + timeout <= x
    end) w.
Proof.
  intros Ht Hmax Hclock. unfold contextWithTimeout, reading. simpl.
  pose proof (Hclock (e_tick (w_env w)) (S (e_tick (w_env w))) ltac:(lia)) as Hnow.
  rewrite (proj2 (Z.leb_gt _ _) Ht). destruct ctx as [caller|].
  - apply wp_bind, wp_ask. destruct (saturate _ <=? timeout) eqn:Es.
    + apply wp_ret. exists caller. unfold saturate in Es. apply Z.leb_le in Es. split; [done|]. lia.
    + apply wp_bind, wp_ask, wp_ret. simpl. eexists. split; [done|].
      destruct (caller <? _) eqn:E; [apply Z.ltb_lt in E|apply Z.ltb_ge in E]; lia.
  - apply wp_bind, wp_ask, wp_ret. simpl. eexists. split; [done|]. lia.
Qed.

(** Committing, rolling back, settling an event and completing a key do not
    depend on the caller's deadline, even when it has passed. *)
Theorem detached_deadline ctx ctx' timeout idem w :
  commit_context timeout ctx w = commit_context timeout ctx' w /\
  cleanup_context timeout ctx w = cleanup_context timeout ctx' w /\
  order_newOperationContext timeout ctx w = order_newOperationContext timeout ctx' w /\
  (commit_context timeout ctx w).1 = Some (reading (w_env w) + timeout) /\
  (complete_context idem ctx w).1 = Some (reading (w_env w) + totalTimeout idem).
Proof. done. Qed.

(** When the attempts of a completion start: each begins when the one before
    it has ended, its delay has passed and its timer has fired, [late] after
    that. *)
Fixpoint attempt_starts (start delay : Z) (attempts : list (Z * Z)) : list Z :=
  match attempts with
  | [] => [start]
  | (duration, late) :: attempts => start :: attempt_starts (start + duration + delay + late) delay attempts
  end.

Definition lateness (attempts : list (Z * Z)) : Z := foldr (λ a sum, a.2 + sum) 0 attempts.

Lemma totalTimeout_exact idem : let n := ic_CompleteAttempts idem in
  0 < n -> 0 <= ic_CompleteAttemptTimeout idem -> 0 <= ic_CompleteRetryDelay idem ->
  n * ic_CompleteAttemptTimeout idem + (n - 1) * ic_CompleteRetryDelay idem <= max_i64 ->
  totalTimeout idem = n * ic_CompleteAttemptTimeout idem + (n - 1) * ic_CompleteRetryDelay idem.
Proof.
  cbv zeta. intros Hn Ht Hd Hmax. unfold totalTimeout.
  assert (0 <= (ic_CompleteAttempts idem - 1) * ic_CompleteRetryDelay idem) by (apply Z.mul_nonneg_nonneg; lia).
  assert (0 <= ic_CompleteAttempts idem * ic_CompleteAttemptTimeout idem) by (apply Z.mul_nonneg_nonneg; lia).
  unfold max_i64 in *. destruct (1 <? ic_CompleteAttempts idem) eqn:E.
  - rewrite !wrap_s64_small; unfold in_i64, min_i64, max_i64; rewrite ?wrap_s64_small; unfold in_i64, min_i64, max_i64; lia.
  - apply Z.ltb_ge in E. replace (ic_CompleteAttempts idem) with 1 in * by lia.
    rewrite wrap_s64_small; unfold in_i64, min_i64, max_i64; lia.
Qed.

(** The time granted to a completion never cuts an attempt short of its own
    timeout, except by what the timers between the attempts were late. *)
Theorem completion_budget_suffices idem start attempts k s : let n := ic_CompleteAttempts idem in
  0 < n -> 0 <= ic_CompleteAttemptTimeout idem -> 0 <= ic_CompleteRetryDelay idem ->
  n * ic_CompleteAttemptTimeout idem + (n - 1) * ic_CompleteRetryDelay idem <= max_i64 ->
  Forall (λ a, 0 <= a.1 <= ic_CompleteAttemptTimeout idem /\ 0 <= a.2) attempts ->
  Z.of_nat k < n ->
  attempt_starts start (ic_CompleteRetryDelay idem) attempts !! k = Some s ->
  s + ic_CompleteAttemptTimeout idem <= start + totalTimeout idem + lateness (take k attempts).
Proof.
  cbv zeta. intros Hn Ht Hd Hmax Hall Hk Hs. rewrite totalTimeout_exact by done. clear Hmax.
  assert (Hstart : s <= start + Z.of_nat k * (ic_CompleteAttemptTimeout idem + ic_CompleteRetryDelay idem) +
                        lateness (take k attempts)).
  { clear Hk. revert start k Hs. induction Hall as [|[d l] attempts [Hdur Hl] _ IH]; intros start k Hs.
    - destruct k; [|done]. injection Hs as <-. simpl. lia.
    - destruct k as [|k]; [injection Hs as <-; simpl; lia|]. simpl in *. apply IH in Hs. lia. }
  nia.
Qed.
End Contexts.

(** Attempts and timeouts that the validator accepts can still overflow: the
    completion then starts in a context that has already ended. *)
Example completion_overflow :
  totalTimeout {| ic_RequestTTL := second; ic_CompleteAttempts := 5; ic_CompleteAttemptTimeout := 2 ^ 61;
                  ic_CompleteRetryDelay := second; ic_CleanupTimeout := second |} < 0.
Proof. by vm_compute. Qed.

(** ** Closed instances *)

Section DeadlineWitness.
(** A clock that reads [n] seconds at the [n]-th question. *)
Definition ticking : env :=
  Env (λ _, FNone) (λ _, None) (λ n, Z.of_nat n * second) (λ _, 0) (λ _, 0) (λ n, N.of_nat n) 0.

Lemma ticking_monotone : clock_monotone ticking.
Proof. intros m n Hmn. unfold ticking, second. simpl. lia. Qed.

(** A caller that waits for three seconds, and one that waits for an hour. *)
Example demo_deadlines :
  ((contextWithTimeout (Some (Some (3 * second))) (5 * second) (World ticking ())).1,
   (contextWithTimeout (Some (Some (3600 * second))) (5 * second) (World ticking ())).1) =
  (Some (3 * second), Some (6 * second)).
Proof. by vm_compute. Qed.

Lemma request_deadline_witness :
  wp (contextWithTimeout (Some (Some (3 * second))) (5 * second)) (λ d w', exists x, d = Some x /\
    x <= e_now ticking 1 + 5 * second /\ Z.min (3 * second) (reading ticking + 5 * second) <= x <= 3 * second)
    (World ticking ()).
Proof. apply (request_deadline (Some (3 * second)) (5 * second) (World ticking ())); [done|done|apply ticking_monotone]. Defined.

Definition demo_idem : IdempotencyConfig := {|
  ic_RequestTTL := 60 * second; ic_CompleteAttempts := 3; ic_CompleteAttemptTimeout := 300000000;
  ic_CompleteRetryDelay := 50000000; ic_CleanupTimeout := 300000000 |}.

(** Two attempts that used all of their time; the third still has its own. *)
Lemma completion_budget_suffices_witness :
  700000000 + 300000000 <= 0 + totalTimeout demo_idem +
    lateness (take 2 [(300000000, 0); (300000000, 0)]).
Proof.
  apply (completion_budget_suffices demo_idem 0 [(300000000, 0); (300000000, 0)] 2);
    [by vm_compute..| |by vm_compute|reflexivity].
  repeat constructor; simpl; lia.
Defined.
End DeadlineWitness.
