(* ===== verification/DevToken.v ===== *)
(** * The developers' login (orderService/cmd/dev/gen_token_helper.go)

    The tool signs an access and a refresh token for a fixed user with the
    secret of the services and makes them the user's only session in Redis.
    Printing is the result. *)

From S2P Require Import Prelude GoStrings GoErrors Effects Redis OrderService Auth Config Loading Wiring.
Local Open Scope string_scope.
Local Open Scope list_scope.
Local Open Scope Z_scope.

Definition defaultUserID := "550e8400-e29b-41d4-a716-446655440003".
Definition defaultAccessTokenTTL : Z := 5 * 60 * second.
Definition defaultRefreshTokenTTL : Z := 10 * 60 * second.
Definition defaultRedisHost := "localhost".
Definition defaultRedisPort := "6379".
Definition defaultRedisTimeout : Z := 3 * second.

Fixpoint firstNonEmpty (values : list string) : string :=
  match values with
  | [] => ""
  | value :: values =>
      let value := TrimSpace value in
      if bool_decide (value <> "") then value else firstNonEmpty values
  end.

Definition redisAddress (env : vars) : string :=
  let host := firstNonEmpty [Getenv env "REDIS_HOST"; defaultRedisHost] in
  let port := firstNonEmpty [Getenv env "REDIS_PORT"; Getenv env "EXTERNAL_REDIS_PORT"; defaultRedisPort] in
  host +:+ ":" +:+ port.

(** The options of the client; what they leave out is go-redis's. *)
Record dev_redis := { dr_Addr : string; dr_DialTimeout : Z; dr_ReadTimeout : Z; dr_WriteTimeout : Z }.

Definition dev_redis_options (env : vars) : dev_redis := {|
  dr_Addr := redisAddress env; dr_DialTimeout := defaultRedisTimeout; dr_ReadTimeout := defaultRedisTimeout;
  dr_WriteTimeout := defaultRedisTimeout |}.

(** The first of the three files that loads fills the environment. *)
Fixpoint load_first `{ConfigFiles Doc} (paths : list string) (env : vars) : vars :=
  match paths with
  | [] => env
  | path :: paths => match godotenv_Load path env with
                     | Ok env => env
                     | Err _ => load_first paths env
                     end
  end.

Section Tool.
Context {Doc : Type} `{CF : ConfigFiles Doc}.
Context {St R : Type} `{HRd : Redis R} `{HR : !Has R St} `{U : GoLib} `{J : JwtLib}.

(** The store of the server at the tool's address. *)
Definition replaceSession (userID : UUID) (jti sessionID : string) (ttl : Z) : M St (result unit) :=
  Replace ttl userID jti sessionID.

Definition dev_manager (secret : string) : Manager := {|
  m_secret := secret; m_accessTTL := defaultAccessTokenTTL; m_refreshTTL := defaultRefreshTokenTTL |}.

Definition fatal (text : string) (err : error) : error := EWrap (text +:+ ": ") err "".

(** main: the two tokens, or the fatal log line. *)
Definition dev_main (env : vars) : M St (result (string * string)) :=
  let env := load_first [".env"; "../.env"; "../../.env"] env in
  let secret := TrimSpace (Getenv env "JWT_SECRET") in
  if bool_decide (secret = "") then mret (Err (EMsg "JWT_SECRET environment variable must be set"))
  else
    match uuid_parse defaultUserID with
    | None => mret (Err (EMsg "invalid default user id"))
    | Some userID =>
        let jwtManager := dev_manager secret in
        let! refreshID := uuid_New in
        let refreshJTI := uuid_string refreshID in
        let! session := uuid_New in
        let sessionID := uuid_string session in
        let role := [UserRoleUser] in
        try! accessToken := GenerateAccessToken jwtManager userID role sessionID
          else fatal "failed to generate access token" in
        try! refreshToken := GenerateRefreshToken jwtManager userID role refreshJTI sessionID
          else fatal "failed to generate refresh token" in
        try! _ := replaceSession userID refreshJTI sessionID defaultRefreshTokenTTL
          else fatal "failed to save auth session in redis" in
        mret (Ok (accessToken, refreshToken))
    end.

(** ** Properties *)

Context `{!RedisLaws R} `{!UuidLaws U} `{!JwtLaws J}.

(** After a login nobody else's session is left: Redis knows the new token as
    the user's current one, for as long as it lives. *)
Lemma replace_current ttlMs u j s t r r' t' :
  replace ttlMs u j s t r = (Ok 1, r') -> t <= t' < t + ttlMs -> current_token u j s t' r'.
Proof.
  intros Hrep Ht. unfold replace, replaceScript in Hrep.
  set (r0 := match GET _ _ _ with Some _ => _ | None => _ end) in Hrep.
  assert (Hpos : 0 < ttlMs) by lia.
  assert (Hview : forall k, view r' t' k =
    if decide (currentRefreshKey u = k) then alive t' (Some (refreshKey u j, Some (t + ttlMs)))
    else if decide (SessionKey u = k) then alive t' (Some (s, Some (t + ttlMs)))
    else if decide (refreshKey u j = k) then alive t' (Some ("1", Some (t + ttlMs)))
    else view r0 t' k).
  { intros k. destruct (store_token_view ttlMs (refreshKey u j) (SessionKey u) (currentRefreshKey u) s t r0 t' k Hpos
      (proj1 Ht)) as (r1 & E & Hv). rewrite E in Hrep. injection Hrep as <-. exact Hv. }
  unfold current_token. rewrite !GET_view, EXISTS_view, !Hview.
  rewrite decide_False by done. rewrite decide_True by done.
  rewrite !decide_False by done. rewrite !decide_True by done. simpl. rewrite bool_decide_true by lia. simpl.
  split_and!; [done|done|by right].
Qed.

(** The tokens that the tool prints are the user's only session: both parse to
    the fixed user in one session with the role USER, Redis knows the refresh
    token as the current one while it lives, and any other session of the user
    is over. *)
Theorem dev_login env w :
  wp (dev_main env) (λ r w', match r with
    | Err _ => True
    | Ok (access, refresh) => exists secret u j s t0,
        secret <> "" /\ uuid_parse defaultUserID = Some u /\
        parses_to (dev_manager secret) access TokenTypeAccess u [UserRoleUser] s "" (NewNumericDate
          (e_now (w_env w) (2 + e_tick (w_env w)) + defaultAccessTokenTTL)) /\
        parses_to (dev_manager secret) refresh TokenTypeRefresh u [UserRoleUser] s j (NewNumericDate
          (e_now (w_env w) (3 + e_tick (w_env w)) + defaultRefreshTokenTTL)) /\
        (forall t, t0 <= t < t0 + Z.quot defaultRefreshTokenTTL 1000000 -> current_token u j s t (prj (w_st w'))) /\
        forall j' s' nj ns t, t0 <= t -> j' <> j \/ s' <> s ->
          (rotate (Z.quot defaultRefreshTokenTTL 1000000) u j' s' nj ns t (prj (X := R) (w_st w'))).1 = Ok 0
    end) w.
Proof.
  unfold dev_main. cbv zeta. set (secret := TrimSpace _). clearbody secret.
  case_bool_decide as Hsecret; [by apply wp_ret|].
  destruct (uuid_parse defaultUserID) as [u|]; [|by apply wp_ret]. wp_steps.
  assert (Hroles : Forall valid_role [UserRoleUser]) by (repeat constructor; done).
  eapply wp_mono; [apply GenerateAccessToken_spec; [done|done|apply uuid_text_nonempty]|].
  intros ra w1 [-> (access & -> & Hacc)]. apply wp_bind.
  eapply wp_mono; [apply GenerateRefreshToken_spec; [done|done|apply uuid_text_nonempty]|].
  intros rr w2 [-> (refresh & -> & Href)]. unfold replaceSession, Replace. wp_steps.
  apply wp_redis_call; [intros e; by wp_steps|]. intros t r Ht Hr. wp_steps.
  destruct r as [n|e]; [|by wp_steps]. destruct Hr as [Hr|[e [=]]]. wp_steps.
  set (j := uuid_string (e_uuid (w_env w) (e_tick (w_env w)))) in *.
  set (s := uuid_string (e_uuid (w_env w) (S (e_tick (w_env w))))) in *.
  set (run := replaceScript _ _ _ _ _ _ _) in Hr |- *.
  assert (Hrep : run = (Ok 1, run.2)).
  { destruct run as [a r'] eqn:E. simpl in Hr. subst a. unfold run, replaceScript in E.
    destruct (store_token _ _ _ _ _ _ _) as [[?|] ?]; by simplify_eq/=. }
  change (replace (Z.quot defaultRefreshTokenTTL 1000000) u j s t (prj (w_st w)) = (Ok 1, run.2)) in Hrep.
  clearbody run. exists secret, u, j, s, t. rewrite prj_upd. split_and!; [done|done|exact Hacc|exact Href| |].
  - intros t' Ht'. by eapply replace_current.
  - intros j' s' nj ns t' Ht' Hne. by rewrite (replace_revokes _ u j s j' s' nj ns t t' (prj (w_st w)) run.2).
Qed.
End Tool.

(** ** Closed instances *)

Section DevTokenWitness.
#[local] Existing Instance MemRedis.mem_redis.
#[local] Existing Instance MemRedis.mem_redis_laws.
#[local] Existing Instance TextJwt.
#[local] Existing Instance TextJwt_laws.
#[local] Existing Instance DemoFiles.
Notation mem := (gmap string (string * option Z)).

(** Identifiers in decimal, and the tool's user. *)
Definition DevLib : GoLib := {|
  uuid_string := @uuid_string DecLib;
  uuid_parse s := if bool_decide (s = defaultUserID) then Some 550%N else @uuid_parse DecLib s;
  status_text := @status_text DecLib;
  lib_sentinel_text := @lib_sentinel_text DecLib
|}.

Lemma DevLib_laws : UuidLaws DevLib.
Proof.
  destruct DecLib_laws as [H1 H2 H3 H4]. split; [|exact H2|exact H3|exact H4].
  intros u. change ((if bool_decide (@uuid_string DecLib u = defaultUserID) then Some 550%N
    else @uuid_parse DecLib (@uuid_string DecLib u)) = Some u).
  by rewrite bool_decide_false by done.
Qed.
#[local] Existing Instance DevLib.
#[local] Existing Instance DevLib_laws.

Example demo_address :
  redisAddress {[ "REDIS_HOST" := " redis "; "REDIS_PORT" := " "; "EXTERNAL_REDIS_PORT" := "6380" ]} = "redis:6380".
Proof. by vm_compute. Qed.

(** The refresh token that the tool prints is accepted once. *)
Example demo_dev_login :
  let '(r, w) := dev_main (Doc := unit) ∅ (World quiet_env (∅ : mem)) in
  match r with
  | Ok (_, refresh) =>
      let m := dev_manager "file" in
      let '(r1, w) := Refresh m defaultRefreshTokenTTL refresh w in
      let '(r2, _) := Refresh m defaultRefreshTokenTTL refresh w in
      (is_Ok r1, r2) = (true, Err (ESentinel ErrTokenRevoked))
  | Err _ => False
  end.
Proof. by vm_compute. Qed.
End DevTokenWitness.
