(* ===== verification/Readiness.v ===== *)
(** * Readiness (shared/infrastructure/health, the readiness part of
      orderService and spotService application/lifecycle.go)

    The monitor probes Postgres and Redis and publishes the service's status
    on the gRPC health server, which is the class [HealthServer].  A status
    only changes after a streak of equal outcomes; [steady] says which
    histories of outcomes leave the service in rotation, and the monitor
    computes exactly that. *)

From S2P Require Import Prelude GoStrings GoErrors Effects Config.
Local Open Scope string_scope.
Local Open Scope list_scope.
Local Open Scope Z_scope.

(** ** The health server of grpc-go *)

Inductive ServingStatus := UNKNOWN | SERVING | NOT_SERVING | SERVICE_UNKNOWN.

#[export] Instance ServingStatus_eq_dec : EqDecision ServingStatus.
Proof. solve_decision. Defined.

(** [hs_Check] is what a client's Check gets: a service that was never named
    is not found.  After Shutdown the server ignores later changes. *)
Class HealthServer (Srv : Type) := {
  hs_NewServer : Srv;
  hs_SetServingStatus : string -> ServingStatus -> Srv -> Srv;
  hs_Shutdown : Srv -> Srv;
  hs_down : Srv -> bool;
  hs_Check : Srv -> string -> option ServingStatus
}.

Class HealthLaws (Srv : Type) `{HealthServer Srv} := {
  hs_new_up : hs_down hs_NewServer = false;
  hs_set_down name v srv : hs_down (hs_SetServingStatus name v srv) = hs_down srv;
  hs_set_other name name' v srv : name <> name' ->
    hs_Check (hs_SetServingStatus name v srv) name' = hs_Check srv name';
  hs_set_same name v srv :
    hs_Check (hs_SetServingStatus name v srv) name = if hs_down srv then hs_Check srv name else Some v;
  hs_shutdown_down srv : hs_down (hs_Shutdown srv) = true;
  hs_shutdown_check srv name :
    hs_Check (hs_Shutdown srv) name = (λ _, NOT_SERVING) <$> hs_Check srv name
}.

(** health_checker.go *)
Definition NewServer {Srv} `{HealthServer Srv} : Srv := hs_SetServingStatus "" NOT_SERVING hs_NewServer.

(** ** readiness_monitor.go *)

Definition defaultCheckInterval : Z := 10 * second.
Definition defaultCheckTimeout : Z := 3 * second.
Definition defaultSuccessThreshold : Z := 1.
Definition defaultFailureThreshold : Z := 1.

Record ReadinessMonitorConfig := {
  rd_ServiceName : string; rd_ServiceNames : list string; rd_CheckInterval : Z; rd_CheckTimeout : Z;
  rd_SuccessThreshold : Z; rd_FailureThreshold : Z }.

(** The fields of the monitor that change; its configuration and its
    dependencies are arguments below. *)
Record ReadinessMonitor := {
  rm_serving : bool; rm_successStreak : Z; rm_failureStreak : Z; rm_lastFailure : string }.

Record DependencyCheck (St : Type) := { dp_Name : string; dp_Check : M St (result unit) }.
Arguments dp_Name {St} _.
Arguments dp_Check {St} _.

Fixpoint strings_Join (l : list string) (sep : string) : string :=
  match l with
  | [] => ""
  | [s] => s
  | s :: l => s +:+ sep +:+ strings_Join l sep
  end.

Definition positive_or (x default : Z) : Z := if x <=? 0 then default else x.

(** The thresholds and periods a monitor is made with. *)
Definition with_defaults (cfg : ReadinessMonitorConfig) : ReadinessMonitorConfig := {|
  rd_ServiceName := rd_ServiceName cfg; rd_ServiceNames := rd_ServiceNames cfg;
  rd_CheckInterval := positive_or (rd_CheckInterval cfg) defaultCheckInterval;
  rd_CheckTimeout := positive_or (rd_CheckTimeout cfg) defaultCheckTimeout;
  rd_SuccessThreshold := positive_or (rd_SuccessThreshold cfg) defaultSuccessThreshold;
  rd_FailureThreshold := positive_or (rd_FailureThreshold cfg) defaultFailureThreshold |}.

(** One round of the select of Watch: the ticker fired or the context ended. *)
Inductive watch_arm := Tick | Stop.

Section Monitor.
Context {St Srv : Type} `{HM : !Has ReadinessMonitor St} `{HS : !Has Srv St}
  `{A1 : !Apart ReadinessMonitor Srv St} `{A2 : !Apart Srv ReadinessMonitor St}
  `{HH : HealthServer Srv} `{U : GoLib}.
Variable cfg : ReadinessMonitorConfig.
Variable dependencies : list (DependencyCheck St).

Definition get_monitor : M St ReadinessMonitor := let! s := get in mret (prj s).
Definition put_monitor (m : ReadinessMonitor) : M St unit := modify (upd m).

Definition set_statuses (status : ServingStatus) (srv : Srv) : Srv :=
  foldl (λ srv serviceName,
           if bool_decide (serviceName = "") then srv else hs_SetServingStatus serviceName status srv)
        (hs_SetServingStatus "" status srv) (rd_ServiceNames cfg).

Definition setStatus (status : ServingStatus) : M St unit :=
  modify (λ s, upd (set_statuses status (prj s)) s).

(** The names of the dependencies whose check failed, with the errors. *)
Fixpoint check_all (deps : list (DependencyCheck St)) (failures : list string) : M St (list string) :=
  match deps with
  | [] => mret failures
  | dependency :: deps =>
      let! r := dp_Check dependency in
      match r with
      | Err err => check_all deps (failures ++ [dp_Name dependency +:+ ": " +:+ error_text err])
      | Ok _ => check_all deps failures
      end
  end.

Definition checkDependencies : M St (string * option error) :=
  let! failures := check_all dependencies [] in
  match failures with
  | [] => mret ("", None)
  | _ => let failure := strings_Join failures "; " in mret (failure, Some (EMsg failure))
  end.

(** The monitor starts out of rotation. *)
Definition NewReadinessMonitor : M St unit :=
  put_monitor {| rm_serving := false; rm_successStreak := 0; rm_failureStreak := 0; rm_lastFailure := "" |} ;;!
  setStatus NOT_SERVING.

Definition RequireReady : M St (result unit) :=
  let! (failure, err) := checkDependencies in
  let! m := get_monitor in
  match err with
  | Some err =>
      put_monitor {| rm_serving := rm_serving m; rm_successStreak := 0; rm_failureStreak := 1;
                     rm_lastFailure := failure |} ;;!
      setStatus NOT_SERVING ;;!
      mret (Err err)
  | None =>
      put_monitor {| rm_serving := true; rm_successStreak := 1; rm_failureStreak := 0; rm_lastFailure := "" |} ;;!
      setStatus SERVING ;;!
      mret (Ok tt)
  end.

Definition probe : M St unit :=
  let! (failure, err) := checkDependencies in
  let! m := get_monitor in
  match err with
  | Some _ =>
      let failureStreak := wrap_s 64 (rm_failureStreak m + 1) in
      put_monitor {| rm_serving := rm_serving m; rm_successStreak := 0; rm_failureStreak := failureStreak;
                     rm_lastFailure := failure |} ;;!
      if rm_serving m && (rd_FailureThreshold cfg <=? failureStreak) then
        put_monitor {| rm_serving := false; rm_successStreak := 0; rm_failureStreak := failureStreak;
                       rm_lastFailure := failure |} ;;!
        setStatus NOT_SERVING
      else mret tt
  | None =>
      let successStreak := wrap_s 64 (rm_successStreak m + 1) in
      put_monitor {| rm_serving := rm_serving m; rm_successStreak := successStreak; rm_failureStreak := 0;
                     rm_lastFailure := "" |} ;;!
      if negb (rm_serving m) && (rd_SuccessThreshold cfg <=? successStreak) then
        put_monitor {| rm_serving := true; rm_successStreak := successStreak; rm_failureStreak := 0;
                       rm_lastFailure := "" |} ;;!
        setStatus SERVING
      else mret tt
  end.

Fixpoint Watch (arms : list watch_arm) : M St unit :=
  match arms with
  | Tick :: arms => probe ;;! Watch arms
  | _ => mret tt
  end.
End Monitor.

(** ** The monitors of the two services and their hooks (registerReadiness) *)

(** [pool.Ping] and [redisClient.Ping] only ask whether the server answers. *)
Definition ping {St} (q : env -> nat -> Z) : M St (result unit) := call q (λ _, faulty (λ s, (Ok tt, s))).

Definition service_dependencies {St} : list (DependencyCheck St) :=
  [{| dp_Name := "postgres"; dp_Check := ping e_dbnow |}; {| dp_Name := "redis"; dp_Check := ping e_rnow |}].

Definition order_monitor (cfg : OrderConfig) : ReadinessMonitorConfig :=
  with_defaults {|
    rd_ServiceName := sc_Name (oc_Service cfg);
    rd_ServiceNames := ["order.v1.OrderService"; "auth.v1.AuthService"];
    rd_CheckInterval := hc_CheckInterval (oc_Health cfg); rd_CheckTimeout := to_Check (oc_Timeouts cfg);
    rd_SuccessThreshold := hc_SuccessThreshold (oc_Health cfg);
    rd_FailureThreshold := hc_FailureThreshold (oc_Health cfg) |}.

Definition spot_monitor (cfg : SpotConfig) : ReadinessMonitorConfig :=
  with_defaults {|
    rd_ServiceName := sc_Name (sp_Service cfg);
    rd_ServiceNames := ["spot.v1.SpotInstrumentService"];
    rd_CheckInterval := hc_CheckInterval (sp_Health cfg); rd_CheckTimeout := to_Check (sp_Timeouts cfg);
    rd_SuccessThreshold := hc_SuccessThreshold (sp_Health cfg);
    rd_FailureThreshold := hc_FailureThreshold (sp_Health cfg) |}.

Section Hooks.
Context {St Srv : Type} `{HM : !Has ReadinessMonitor St} `{HS : !Has Srv St}
  `{HH : HealthServer Srv} `{U : GoLib}.
Variable cfg : ReadinessMonitorConfig.

(** OnStart refuses to start a service whose dependencies do not answer;
    afterwards the watch runs in its own goroutine. *)
Definition readiness_OnStart : M St (result unit) := RequireReady cfg service_dependencies.

(** OnStop waits for the watch, if it was started: [waited] is the error of
    the stop context if that ended first. *)
Definition readiness_OnStop (started : bool) (waited : option error) : M St (result unit) :=
  match (if started then waited else None) with
  | Some err => mret (Err err)
  | None => modify (λ s, upd (hs_Shutdown (prj s)) s) ;;! mret (Ok tt)
  end.

(** A whole life: start, watch, stop. *)
Definition readiness_life (arms : list watch_arm) (waited : option error) : M St (result unit) :=
  NewReadinessMonitor cfg ;;!
  try! _ := readiness_OnStart else id in
  Watch cfg service_dependencies arms ;;!
  readiness_OnStop true waited.
End Hooks.

(** ** Histories of outcomes *)

(** The outcome of a probe of [k] dependencies whose first ping is the
    environment's [n]-th question, and of the probes that follow it. *)
Definition answers (e : env) (n : nat) : bool := match e_fault e n with FNone => true | _ => false end.

Definition probe_ok (e : env) (k n : nat) : bool := forallb (answers e) (seq n k).

Fixpoint outcomes (e : env) (k n : nat) (arms : list watch_arm) : list bool :=
  match arms with
  | Tick :: arms => probe_ok e k n :: outcomes e k (k + n) arms
  | _ => []
  end.

(** The history [h] of outcomes since a successful start leaves the service in
    rotation: since the start, or since some run of [S] successes, there were
    no [F] failures in a row. *)
Definition steady (S F : nat) (h : list bool) : Prop :=
  exists h1 h2, h = h1 ++ h2 /\ (h1 = [] \/ exists h0, h1 = h0 ++ replicate S true) /\
    ~ exists a b, h2 = a ++ replicate F false ++ b.

(** How many outcomes [b] the history ends with. *)
Fixpoint lead (b : bool) (h : list bool) : nat :=
  match h with
  | x :: h => if bool_decide (x = b) then S (lead b h) else 0%nat
  | [] => 0%nat
  end.

Definition streak (b : bool) (h : list bool) : nat := lead b (rev h).

Lemma streak_same b h : streak b (h ++ [b]) = S (streak b h).
Proof. unfold streak. rewrite rev_app_distr. simpl. by rewrite bool_decide_true. Qed.

Lemma streak_other b c h : c <> b -> streak b (h ++ [c]) = 0%nat.
Proof. intros Hc. unfold streak. rewrite rev_app_distr. simpl. by rewrite bool_decide_false. Qed.

Lemma streak_le b h : (streak b h <= length h)%nat.
Proof.
  unfold streak. rewrite <- (length_rev h). induction (rev h) as [|x l IH]; simpl; [lia|].
  case_bool_decide; lia.
Qed.

Lemma streak_spec b h n : (n <= streak b h)%nat <-> exists h0, h = h0 ++ replicate n b.
Proof.
  revert n. induction h as [|x h IH] using rev_ind; intros n.
  - split; [|intros [h0 H]; symmetry in H; apply app_eq_nil in H as [_ H]; destruct n; [lia|done]].
    intros Hn. exists []. assert (n = 0)%nat as -> by (cbn in Hn; lia). done.
  - destruct n as [|n].
    { split; [|lia]. intros _. exists (h ++ [x]). by rewrite app_nil_r. }
    rewrite replicate_S_end. destruct (decide (x = b)) as [->|Hx].
    + rewrite streak_same. rewrite <- Nat.succ_le_mono, IH. split; intros [h0 H]; exists h0.
      * by rewrite H, app_assoc.
      * rewrite app_assoc in H. by apply app_inj_tail in H as [-> _].
    + rewrite streak_other by done. split; [lia|]. intros [h0 H]. rewrite app_assoc in H.
      by apply app_inj_tail in H as [_ ->].
Qed.

(** The history decides one outcome at a time. *)
Lemma steady_nil S F : (0 < F)%nat -> steady S F [].
Proof.
  intros HF. exists [], []. split_and!; [done|by left|]. intros (a & b & H).
  symmetry in H. apply app_eq_nil in H as [_ H]. apply app_eq_nil in H as [H _]. by destruct F; [lia|].
Qed.

Section Steady.
Variables S F : nat.
Hypothesis HS : (0 < S)%nat.
Hypothesis HF : (0 < F)%nat.

Lemma no_run_snoc_true l :
  (exists a b, l ++ [true] = a ++ replicate F false ++ b) -> exists a b, l = a ++ replicate F false ++ b.
Proof.
  intros (a & b & H). destruct b as [|y b _] using rev_ind.
  - rewrite app_nil_r in H. destruct F as [|F']; [lia|]. rewrite replicate_S_end, app_assoc in H.
    by apply app_inj_tail in H as [_ H].
  - rewrite !app_assoc in H. apply app_inj_tail in H as [H _]. exists a, b. by rewrite H, app_assoc.
Qed.

Lemma steady_true h : steady S F (h ++ [true]) <-> steady S F h \/ (S <= streak true (h ++ [true]))%nat.
Proof.
  split.
  - intros (h1 & h2 & Heq & H1 & H2). destruct h2 as [|x h2 _] using rev_ind.
    + rewrite app_nil_r in Heq. subst h1. right. destruct H1 as [H1|H1]; [by destruct h|]. by apply streak_spec.
    + left. rewrite app_assoc in Heq. apply app_inj_tail in Heq as [-> <-].
      exists h1, h2. split_and!; [done|done|]. intros (a & b & ->). apply H2. exists a, (b ++ [true]).
      by rewrite !app_assoc.
  - intros [(h1 & h2 & -> & H1 & H2)|Hs].
    + exists h1, (h2 ++ [true]). split_and!; [by rewrite app_assoc|done|]. by intros H%no_run_snoc_true.
    + exists (h ++ [true]), []. rewrite app_nil_r. split_and!; [done|right; by apply streak_spec|].
      intros (a & b & H). symmetry in H. apply app_eq_nil in H as [_ H]. apply app_eq_nil in H as [H _].
      destruct F; [lia|done].
Qed.

Lemma steady_false h :
  steady S F (h ++ [false]) <-> steady S F h /\ (streak false (h ++ [false]) < F)%nat.
Proof.
  split.
  - intros (h1 & h2 & Heq & H1 & H2). destruct h2 as [|x h2 _] using rev_ind.
    { rewrite app_nil_r in Heq. subst h1. destruct H1 as [H1|[h0 H1]]; [by destruct h|].
      destruct S as [|S']; [lia|]. rewrite replicate_S_end, app_assoc in H1. by apply app_inj_tail in H1 as [_ H1]. }
    rewrite app_assoc in Heq. apply app_inj_tail in Heq as [Heq <-]. split.
    + exists h1, h2. split_and!; [done|done|]. intros (a & b & ->). apply H2. exists a, (b ++ [false]).
      by rewrite !app_assoc.
    + apply Nat.nle_gt. intros Hle. apply streak_spec in Hle as [h0 H]. subst h. rewrite <- app_assoc in H.
      apply app_eq_inv in H as [(k & -> & H)|(k & -> & H)].
      * destruct k as [|y k _] using rev_ind.
        { apply H2. exists [], []. by rewrite app_nil_r, H. }
        assert (y = false) as ->.
        { assert (y ∈ replicate F false) as Hy by (rewrite H; set_solver).
          by apply elem_of_replicate in Hy as [-> _]. }
        destruct H1 as [H1|[h0' H1]]; [by destruct h0, k|].
        destruct S as [|S']; [lia|]. rewrite replicate_S_end, !app_assoc in H1.
        by apply app_inj_tail in H1 as [_ H1].
      * apply H2. exists k, []. by rewrite app_nil_r.
  - intros [(h1 & h2 & -> & H1 & H2) Hs]. exists h1, (h2 ++ [false]). split_and!; [by rewrite app_assoc|done|].
    intros (a & b & H). destruct b as [|y b _] using rev_ind.
    + rewrite app_nil_r in H. apply Nat.lt_nge in Hs. apply Hs, streak_spec. exists (h1 ++ a).
      by rewrite <- !app_assoc, H.
    + rewrite !app_assoc in H. apply app_inj_tail in H as [H _]. apply H2. exists a, b. by rewrite H, app_assoc.
Qed.
End Steady.

(** ** The monitor computes [steady] *)

Lemma probe_ok_ticks e j k n : probe_ok (Nat.iter j tick e) k n = probe_ok e k n.
Proof. unfold probe_ok, answers. by induction j. Qed.

Lemma outcomes_ticks e j k n arms : outcomes (Nat.iter j tick e) k n arms = outcomes e k n arms.
Proof.
  revert n. induction arms as [|[] arms IH]; intros n; simpl; [done| |done].
  by rewrite probe_ok_ticks, IH.
Qed.

Section Proofs.
Context {St Srv : Type} `{HM : !Has ReadinessMonitor St} `{HS : !Has Srv St}
  `{A1 : !Apart ReadinessMonitor Srv St} `{A2 : !Apart Srv ReadinessMonitor St}
  `{HH : HealthServer Srv} `{HL : !HealthLaws Srv} `{U : GoLib}.

(** The dependencies only ask whether their server answers. *)
Definition pings (deps : list (DependencyCheck St)) : Prop := Forall (λ d, exists q, dp_Check d = ping q) deps.

Lemma service_pings : pings service_dependencies.
Proof. apply Forall_cons. split; [by exists e_dbnow|]. apply Forall_singleton. by exists e_rnow. Qed.

Lemma check_all_spec deps failures w :
  pings deps ->
  exists more, check_all deps failures w = (failures ++ more, World (Nat.iter (length deps) tick (w_env w)) (w_st w)) /\
    (more = [] <-> probe_ok (w_env w) (length deps) (e_tick (w_env w)) = true).
Proof.
  intros H. revert failures w. induction H as [|d deps [q Hq] _ IH]; intros failures w.
  { exists []. rewrite app_nil_r. by destruct w. }
  cbn [check_all]. rewrite Hq. unfold mbind, ping, call, probe_ok. cbn [length seq forallb].
  unfold answers at 1. destruct w as [e s]. cbn [w_env w_st].
  assert (Hshift : probe_ok (tick e) (length deps) (e_tick (tick e)) = probe_ok e (length deps) (S (e_tick e))) by done.
  unfold probe_ok in Hshift.
  destruct (e_fault e (e_tick e)); simpl.
  - destruct (IH failures (World (tick e) s)) as (more & Heq & Hmore). exists more.
    rewrite Heq. cbn [w_env w_st]. rewrite <- Nat.iter_succ_r. split; [done|]. by rewrite Hmore.
  - destruct (IH (failures ++ [dp_Name d +:+ ": " +:+ error_text e0]) (World (tick e) s)) as (more & Heq & _).
    exists ((dp_Name d +:+ ": " +:+ error_text e0) :: more). rewrite Heq, <- app_assoc. cbn [w_env w_st].
    by rewrite <- Nat.iter_succ_r.
  - destruct (IH (failures ++ [dp_Name d +:+ ": " +:+ error_text e0]) (World (tick e) s)) as (more & Heq & _).
    exists ((dp_Name d +:+ ": " +:+ error_text e0) :: more). rewrite Heq, <- app_assoc. cbn [w_env w_st].
    by rewrite <- Nat.iter_succ_r.
Qed.

Lemma checkDependencies_spec deps w :
  pings deps ->
  exists failure err, checkDependencies deps w = ((failure, err), World (Nat.iter (length deps) tick (w_env w)) (w_st w)) /\
    if probe_ok (w_env w) (length deps) (e_tick (w_env w)) then err = None else exists x, err = Some x.
Proof.
  intros H. destruct (check_all_spec deps [] w H) as (more & Heq & Hmore).
  unfold checkDependencies, mbind. rewrite Heq. destruct (probe_ok _ _ _).
  - rewrite (proj2 Hmore) by done. by exists "", None.
  - destruct more as [|x more]; [by discriminate (proj1 Hmore eq_refl)|]. simpl. eauto.
Qed.

Section Cfg.
Variable cfg : ReadinessMonitorConfig.

(** Every name the service goes by has this status. *)
Definition published (status : ServingStatus) (srv : Srv) : Prop :=
  forall name, name = "" \/ name ∈ rd_ServiceNames cfg -> hs_Check srv name = Some status.

Lemma set_statuses_spec status srv :
  hs_down srv = false -> hs_down (set_statuses cfg status srv) = false /\ published status (set_statuses cfg status srv).
Proof.
  intros Hup. unfold set_statuses, published.
  assert (Hgen : forall names srv, hs_down srv = false ->
    let srv' := foldl (λ srv serviceName,
      if bool_decide (serviceName = "") then srv else hs_SetServingStatus serviceName status srv) srv names in
    hs_down srv' = false /\ (forall name, hs_Check srv name = Some status -> hs_Check srv' name = Some status) /\
    (forall name, name <> "" -> name ∈ names -> hs_Check srv' name = Some status)).
  { intros names. induction names as [|n names IH]; intros sv Hsv; simpl.
    { split_and!; [done|done|]. set_solver. }
    case_bool_decide as Hn.
    - destruct (IH sv Hsv) as (H1 & H2 & H3). split_and!; [done|done|].
      intros name Hne [->|Hin]%elem_of_cons; [done|auto].
    - destruct (IH (hs_SetServingStatus n status sv)) as (H1 & H2 & H3); [by rewrite hs_set_down|].
      split_and!; [done| |].
      + intros name Hname. apply H2. destruct (decide (n = name)) as [->|Hne].
        * by rewrite hs_set_same, Hsv.
        * by rewrite hs_set_other.
      + intros name Hne [->|Hin]%elem_of_cons; [|auto]. apply H2. by rewrite hs_set_same, Hsv. }
  destruct (Hgen (rd_ServiceNames cfg) (hs_SetServingStatus "" status srv)) as (H1 & H2 & H3);
    [by rewrite hs_set_down|].
  split; [done|]. intros name Hname. destruct (decide (name = "")) as [->|Hne].
  - apply H2. by rewrite hs_set_same, Hup.
  - destruct Hname as [?|Hin]; [done|auto].
Qed.

Definition thresholds : nat * nat := (Z.to_nat (rd_SuccessThreshold cfg), Z.to_nat (rd_FailureThreshold cfg)).

(** After the history [h] the monitor counts the last streak, and is serving,
    as published, exactly when the history is steady. *)
Definition tracks (h : list bool) (s : St) : Prop :=
  let m := prj (X := ReadinessMonitor) s in
  hs_down (prj s) = false /\
  published (if rm_serving m then SERVING else NOT_SERVING) (prj s) /\
  rm_failureStreak m = Z.of_nat (streak false h) /\
  (if rm_serving m then steady thresholds.1 thresholds.2 h
   else ~ steady thresholds.1 thresholds.2 h /\ rm_successStreak m = Z.of_nat (streak true h)).

Hypothesis HSucc : 0 < rd_SuccessThreshold cfg.
Hypothesis HFail : 0 < rd_FailureThreshold cfg.

Lemma streak_bound b h : len h < max_i64 -> wrap_s 64 (Z.of_nat (streak b h) + 1) = Z.of_nat (S (streak b h)).
Proof.
  intros H. pose proof (streak_le b h). unfold len in H.
  rewrite wrap_s64_small; [lia|]. unfold in_i64, min_i64, max_i64 in *. lia.
Qed.

(** One probe as a function of the monitor, with the status it publishes. *)
Definition next (ok : bool) (failure : string) (m : ReadinessMonitor) : ReadinessMonitor * option ServingStatus :=
  if ok then
    let n := wrap_s 64 (rm_successStreak m + 1) in
    let up := negb (rm_serving m) && (rd_SuccessThreshold cfg <=? n) in
    ({| rm_serving := rm_serving m || up; rm_successStreak := n; rm_failureStreak := 0; rm_lastFailure := "" |},
     if up then Some SERVING else None)
  else
    let n := wrap_s 64 (rm_failureStreak m + 1) in
    let down := rm_serving m && (rd_FailureThreshold cfg <=? n) in
    ({| rm_serving := rm_serving m && negb down; rm_successStreak := 0; rm_failureStreak := n;
        rm_lastFailure := failure |}, if down then Some NOT_SERVING else None).

Lemma probe_next deps w :
  pings deps ->
  exists failure w', probe cfg deps w = (tt, w') /\
    w_env w' = Nat.iter (length deps) tick (w_env w) /\
    let ok := probe_ok (w_env w) (length deps) (e_tick (w_env w)) in
    let '(m', change) := next ok failure (prj (w_st w)) in
    prj (w_st w') = m' /\
    prj (w_st w') = match change with
                    | Some v => set_statuses cfg v (prj (w_st w)) | None => prj (X := Srv) (w_st w) end.
Proof.
  intros Hp. destruct (checkDependencies_spec deps w Hp) as (failure & err & Heq & Herr).
  exists failure. unfold probe, mbind. rewrite Heq. cbn. unfold next.
  destruct (probe_ok _ _ _); [subst err|destruct Herr as [x ->]]; cbn;
    destruct (rm_serving _), (_ <=? _); cbn; eexists; (split_and!; [done|done| |]); cbn;
    by rewrite ?prj_upd, ?prj_apart, ?prj_upd.
Qed.

Lemma probe_tracks deps h w :
  pings deps -> len h < max_i64 -> tracks h (w_st w) ->
  wp (probe cfg deps) (λ _ w',
    tracks (h ++ [probe_ok (w_env w) (length deps) (e_tick (w_env w))]) (w_st w') /\
    w_env w' = Nat.iter (length deps) tick (w_env w)) w.
Proof.
  intros Hp Hlen (Hup & Hpub & Hf & Hs).
  assert (HtS : (0 < thresholds.1)%nat) by (unfold thresholds; simpl; lia).
  assert (HtF : (0 < thresholds.2)%nat) by (unfold thresholds; simpl; lia).
  destruct (probe_next deps w Hp) as (failure & w' & Heq & Henv & Hnext). unfold wp. rewrite Heq. cbn [snd].
  split; [|done]. unfold tracks. set (m := prj (X := ReadinessMonitor) (w_st w)) in *.
  unfold next in Hnext. destruct (probe_ok _ _ _).
  - destruct Hnext as [-> ->]. cbn [rm_serving rm_failureStreak rm_successStreak].
    rewrite (streak_other false true), streak_same by done.
    pose proof (steady_true _ _ HtS HtF h) as Hst. rewrite streak_same in Hst.
    destruct (rm_serving m); cbn [negb andb orb].
    + split_and!; [done|done|done|]. apply Hst. by left.
    + destruct Hs as [Hs ->]. rewrite streak_bound by done. destruct (_ <=? _) eqn:E; cbn [orb].
      * apply Z.leb_le in E. destruct (set_statuses_spec SERVING (prj (w_st w)) Hup) as [Hup' Hpub'].
        split_and!; [done|done|done|]. apply Hst. right. unfold thresholds. simpl. lia.
      * apply Z.leb_gt in E. split_and!; [done|done|done| |done]. intros [?|H]%Hst; [done|].
        unfold thresholds in H. simpl in H. lia.
  - destruct Hnext as [-> ->]. cbn [rm_serving rm_failureStreak rm_successStreak].
    rewrite (streak_other true false), streak_same by done.
    pose proof (steady_false _ _ HtS HtF h) as Hst. rewrite streak_same in Hst.
    rewrite Hf, streak_bound by done.
    destruct (rm_serving m); cbn [negb andb orb].
    + destruct (_ <=? _) eqn:E; cbn [andb negb].
      * apply Z.leb_le in E. destruct (set_statuses_spec NOT_SERVING (prj (w_st w)) Hup) as [Hup' Hpub'].
        split_and!; [done|done|done| |done]. intros [_ H]%Hst. unfold thresholds in H. simpl in H. lia.
      * apply Z.leb_gt in E. split_and!; [done|done|done|]. apply Hst. split; [done|]. unfold thresholds. simpl. lia.
    + destruct Hs as [Hs _]. split_and!; [done|done|done| |done]. by intros [? _]%Hst.
Qed.

Lemma watch_tracks deps arms h w :
  pings deps -> len h + len arms <= max_i64 -> tracks h (w_st w) ->
  wp (Watch cfg deps arms) (λ _ w',
    tracks (h ++ outcomes (w_env w) (length deps) (e_tick (w_env w)) arms) (w_st w')) w.
Proof.
  intros Hp. revert h w. induction arms as [|[] arms IH]; intros h w Hlen Ht; cbn [Watch outcomes].
  - apply wp_ret. by rewrite app_nil_r.
  - apply wp_bind. eapply wp_mono; [apply probe_tracks; [done| |done]|].
    { unfold len in *. simpl in Hlen. lia. }
    cbn. intros _ w' [Ht' He]. eapply wp_mono; [apply (IH (h ++ [probe_ok (w_env w) (length deps) (e_tick (w_env w))]) w'); [|done]|].
    { rewrite len_app. unfold len in *. simpl in *. lia. }
    cbn. intros _ w''. rewrite He, outcomes_ticks. destruct (iter_tick_clocks (length deps) (w_env w)) as (_ & _ & _ & ->).
    by rewrite <- app_assoc.
  - apply wp_ret. by rewrite app_nil_r.
Qed.

Lemma RequireReady_spec deps w :
  pings deps -> hs_down (Srv := Srv) (prj (w_st w)) = false ->
  wp (RequireReady cfg deps) (λ r w',
    match r with
    | Ok _ => probe_ok (w_env w) (length deps) (e_tick (w_env w)) = true /\ tracks [] (w_st w')
    | Err _ => probe_ok (w_env w) (length deps) (e_tick (w_env w)) = false /\
               hs_down (prj (w_st w')) = false /\ published NOT_SERVING (prj (w_st w'))
    end) w.
Proof.
  intros Hp Hup. destruct (checkDependencies_spec deps w Hp) as (failure & err & Heq & Herr).
  unfold wp, RequireReady, mbind. rewrite Heq. cbn.
  destruct (probe_ok _ _ _); [subst err|destruct Herr as [x ->]]; cbn; (split; [done|]).
  - unfold tracks. rewrite prj_upd, (prj_apart (X := Srv) (Y := ReadinessMonitor)), prj_upd, prj_apart. cbn.
    destruct (set_statuses_spec SERVING (prj (w_st w)) Hup) as [Hup' Hpub']. split_and!; [done|done|done|].
    apply steady_nil. lia.
  - rewrite prj_upd, prj_apart. by apply set_statuses_spec.
Qed.

Lemma published_status status srv name v :
  published status srv -> name = "" \/ name ∈ rd_ServiceNames cfg -> hs_Check srv name = Some v <-> v = status.
Proof. intros Hp Hn. rewrite (Hp name Hn). split; congruence. Qed.

Lemma tracks_status h s name :
  name = "" \/ name ∈ rd_ServiceNames cfg -> tracks h s ->
  (hs_Check (Srv := Srv) (prj s) name = Some SERVING <-> steady thresholds.1 thresholds.2 h) /\
  (hs_Check (Srv := Srv) (prj s) name = Some NOT_SERVING <-> ~ steady thresholds.1 thresholds.2 h).
Proof.
  intros Hname (_ & Hpub & _ & Hs).
  rewrite (published_status _ _ name SERVING Hpub Hname), (published_status _ _ name NOT_SERVING Hpub Hname).
  destruct (rm_serving _); naive_solver.
Qed.
End Cfg.

Lemma outcomes_len e k n arms : len (outcomes e k n arms) <= len arms.
Proof.
  revert n. induction arms as [|[] arms IH]; intros n; cbn [outcomes]; unfold len in *; simpl; [lia| |lia].
  specialize (IH (k + n)%nat). lia.
Qed.

Lemma with_defaults_positive raw :
  0 < rd_SuccessThreshold (with_defaults raw) /\ 0 < rd_FailureThreshold (with_defaults raw).
Proof.
  unfold with_defaults, positive_or, defaultSuccessThreshold, defaultFailureThreshold. cbn [rd_SuccessThreshold rd_FailureThreshold].
  split; match goal with |- context [?x <=? 0] => destruct (Z.leb_spec x 0) end; lia.
Qed.

(** C24 A service starts only when Postgres and Redis answer, and then it is in
    rotation, as each of its names says, exactly while the history of its
    probes is steady: it leaves after as many failures in a row as the failure
    threshold, and comes back after as many successes as the success
    threshold.  A service that is refused is out of rotation.  A stop for
    which the watch ends in time takes the service out of rotation; when the
    stop's context ends first, its error is returned, the health server is not
    shut down, and the service stays where its history put it, the probes that
    are still running ([late]) included. *)
Theorem readiness_hysteresis raw arms waited late w name :
  let cfg := with_defaults raw in
  hs_down (Srv := Srv) (prj (w_st w)) = false -> len arms + len late <= max_i64 ->
  name = "" \/ name ∈ rd_ServiceNames cfg ->
  let started := readiness_OnStart cfg w in
  let watched := Watch cfg service_dependencies arms started.2 in
  let stopped := readiness_OnStop true waited watched.2 in
  let straggling := Watch cfg service_dependencies late stopped.2 in
  let status (w : world St) := hs_Check (Srv := Srv) (prj (w_st w)) name in
  let in_rotation (h : list bool) (w : world St) :=
    (status w = Some SERVING <-> steady (thresholds cfg).1 (thresholds cfg).2 h) /\
    (status w = Some NOT_SERVING <-> ~ steady (thresholds cfg).1 (thresholds cfg).2 h) in
  let seen (w : world St) arms := outcomes (w_env w) 2 (e_tick (w_env w)) arms in
  (started.1 = Ok tt <-> probe_ok (w_env w) 2 (e_tick (w_env w)) = true) /\
  (started.1 <> Ok tt -> status started.2 = Some NOT_SERVING) /\
  (started.1 = Ok tt ->
     in_rotation (seen started.2 arms) watched.2 /\
     match waited with
     | None => stopped.1 = Ok tt /\ status stopped.2 = Some NOT_SERVING
     | Some err => stopped.1 = Err err /\
         in_rotation (seen started.2 arms ++ seen stopped.2 late) straggling.2
     end).
Proof.
  cbv zeta. intros Hup Hlen Hname. destruct (with_defaults_positive raw) as [HSp HFp].
  set (cfg := with_defaults raw) in *.
  pose proof (RequireReady_spec cfg HFp service_dependencies w service_pings Hup) as Hr.
  change (length (service_dependencies (St := St))) with 2%nat in Hr.
  unfold wp in Hr. unfold readiness_OnStart. destruct (RequireReady cfg service_dependencies w) as [r w1].
  cbn [fst snd] in Hr |- *. destruct r as [[]|e].
  2: { destruct Hr as (Hok & _ & Hpub). split_and!; [by rewrite Hok|by intros _; apply Hpub|done]. }
  destruct Hr as [Hok Ht]. split_and!; [by rewrite Hok|done|]. intros _.
  pose proof (len_nonneg arms). pose proof (len_nonneg late).
  assert (Hw := watch_tracks cfg HSp HFp service_dependencies arms [] w1 service_pings
                  ltac:(unfold len in *; simpl; lia) Ht).
  change (length (service_dependencies (St := St))) with 2%nat in Hw. unfold wp in Hw.
  destruct (Watch cfg service_dependencies arms w1) as [u w2]. cbn [snd app] in *.
  split; [by apply tracks_status|]. destruct waited as [err|].
  - unfold readiness_OnStop, mret. cbn [fst snd]. split; [done|]. apply tracks_status; [done|].
    eapply (watch_tracks cfg HSp HFp service_dependencies late _ w2 service_pings); [|done].
    pose proof (outcomes_len (w_env w1) 2 (e_tick (w_env w1)) arms). lia.
  - unfold readiness_OnStop, modify, mbind, mret. cbn [w_st snd fst]. split; [done|].
    destruct Hw as (_ & Hpub & _). by rewrite prj_upd, hs_shutdown_check, (Hpub name Hname).
Qed.
End Proofs.

(** ** Closed instances *)

Module MemHealth.
Definition server : Type := bool * gmap string ServingStatus.

#[export] Instance mem_health : HealthServer server := {
  hs_NewServer := (false, {["" := SERVING]});
  hs_SetServingStatus name v srv := if srv.1 then srv else (false, <[name := v]> srv.2);
  hs_Shutdown srv := (true, (λ _, NOT_SERVING) <$> srv.2);
  hs_down srv := srv.1;
  hs_Check srv name := srv.2 !! name
}.

#[export] Instance mem_health_laws : HealthLaws server.
Proof.
  split; cbn.
  - done.
  - by intros name v [[] m].
  - intros name name' v [[] m] Hne; cbn; [done|]. by rewrite lookup_insert_ne.
  - intros name v [[] m]; cbn; [done|]. by rewrite lookup_insert_eq.
  - done.
  - intros [b m] name. cbn. by rewrite lookup_fmap.
Qed.
End MemHealth.

Section Witness.
#[local] Existing Instance MemHealth.mem_health.
#[local] Existing Instance MemHealth.mem_health_laws.
#[local] Existing Instance DecLib.

Notation demo_state := (ReadinessMonitor * MemHealth.server)%type.

(** Postgres does not answer the probes whose questions are 4, 8 and 10. *)
Definition demo_outages : env :=
  Env (λ n, if decide (n ∈ [4; 8; 10]%nat) then FBefore (EMsg "no connection") else FNone)
      (λ _, None) (λ _, 0) (λ _, 0) (λ _, 0) (λ n, N.of_nat (S n)) 0.

Definition demo_start : world demo_state :=
  World demo_outages
    ({| rm_serving := false; rm_successStreak := 0; rm_failureStreak := 0; rm_lastFailure := "" |}, NewServer).

Definition demo_thresholds : ReadinessMonitorConfig := {|
  rd_ServiceName := "spot"; rd_ServiceNames := ["spot.v1.SpotInstrumentService"]; rd_CheckInterval := second;
  rd_CheckTimeout := second; rd_SuccessThreshold := 0; rd_FailureThreshold := 2 |}.

Definition demo_run (arms : list watch_arm) : world demo_state :=
  (readiness_life (Srv := MemHealth.server) (with_defaults demo_thresholds) arms
     (Some (ESentinel CtxDeadlineExceeded)) demo_start).2.

(** One failed probe is forgiven, two in a row are not, one success mends it. *)
Example demo_rotation :
  map (λ n, hs_Check (prj (X := MemHealth.server) (w_st (demo_run (repeat Tick n)))) "spot.v1.SpotInstrumentService")
      [0; 1; 2; 3; 4; 5; 6]%nat
  = map Some [SERVING; SERVING; SERVING; SERVING; SERVING; NOT_SERVING; SERVING].
Proof. vm_compute. reflexivity. Qed.

(** Two failures in a row take the service out of rotation; a stop whose watch
    does not end in time leaves it there, and a late success brings it back. *)
Lemma readiness_hysteresis_witness :
  ~ steady 1 2 [true; false; true; false; false] /\
  steady 1 2 ([true; false; true; false; false] ++ [true]).
Proof.
  assert (Hlen : len (repeat Tick 5) + len [Tick] <= max_i64) by (vm_compute; discriminate).
  destruct (readiness_hysteresis (Srv := MemHealth.server) demo_thresholds (repeat Tick 5)
    (Some (ESentinel CtxDeadlineExceeded)) [Tick] demo_start "")
    as (_ & _ & H); [reflexivity|exact Hlen|by left|].
  destruct (H eq_refl) as ([_ [H1 _]] & _ & [H2 _] & _).
  split; [apply H1; vm_compute; reflexivity|apply H2; vm_compute; reflexivity].
Defined.
End Witness.
