(* ===== verification/Server.v ===== *)
(** * The gRPC servers (shared/interceptors/{validate,recovery,ratelimit},
      application/grpc_providers.go of both services)

    A request passes the validator, the panic recovery, the error mapping, the
    authentication and the per-method limiter before its handler.  The
    interceptors that trace, measure and log pass their handler's reply on and
    are left out of the chain.  The property says which requests reach the
    handler, with which identity, and what the caller gets in every case. *)

From S2P Require Import Prelude GoStrings GoErrors Effects Redis Pg Domain Events OrderDb Idempotency MarketBlock OrderService Auth ErrorMap SpotDb MarketView Config.
Local Open Scope string_scope.
Local Open Scope list_scope.
Local Open Scope Z_scope.

(** ** Library boundary *)

(** golang.org/x/time/rate: a limiter made with a rate per second and a burst;
    [Allow] at a time. *)
Class RateLib (L : Type) := {
  rate_NewLimiter : Z -> Z -> L;
  rate_Allow : Z -> L -> bool * L
}.

(** protovalidate: the error of a message that breaks its annotations. *)
Class ProtoValidate (Req : Type) := pv_Validate : Req -> option error.

(** ** Replies

    A handler returns a response or an error, or it panics.  A panic is a
    reply that every interceptor but the recovery hands on. *)
Definition reply (A : Type) : Type := result (A + string).
Definition panics {A} (value : string) : reply A := Ok (inr value).

(** A handler of the services, which returns. *)
Definition returning {St A} (m : M St (result A)) : M St (reply A) := let! r := m in mret (res_map inl r).

(** ** recovery_interceptor.go *)

Definition recovery_UnaryServerInterceptor {St A} (handler : reqctx -> M St (reply A)) (c : reqctx) : M St (reply A) :=
  let! r := handler c in
  mret match r with
       | Ok (inr _) => Err (EStatus Code_Internal "internal error")
       | _ => r
       end.

(** ** recovery_handler.go *)

(** The background loops run under it: a panic becomes the error their run
    ends with. *)
Definition PanicRecoveryHandler {St} (component : string) (function : M St (reply unit)) : M St (option error) :=
  let! r := function in
  mret match r with
       | Ok (inl _) => None
       | Ok (inr r) => Some (EMsg (component +:+ " panic: " +:+ r))
       | Err err => Some err
       end.

(** ** proto_validator.go *)

Definition validate_UnaryServerInterceptor {St A Req} `{U : GoLib} `{!ProtoValidate Req} (request : Req)
    (handler : reqctx -> M St (reply A)) (c : reqctx) : M St (reply A) :=
  match pv_Validate request with
  | Some validateErr => mret (Err (EStatus Code_InvalidArgument (error_text validateErr)))
  | None => handler c
  end.

(** ** grpc_rate_limiter.go *)

Section Limiter.
Context {L : Type} `{RateLib L}.

(** The limiters a server starts with: none for a limit that is not
    positive. *)
Fixpoint make_limiters (methodsLimit : list (string * Z)) : gmap string L :=
  match methodsLimit with
  | [] => ∅
  | (method, rps) :: methodsLimit =>
      if rps <=? 0 then make_limiters methodsLimit
      else <[method := rate_NewLimiter rps (wrap_s 64 (rps * 3))]> (make_limiters methodsLimit)
  end.

Definition order_limiters (cfg : OrderConfig) : gmap string L :=
  make_limiters
    [("/order.v1.OrderService/CreateOrder", og_CreateOrder (oc_GRPCRateLimit cfg));
     ("/order.v1.OrderService/GetOrderStatus", og_GetOrderStatus (oc_GRPCRateLimit cfg));
     ("/auth.v1.AuthService/RefreshToken", og_RefreshToken (oc_GRPCRateLimit cfg))].

Definition spot_limiters (cfg : SpotConfig) : gmap string L :=
  make_limiters
    [("/spot.v1.SpotInstrumentService/ViewMarkets", sg_ViewMarkets (sp_GRPCRateLimit cfg));
     ("/spot.v1.SpotInstrumentService/GetMarketByID", sg_GetMarketByID (sp_GRPCRateLimit cfg))].

Context {St : Type} `{HL : !Has (gmap string L) St}.

Definition ratelimit_UnaryServerInterceptor {A} (fullMethod : string)
    (handler : reqctx -> M St (reply A)) (c : reqctx) : M St (reply A) :=
  let! s := get in
  match prj (X := gmap string L) s !! fullMethod with
  | None => handler c
  | Some limiter =>
      let! now := time_Now in
      let '(ok, limiter') := rate_Allow now limiter in
      modify (upd (<[fullMethod := limiter']> (prj (X := gmap string L) s))) ;;!
      if negb ok then mret (Err (EStatus Code_ResourceExhausted "too many requests"))
      else handler c
  end.
End Limiter.

(** ** provideGRPCServer *)

Section Chain.
Context {L : Type} `{RateLib L} {St : Type} `{HL : !Has (gmap string L) St}
  `{U : GoLib} `{J : JwtLib} `{SL : StatusLib}.

(** grpc.ChainUnaryInterceptor: the first interceptor is the outermost. *)
Definition server_chain {A Req} `{!ProtoValidate Req} (m : Manager) (skipMethods : list string)
    (fullMethod : string) (request : Req) (handler : reqctx -> M St (reply A)) : reqctx -> M St (reply A) :=
  foldr (λ interceptor handler, interceptor handler) handler
    [validate_UnaryServerInterceptor request;
     recovery_UnaryServerInterceptor;
     ErrorMap.UnaryServerInterceptor;
     Auth.UnaryServerInterceptor m skipMethods fullMethod;
     ratelimit_UnaryServerInterceptor (L := L) fullMethod].

(** The methods of the two servers: what Register binds to each name. *)
Section Methods.
Context `{DL : DecimalLib} `{PT : PbTime}.

Definition serve_CreateOrder `{!ProtoValidate CreateOrderRequest} (cfg : OrderConfig)
    (service : UUID -> UUID -> OrderType -> Dec -> Z -> M St (result (UUID * OrderStatus)))
    (request : CreateOrderRequest) : reqctx -> M St (reply (string * Z)) :=
  server_chain (provideJWTManager cfg) (av_SkipMethods (oc_AuthVerifier cfg))
    "/order.v1.OrderService/CreateOrder" request
    (λ c, returning (handle_CreateOrder service (UserIDFromContext c) (Some request))).

Definition serve_GetOrderStatus `{!ProtoValidate string} (cfg : OrderConfig)
    (service : UUID -> UUID -> M St (result OrderStatus)) (orderId : string) : reqctx -> M St (reply Z) :=
  server_chain (provideJWTManager cfg) (av_SkipMethods (oc_AuthVerifier cfg))
    "/order.v1.OrderService/GetOrderStatus" orderId
    (λ c, returning (handle_GetOrderStatus service (UserIDFromContext c) (Some orderId))).

Definition serve_RefreshToken `{!ProtoValidate string} {R} `{Redis R} `{HR : !Has R St} (cfg : OrderConfig)
    (refreshToken : string) : reqctx -> M St (reply (string * string)) :=
  server_chain (provideJWTManager cfg) (av_SkipMethods (oc_AuthVerifier cfg))
    "/auth.v1.AuthService/RefreshToken" refreshToken
    (λ c, returning (handle_RefreshToken (provideJWTManager cfg) (ai_RefreshTokenTTL (oc_AuthIssuer cfg))
                       (Some refreshToken))).

Definition spot_JWTManager (cfg : SpotConfig) : Manager := {|
  m_secret := av_JWTSecret (sp_AuthVerifier cfg); m_accessTTL := 0; m_refreshTTL := 0 |}.

Definition serve_ViewMarkets `{!ProtoValidate (Z * Z)} {R} `{Redis R} `{HR : !Has R St} `{PgTypes} `{Collation}
    `{HD : !Has (pg SpotDB) St} `{MarketJson} (cfg : SpotConfig) (request : Z * Z) :
    reqctx -> M St (reply (list MarketMsg * Z * bool)) :=
  server_chain (spot_JWTManager cfg) (av_SkipMethods (sp_AuthVerifier cfg))
    "/spot.v1.SpotInstrumentService/ViewMarkets" request
    (λ c, returning (handle_ViewMarkets (spot_viewer cfg) c (Some request))).

Definition serve_GetMarketByID `{!ProtoValidate string} {R} `{Redis R} `{HR : !Has R St} `{PgTypes} `{Collation}
    `{HD : !Has (pg SpotDB) St} `{MarketJson} (cfg : SpotConfig) (market_id : string) :
    reqctx -> M St (reply MarketMsg) :=
  server_chain (spot_JWTManager cfg) (av_SkipMethods (sp_AuthVerifier cfg))
    "/spot.v1.SpotInstrumentService/GetMarketByID" market_id
    (λ c, returning (handle_GetMarketByID (spot_viewer cfg) c (Some market_id))).
End Methods.
End Chain.

(** ** What reaches a handler, and what a caller gets *)

Section Properties.
Context {L : Type} `{HRL : RateLib L} {St : Type} `{HL : !Has (gmap string L) St}
  `{U : GoLib} `{J : JwtLib} `{SL : StatusLib} `{!StatusLaws SL}.

Lemma refused_unauthenticated s :
  s ∈ auth_sentinels -> mapError (ESentinel s) = EStatus Code_Unauthenticated "authentication failed".
Proof.
  intros Hs. unfold mapError. rewrite FromError_none by done. cbn [andb].
  unfold auth_sentinels in Hs.
  repeat (apply elem_of_cons in Hs as [->|Hs]; [reflexivity|]). by apply elem_of_nil in Hs.
Qed.

(** Whether the method's limiter lets a request through, and the world after
    it was asked. *)
Definition lets_through (fullMethod : string) (w : world St) : bool * world St :=
  match prj (X := gmap string L) (w_st w) !! fullMethod with
  | None => (true, w)
  | Some limiter =>
      let '(ok, limiter') := rate_Allow (e_now (w_env w) (e_tick (w_env w))) limiter in
      (ok, World (tick (w_env w)) (upd (<[fullMethod := limiter']> (prj (X := gmap string L) (w_st w))) (w_st w)))
  end.

Lemma limiter_lets_through {A} fullMethod (handler : reqctx -> M St (reply A)) c w :
  ratelimit_UnaryServerInterceptor (L := L) fullMethod handler c w =
    if (lets_through fullMethod w).1 then handler c (lets_through fullMethod w).2
    else (Err (EStatus Code_ResourceExhausted "too many requests"), (lets_through fullMethod w).2).
Proof.
  unfold ratelimit_UnaryServerInterceptor, lets_through, mbind, get, time_Now, ask, modify, mret.
  destruct (_ !! fullMethod) as [limiter|]; [|done]. cbn.
  by destruct (rate_Allow _ limiter) as [[] l'].
Qed.

(** The caller's answer for a handler's reply. *)
Definition answer {A} (r : reply A) : reply A :=
  match r with
  | Ok (inl a) => Ok (inl a)
  | Ok (inr _) => Err (EStatus Code_Internal "internal error")
  | Err e => Err (mapError e)
  end.

(** The request's identity: a method on the skip list runs as it came, every
    other one as the bearer of the access token it carries. *)
Definition identified (m : Manager) (skipMethods : list string) (fullMethod : string) (c : reqctx) (w : world St)
    (c' : reqctx) (w' : world St) : Prop :=
  if shouldSkip fullMethod (makeSkipMethods skipMethods) then c' = c /\ w' = w
  else
    w' = World (tick (w_env w)) (w_st w) /\
    exists token claims userID roles,
      bearerTokenFromContext c = Ok token /\
      check_claims TokenTypeAccess (jwt_parse (m_secret m) (e_now (w_env w) (e_tick (w_env w))) token) = Ok claims /\
      uuid_parse (cl_Subject claims) = Some userID /\ ParseUserRolesClaims (cl_UserRoles claims) = Ok roles /\
      UserIDFromContext c' = Some userID /\ UserRolesFromContext c' = Some roles.

(** The recovery and the error mapping together. *)
Lemma server_chain_eq {A Req} `{!ProtoValidate Req} m skipMethods fullMethod (request : Req)
    (handler : reqctx -> M St (reply A)) (c : reqctx) (w : world St) :
  server_chain (L := L) m skipMethods fullMethod request handler c w =
    match pv_Validate request with
    | Some e => (Err (EStatus Code_InvalidArgument (error_text e)), w)
    | None =>
        let '(r, w') := Auth.UnaryServerInterceptor m skipMethods fullMethod
                          (ratelimit_UnaryServerInterceptor (L := L) fullMethod handler) c w in
        (answer r, w')
    end.
Proof.
  unfold server_chain, validate_UnaryServerInterceptor, recovery_UnaryServerInterceptor,
    ErrorMap.UnaryServerInterceptor. cbn [foldr].
  destruct (pv_Validate request); [done|]. unfold mbind, mret.
  destruct (Auth.UnaryServerInterceptor _ _ _ _ c w) as [[[a|v]|e] w']; reflexivity.
Qed.

Lemma answer_known {A} (r : reply A) :
  (exists a, answer r = Ok (inl a)) \/
  exists e code msg, answer r = Err e /\ status_FromError e = ((code, msg), true) /\ code <> Code_Unknown.
Proof.
  destruct r as [[a|v]|e]; cbn.
  - left. by exists a.
  - right. eexists _, Code_Internal, _. by rewrite FromError_status.
  - right. destruct (mapError_known e) as (c0 & m0 & H1 & H2). by exists (mapError e), c0, m0.
Qed.

Lemma answer_status {A} code msg : code <> Code_Unknown -> answer (A := A) (Err (EStatus code msg)) = Err (EStatus code msg).
Proof. intros H. unfold answer. by rewrite mapError_status. Qed.

(** C23 The gates of a server, in order.  A malformed request is answered
    INVALID_ARGUMENT before anything else happens; a request of a protected
    method without a valid access token is answered UNAUTHENTICATED and
    changes nothing; a request over its method's limit is answered
    RESOURCE_EXHAUSTED and changes only that method's limiter; and only then
    the handler runs, once, with the token's user and roles.  Its response
    goes to the caller, its error as the mapping shows it, and a panic as
    INTERNAL; so no caller ever sees a panic or an unknown status. *)
Theorem server_gate {A Req} `{!ProtoValidate Req} m skipMethods fullMethod (request : Req)
    (handler : reqctx -> M St (reply A)) (c : reqctx) (w : world St) :
  let res := server_chain (L := L) m skipMethods fullMethod request handler c w in
  ((exists e, pv_Validate request = Some e /\
      res = (Err (EStatus Code_InvalidArgument (error_text e)), w)) \/
   (pv_Validate request = None /\ shouldSkip fullMethod (makeSkipMethods skipMethods) = false /\
      res.1 = Err (EStatus Code_Unauthenticated "authentication failed") /\ w_st res.2 = w_st w) \/
   (pv_Validate request = None /\ exists c' w1, identified m skipMethods fullMethod c w c' w1 /\
      let '(ok, w2) := lets_through fullMethod w1 in
      if ok then res = (answer (handler c' w2).1, (handler c' w2).2)
      else res = (Err (EStatus Code_ResourceExhausted "too many requests"), w2))) /\
  ((exists a, res.1 = Ok (inl a)) \/
   exists e code msg, res.1 = Err e /\ status_FromError e = ((code, msg), true) /\ code <> Code_Unknown).
Proof.
  cbv zeta. rewrite server_chain_eq. destruct (pv_Validate request) as [e|].
  { split; [left; by exists e|]. right. eexists _, Code_InvalidArgument, _. by rewrite FromError_status. }
  set (inner := ratelimit_UnaryServerInterceptor fullMethod handler).
  split; [right|destruct (Auth.UnaryServerInterceptor _ _ _ _ c w); apply answer_known].
  assert (Hinner : forall c' w1 out, identified m skipMethods fullMethod c w c' w1 -> out = inner c' w1 ->
    exists c' w1, identified m skipMethods fullMethod c w c' w1 /\
      let '(ok, w2) := lets_through fullMethod w1 in
      if ok then (let '(r, w') := out in (answer r, w')) = (answer (handler c' w2).1, (handler c' w2).2)
      else (let '(r, w') := out in (answer r, w')) =
             (Err (EStatus Code_ResourceExhausted "too many requests"), w2)).
  { intros c' w1 out Hid ->. exists c', w1. split; [done|]. unfold inner. rewrite limiter_lets_through.
    destruct (lets_through fullMethod w1) as [[] w2]; cbn [fst snd].
    - by destruct (handler c' w2).
    - by rewrite answer_status. }
  destruct (authenticate_cases m skipMethods fullMethod inner c w) as [[Hs ->]|[Hs [(s & w' & Hin & -> & Hst)|Hok]]].
  - right. split; [done|]. apply (Hinner c w); [|done]. unfold identified. by rewrite Hs.
  - left. unfold answer. by rewrite refused_unauthenticated.
  - destruct Hok as (token & claims & userID & roles & c' & Hb & Hcl & _ & Hu & Hr & Huser & Hroles & ->).
    right. split; [done|]. eapply (Hinner c'); [|done]. unfold identified. rewrite Hs. split; [done|].
    by exists token, claims, userID, roles.
Qed.
End Properties.

(** ** Closed instances *)

(** A token bucket over integers: tokens in units of 10^-9, and the time of the
    last call. *)
Record bucket := { bk_limit : Z; bk_burst : Z; bk_tokens : Z; bk_last : Z }.

Definition TokenBucket : RateLib bucket := {|
  rate_NewLimiter limit burst :=
    {| bk_limit := limit; bk_burst := burst; bk_tokens := burst * second; bk_last := 0 |};
  rate_Allow now b :=
    let tokens := Z.min (bk_burst b * second) (bk_tokens b + bk_limit b * Z.max 0 (now - bk_last b)) in
    let ok := second <=? tokens in
    (ok, {| bk_limit := bk_limit b; bk_burst := bk_burst b;
            bk_tokens := if ok then tokens - second else tokens; bk_last := now |})
|}.

Section Witness.
#[local] Existing Instance DecLib.
#[local] Existing Instance TextJwt.
#[local] Existing Instance WalkStatus.
#[local] Existing Instance WalkStatus_laws.
#[local] Existing Instance TokenBucket.

#[local] Instance DemoValidate : ProtoValidate string :=
  λ s, if bool_decide (s = "") then Some (EMsg "order_id: value is required") else None.

Definition demo_access : Claims := {|
  cl_ID := ""; cl_Subject := "u1"; cl_IssuedAt := 0; cl_ExpiresAt := 600 * second;
  cl_TokenType := TokenTypeAccess; cl_SessionID := "s"; cl_UserRoles := ["ROLE_USER"] |}.

Definition demo_bearer (token : string) : reqctx := {|
  rc_incoming := Some {["authorization" := ["Bearer " +:+ token]]}; rc_outgoing := None; rc_user := None;
  rc_roles := None |}.

(** One request per second and bursts of three. *)
Definition demo_server_start : world (gmap string bucket) := World quiet_env (make_limiters [("/demo", 1)]).

(** A handler that answers its caller's identity, and one that panics. *)
Definition demo_whoami (c : reqctx) : M (gmap string bucket) (reply UUID) := mret (Ok (inl (default 0%N (UserIDFromContext c)))).
Definition demo_crash (c : reqctx) : M (gmap string bucket) (reply UUID) := mret (panics "nil pointer").

Definition demo_serve (token request : string) (handler : reqctx -> M (gmap string bucket) (reply UUID)) :
    M (gmap string bucket) (reply UUID) :=
  server_chain (L := bucket) demo_manager [] "/demo" request handler (demo_bearer token).

Definition demo_token : string := text_encode ("k", demo_access).

Example demo_gates :
  (demo_serve demo_token "" demo_whoami demo_server_start).1 =
    Err (EStatus Code_InvalidArgument "order_id: value is required") /\
  (demo_serve "forged" "o1" demo_whoami demo_server_start).1 =
    Err (EStatus Code_Unauthenticated "authentication failed") /\
  (demo_serve demo_token "o1" demo_whoami demo_server_start).1 = Ok (inl 1%N) /\
  (demo_serve demo_token "o1" demo_crash demo_server_start).1 = Err (EStatus Code_Internal "internal error") /\
  ((let! _ := demo_serve demo_token "o1" demo_whoami in let! _ := demo_serve demo_token "o1" demo_crash in
    let! _ := demo_serve demo_token "o1" demo_whoami in demo_serve demo_token "o1" demo_whoami) demo_server_start).1 =
    Err (EStatus Code_ResourceExhausted "too many requests").
Proof. vm_compute. repeat split; reflexivity. Qed.

(** The panic of a handler reaches the caller as a status. *)
Lemma server_gate_witness :
  exists e code msg,
    (demo_serve demo_token "o1" demo_crash demo_server_start).1 = Err e /\
    status_FromError e = ((code, msg), true) /\ code <> Code_Unknown.
Proof.
  destruct (server_gate (L := bucket) demo_manager [] "/demo" "o1" demo_crash (demo_bearer demo_token) demo_server_start)
    as [_ [[a H]|H]]; [vm_compute in H; discriminate H|exact H].
Defined.
End Witness.
