(* ===== verification/Logging.v ===== *)
(** * Logging
      (shared/interceptors/logging, shared/interceptors/logging/zap,
      shared/requestctx/trace.go, shared/metrics/shutdown.go)

    The logger writes entries to one sink and is derived, never changed: a
    derived logger shares its level with its parent, and a context carries a
    bounded number of extra fields.  zap's part (an entry is written when its
    level is enabled, with the logger's own fields first) is modelled by the
    sink; encoders are not. *)

From stdpp Require Import sorting.
From S2P Require Import Prelude GoStrings GoErrors Effects OrderService Auth ErrorMap Server.
Local Open Scope string_scope.
Local Open Scope list_scope.
Local Open Scope Z_scope.

(** ** zap *)

(** zapcore.Level. *)
Definition Level : Type := Z.
Definition DebugLevel : Level := -1.
Definition InfoLevel : Level := 0.
Definition WarnLevel : Level := 1.
Definition ErrorLevel : Level := 2.
Definition DPanicLevel : Level := 3.
Definition PanicLevel : Level := 4.
Definition FatalLevel : Level := 5.

Inductive field_value :=
| FString (s : string)
| FStrings (l : list string)
| FDuration (d : Z)
| FUint (n : Z)
| FError (err : error).

Record Field := { fld_key : string; fld_value : field_value }.

Definition zap_String (key s : string) : Field := {| fld_key := key; fld_value := FString s |}.
Definition zap_Strings (key : string) (l : list string) : Field := {| fld_key := key; fld_value := FStrings l |}.
Definition zap_Duration (key : string) (d : Z) : Field := {| fld_key := key; fld_value := FDuration d |}.
Definition zap_Uint (key : string) (n : Z) : Field := {| fld_key := key; fld_value := FUint n |}.
Definition zap_Error (err : error) : Field := {| fld_key := "error"; fld_value := FError err |}.

Record entry := { en_level : Level; en_message : string; en_fields : list Field }.

(** The sink, the atomic levels of the process, and whether Fatal ended it. *)
Record logs := Logs {
  lo_entries : list entry;
  lo_levels : gmap nat Level;
  lo_exited : bool
}.

(** [*zap.Logger]: its fields, and the level it was built with ([None] for the
    one that discards everything). *)
Record zap_logger := { zl_fields : list Field; zl_level : option nat }.

(** [Logger]; a nil pointer is [None].  [dynamicLevel] is [None] for the zero
    AtomicLevel. *)
Record LoggerData := {
  lg_zapLogger : option zap_logger;
  lg_dynamicLevel : option nat;
  lg_contextFieldsMax : Z
}.
Definition Logger : Type := option LoggerData.

(** What a context carries; a nil context is [None]. *)
Record logctx := {
  lx_req : reqctx;
  lx_trace : option string;               (* the trace id of a valid span context *)
  lx_extra : option (list Field)          (* *contextFields under extraFieldsKey *)
}.
Definition Background : logctx := {|
  lx_req := {| rc_incoming := None; rc_outgoing := None; rc_user := None; rc_roles := None |};
  lx_trace := None; lx_extra := None |}.

(** requestctx/trace.go. *)
Definition TraceIDFromContext (ctx : option logctx) : option string := ctx ≫= lx_trace.

(** ** zap_logger.go *)

Definition parseLevel (levelString : string) : Level :=
  let s := ToLower (TrimSpace levelString) in
  if bool_decide (s = "debug") then DebugLevel
  else if bool_decide (s = "info") then InfoLevel
  else if bool_decide (s ∈ ["warn"; "warning"]) then WarnLevel
  else if bool_decide (s = "error") then ErrorLevel
  else if bool_decide (s = "dpanic") then DPanicLevel
  else if bool_decide (s = "panic") then PanicLevel
  else if bool_decide (s = "fatal") then FatalLevel
  else InfoLevel.

Definition normalizeContextFieldsMax (limit : Z) : Z := if limit <? 0 then 0 else limit.

Definition isIgnorableSyncError `{GoLib} (err : option error) : bool :=
  match err with
  | None => false
  | Some err =>
      let message := ToLower (error_text err) in
      Contains message "sync /dev/stdout: invalid argument" ||
      Contains message "sync /dev/stderr: invalid argument" ||
      Contains message "inappropriate ioctl for device"
  end.

(** slices.Sort of strings. *)
Definition str_le (a b : string) : Prop := String.leb a b = true.

#[export] Instance str_le_dec a b : Decision (str_le a b).
Proof. unfold str_le. apply _. Defined.

Definition sort_strings : list string -> list string := merge_sort str_le.

Definition NewNop : Logger :=
  Some {| lg_zapLogger := Some {| zl_fields := []; zl_level := None |};
          lg_dynamicLevel := None; lg_contextFieldsMax := 0 |}.

Definition With (l : Logger) (fields : list Field) : Logger :=
  match l with
  | Some ld =>
      match lg_zapLogger ld with
      | None => NewNop
      | Some z =>
          if len fields =? 0 then l
          else Some {| lg_zapLogger := Some {| zl_fields := zl_fields z ++ fields; zl_level := zl_level z |};
                       lg_dynamicLevel := lg_dynamicLevel ld; lg_contextFieldsMax := lg_contextFieldsMax ld |}
      end
  | None => NewNop
  end.

(** The fields beyond the limit are dropped. *)
Definition WithFields (l : Logger) (ctx : option logctx) (fields : list Field) : option logctx :=
  if len fields =? 0 then ctx
  else
    match l with
    | None => ctx
    | Some ld =>
        if lg_contextFieldsMax ld <=? 0 then ctx
        else
          let c := default Background ctx in
          let current := default [] (lx_extra c) in
          let available := lg_contextFieldsMax ld - len current in
          if available <=? 0 then Some c
          else
            let toAdd := if available <? len fields then take (Z.to_nat available) fields else fields in
            if len toAdd =? 0 then Some c
            else Some {| lx_req := lx_req c; lx_trace := lx_trace c; lx_extra := Some (current ++ toAdd) |}
    end.

Section Fields.
Context `{U : GoLib}.

Definition fieldsFromContext (ctx : option logctx) : list Field :=
  match ctx with
  | None => []
  | Some c =>
      (match TraceIDFromContext ctx with Some traceID => [zap_String "trace_id" traceID] | None => [] end) ++
      (match UserIDFromContext (lx_req c) with Some userID => [zap_String "user_id" (uuid_string userID)] | None => [] end) ++
      (match UserRolesFromContext (lx_req c) with
       | Some roles => [zap_Strings "user_roles" (sort_strings (UserRole_String <$> roles))]
       | None => []
       end) ++
      default [] (lx_extra c)
  end.

Definition mergeFields (ctx : option logctx) (fields : list Field) : list Field :=
  let ctxFields := fieldsFromContext ctx in
  if len ctxFields =? 0 then fields
  else if len fields =? 0 then ctxFields
  else ctxFields ++ fields.

Definition WithContext (l : Logger) (ctx : option logctx) : Logger :=
  match l with
  | Some ld =>
      match lg_zapLogger ld with
      | None => NewNop
      | Some _ => let ctxFields := fieldsFromContext ctx in
                  if len ctxFields =? 0 then l else With l ctxFields
      end
  | None => NewNop
  end.
End Fields.

Section Write.
Context {St : Type} `{U : GoLib} `{HL : !Has logs St}.

(** New: a fresh level and a logger on standard output. *)
Definition New (levelStr : string) (contextFieldsMax : Z) : M St Logger :=
  let! s := get in
  let lo := prj s in
  let n := fresh (dom (lo_levels lo)) in
  modify (upd (Logs (lo_entries lo) (<[n := parseLevel levelStr]> (lo_levels lo)) (lo_exited lo))) ;;!
  mret (Some {| lg_zapLogger := Some {| zl_fields := []; zl_level := Some n |}; lg_dynamicLevel := Some n;
                lg_contextFieldsMax := normalizeContextFieldsMax contextFieldsMax |}).

(** SetLevel; the zero AtomicLevel of NewNop is a nil pointer, on which it
    panics. *)
Definition SetLevel (l : Logger) (levelStr : string) : M St (reply unit) :=
  match l with
  | None => mret (Ok (inl tt))
  | Some ld =>
      match lg_dynamicLevel ld with
      | None => mret (panics "invalid memory address or nil pointer dereference")
      | Some n =>
          modify (λ s, let lo := prj s in
            upd (Logs (lo_entries lo) (<[n := parseLevel levelStr]> (lo_levels lo)) (lo_exited lo)) s) ;;!
          mret (Ok (inl tt))
      end
  end.

(** zap: the entry is written when the level is enabled. *)
Definition enabled (z : zap_logger) (level : Level) (lo : logs) : bool :=
  match zl_level z ≫= λ n, lo_levels lo !! n with
  | Some current => current <=? level
  | None => false
  end.

Definition zap_Log (z : zap_logger) (level : Level) (message : string) (fields : list Field) : M St unit :=
  modify (λ s, let lo := prj s in
    if enabled z level lo then
      upd (Logs (lo_entries lo ++ [{| en_level := level; en_message := message; en_fields := zl_fields z ++ fields |}])
             (lo_levels lo) (lo_exited lo)) s
    else s).

Definition log_at (level : Level) (l : Logger) (ctx : option logctx) (message : string) (fields : list Field) : M St unit :=
  match l ≫= lg_zapLogger with
  | None => mret tt
  | Some z => zap_Log z level message (mergeFields ctx fields)
  end.

Definition Debug := log_at DebugLevel.
Definition Info := log_at InfoLevel.
Definition Warn := log_at WarnLevel.
Definition Error := log_at ErrorLevel.

(** Fatal ends the process after the entry, also when it is not written. *)
Definition Fatal (l : Logger) (ctx : option logctx) (message : string) (fields : list Field) : M St unit :=
  match l ≫= lg_zapLogger with
  | None => mret tt
  | Some z =>
      zap_Log z FatalLevel message (mergeFields ctx fields) ;;!
      modify (λ s, let lo := prj s in upd (Logs (lo_entries lo) (lo_levels lo) true) s)
  end.

(** Sync, where [synced] is what zap's Sync answered. *)
Definition Sync (l : Logger) (synced : option error) : option error :=
  match l ≫= lg_zapLogger with
  | None => None
  | Some _ => match synced with
              | Some err => if isIgnorableSyncError synced then None else Some err
              | None => None
              end
  end.
End Write.

(** ** logger.go *)

(** The name of a gRPC code. *)
Class CodeNames := code_String : Z -> string.

(** path.Base: the last element of a path. *)
Definition Base (path : string) : string :=
  if bool_decide (path = "") then "."
  else match trim_right (λ c, bool_decide (c = "/"%char)) path with
       | "" => "/"
       | path => let '(element, elements) := split_on "/" path in List.last elements element
       end.

(** Codes of failures that a caller caused. *)
Definition warned_codes : list Z :=
  [Code_NotFound; Code_AlreadyExists; Code_PermissionDenied; Code_ResourceExhausted; Code_InvalidArgument;
   Code_Unauthenticated; Code_FailedPrecondition; Code_Canceled; Code_DeadlineExceeded].

Section Interceptor.
Context {St : Type} `{U : GoLib} `{HL : !Has logs St} `{SL : StatusLib} `{CN : CodeNames}.

Definition log_failure (logger : Logger) (ctx : option logctx) (method : string) (duration : Z) (err : error) : M St unit :=
  let code := CodeFromError (Some err) in
  let fields := [zap_String "method" method; zap_String "code" (code_String code); zap_Duration "duration" duration] in
  if bool_decide (code ∈ warned_codes) then Warn logger ctx "gRPC request failed" fields
  else Error logger ctx "gRPC request failed" fields.

(** A panic of the handler passes through; the recovery is outside. *)
Definition UnaryServerInterceptor {A} (logger : Logger) (fullMethod : string)
    (handler : logctx -> M St (reply A)) (ctx : logctx) : M St (reply A) :=
  let method := Base fullMethod in
  let! startTime := time_Now in
  Info logger (Some ctx) "gRPC request started" [zap_String "method" method] ;;!
  let! r := handler ctx in
  match r with
  | Ok (inr value) => mret (panics value)
  | _ =>
      let! now := time_Now in
      match r with
      | Err err => log_failure logger (Some ctx) method (now - startTime) err ;;! mret r
      | Ok _ => mret r
      end
  end.
End Interceptor.

(** ** metrics/shutdown.go *)

Definition ShutdownReasonGraceful := "graceful".
Definition ShutdownReasonTimeout := "timeout".
Definition ShutdownReasonError := "error".

(** A nil context is an outer [None]; the inner option is ctx.Err(). *)
Definition ShutdownReasonFromContext (ctx : option (option error)) : string :=
  match ctx with
  | None => ShutdownReasonGraceful
  | Some (Some err) => if is_sent CtxDeadlineExceeded err || is_sent CtxCanceled err then ShutdownReasonTimeout
                       else ShutdownReasonGraceful
  | Some None => ShutdownReasonGraceful
  end.

Definition ShutdownReasonFromError (err : option error) : string :=
  match err with
  | None => ShutdownReasonGraceful
  | Some err => if is_sent CtxDeadlineExceeded err || is_sent CtxCanceled err then ShutdownReasonTimeout
                else ShutdownReasonError
  end.

(** ** What one request logs *)

Section RequestLog.
Context {St : Type} `{HL : !Has logs St} `{U : GoLib} `{SL : StatusLib} `{CN : CodeNames}.
Variables (logger : Logger) (fullMethod : string).

(** The state after one entry. *)
Definition logged_entry (level : Level) (ctx : logctx) (message : string) (fields : list Field) (s : St) : St :=
  w_st (log_at level logger (Some ctx) message fields (World quiet_env s)).2.

Lemma log_at_eq level ctx message fields w :
  log_at level logger (Some ctx) message fields w =
  (tt, World (w_env w) (logged_entry level ctx message fields (w_st w))).
Proof.
  unfold logged_entry, log_at. destruct (logger ≫= lg_zapLogger); [|by destruct w].
  unfold zap_Log, modify. simpl. by case_match.
Qed.

(** An entry changes nothing but the log. *)
Lemma logged_entry_apart `{!Has X St} `{!Apart logs X St} level ctx message fields s :
  prj (X := X) (logged_entry level ctx message fields s) = prj (X := X) s.
Proof.
  unfold logged_entry, log_at. destruct (logger ≫= lg_zapLogger); [|done].
  unfold zap_Log, modify. simpl. case_match; [by rewrite prj_apart|done].
Qed.

(** The world in which the wrapped handler starts. *)
Definition started (ctx : logctx) (w : world St) : world St :=
  World (tick (w_env w))
    (logged_entry InfoLevel ctx "gRPC request started" [zap_String "method" (Base fullMethod)] (w_st w)).

Definition failure_level (err : error) : Level :=
  if bool_decide (CodeFromError (Some err) ∈ warned_codes) then WarnLevel else ErrorLevel.

Definition failure_fields (duration : Z) (err : error) : list Field :=
  [zap_String "method" (Base fullMethod); zap_String "code" (code_String (CodeFromError (Some err)));
   zap_Duration "duration" duration].

(** One entry when a request starts; a failure entry, with the level and the
    code of the error that is handed on, when it fails; and none for a
    response or a panic. *)
Theorem interceptor_logs {A} (handler : logctx -> M St (reply A)) ctx w :
  UnaryServerInterceptor logger fullMethod handler ctx w =
  let '(r, w2) := handler ctx (started ctx w) in
  match r with
  | Ok (inl a) => (r, World (tick (w_env w2)) (w_st w2))
  | Ok (inr _) => (r, w2)
  | Err err =>
      let duration := e_now (w_env w2) (e_tick (w_env w2)) - e_now (w_env w) (e_tick (w_env w)) in
      (r, World (tick (w_env w2))
         (logged_entry (failure_level err) ctx "gRPC request failed" (failure_fields duration err) (w_st w2)))
  end.
Proof.
  unfold UnaryServerInterceptor, Info, mbind, time_Now, ask, mret. rewrite log_at_eq. cbn [w_env w_st].
  fold (started ctx w). destruct (handler ctx (started ctx w)) as [[[a|v]|err] w2]; [done|done|].
  unfold log_failure, failure_level, Warn, Error. case_bool_decide; by rewrite log_at_eq.
Qed.
End RequestLog.

(** ** Fields of a context, levels of derived loggers *)

Definition extra_fields (ctx : option logctx) : list Field := default [] (ctx ≫= lx_extra).

(** The number of extra fields a logger allows. *)
Definition fields_max (l : Logger) : nat :=
  match l with Some ld => Z.to_nat (lg_contextFieldsMax ld) | None => 0 end.

Lemma len_zero {A} (l : list A) : (len l =? 0) = true <-> l = [].
Proof. unfold len. rewrite Z.eqb_eq. destruct l; simpl; split; [done..|lia|done]. Qed.

(** One call: what fits below the limit is kept, after what was there. *)
Lemma with_fields_take l ctx fields : (length (extra_fields ctx) <= fields_max l)%nat ->
  extra_fields (WithFields l ctx fields) = take (fields_max l) (extra_fields ctx ++ fields).
Proof.
  intros Hle. unfold WithFields.
  assert (Hkeep : take (fields_max l) (extra_fields ctx ++ []) = extra_fields ctx)
    by (rewrite app_nil_r; by apply take_ge).
  destruct (len fields =? 0) eqn:E0; [apply len_zero in E0 as ->; by rewrite Hkeep|].
  assert (Hfull : length (extra_fields ctx) = fields_max l -> take (fields_max l) (extra_fields ctx ++ fields) = extra_fields ctx)
    by (intros <-; apply take_app_length).
  destruct l as [ld|]; simpl in *; [|symmetry; apply Hfull; lia].
  destruct (lg_contextFieldsMax ld <=? 0) eqn:E1; [symmetry; apply Hfull; lia|].
  assert (Hex : default [] (lx_extra (default Background ctx)) = extra_fields ctx) by (by destruct ctx).
  assert (Hsome : extra_fields (Some (default Background ctx)) = extra_fields ctx) by (by destruct ctx).
  cbv zeta. rewrite Hex. unfold len in *.
  destruct (lg_contextFieldsMax ld - _ <=? 0) eqn:E2; [rewrite Hsome; symmetry; apply Hfull; lia|].
  set (k := (Z.to_nat (lg_contextFieldsMax ld) - length (extra_fields ctx))%nat).
  assert (Htake : (if lg_contextFieldsMax ld - Z.of_nat (length (extra_fields ctx)) <? Z.of_nat (length fields)
    then take (Z.to_nat (lg_contextFieldsMax ld - Z.of_nat (length (extra_fields ctx)))) fields else fields) = take k fields).
  { case_match eqn:E3; [f_equal; lia|]. symmetry. apply take_ge. lia. }
  rewrite Htake, take_app_ge by lia. fold k.
  destruct (Z.of_nat (length (take k fields)) =? 0) eqn:E4; [|done].
  change ((len (take k fields) =? 0) = true) in E4. apply len_zero in E4.
  by rewrite E4, app_nil_r.
Qed.

(** However often a request's context is extended, it carries exactly the
    first fields that were added, as many as its logger allows, and in their
    order. *)
Theorem context_fields_bounded l calls :
  let ctx := foldl (WithFields l) (Some Background) calls in
  extra_fields ctx = take (fields_max l) (concat calls).
Proof.
  cbv zeta. induction calls as [|fields calls IH] using rev_ind; [by destruct (fields_max l)|].
  rewrite foldl_app, concat_app. simpl. rewrite app_nil_r, with_fields_take by (rewrite IH, length_take; lia).
  rewrite IH. destruct (decide (length (concat calls) <= fields_max l)%nat) as [Hle|Hgt].
  - by rewrite (take_ge (concat calls)).
  - rewrite take_app_le by (rewrite length_take; lia). rewrite take_take, Nat.min_id.
    by rewrite (take_app_le (concat calls)) by lia.
Qed.

(** A derived logger and its parent share their level. *)
Theorem level_is_shared {St} `{U : GoLib} `{HL : !Has logs St} levelStr z n max fields new_level level w :
  let parent : Logger := Some {| lg_zapLogger := Some z; lg_dynamicLevel := Some n; lg_contextFieldsMax := max |} in
  zl_level z = Some n ->
  wp (SetLevel (With parent fields) levelStr) (λ r w',
    r = Ok (inl tt) /\
    (new_level = parseLevel levelStr -> enabled z level (prj (w_st w')) = (new_level <=? level))) w.
Proof.
  cbv zeta. intros Hz. unfold With, SetLevel. simpl.
  destruct (len fields =? 0); simpl; apply wp_bind, wp_modify, wp_ret; (split; [done|]); intros ->;
    unfold enabled; simpl; rewrite prj_upd, Hz; simpl; by rewrite lookup_insert_eq.
Qed.

(** ** Closed instances *)

Section LoggingWitness.
#[local] Existing Instance DecLib.
#[local] Existing Instance WalkStatus.
#[local] Instance DemoCodes : CodeNames := itoa.

Definition demo_logger : Logger :=
  Some {| lg_zapLogger := Some {| zl_fields := []; zl_level := Some 0%nat |}; lg_dynamicLevel := Some 0%nat;
          lg_contextFieldsMax := 2 |}.

Definition demo_logs : logs := Logs [] {[0%nat := WarnLevel]} false.

(** The third field does not fit. *)
Example demo_fields :
  fld_key <$> extra_fields (foldl (WithFields demo_logger) (Some Background)
    [[zap_String "a" "1"]; [zap_String "b" "2"; zap_String "c" "3"]]) = ["a"; "b"].
Proof. by vm_compute. Qed.

(** At level WARN the start of a request is not written, its failure is. *)
Example demo_failure :
  let handler (_ : logctx) : M logs (reply unit) := mret (Err (EStatus Code_NotFound "no such order")) in
  let '(_, w) := UnaryServerInterceptor demo_logger "/order.v1.OrderService/GetOrderStatus" handler Background
                   (World quiet_env demo_logs) in
  (en_level <$> lo_entries (w_st w), fld_value <$> (lo_entries (w_st w) ≫= en_fields)) =
  ([WarnLevel], [FString "GetOrderStatus"; FString "5"; FDuration 0]).
Proof. by vm_compute. Qed.

Lemma level_is_shared_witness :
  let z := {| zl_fields := []; zl_level := Some 0%nat |} in
  let parent : Logger := Some {| lg_zapLogger := Some z; lg_dynamicLevel := Some 0%nat; lg_contextFieldsMax := 2 |} in
  wp (SetLevel (With parent [zap_String "a" "1"]) "debug") (λ r w',
    r = Ok (inl tt) /\ (DebugLevel = parseLevel "debug" -> enabled z DebugLevel (prj (w_st w')) = (DebugLevel <=? DebugLevel)))
    (World quiet_env demo_logs).
Proof. apply level_is_shared. reflexivity. Defined.
End LoggingWitness.
