(* ===== verification/Observability.v ===== *)
(** * Tracing and metrics of requests
      (shared/interceptors/tracing, shared/interceptors/metrics, and the whole
      chain of application/order/grpc_providers.go)

    The tracer gives a request its span and hands the trace on, the meter
    counts it.  The whole chain of a server, with its logger, tracer and meter,
    answers as the chain of Server does; it counts every request once, under
    the code that its caller gets. *)

From S2P Require Import Prelude GoStrings GoErrors Effects OrderService Auth ErrorMap Server Logging.
Local Open Scope string_scope.
Local Open Scope list_scope.
Local Open Scope Z_scope.

(** ** Tracing *)

(** OpenTelemetry: the trace id of the span that is started for a request (the
    remote one's, a new one, or none), and the headers in which a span is
    handed on. *)
Class TraceLib := {
  start_span : reqctx -> option string;
  propagated : option string -> list (string * string)
}.

(** The propagators write headers of their own. *)
Class TraceLaws `{TraceLib} := {
  propagated_keys trace key value : (key, value) ∈ propagated trace -> key ∈ ["traceparent"; "tracestate"; "baggage"]
}.

(** metadata_carrier.go.  metadata.MD keeps its keys in lower case. *)
Definition carrier_Get (mc : metadata) (key : string) : string :=
  match md_Get mc (ToLower key) with
  | [] => ""
  | value :: _ => value
  end.

Definition carrier_Set (mc : metadata) (key value : string) : metadata := <[ToLower key := [value]]> mc.

Definition carrier_Keys (mc : metadata) : list string := (map_to_list mc).*1.

(** The header of a response. *)
Definition response_header : Type := list (string * string).

Definition TraceIDHeader := "x-trace-id".

Section Tracing.
Context {St : Type} `{TL : TraceLib} `{HH : !Has response_header St}.

Definition addTraceIDToResponse (ctx : logctx) : M St unit :=
  match TraceIDFromContext (Some ctx) with
  | None => mret tt
  | Some traceID => modify (λ s, upd (prj s ++ [(TraceIDHeader, traceID)]) s)
  end.

(** A panic of the handler skips what follows it; ending the span is deferred. *)
Definition tracing_UnaryServerInterceptor {A} (handler : logctx -> M St (reply A)) (c : reqctx) : M St (reply A) :=
  let ctx := {| lx_req := c; lx_trace := start_span c; lx_extra := None |} in
  let! r := handler ctx in
  match r with
  | Ok (inr value) => mret (panics value)
  | _ => addTraceIDToResponse ctx ;;! mret r
  end.

Definition extractOutgoingMetadata (c : option reqctx) : metadata :=
  match c with
  | None => ∅
  | Some c => default ∅ (rc_outgoing c)
  end.

(** The metadata of an outgoing call. *)
Definition tracing_UnaryClientInterceptor {A} (invoker : reqctx -> A) (c : reqctx) : A :=
  let carrier := extractOutgoingMetadata (Some c) in
  let carrier := foldl (λ mc kv, carrier_Set mc kv.1 kv.2) carrier (propagated (start_span c)) in
  invoker {| rc_incoming := rc_incoming c; rc_outgoing := Some carrier; rc_user := rc_user c; rc_roles := rc_roles c |}.

(** The client connection's chain, without the retries. *)
Definition client_chain {A} (invoker : reqctx -> A) : reqctx -> A :=
  UnaryClientAuthInterceptor (tracing_UnaryClientInterceptor invoker).
End Tracing.

(** ** metrics_interceptor.go *)

Record meters := Meters {
  me_InFlight : gmap (string * string) Z;
  me_Total : gmap (string * string * string) Z;
  me_Duration : gmap (string * string) (list Z)
}.

Definition count {K} `{Countable K} (m : gmap K Z) (k : K) : Z := default 0 (m !! k).
Definition add {K} `{Countable K} (n : Z) (k : K) (m : gmap K Z) : gmap K Z := <[k := count m k + n]> m.

Section Meter.
Context {St : Type} `{HM : !Has meters St} `{SL : StatusLib} `{U : GoLib} `{CN : CodeNames}.
Variables (serviceName fullMethod : string).

Definition in_flight (n : Z) (m : meters) : meters :=
  Meters (add n (serviceName, fullMethod) (me_InFlight m)) (me_Total m) (me_Duration m).

Definition counted (code : string) (m : meters) : meters :=
  Meters (me_InFlight m) (add 1 (serviceName, fullMethod, code) (me_Total m)) (me_Duration m).

Definition observed (duration : Z) (m : meters) : meters :=
  Meters (me_InFlight m) (me_Total m)
    (<[(serviceName, fullMethod) := default [] (me_Duration m !! (serviceName, fullMethod)) ++ [duration]]> (me_Duration m)).

Definition set_meters (f : meters -> meters) : M St unit := modify (λ s, upd (f (prj s)) s).

(** The label of a reply; a panic is counted as internal before it goes on. *)
Definition reply_code {A} (r : reply A) : Z :=
  match r with
  | Ok (inl _) => CodeFromError None
  | Ok (inr _) => Code_Internal
  | Err err => CodeFromError (Some err)
  end.

Definition metrics_UnaryServerInterceptor {A} (handler : logctx -> M St (reply A)) (ctx : logctx) : M St (reply A) :=
  let! start := time_Now in
  set_meters (in_flight 1) ;;!
  let! r := handler ctx in
  set_meters (in_flight (-1)) ;;!
  set_meters (counted (code_String (reply_code r))) ;;!
  let! now := time_Now in
  set_meters (observed (now - start)) ;;!
  mret r.
End Meter.

(** ** provideGRPCServer's chain *)

Section Chain.
Context {L : Type} `{HRL : RateLib L} {St : Type} `{HLim : !Has (gmap string L) St} `{HL : !Has logs St}
  `{HM : !Has meters St} `{HH : !Has response_header St}
  `{U : GoLib} `{J : JwtLib} `{SL : StatusLib} `{CN : CodeNames} `{TL : TraceLib}.
Context {A Req : Type} `{PV : !ProtoValidate Req}.
Variables (logger : Logger) (serviceName : string).
Variables (m : Manager) (skipMethods : list string) (fullMethod : string) (request : Req)
  (handler : reqctx -> M St (reply A)).

(** What tracer, meter and logger wrap. *)
Definition inner_chain : reqctx -> M St (reply A) :=
  ErrorMap.UnaryServerInterceptor
    (Auth.UnaryServerInterceptor m skipMethods fullMethod (ratelimit_UnaryServerInterceptor (L := L) fullMethod handler)).

Definition full_chain : reqctx -> M St (reply A) :=
  validate_UnaryServerInterceptor request
    (recovery_UnaryServerInterceptor
       (tracing_UnaryServerInterceptor
          (metrics_UnaryServerInterceptor serviceName fullMethod
             (Logging.UnaryServerInterceptor logger fullMethod
                (λ ctx, inner_chain (lx_req ctx)))))).

Definition traced (c : reqctx) : logctx := {| lx_req := c; lx_trace := start_span c; lx_extra := None |}.

(** The world in which the wrapped chain starts: two readings of the clock, one
    more request in flight, one entry. *)
Definition entered (c : reqctx) (w : world St) : world St :=
  started logger fullMethod (traced c)
    (World (tick (w_env w)) (upd (in_flight serviceName fullMethod 1 (prj (w_st w))) (w_st w))).

(** The caller's answer for the reply of the wrapped chain. *)
Definition recovered (r : reply A) : reply A :=
  match r with
  | Ok (inr _) => Err (EStatus Code_Internal "internal error")
  | _ => r
  end.

(** ** Properties *)

Lemma count_add {K} `{Countable K} (g : gmap K Z) (k k' : K) n :
  count (add n k g) k' = count g k' + if decide (k' = k) then n else 0.
Proof.
  unfold count, add. destruct (decide (k' = k)) as [->|Hne].
  - by rewrite lookup_insert_eq.
  - rewrite lookup_insert_ne by done. lia.
Qed.

(** Another part of the state than those the observers write. *)
Definition unobserved (X : Type) `{HX : !Has X St} (s s' : St) : Prop := prj (X := X) s' = prj (X := X) s.

Lemma metrics_spec {B} (h : logctx -> M St (reply B)) ctx w r w2 :
  h ctx (World (tick (w_env w)) (upd (in_flight serviceName fullMethod 1 (prj (w_st w))) (w_st w))) = (r, w2) ->
  exists s duration, metrics_UnaryServerInterceptor serviceName fullMethod h ctx w = (r, World (tick (w_env w2)) s) /\
    prj s = observed serviceName fullMethod duration
              (counted serviceName fullMethod (code_String (reply_code r)) (in_flight serviceName fullMethod (-1) (prj (w_st w2)))) /\
    forall X `{HX : !Has X St} `{HA : !Apart meters X St}, unobserved X (w_st w2) s.
Proof.
  intros Hh. unfold metrics_UnaryServerInterceptor, set_meters, mbind, time_Now, ask, modify, mret. simpl. rewrite Hh.
  destruct w2 as [e2 s2]. simpl. eexists _, _. split; [done|]. rewrite !prj_upd. split; [done|].
  intros X HX HA. unfold unobserved. by rewrite !prj_apart.
Qed.

Lemma tracing_spec {B} (h : logctx -> M St (reply B)) c w r w2 :
  h (traced c) w = (r, w2) ->
  exists s, tracing_UnaryServerInterceptor h c w = (r, World (w_env w2) s) /\
    forall X `{HX : !Has X St} `{HA : !Apart response_header X St}, unobserved X (w_st w2) s.
Proof.
  intros Hh. unfold tracing_UnaryServerInterceptor, mbind. fold (traced c). rewrite Hh. destruct w2 as [e2 s2].
  assert (Hadd : exists s, addTraceIDToResponse (traced c) (World e2 s2) = (tt, World e2 s) /\
    forall X `{HX : !Has X St} `{HA : !Apart response_header X St}, unobserved X s2 s).
  { unfold addTraceIDToResponse. destruct (TraceIDFromContext _).
    - eexists. split; [done|]. intros X HX HA. unfold unobserved. by rewrite prj_apart.
    - by exists s2. }
  destruct Hadd as (s & Hadd & Hs).
  destruct r as [[b|v]|err]; [exists s|exists s2|exists s]; (split; [|done]); by rewrite ?Hadd.
Qed.

Lemma logging_spec {B} (h : logctx -> M St (reply B)) ctx w r w2 :
  h ctx (started logger fullMethod ctx w) = (r, w2) ->
  exists e s, Logging.UnaryServerInterceptor logger fullMethod h ctx w = (r, World e s) /\
    forall X `{HX : !Has X St} `{HA : !Apart logs X St}, unobserved X (w_st w2) s.
Proof.
  intros Hh. rewrite interceptor_logs, Hh. destruct w2 as [e2 s2]. destruct r as [[b|v]|err].
  - by eexists _, s2.
  - by eexists _, s2.
  - eexists _, _. split; [done|]. intros X HX HA. by apply logged_entry_apart.
Qed.

(** The chain of a request that passes the validation. *)
Lemma full_chain_spec c w r w2 `{!Apart logs meters St} `{!Apart response_header meters St} :
  pv_Validate request = None -> inner_chain c (entered c w) = (r, w2) ->
  exists e s duration, full_chain c w = (recovered r, World e s) /\
    prj s = observed serviceName fullMethod duration
              (counted serviceName fullMethod (code_String (reply_code r)) (in_flight serviceName fullMethod (-1) (prj (w_st w2)))) /\
    forall X `{HX : !Has X St} `{!Apart logs X St} `{!Apart meters X St} `{!Apart response_header X St},
      unobserved X (w_st w2) s.
Proof.
  intros Hv Hin. set (h := λ ctx : logctx, inner_chain (lx_req ctx)).
  set (w1 := World (tick (w_env w)) (upd (in_flight serviceName fullMethod 1 (prj (w_st w))) (w_st w))).
  destruct (logging_spec h (traced c) w1 r w2 Hin) as (e3 & s3 & H3 & Hs3).
  destruct (metrics_spec (Logging.UnaryServerInterceptor logger fullMethod h) (traced c) w _ _ H3)
    as (s4 & d & H4 & Hm4 & Hs4). simpl in *.
  destruct (tracing_spec (metrics_UnaryServerInterceptor serviceName fullMethod
    (Logging.UnaryServerInterceptor logger fullMethod h)) c w _ _ H4) as (s5 & H5 & Hs5). simpl in *.
  exists (tick e3), s5, d. split_and!.
  - unfold full_chain, validate_UnaryServerInterceptor, recovery_UnaryServerInterceptor, mbind, mret. rewrite Hv.
    fold h. by rewrite H5.
  - pose proof (Hs5 meters HM ltac:(assumption)) as Hu5. pose proof (Hs3 meters HM ltac:(assumption)) as Hu3.
    unfold unobserved in Hu5, Hu3. by rewrite Hu5, Hm4, Hu3.
  - intros X HX HA1 HA2 HA3. unfold unobserved in *.
    etrans; [by apply (Hs5 X)|]. etrans; [by apply (Hs4 X)|]. by apply (Hs3 X).
Qed.

Lemma entered_apart X `{HX : !Has X St} `{!Apart logs X St} `{!Apart meters X St} c w :
  prj (X := X) (w_st (entered c w)) = prj (X := X) (w_st w).
Proof. unfold entered, started. simpl. rewrite logged_entry_apart by assumption. by rewrite prj_apart. Qed.

(** Logs, traces and metrics change no reply and no other part of the state: a
    request is answered as by the chain without them, which starts in a world
    that differs from the request's in the log, a gauge and the clock. *)
Theorem observers_transparent `{!Apart logs meters St} `{!Apart response_header meters St} c w
    X `{HX : !Has X St} `{!Apart logs X St} `{!Apart meters X St} `{!Apart response_header X St} :
  pv_Validate request = None ->
  let plain := server_chain (L := L) m skipMethods fullMethod request handler c (entered c w) in
  (full_chain c w).1 = plain.1 /\
  prj (X := X) (w_st (full_chain c w).2) = prj (X := X) (w_st plain.2) /\
  prj (X := X) (w_st (entered c w)) = prj (X := X) (w_st w).
Proof.
  intros Hv plain. destruct (inner_chain c (entered c w)) as [r w2] eqn:Hin.
  destruct (full_chain_spec c w r w2 Hv Hin) as (e & s & d & -> & _ & Hs).
  assert (Hplain : plain = (recovered r, w2)).
  { unfold plain, server_chain, validate_UnaryServerInterceptor. cbn [foldr]. rewrite Hv.
    unfold recovery_UnaryServerInterceptor, mbind, mret. fold inner_chain. by rewrite Hin. }
  rewrite Hplain. split_and!; [done|by apply Hs|by apply entered_apart].
Qed.

(** Every request that passes the validation is counted once, under the code
    that its caller gets, panics included, and leaves the gauge of requests in
    flight as it was. *)
Theorem request_counted `{!StatusLaws SL} `{!Apart logs meters St} `{!Apart response_header meters St} c w :
  pv_Validate request = None ->
  prj (X := meters) (w_st (inner_chain c (entered c w)).2) = prj (X := meters) (w_st (entered c w)) ->
  let before := prj (X := meters) (w_st w) in
  let after := prj (X := meters) (w_st (full_chain c w).2) in
  (forall k, count (me_InFlight after) k = count (me_InFlight before) k) /\
  forall k, count (me_Total after) k = count (me_Total before) k +
    if decide (k = (serviceName, fullMethod, code_String (reply_code (full_chain c w).1))) then 1 else 0.
Proof.
  intros Hv Hinner before after. destruct (inner_chain c (entered c w)) as [r w2] eqn:Hin. cbn [snd] in Hinner.
  destruct (full_chain_spec c w r w2 Hv Hin) as (e & s & d & Hfull & Hm & _).
  assert (Hcode : reply_code (recovered r) = reply_code r).
  { destruct r as [[a|v]|err]; [done| |done]. simpl. unfold CodeFromError.
    change (is_sent CtxCanceled (EStatus Code_Internal "internal error") ||
            is_sent CtxDeadlineExceeded (EStatus Code_Internal "internal error")) with false.
    by rewrite FromError_status. }
  assert (Hbefore : prj (X := meters) (w_st (entered c w)) = in_flight serviceName fullMethod 1 before).
  { unfold entered, started. simpl. rewrite logged_entry_apart by assumption. by rewrite prj_upd. }
  unfold after. rewrite Hfull. cbn [fst snd w_st]. rewrite Hm, Hinner, Hbefore, Hcode.
  cbn [observed counted in_flight me_InFlight me_Total].
  split; intros k; rewrite !count_add; [|done]. destruct (decide _); lia.
Qed.
End Chain.

(** What the propagators write leaves the token alone. *)
Lemma foldl_carrier_Set `{TraceLib} kvs mc value :
  (forall key v, (key, v) ∈ kvs -> key ∈ ["traceparent"; "tracestate"; "baggage"]) ->
  md_Get mc authorizationHeader = value ->
  md_Get (foldl (λ mc kv, carrier_Set mc kv.1 kv.2) mc kvs) authorizationHeader = value.
Proof.
  revert mc. induction kvs as [|[key v] kvs IH]; intros mc Hkeys Hmc; [done|]. cbn [foldl fst snd]. apply IH.
  - intros k v' Hin. apply (Hkeys k v'). by right.
  - assert (Hk : key ∈ ["traceparent"; "tracestate"; "baggage"]) by (apply (Hkeys key v); left).
    assert (Hne : ToLower key <> authorizationHeader).
    { rewrite !elem_of_cons, elem_of_nil in Hk. by destruct Hk as [->|[->|[->|[]]]]. }
    rewrite <- Hmc. unfold carrier_Set, md_Get. f_equal. by apply (lookup_insert_ne (M := gmap string)).
Qed.

Lemma carried (md : metadata) key values : md_Get (<[key := values]> md) key = values.
Proof.
  unfold md_Get, metadata in *. by rewrite lookup_insert_eq.
Qed.

(** A call to another service carries the caller's token. *)
Theorem client_chain_forwards {A} `{TraceLaws} (invoker : reqctx -> A) c md authHeader rest :
  rc_incoming c = Some md -> md_Get md authorizationHeader = authHeader :: rest ->
  exists c', client_chain invoker c = invoker c' /\
    exists out, rc_outgoing c' = Some out /\ md_Get out authorizationHeader = [authHeader] /\
      rc_user c' = rc_user c /\ rc_roles c' = rc_roles c.
Proof.
  intros Hmd Hget. unfold client_chain, UnaryClientAuthInterceptor. rewrite Hmd, Hget.
  unfold tracing_UnaryClientInterceptor. eexists. split; [done|]. eexists. split; [done|]. split; [|done].
  apply foldl_carrier_Set; [intros key value; apply propagated_keys|].
  cbn [rc_outgoing extractOutgoingMetadata default from_option id]. by apply carried.
Qed.

(** ** A closed server *)

Record server_state := ServerState {
  sv_limits : gmap string bucket;
  sv_logs : logs;
  sv_meters : meters;
  sv_header : response_header
}.

#[export] Program Instance Has_sv_limits : Has (gmap string bucket) server_state := {
  prj := sv_limits; upd x s := ServerState x (sv_logs s) (sv_meters s) (sv_header s) }.
#[export] Program Instance Has_sv_logs : Has logs server_state := {
  prj := sv_logs; upd x s := ServerState (sv_limits s) x (sv_meters s) (sv_header s) }.
#[export] Program Instance Has_sv_meters : Has meters server_state := {
  prj := sv_meters; upd x s := ServerState (sv_limits s) (sv_logs s) x (sv_header s) }.
#[export] Program Instance Has_sv_header : Has response_header server_state := {
  prj := sv_header; upd x s := ServerState (sv_limits s) (sv_logs s) (sv_meters s) x }.
Solve All Obligations with done.

#[export] Instance logs_apart_meters : Apart logs meters server_state.
Proof. done. Qed.
#[export] Instance header_apart_meters : Apart response_header meters server_state.
Proof. done. Qed.
#[export] Instance logs_apart_limits : Apart logs (gmap string bucket) server_state.
Proof. done. Qed.
#[export] Instance meters_apart_limits : Apart meters (gmap string bucket) server_state.
Proof. done. Qed.
#[export] Instance header_apart_limits : Apart response_header (gmap string bucket) server_state.
Proof. done. Qed.

Section ObservabilityWitness.
#[local] Existing Instance DecLib.
#[local] Existing Instance TextJwt.
#[local] Existing Instance WalkStatus.
#[local] Existing Instance WalkStatus_laws.
#[local] Existing Instance TokenBucket.
#[local] Existing Instance DemoValidate.
#[local] Existing Instance DemoCodes.

#[local] Instance DemoTrace : TraceLib := {
  start_span _ := Some "t1"; propagated trace := [("traceparent", default "" trace)] }.
#[local] Instance DemoTrace_laws : TraceLaws.
Proof. constructor. intros trace key value Hin. apply list_elem_of_singleton in Hin. simplify_eq. left. Qed.

Definition demo_seen (c : reqctx) : M server_state (reply UUID) := mret (Ok (inl (default 0%N (UserIDFromContext c)))).
Definition demo_fault (c : reqctx) : M server_state (reply UUID) := mret (panics "nil pointer").

Definition demo_observed (handler : reqctx -> M server_state (reply UUID)) : M server_state (reply UUID) :=
  full_chain (L := bucket) demo_logger "orderService" demo_manager [] "/demo" "o1" handler (demo_bearer demo_token).

Definition demo_observed_start : world server_state :=
  World quiet_env (ServerState (make_limiters [("/demo", 1)]) demo_logs (Meters ∅ ∅ ∅) []).

(** A request that is answered, one whose handler panics, two answered ones of
    which the second is refused. *)
Example demo_counts :
  let '(r, w) := (let! _ := demo_observed demo_seen in let! _ := demo_observed demo_fault in
                  let! _ := demo_observed demo_seen in demo_observed demo_seen) demo_observed_start in
  (r, map_to_list (me_InFlight (sv_meters (w_st w))),
   (λ code, count (me_Total (sv_meters (w_st w))) ("orderService", "/demo", code)) <$> ["0"; "8"; "13"],
   sv_header (w_st w)) =
  (Err (EStatus Code_ResourceExhausted "too many requests"), [(("orderService", "/demo"), 0)], [2; 1; 1],
   [("x-trace-id", "t1"); ("x-trace-id", "t1"); ("x-trace-id", "t1")]).
Proof. vm_compute. reflexivity. Qed.

Lemma request_counted_witness :
  count (me_Total (sv_meters (w_st (demo_observed demo_fault demo_observed_start).2))) ("orderService", "/demo", "13") = 1.
Proof.
  destruct (request_counted (L := bucket) demo_logger "orderService" demo_manager [] "/demo" "o1" demo_fault
    (demo_bearer demo_token) demo_observed_start) as [_ H]; [reflexivity|vm_compute; reflexivity|].
  etrans; [exact (H ("orderService", "/demo", "13"))|vm_compute; reflexivity].
Defined.

Lemma observers_transparent_witness :
  (demo_observed demo_seen demo_observed_start).1 = Ok (inl 1%N).
Proof.
  destruct (observers_transparent (L := bucket) demo_logger "orderService" demo_manager [] "/demo" "o1" demo_seen
    (demo_bearer demo_token) demo_observed_start (gmap string bucket)) as [H _]; [reflexivity|].
  etrans; [exact H|vm_compute; reflexivity].
Defined.

Lemma client_chain_forwards_witness :
  exists out, client_chain rc_outgoing (demo_bearer demo_token) = Some out /\
    md_Get out authorizationHeader = ["Bearer " +:+ demo_token].
Proof.
  destruct (client_chain_forwards rc_outgoing (demo_bearer demo_token) _ ("Bearer " +:+ demo_token) [] eq_refl)
    as (c' & -> & out & Hout & Hget & _); [vm_compute; reflexivity|].
  exists out. by rewrite Hout.
Defined.
End ObservabilityWitness.
