(* ===== verification/Tracer.v ===== *)
(** * The tracer and the attributes of spans
      (shared/interceptors/tracing/tracer.go,
       shared/infrastructure/otel/attributes/keys.go and builders.go)

    The OpenTelemetry SDK is a class.  Modelled are what the tracer is set up
    with, when it is installed and shut down, whose spans are recorded, what an
    error leaves in a span, and the attributes; no two attributes share a key,
    so none hides another in a span. *)

From S2P Require Import Prelude GoStrings GoFloats GoErrors Effects Config.
From Stdlib Require Import QArith.
Local Open Scope string_scope.
Local Open Scope list_scope.
Local Open Scope Z_scope.

(** ** attributes *)

Inductive attribute_value := AString (v : string) | AInt64 (v : Z) | ABool (v : bool).

Record KeyValue := { kv_Key : string; kv_Value : attribute_value }.

Definition attribute_String (key v : string) : KeyValue := {| kv_Key := key; kv_Value := AString v |}.
Definition attribute_Int64 (key : string) (v : Z) : KeyValue := {| kv_Key := key; kv_Value := AInt64 v |}.
Definition attribute_Int (key : string) (v : Z) : KeyValue := attribute_Int64 key v.
Definition attribute_Bool (key : string) (v : bool) : KeyValue := {| kv_Key := key; kv_Value := ABool v |}.

(** keys.go *)
Definition OrderID : string := "order.id".
Definition OrderType : string := "order.type".
Definition OrderStatus : string := "order.status".
Definition OrdersCancelledCount : string := "orders.cancelled_count".
Definition UserID : string := "user.id".
Definition UserRoleKey : string := "user.role_key".
Definition MarketID : string := "market.id".
Definition OperationName : string := "operation.name".
Definition CacheTTL : string := "cache.ttl_seconds".
Definition CacheCorrupted : string := "cache.corrupted".
Definition CacheCorruptedReason : string := "cache.corrupted_reason".
Definition CacheInvalidationFailed : string := "cache.invalidation_failed".
Definition KafkaTopic : string := "kafka.topic".
Definition KafkaPartition : string := "kafka.partition".
Definition KafkaOffset : string := "kafka.offset".
Definition ConsumerGroup : string := "kafka.consumer_group".
Definition MessagingSystem : string := "messaging.system".
Definition MessagingDestination : string := "messaging.destination".
Definition MessagingDestinationKind : string := "messaging.destination_kind".
Definition EventID : string := "event.id".
Definition EventType : string := "event.type".
Definition RetryCount : string := "retry.count".
Definition BatchSize : string := "batch.size".
Definition BatchLimit : string := "batch.limit".
Definition AggregateID : string := "aggregate.id".
Definition OutboxID : string := "outbox.id".
Definition StuckEvent : string := "stuck.event".
Definition ReleasedEventCount : string := "released.count".
Definition DBSystem : string := "db.system".
Definition MarketEnabled : string := "market.enabled".
Definition MarketDeleted : string := "market.deleted".
Definition MarketBlocked : string := "market.blocked".
Definition MarketBlockSyncFailed : string := "market.block_sync_failed".
Definition MarketBlockSyncReason : string := "market.block_sync_reason".
Definition MarketsCount : string := "markets.count".

(** builders.go *)
Definition OrderIDValue (v : string) : KeyValue := attribute_String OrderID v.
Definition OrderTypeValue (v : string) : KeyValue := attribute_String OrderType v.
Definition OrderStatusValue (v : string) : KeyValue := attribute_String OrderStatus v.
Definition OrdersCancelledCountValue (v : Z) : KeyValue := attribute_Int OrdersCancelledCount v.
Definition UserIDValue (v : string) : KeyValue := attribute_String UserID v.
Definition MarketIDValue (v : string) : KeyValue := attribute_String MarketID v.
Definition UserRoleKeyValue (v : string) : KeyValue := attribute_String UserRoleKey v.
Definition OperationNameValue (v : string) : KeyValue := attribute_String OperationName v.
Definition CacheTTLValue (v : Z) : KeyValue := attribute_Int64 CacheTTL (int64_of (Seconds v)).
Definition CacheCorruptedValue (v : bool) : KeyValue := attribute_Bool CacheCorrupted v.
Definition CacheCorruptedReasonValue (v : string) : KeyValue := attribute_String CacheCorruptedReason v.
Definition CacheInvalidationFailedValue (v : bool) : KeyValue := attribute_Bool CacheInvalidationFailed v.
Definition KafkaTopicValue (v : string) : KeyValue := attribute_String KafkaTopic v.
Definition KafkaPartitionValue (v : Z) : KeyValue := attribute_Int64 KafkaPartition v.
Definition KafkaOffsetValue (v : Z) : KeyValue := attribute_Int64 KafkaOffset v.
Definition ConsumerGroupValue (v : string) : KeyValue := attribute_String ConsumerGroup v.
Definition MessagingSystemValue (v : string) : KeyValue := attribute_String MessagingSystem v.
Definition MessagingDestinationValue (v : string) : KeyValue := attribute_String MessagingDestination v.
Definition MessagingDestinationKindValue (v : string) : KeyValue := attribute_String MessagingDestinationKind v.
Definition EventIDValue (v : string) : KeyValue := attribute_String EventID v.
Definition EventTypeValue (v : string) : KeyValue := attribute_String EventType v.
Definition RetryCountValue (v : Z) : KeyValue := attribute_Int RetryCount v.
Definition BatchSizeValue (v : Z) : KeyValue := attribute_Int BatchSize v.
Definition BatchLimitValue (v : Z) : KeyValue := attribute_Int BatchLimit v.
Definition AggregateIDValue (v : string) : KeyValue := attribute_String AggregateID v.
Definition OutboxIDValue (v : string) : KeyValue := attribute_String OutboxID v.
Definition StuckEventValue (v : string) : KeyValue := attribute_String StuckEvent v.
Definition ReleasedEventCountValue (v : Z) : KeyValue := attribute_Int64 ReleasedEventCount v.
Definition DBSystemValue (v : string) : KeyValue := attribute_String DBSystem v.
Definition MarketEnabledValue (v : bool) : KeyValue := attribute_Bool MarketEnabled v.
Definition MarketDeletedValue (v : bool) : KeyValue := attribute_Bool MarketDeleted v.
Definition MarketBlockedValue (v : bool) : KeyValue := attribute_Bool MarketBlocked v.
Definition MarketBlockSyncFailedValue (v : bool) : KeyValue := attribute_Bool MarketBlockSyncFailed v.
Definition MarketBlockSyncReasonValue (v : string) : KeyValue := attribute_String MarketBlockSyncReason v.
Definition MarketsCountValue (v : Z) : KeyValue := attribute_Int MarketsCount v.

(** The keys of keys.go. *)
Definition attribute_keys : list string :=
  [OrderID; OrderType; OrderStatus; OrdersCancelledCount; UserID; UserRoleKey; MarketID; OperationName;
   CacheTTL; CacheCorrupted; CacheCorruptedReason; CacheInvalidationFailed; KafkaTopic; KafkaPartition;
   KafkaOffset; ConsumerGroup; MessagingSystem; MessagingDestination; MessagingDestinationKind; EventID;
   EventType; RetryCount; BatchSize; BatchLimit; AggregateID; OutboxID; StuckEvent; ReleasedEventCount;
   DBSystem; MarketEnabled; MarketDeleted; MarketBlocked; MarketBlockSyncFailed; MarketBlockSyncReason;
   MarketsCount].

Example CacheTTLValue_whole : CacheTTLValue (90 * second + 999999999) = attribute_Int64 CacheTTL 90.
Proof. vm_compute. reflexivity. Qed.

(** The float64 rounds up what is a nanosecond short, from about half a year on. *)
Example CacheTTLValue_rounds : CacheTTLValue (16777217 * second - 1) = attribute_Int64 CacheTTL 16777217.
Proof. vm_compute. reflexivity. Qed.

(** No attribute hides another one. *)
Lemma attribute_keys_distinct : NoDup attribute_keys.
Proof. apply (bool_decide_unpack _). vm_compute. exact I. Qed.

(** ** tracer.go *)

Record retry_config := {
  rtc_Enabled : bool; rtc_InitialInterval : Z; rtc_MaxInterval : Z; rtc_MaxElapsedTime : Z }.

Record exporter_options := {
  eo_Endpoint : string; eo_Timeout : Z; eo_Compressor : string; eo_Retry : retry_config }.

(** What WithAttributes adds to what the SDK detects. *)
Record resource_attributes := { ra_ServiceName : string; ra_ServiceVersion : string; ra_Environment : string }.

Inductive sampler := TraceIDRatioBased (ratio : Q) | ParentBased (root : sampler).

Inductive propagator := TraceContext | Baggage.

(** The SDK: the exporter of an endpoint, the resource with these attributes,
    and the end of a provider. *)
Class TracerSdk (Exporter Resource : Type) := {
  otlptracegrpc_New : exporter_options -> result Exporter;
  resource_New : resource_attributes -> result Resource
}.

Definition defaultCompressor : string := "gzip".
Definition defaultRetryEnabled : bool := true.
Definition defaultRetryInitialInterval : Z := 500000000.
Definition defaultRetryMaxInterval : Z := 5 * second.
Definition defaultRetryMaxElapsedTime : Z := 240 * second.
Definition defaultTimeout : Z := 5 * second.
Definition defaultTraceRatio : Q := 1.

Section Tracer.
Context {Exporter Resource : Type} `{SDK : TracerSdk Exporter Resource}.

Record tracer_provider := { tp_exporter : Exporter; tp_resource : Resource; tp_sampler : sampler; tp_down : bool }.

(** OpenTelemetry's globals: its own provider, or one of the SDK. *)
Record otel_globals := { og_provider : option tracer_provider; og_propagators : list propagator }.

Definition NewResource (serviceName : string) (cfg : TracingConfig) : result Resource :=
  resource_New {| ra_ServiceName := serviceName; ra_ServiceVersion := tc_ServiceVersion cfg;
                  ra_Environment := tc_Environment cfg |}.

Definition exporter_settings (cfg : TracingConfig) : exporter_options := {|
  eo_Endpoint := tc_CollectorEndpoint cfg; eo_Timeout := defaultTimeout; eo_Compressor := defaultCompressor;
  eo_Retry := {| rtc_Enabled := defaultRetryEnabled; rtc_InitialInterval := defaultRetryInitialInterval;
                 rtc_MaxInterval := defaultRetryMaxInterval; rtc_MaxElapsedTime := defaultRetryMaxElapsedTime |} |}.

Definition InitTracer (cfg : TracingConfig) (res : Resource) (g : otel_globals) : option error * otel_globals :=
  match otlptracegrpc_New (exporter_settings cfg) with
  | Err err => (Some err, g)
  | Ok exporter =>
      (None, {| og_provider := Some {| tp_exporter := exporter; tp_resource := res;
                                       tp_sampler := ParentBased (TraceIDRatioBased defaultTraceRatio);
                                       tp_down := false |};
                og_propagators := [TraceContext; Baggage] |})
  end.

(** Shutdown of the SDK's provider may fail, having been shut down. *)
Definition ShutdownTracer (shutdown : tracer_provider -> option error) (g : otel_globals) :
    option error * otel_globals :=
  match og_provider g with
  | None => (None, g)
  | Some p =>
      (shutdown p, {| og_provider := Some {| tp_exporter := tp_exporter p; tp_resource := tp_resource p;
                                             tp_sampler := tp_sampler p; tp_down := true |};
                      og_propagators := og_propagators g |})
  end.
End Tracer.

(** Which spans are recorded: a ratio looks at the trace id, a number of 63
    bits; ParentBased asks its own sampler for root spans only. *)
Fixpoint samples (s : sampler) (parent : option bool) (traceID : Z) : bool :=
  match s with
  | TraceIDRatioBased ratio => Qle_bool 1 ratio || (traceID <? Qnum ratio * 2 ^ 63 / Zpos (Qden ratio))
  | ParentBased root => match parent with Some sampled => sampled | None => samples root None traceID end
  end.

(** What an error leaves in a span: an event, and the status with its text;
    the text of no error is a nil dereference. *)
Record span := { sp_events : list error; sp_status : option string }.

Definition RecordError (sp : span) (err : option error) (text : error -> string) : option span :=
  match err with
  | Some err => Some {| sp_events := sp_events sp ++ [err]; sp_status := Some (text err) |}
  | None => None
  end.

(** StartSpan and SpanFromContext take the background context for none. *)
Definition or_background {C} (background : C) (ctx : option C) : C := default background ctx.

(** An installed tracer records every trace that starts here, and of the others
    those its caller records.  A start that could not install one leaves the
    globals alone, so the stop has nothing to shut down; a stop after a start
    shuts down the provider that the start installed, and no other. *)
Theorem tracer_lifecycle `{SDK : TracerSdk Exporter Resource} cfg (res : Resource) shutdown
    (g : otel_globals (Exporter := Exporter)) :
  og_provider g = None ->
  match InitTracer cfg res g with
  | (Some err, g') => g' = g /\ ShutdownTracer shutdown g' = (None, g')
  | (None, g') => exists p, og_provider g' = Some p /\ tp_resource p = res /\ tp_down p = false /\
      (forall parent traceID, samples (tp_sampler p) parent traceID = default true parent) /\
      (ShutdownTracer shutdown g').1 = shutdown p /\
      option_map tp_down (og_provider (ShutdownTracer shutdown g').2) = Some true
  end.
Proof.
  intros Hg. unfold InitTracer. destruct (otlptracegrpc_New _) as [exporter|err].
  - eexists. split_and!; [done..| |done|done]. by intros [[]|].
  - split; [done|]. unfold ShutdownTracer. by rewrite Hg.
Qed.
