(* ===== verification/Metrics.v ===== *)
(** * The metrics of both services (shared/metrics/metrics.go)

    The package declares its metrics in variables, so they are registered when
    the program starts and a refusal is a panic before main.  The theorems say
    that no registration is refused, that the series that are exported have
    names of their own, and that recording a duration together with its trace
    never panics. *)

From Stdlib Require Import QArith.
From S2P Require Import Prelude GoStrings Effects.
Local Open Scope string_scope.
Local Open Scope list_scope.

(** ** Declarations *)

Inductive VecKind :=
  | CounterVec
  | GaugeVec
  | HistogramVec (Buckets : list Q).

Record VecOpts := {
  vo_Kind : VecKind;
  vo_Name : string;
  vo_Help : string;
  vo_Labels : list string
}.

Local Open Scope Q_scope.

Definition RequestsTotal : VecOpts := {|
  vo_Kind := CounterVec;
  vo_Name := "grpc_server_requests_total";
  vo_Help := "Throughput - total number of gRPC requests by service, method and status code";
  vo_Labels := ["service"; "method"; "status"] |}.

Definition RequestDuration : VecOpts := {|
  vo_Kind := HistogramVec [0.001; 0.005; 0.01; 0.025; 0.05; 0.1; 0.25; 0.5; 1; 2.5; 5];
  vo_Name := "grpc_server_request_duration_seconds";
  vo_Help := "gRPC handler duration in seconds — server-side latency and response time";
  vo_Labels := ["service"; "method"] |}.

Definition InFlightRequests : VecOpts := {|
  vo_Kind := GaugeVec;
  vo_Name := "grpc_server_in_flight_requests";
  vo_Help := "Current number of in-flight gRPC requests";
  vo_Labels := ["service"; "method"] |}.

Definition OrdersCreatedTotal : VecOpts := {|
  vo_Kind := CounterVec;
  vo_Name := "grpc_server_orders_created_total";
  vo_Help := "Total number of successfully created orders by service and market";
  vo_Labels := ["service"; "market_id"] |}.

Definition RateLimitRejectedGRPCTotal : VecOpts := {|
  vo_Kind := CounterVec;
  vo_Name := "grpc_server_rate_limit_rejected_grpc_total";
  vo_Help := "Total number of requests rejected by gRPC transport rate limiter";
  vo_Labels := ["service"; "method"] |}.

Definition RateLimitRejectedBusinessTotal : VecOpts := {|
  vo_Kind := CounterVec;
  vo_Name := "grpc_server_rate_limit_rejected_business_total";
  vo_Help := "Total number of requests rejected by business rate limiter";
  vo_Labels := ["service"; "operation"] |}.

Definition CacheHitsTotal : VecOpts := {|
  vo_Kind := CounterVec;
  vo_Name := "grpc_server_cache_hits_total";
  vo_Help := "Total number of cache hits";
  vo_Labels := ["service"; "operation"] |}.

Definition CacheMissesTotal : VecOpts := {|
  vo_Kind := CounterVec;
  vo_Name := "grpc_server_cache_misses_total";
  vo_Help := "Total number of cache misses";
  vo_Labels := ["service"; "operation"] |}.

Definition CacheOperationDuration : VecOpts := {|
  vo_Kind := HistogramVec [0.0001; 0.0005; 0.001; 0.005; 0.01; 0.025; 0.05; 0.1];
  vo_Name := "grpc_server_cache_operation_duration_seconds";
  vo_Help := "Latency of Redis cache operations";
  vo_Labels := ["service"; "operation"] |}.

Definition CacheInvalidationsTotal : VecOpts := {|
  vo_Kind := CounterVec;
  vo_Name := "grpc_server_cache_invalidations_total";
  vo_Help := "Total number of cache invalidations";
  vo_Labels := ["service"; "reason"; "role"; "result"] |}.

Definition CacheFallbacksTotal : VecOpts := {|
  vo_Kind := CounterVec;
  vo_Name := "grpc_server_cache_fallbacks_total";
  vo_Help := "Total number of fallbacks after cache lookup failure";
  vo_Labels := ["service"; "operation"; "reason"] |}.

Definition CacheWarmupsTotal : VecOpts := {|
  vo_Kind := CounterVec;
  vo_Name := "grpc_server_cache_warmups_total";
  vo_Help := "Total number of cache warmup attempts";
  vo_Labels := ["service"; "operation"; "role"; "result"] |}.

Definition MarketBlockStateSyncTotal : VecOpts := {|
  vo_Kind := CounterVec;
  vo_Name := "grpc_server_market_block_state_sync_total";
  vo_Help := "Total number of market block state sync attempts";
  vo_Labels := ["service"; "reason"; "blocked"; "result"; "updated"] |}.

Definition DBQueryDuration : VecOpts := {|
  vo_Kind := HistogramVec [0.001; 0.005; 0.01; 0.025; 0.05; 0.1; 0.25; 0.5; 1];
  vo_Name := "grpc_server_db_query_duration_seconds";
  vo_Help := "Latency of Postgres queries";
  vo_Labels := ["service"; "operation"] |}.

Definition CircuitBreakerStateChangesTotal : VecOpts := {|
  vo_Kind := CounterVec;
  vo_Name := "grpc_server_circuit_breaker_state_changes_total";
  vo_Help := "Total number of circuit breaker state transitions";
  vo_Labels := ["name"; "from"; "to"] |}.

Definition CircuitBreakerOpenTotal : VecOpts := {|
  vo_Kind := CounterVec;
  vo_Name := "grpc_server_circuit_breaker_open_total";
  vo_Help := "Total number of times the circuit breaker opened";
  vo_Labels := ["name"] |}.

Definition ShutdownsTotal : VecOpts := {|
  vo_Kind := CounterVec;
  vo_Name := "grpc_server_shutdowns_total";
  vo_Help := "Total number of service shutdowns by service and reason";
  vo_Labels := ["service"; "reason"] |}.

Definition KafkaMessagesPublishedTotal : VecOpts := {|
  vo_Kind := CounterVec;
  vo_Name := "grpc_server_kafka_messages_published_total";
  vo_Help := "Total number of Kafka messages successfully published";
  vo_Labels := ["service"; "topic"] |}.

Definition KafkaPublishErrorsTotal : VecOpts := {|
  vo_Kind := CounterVec;
  vo_Name := "grpc_server_kafka_publish_errors_total";
  vo_Help := "Total number of Kafka publish errors";
  vo_Labels := ["service"; "topic"] |}.

Definition KafkaPublishDuration : VecOpts := {|
  vo_Kind := HistogramVec [0.001; 0.005; 0.01; 0.025; 0.05; 0.1; 0.25; 0.5; 1];
  vo_Name := "grpc_server_kafka_publish_duration_seconds";
  vo_Help := "Latency of Kafka message publish operations";
  vo_Labels := ["service"; "topic"] |}.

Definition KafkaMessagesConsumedTotal : VecOpts := {|
  vo_Kind := CounterVec;
  vo_Name := "grpc_server_kafka_messages_consumed_total";
  vo_Help := "Total number of Kafka messages consumed";
  vo_Labels := ["service"; "topic"; "result"] |}.

Definition KafkaConsumeDuration : VecOpts := {|
  vo_Kind := HistogramVec [0.001; 0.005; 0.01; 0.025; 0.05; 0.1; 0.25; 0.5; 1; 2.5; 5];
  vo_Name := "grpc_server_kafka_consume_duration_seconds";
  vo_Help := "Latency of Kafka message processing";
  vo_Labels := ["service"; "topic"] |}.

Definition OutboxEventsTotal : VecOpts := {|
  vo_Kind := CounterVec;
  vo_Name := "grpc_server_outbox_events_total";
  vo_Help := "Total number of outbox events processed by the worker";
  vo_Labels := ["service"; "event_type"; "result"] |}.

Definition OutboxWorkerDuration : VecOpts := {|
  vo_Kind := HistogramVec [0.001; 0.005; 0.01; 0.025; 0.05; 0.1; 0.25; 0.5; 1];
  vo_Name := "grpc_server_outbox_worker_iteration_duration_seconds";
  vo_Help := "Duration of a single outbox worker poll iteration";
  vo_Labels := ["service"] |}.

Local Close Scope Q_scope.

(** The variables of the package, in the order in which they are initialised. *)
Definition declared : list VecOpts :=
  [RequestsTotal; RequestDuration; InFlightRequests;
   OrdersCreatedTotal; RateLimitRejectedGRPCTotal; RateLimitRejectedBusinessTotal;
   CacheHitsTotal; CacheMissesTotal; CacheOperationDuration;
   CacheInvalidationsTotal; CacheFallbacksTotal; CacheWarmupsTotal;
   MarketBlockStateSyncTotal; DBQueryDuration; CircuitBreakerStateChangesTotal;
   CircuitBreakerOpenTotal; ShutdownsTotal; KafkaMessagesPublishedTotal;
   KafkaPublishErrorsTotal; KafkaPublishDuration; KafkaMessagesConsumedTotal;
   KafkaConsumeDuration; OutboxEventsTotal; OutboxWorkerDuration].

(** ** client_golang *)

(** A registry and its names; [None] is the panic of MustRegister. *)
Class Promauto (R : Type) := {
  registered : R -> list string;
  promauto_New : VecOpts -> R -> option R
}.

Definition is_alpha (c : ascii) : bool := byte_in 97 122 c || byte_in 65 90 c || bool_decide (c = "_"%char).

(** The data model's names: [a-zA-Z_][a-zA-Z0-9_]*, for labels not with two
    leading underscores. *)
Definition valid_name (s : string) : bool :=
  match s with
  | EmptyString => false
  | String c s => is_alpha c && str_forall (λ c, is_alpha c || is_digit c) s
  end.

Definition valid_label (s : string) : bool := valid_name s && negb (String.prefix "__" s).

Fixpoint increasing (l : list Q) : bool :=
  match l with
  | x :: (y :: _) as l => negb (Qle_bool y x) && increasing l
  | _ => true
  end.

(** What a descriptor needs: names, labels that differ, and for a histogram
    increasing buckets and no label le. *)
Definition valid_opts (o : VecOpts) : bool :=
  valid_name (vo_Name o) && forallb valid_label (vo_Labels o) && bool_decide (NoDup (vo_Labels o)) &&
  match vo_Kind o with
  | HistogramVec buckets => increasing buckets && bool_decide ("le" ∉ vo_Labels o)
  | _ => true
  end.

(** A valid descriptor with a new name is registered. *)
Class PromautoLaws (R : Type) `{Promauto R} := {
  promauto_fresh o r : valid_opts o = true -> vo_Name o ∉ registered r ->
    exists r', promauto_New o r = Some r' /\ registered r' = vo_Name o :: registered r
}.

(** The initialisation of the package. *)
Definition init `{Promauto R} (r : R) : option R := foldl (λ r o, r ≫= promauto_New o) (Some r) declared.

(** The series under which a vector is exported. *)
Definition series (o : VecOpts) : list string :=
  match vo_Kind o with
  | HistogramVec _ => (λ suffix, vo_Name o +:+ suffix) <$> [""; "_bucket"; "_sum"; "_count"]
  | _ => [vo_Name o]
  end.

(** WithLabelValues: the labels of one series, or the panic. *)
Definition WithLabelValues (o : VecOpts) (values : list string) : option (list (string * string)) :=
  if (length values =? length (vo_Labels o))%nat then Some (zip (vo_Labels o) values) else None.

(** shutdown.go, as the series that it increments. *)
Definition RecordShutdown (serviceName reason : string) : option (list (string * string)) :=
  WithLabelValues ShutdownsTotal [serviceName; reason].

(** ** Durations with their trace *)

(** prometheus.Observer, and prometheus.ExemplarObserver where the observer is
    one; [None] is a panic. *)
Class Observer (Obs : Type) := {
  Observe : Q -> Obs -> option Obs;
  ObserveWithExemplar : option (Q -> list (string * string) -> Obs -> option Obs)
}.

(** ExemplarMaxRunes. *)
Definition exemplar_runes (labels : list (string * string)) : nat :=
  sum_list_with (λ kv, (String.length kv.1 + String.length kv.2)%nat) labels.

Class ObserverLaws (Obs : Type) `{Observer Obs} := {
  observe_total time o : is_Some (Observe time o);
  exemplar_total f time labels o : ObserveWithExemplar = Some f ->
    forallb (λ kv, valid_label kv.1) labels = true -> (exemplar_runes labels <= 128)%nat ->
    is_Some (f time labels o)
}.

Definition no_trace : string := "00000000000000000000000000000000".

(** [traceID] is the id of the context's span, all zeros where it has none. *)
Definition ObserveWithTrace `{Observer Obs} (traceID : string) (time : Q) (wrap : Obs) : option Obs :=
  match ObserveWithExemplar with
  | Some exemplar =>
      if bool_decide (traceID <> no_trace) then exemplar time [("traceID", traceID)] wrap else Observe time wrap
  | None => Observe time wrap
  end.

(** ** Properties *)

Lemma declared_valid : forallb valid_opts declared = true.
Proof. by vm_compute. Qed.

Lemma declared_distinct : NoDup (vo_Name <$> declared).
Proof. by apply (bool_decide_unpack _); vm_compute. Qed.

Lemma register_all `{PromautoLaws R} opts r :
  forallb valid_opts opts = true -> NoDup (vo_Name <$> opts) ->
  (forall o, o ∈ opts -> vo_Name o ∉ registered r) ->
  exists r', foldl (λ r o, r ≫= promauto_New o) (Some r) opts = Some r' /\
    registered r' = reverse (vo_Name <$> opts) ++ registered r.
Proof.
  revert r. induction opts as [|o opts IH]; intros r Hv Hnd Hfresh; [by exists r|].
  cbn [forallb] in Hv. apply andb_prop in Hv as [Hvo Hv]. rewrite fmap_cons in *. apply NoDup_cons in Hnd as [Hno Hnd].
  destruct (promauto_fresh o r Hvo) as (r1 & Hnew & Hnames); [by apply Hfresh; left|].
  destruct (IH r1 Hv Hnd) as (r' & Hfold & Hr').
  - intros o' Ho'. rewrite Hnames, not_elem_of_cons. split; [|by apply Hfresh; right].
    intros Heq. apply Hno. rewrite <- Heq. by apply list_elem_of_fmap_2.
  - exists r'. cbn [foldl]. change (Some r ≫= promauto_New o) with (promauto_New o r). rewrite Hnew.
    split; [done|]. by rewrite Hr', Hnames, reverse_cons, <- app_assoc.
Qed.

(** The program starts: in a registry without names of theirs every metric is
    registered, under its own name. *)
Theorem metrics_registered `{PromautoLaws R} (r : R) :
  (forall name, name ∈ registered r -> String.prefix "grpc_server_" name = false) ->
  exists r', init r = Some r' /\ registered r' = reverse (vo_Name <$> declared) ++ registered r.
Proof.
  intros Hr. apply register_all; [apply declared_valid|apply declared_distinct|].
  intros o Ho Hin. specialize (Hr _ Hin).
  assert (Hall : Forall (λ o, String.prefix "grpc_server_" (vo_Name o) = true) declared) by (by repeat constructor).
  rewrite Forall_forall in Hall. by rewrite (Hall o Ho) in Hr.
Qed.

(** No two of the exported series share a name, those that a histogram adds
    included. *)
Theorem series_distinct : NoDup (declared ≫= series).
Proof. by apply (bool_decide_unpack _); vm_compute. Qed.

(** A duration is recorded whatever the trace, since a trace id is 32
    characters long. *)
Theorem observe_with_trace_total `{ObserverLaws Obs} traceID time (wrap : Obs) :
  String.length traceID = 32%nat -> is_Some (ObserveWithTrace traceID time wrap).
Proof.
  intros Hlen. unfold ObserveWithTrace. destruct ObserveWithExemplar as [f|] eqn:Hf; [|apply observe_total].
  case_bool_decide; [|apply observe_total]. apply exemplar_total; [done|done|].
  unfold exemplar_runes. simpl. rewrite Hlen. lia.
Qed.

(** ** Closed instances *)

Section MetricsWitness.
#[local] Instance ListRegistry : Promauto (list string) := {
  registered r := r;
  promauto_New o r := if valid_opts o && bool_decide (vo_Name o ∉ r) then Some (vo_Name o :: r) else None
}.
#[local] Instance ListRegistry_laws : PromautoLaws (list string).
Proof. constructor. intros o r Ho Hfresh. simpl. rewrite Ho, bool_decide_true by done. by eexists. Qed.

(** An observer that keeps its observations. *)
#[local] Instance ListObserver : Observer (list (Q * list (string * string))) := {
  Observe time o := Some ((time, []) :: o);
  ObserveWithExemplar := Some (λ time labels o,
    if (exemplar_runes labels <=? 128)%nat then Some ((time, labels) :: o) else None)
}.
#[local] Instance ListObserver_laws : ObserverLaws (list (Q * list (string * string))).
Proof.
  constructor; [by eexists|]. intros f time labels o [= <-] _ Hle. simpl.
  apply Nat.leb_le in Hle. rewrite Hle. by eexists.
Qed.

(** The registry that the process starts with. *)
Lemma metrics_registered_witness :
  exists r, init ["go_goroutines"; "process_cpu_seconds_total"] = Some r /\ length r = 26%nat.
Proof.
  destruct (metrics_registered ["go_goroutines"; "process_cpu_seconds_total"]) as (r & Hr & Hnames).
  - intros name Hin. cbn [registered ListRegistry] in Hin. rewrite !elem_of_cons, elem_of_nil in Hin. by destruct Hin as [->|[->|[]]].
  - exists r. split; [exact Hr|]. change r with (registered r). rewrite Hnames. by vm_compute.
Defined.

(** A second declaration of a metric would be refused. *)
Example twice_panics : init ["grpc_server_requests_total"] = None.
Proof. by vm_compute. Qed.

Lemma observe_with_trace_total_witness :
  is_Some (ObserveWithTrace "4bf92f3577b34da6a3ce929d0e0e4736" 1%Q ([] : list (Q * list (string * string)))).
Proof. apply observe_with_trace_total. reflexivity. Defined.

Example shutdown_labels : RecordShutdown "orderService" "graceful" = Some [("service", "orderService"); ("reason", "graceful")].
Proof. reflexivity. Qed.
End MetricsWitness.
