(* ===== verification/Breaker.v ===== *)
(** * Circuit breakers and the clients behind them
      (shared/client/grpc/breaker/circuit_breaker.go, order_client.go, and the
      logging of spot_client.go)

    gobreaker keeps the state of a breaker and asks the callbacks of New what
    to do.  [Gobreaker] is its documentation; the theorems say when a breaker
    of this program opens: at the end of the first run of MaxFailures failures
    of the callee, and never because of what its clients did wrong. *)

From S2P Require Import Prelude GoStrings GoErrors Effects OrderService Auth ErrorMap Server Config Wiring Logging Observability Metrics.
Local Open Scope string_scope.
Local Open Scope list_scope.
Local Open Scope Z_scope.

(** ** gobreaker *)

Inductive State := StateClosed | StateHalfOpen | StateOpen.
#[export] Instance State_eq_dec : EqDecision State. Proof. solve_decision. Defined.

Definition State_String (s : State) : string :=
  match s with StateClosed => "closed" | StateHalfOpen => "half-open" | StateOpen => "open" end.

(** uint32 counters. *)
Record Counts := {
  ct_Requests : Z; ct_TotalFailures : Z; ct_ConsecutiveFailures : Z
}.

Record Settings (St : Type) := {
  st_Name : string; st_MaxRequests : Z; st_Interval : Z; st_Timeout : Z;
  st_IsSuccessful : option error -> bool;
  st_ReadyToTrip : Counts -> M St bool;
  st_OnStateChange : string -> State -> State -> M St unit
}.
Arguments st_Name {St}. Arguments st_MaxRequests {St}. Arguments st_Interval {St}. Arguments st_Timeout {St}.
Arguments st_IsSuccessful {St}. Arguments st_ReadyToTrip {St}. Arguments st_OnStateChange {St}.

(** ** metrics and logs of a breaker *)

(** The counters of the process: metric, label values. *)
Definition counters : Type := gmap (string * list string) Z.

Section New.
Context {St : Type} `{U : GoLib} `{SL : StatusLib} `{HL : !Has logs St} `{HC : !Has counters St}.
Variables (name : string) (cfg : CircuitBreakerConfig) (logger : Logger).

Definition Inc (o : VecOpts) (values : list string) : M St unit :=
  modify (λ s, upd (add 1 (vo_Name o, values) (prj s)) s).

Definition readyToTrip (counts : Counts) : M St bool :=
  let shouldTrip := ReadyToTrip (cb_MaxFailures cfg) (ct_ConsecutiveFailures counts) in
  if shouldTrip then
    Warn logger (Some Background) "circuit breaker is about to open"
      [zap_String "name" name; zap_Uint "consecutive_failures" (ct_ConsecutiveFailures counts);
       zap_Uint "total_failures" (ct_TotalFailures counts); zap_Uint "total_requests" (ct_Requests counts)] ;;!
    mret shouldTrip
  else mret shouldTrip.

Definition onStateChange (breakerName : string) (from to : State) : M St unit :=
  Inc CircuitBreakerStateChangesTotal [breakerName; State_String from; State_String to] ;;!
  (if decide (to = StateOpen) then Inc CircuitBreakerOpenTotal [breakerName] else mret tt) ;;!
  let fields := [zap_String "name" breakerName; zap_String "from" (State_String from);
                 zap_String "to" (State_String to)] in
  match to with
  | StateOpen => Warn logger (Some Background) "circuit breaker is open" fields
  | StateHalfOpen => Info logger (Some Background) "circuit breaker is half-open" fields
  | StateClosed => Info logger (Some Background) "circuit breaker is closed" fields
  end.

Definition New : Settings St := {|
  st_Name := name;
  st_MaxRequests := cb_MaxRequests cfg;
  st_Interval := cb_Interval cfg;
  st_Timeout := cb_Timeout cfg;
  st_IsSuccessful := isSuccessfulCall;
  st_ReadyToTrip := readyToTrip;
  st_OnStateChange := onStateChange
|}.
End New.

(** ** gobreaker's documentation *)

(** [gb_done s err b] is the bookkeeping after a call that returned [err], in
    the closed state and within one interval. *)
Class Gobreaker (St B : Type) := {
  gb_state : B -> State;
  gb_counts : B -> Counts;
  gb_done : Settings St -> option error -> B -> M St B
}.

Class GobreakerLaws (St B : Type) `{Gobreaker St B} := {
  done_success (s : Settings St) err b w : gb_state b = StateClosed -> st_IsSuccessful s err = true ->
    exists b', gb_done s err b w = (b', w) /\ gb_state b' = StateClosed /\ ct_ConsecutiveFailures (gb_counts b') = 0;
  done_failure (s : Settings St) err b w : gb_state b = StateClosed -> st_IsSuccessful s err = false ->
    exists counts, ct_ConsecutiveFailures counts = wrap_u 32 (ct_ConsecutiveFailures (gb_counts b) + 1) /\
    let (trip, w1) := st_ReadyToTrip s counts w in
    exists b', if trip
      then gb_state b' = StateOpen /\
        gb_done s err b w = (let! _ := st_OnStateChange s (st_Name s) StateClosed StateOpen in mret b') w1
      else gb_state b' = StateClosed /\ gb_counts b' = counts /\ gb_done s err b w = (b', w1)
}.

(** The calls of one interval, until the breaker opens. *)
Fixpoint calls `{Gobreaker St B} (s : Settings St) (replies : list (option error)) (b : B) : M St B :=
  match replies with
  | [] => mret b
  | err :: replies =>
      match gb_state b with
      | StateClosed => let! b := gb_done s err b in calls s replies b
      | _ => mret b
      end
  end.

(** The reference: a run of [limit] failures somewhere, [streak] of which have
    been seen. *)
Fixpoint trips `{U : GoLib} `{SL : StatusLib} (limit streak : Z) (replies : list (option error)) : bool :=
  match replies with
  | [] => false
  | err :: replies =>
      if isSuccessfulCall err then trips limit 0 replies
      else (limit <=? streak + 1) || trips limit (streak + 1) replies
  end.

(** ** order_client.go *)

(** The generated client of the order service. *)
Class OrderApi (St : Type) := {
  api_CreateOrder : CreateOrderRequest -> M St (result (string * Z));
  api_GetOrderStatus : string -> M St (result Z)
}.

Section OrderClient.
Context {St : Type} `{U : GoLib} `{SL : StatusLib} `{HL : !Has logs St} `{HC : !Has counters St}
  `{CB : !CircuitBreaker St} `{API : !OrderApi St}.

Definition NewOrderClient (cfg : CircuitBreakerConfig) (logger : Logger) : Settings St * Settings St :=
  (New "orderService.CreateOrder" cfg logger, New "orderService.GetOrderStatus" cfg logger).

Definition OrderClient_CreateOrder (request : CreateOrderRequest) : M St (result (string * Z)) :=
  try! result := breaker_Execute _ (api_CreateOrder request) else id in
  mret (Ok result).

Definition OrderClient_GetOrderStatus (request : string) : M St (result Z) :=
  try! result := breaker_Execute _ (api_GetOrderStatus request) else id in
  mret (Ok result).
End OrderClient.

(** ** spot_client.go: the log of a call that failed *)

Section SpotLog.
Context {St : Type} `{U : GoLib} `{HL : !Has logs St}.
Variable (logger : Logger).

Definition logViewMarketsBreakerError (ctx : option logctx) (err : error) (limit offset : Z) : M St unit :=
  let fields := [zap_Uint "limit" limit; zap_Uint "offset" offset; zap_Error err] in
  if is_sent BreakerErrOpenState err then
    Warn logger ctx "SpotClient.ViewMarkets skipped by open circuit breaker" fields
  else if is_sent BreakerErrTooManyRequests err then
    Warn logger ctx "SpotClient.ViewMarkets rejected by half-open circuit breaker" fields
  else if is_sent CtxDeadlineExceeded err then
    Warn logger ctx "SpotClient.ViewMarkets failed by deadline exceeded" fields
  else if is_sent CtxCanceled err then Info logger ctx "SpotClient.ViewMarkets canceled" fields
  else Warn logger ctx "SpotClient.ViewMarkets failed" fields.

Definition logGetMarketByIDBreakerError (ctx : option logctx) (err : error) (marketID : UUID) : M St unit :=
  let fields := [zap_String "market_id" (uuid_string marketID); zap_Error err] in
  if is_sent BreakerErrOpenState err then
    Warn logger ctx "SpotClient.GetMarketByID skipped by open circuit breaker" fields
  else if is_sent BreakerErrTooManyRequests err then
    Warn logger ctx "SpotClient.GetMarketByID rejected by half-open circuit breaker" fields
  else if is_sent CtxDeadlineExceeded err then
    Warn logger ctx "SpotClient.GetMarketByID failed by deadline exceeded" fields
  else if is_sent CtxCanceled err then Info logger ctx "SpotClient.GetMarketByID canceled" fields
  else Warn logger ctx "SpotClient.GetMarketByID failed" fields.
End SpotLog.

(** ** Properties *)

Section Trips.
Context {St B : Type} `{U : GoLib} `{SL : StatusLib} `{HL : !Has logs St} `{HC : !Has counters St}
  `{GL : GobreakerLaws St B} `{!Apart logs counters St}.
Variables (name : string) (cfg : CircuitBreakerConfig) (logger : Logger).
Let s : Settings St := New name cfg logger.

Definition opened (w : world St) : Z := count (prj (X := counters) (w_st w)) (vo_Name CircuitBreakerOpenTotal, [name]).

Lemma log_keeps_counters level ctx message fields w :
  exists w', log_at level logger (Some ctx) message fields w = (tt, w') /\
    prj (X := counters) (w_st w') = prj (X := counters) (w_st w).
Proof. rewrite log_at_eq. eexists. split; [done|]. by apply logged_entry_apart. Qed.

Lemma readyToTrip_spec counts w :
  exists w', readyToTrip name cfg logger counts w = (cb_MaxFailures cfg <=? ct_ConsecutiveFailures counts, w') /\
    prj (X := counters) (w_st w') = prj (X := counters) (w_st w).
Proof.
  unfold readyToTrip, ReadyToTrip. destruct (_ <=? _); [|by eexists].
  unfold mbind, Warn. edestruct log_keeps_counters as (w' & -> & Hw). by exists w'.
Qed.

Lemma onStateChange_opens w :
  exists w', onStateChange logger name StateClosed StateOpen w = (tt, w') /\ opened w' = opened w + 1.
Proof.
  unfold onStateChange, Inc, modify, mbind. simpl. unfold Warn.
  edestruct log_keeps_counters as (w' & -> & Hw). exists w'. split; [done|].
  unfold opened. rewrite Hw. simpl. rewrite !prj_upd.
  rewrite (count_add (K := string * list string)), (count_add (K := string * list string)).
  repeat case_decide; simplify_eq. by rewrite Z.add_0_r.
Qed.

(** Within one interval a closed breaker opens exactly when MaxFailures calls in
    a row have failed, counting those that failed before; it then has announced
    one opening, and it has announced none otherwise. *)
Theorem breaker_opens_after_failures replies b w :
  gb_state b = StateClosed -> 0 <= ct_ConsecutiveFailures (gb_counts b) < cb_MaxFailures cfg -> cb_MaxFailures cfg < 2 ^ 32 ->
  let tripped := trips (cb_MaxFailures cfg) (ct_ConsecutiveFailures (gb_counts b)) replies in
  let (b', w') := calls s replies b w in
  gb_state b' = (if tripped then StateOpen else StateClosed) /\ opened w' = opened w + (if tripped then 1 else 0).
Proof.
  intros Hb Hcount Hmax. cbv zeta. revert b w Hb Hcount.
  induction replies as [|err replies IH]; intros b w Hb Hcount; simpl; [split; [done|lia]|]. rewrite Hb. unfold mbind.
  destruct (isSuccessfulCall err) eqn:Herr.
  - destruct (done_success s err b w Hb Herr) as (b1 & -> & Hb1 & Hc1).
    specialize (IH b1 w Hb1). rewrite Hc1 in IH. apply IH. lia.
  - destruct (done_failure s err b w Hb Herr) as (counts & Hcounts & Hdone).
    rewrite wrap_u_small in Hcounts by lia.
    destruct (readyToTrip_spec counts w) as (w1 & Hready & Hw1). change (st_ReadyToTrip s) with (readyToTrip name cfg logger) in Hdone.
    rewrite Hready, Hcounts in Hdone. destruct (_ <=? _) eqn:Htrip in Hdone; destruct Hdone as [b' Hdone].
    + destruct Hdone as [Hb' Hdone]. rewrite Hdone, Htrip. unfold mbind. simpl.
      destruct (onStateChange_opens w1) as (w2 & -> & Hw2).
      assert (Hcalls : calls s replies b' w2 = (b', w2)) by (destruct replies; [done|simpl; by rewrite Hb']).
      unfold mret. rewrite Hcalls. split; [done|]. unfold opened in *. by rewrite Hw2, Hw1.
    + destruct Hdone as (Hb' & Hc' & ->). rewrite Htrip. simpl. specialize (IH b' w1 Hb').
      rewrite Hc', Hcounts in IH. apply Z.leb_gt in Htrip. specialize (IH ltac:(lia)).
      destruct (calls s replies b' w1) as [b2 w2]. destruct IH as [? IH]. split; [done|]. unfold opened in *. by rewrite IH, Hw1.
Qed.

(** What the callee answers about its client's mistakes never opens a breaker:
    not the answer a client gets for a market that does not exist, a missing
    role, an expired token or too many requests. *)
Theorem client_errors_never_open codes b w `{!StatusLaws SL} :
  gb_state b = StateClosed -> 0 <= ct_ConsecutiveFailures (gb_counts b) < cb_MaxFailures cfg -> cb_MaxFailures cfg < 2 ^ 32 ->
  (forall code, code ∈ codes -> code ∈ [Code_Canceled; Code_InvalidArgument; Code_NotFound; Code_AlreadyExists;
    Code_PermissionDenied; Code_Unauthenticated; Code_FailedPrecondition; Code_ResourceExhausted; Code_OutOfRange]) ->
  let (b', w') := calls s ((λ code, Some (EStatus code "")) <$> codes) b w in
  gb_state b' = StateClosed /\ opened w' = opened w.
Proof.
  intros Hb Hcount Hmax. revert b w Hb Hcount.
  induction codes as [|code codes IH]; intros b w Hb Hcount Hcodes; [done|].
  rewrite fmap_cons. cbn [calls]. rewrite Hb. unfold mbind.
  assert (Hok : st_IsSuccessful s (Some (EStatus code "")) = true).
  { simpl. unfold CodeFromError. change (is_sent CtxCanceled (EStatus code "") || is_sent CtxDeadlineExceeded (EStatus code "")) with false.
    rewrite FromError_status. apply bool_decide_true, Hcodes. by left. }
  destruct (done_success s _ b w Hb Hok) as (b1 & -> & Hb1 & Hc1).
  apply IH; [done|lia|]. intros c Hc. apply Hcodes. by right.
Qed.
End Trips.

(** ** A closed breaker *)

Record demo_breaker := { db_state : State; db_counts : Counts }.
Definition no_counts : Counts := {| ct_Requests := 0; ct_TotalFailures := 0; ct_ConsecutiveFailures := 0 |}.

Definition demo_done {St} (s : Settings St) (err : option error) (b : demo_breaker) : M St demo_breaker :=
  let c := db_counts b in
  match db_state b with
  | StateClosed =>
      let requests := wrap_u 32 (ct_Requests c + 1) in
      if st_IsSuccessful s err then
        mret {| db_state := StateClosed;
                db_counts := {| ct_Requests := requests; ct_TotalFailures := ct_TotalFailures c; ct_ConsecutiveFailures := 0 |} |}
      else
        let c := {| ct_Requests := requests; ct_TotalFailures := wrap_u 32 (ct_TotalFailures c + 1);
                    ct_ConsecutiveFailures := wrap_u 32 (ct_ConsecutiveFailures c + 1) |} in
        let! trip := st_ReadyToTrip s c in
        if trip then
          st_OnStateChange s (st_Name s) StateClosed StateOpen ;;!
          mret {| db_state := StateOpen; db_counts := no_counts |}
        else mret {| db_state := StateClosed; db_counts := c |}
  | _ => mret b
  end.

Section BreakerWitness.
#[local] Existing Instance DecLib.
#[local] Existing Instance WalkStatus.
#[local] Existing Instance WalkStatus_laws.

Definition breaker_state : Type := logs * counters.

#[local] Instance DemoBreaker : Gobreaker breaker_state demo_breaker := {
  gb_state := db_state; gb_counts := db_counts; gb_done := demo_done }.
#[local] Instance DemoBreaker_laws : GobreakerLaws breaker_state demo_breaker.
Proof.
  constructor; intros s err b w Hb Hok; simpl in *; unfold demo_done; rewrite Hb, Hok; [by eexists|].
  exists {| ct_Requests := wrap_u 32 (ct_Requests (db_counts b) + 1);
            ct_TotalFailures := wrap_u 32 (ct_TotalFailures (db_counts b) + 1);
            ct_ConsecutiveFailures := wrap_u 32 (ct_ConsecutiveFailures (db_counts b) + 1) |}.
  split; [reflexivity|]. unfold mbind. destruct (st_ReadyToTrip s _ w) as [[] w1].
  - exists {| db_state := StateOpen; db_counts := no_counts |}. by split.
  - eexists {| db_state := StateClosed; db_counts := _ |}. by split_and!.
Qed.

Definition demo_breaker_config : CircuitBreakerConfig :=
  {| cb_MaxRequests := 1; cb_Interval := second; cb_Timeout := second; cb_MaxFailures := 2 |}.
Definition demo_closed : demo_breaker := {| db_state := StateClosed; db_counts := no_counts |}.
Definition demo_failed (code : Z) : option error := Some (EStatus code "").
Definition demo_breaker_start : world breaker_state := World quiet_env (demo_logs, ∅).

(** Two failures in a row open it; one before and one after an answer do not. *)
Lemma breaker_opens_after_failures_witness :
  let s := New "orderService.CreateOrder" demo_breaker_config demo_logger in
  let replies := [demo_failed Code_Unavailable; None; demo_failed Code_Unavailable; demo_failed Code_Internal] in
  gb_state (calls s replies demo_closed demo_breaker_start).1 = StateOpen /\
  gb_state (calls s (take 3 replies) demo_closed demo_breaker_start).1 = StateClosed.
Proof.
  cbv zeta. pose proof (λ replies, breaker_opens_after_failures "orderService.CreateOrder" demo_breaker_config demo_logger
    replies demo_closed demo_breaker_start eq_refl ltac:(split; reflexivity) ltac:(reflexivity)) as H. cbv zeta in H.
  split.
  - specialize (H [demo_failed Code_Unavailable; None; demo_failed Code_Unavailable; demo_failed Code_Internal]).
    destruct (calls _ _ _ _) as [b' w']. destruct H as [H _]. etrans; [exact H|vm_compute; reflexivity].
  - specialize (H [demo_failed Code_Unavailable; None; demo_failed Code_Unavailable]). cbn [take].
    destruct (calls _ _ _ _) as [b' w']. destruct H as [H _]. etrans; [exact H|vm_compute; reflexivity].
Defined.

Lemma client_errors_never_open_witness :
  gb_state (calls (New "spotService.GetMarketByID" demo_breaker_config demo_logger)
    ((λ code, demo_failed code) <$> [Code_NotFound; Code_NotFound; Code_Unauthenticated]) demo_closed demo_breaker_start).1 = StateClosed.
Proof.
  pose proof (client_errors_never_open "spotService.GetMarketByID" demo_breaker_config demo_logger
    [Code_NotFound; Code_NotFound; Code_Unauthenticated] demo_closed demo_breaker_start eq_refl
    ltac:(split; reflexivity) ltac:(reflexivity)) as H.
  assert (Hcodes : forall code, code ∈ [Code_NotFound; Code_NotFound; Code_Unauthenticated] ->
    code ∈ [Code_Canceled; Code_InvalidArgument; Code_NotFound; Code_AlreadyExists; Code_PermissionDenied;
            Code_Unauthenticated; Code_FailedPrecondition; Code_ResourceExhausted; Code_OutOfRange]).
  { intros code Hin. rewrite !elem_of_cons, elem_of_nil in Hin. destruct Hin as [->|[->|[->|[]]]]; by apply (bool_decide_unpack _). }
  specialize (H Hcodes). unfold demo_failed. destruct (calls _ _ _ _) as [b' w']. exact (proj1 H).
Defined.
End BreakerWitness.
