(* ===== verification/Lifecycle.v ===== *)
(** * Starting and stopping the services
      (application/lifecycle.go, grpc_providers.go, service_providers.go and
       infra_providers.go of orderService and spotService)

    Each part of a service appends a hook to the application's lifecycle: what
    it starts and how it stops.  The hooks run in the order of their appending
    and stop in the reverse order; the activities they start run in between,
    on their own.  A run is a sequence of [step]s, with a start that fails
    half-way, activities that end early and a stop that takes too long.  The
    properties: no activity ever uses a resource after it was closed; an
    activity is told to stop only after those that depend on it have ended; and
    a stop never waits for an activity that was not told to end, so that it
    comes to an end when each ends after it was told.

    The library behind the hooks, go.uber.org/fx, is the parameter
    [hooks_after_expiry]: whether it still runs the OnStop hooks that are left
    when the stop's deadline has passed. *)

From S2P Require Import Prelude.

(** ** Parts *)

(** What runs in the background, and what it needs. *)
Inductive activity :=
| MetricsServer | OutboxWorker | MarketConsumer | MarketPoller | ReadinessWatch | BlockWorkers | GRPCServer.

Inductive resource :=
| Tracer | PostgresPool | RedisClient | SpotConnection | KafkaProducer | ConsumerGroup | HealthServer | Listener.

#[export] Instance activity_eq_dec : EqDecision activity.
Proof. solve_decision. Defined.
#[export] Instance resource_eq_dec : EqDecision resource.
Proof. solve_decision. Defined.

(** The steps of OnStart: a check or a set-up that may fail, or a goroutine. *)
Inductive start_instr := SCheck | SGo (a : activity).

(** The steps of OnStop: cancel an activity's context; wait until it is done or
    the stop context is; give it a time of its own; close a resource; and for
    the gRPC server wait for a graceful stop until the stop context is done, and
    then cut it off and wait with no deadline. *)
Inductive stop_instr :=
| PCancel (a : activity)    (* cancel(); of the block workers, close(s.marketBlockQueue) *)
| PWait (a : activity)      (* case <-done, case <-stopCtx.Done() *)
| PDrain (a : activity)     (* Shutdown with a timeout of its own *)
| PClose (r : resource)
| PGrace (a : activity)     (* go GracefulStop(); case <-done, case <-ctx.Done() *)
| PJoin (a : activity).     (* <-done *)

Record hook := { hk_OnStart : list start_instr; hk_OnStop : list stop_instr }.

Definition spawned (l : list start_instr) : list activity :=
  omap (λ i, match i with SGo a => Some a | SCheck => None end) l.
Definition awaited (l : list stop_instr) : list activity :=
  omap (λ i, match i with PWait a | PGrace a => Some a | _ => None end) l.
Definition cancelling (l : list stop_instr) : list activity :=
  omap (λ i, match i with PCancel a => Some a | _ => None end) l.
Definition closing (l : list stop_instr) : list resource :=
  omap (λ i, match i with PClose r => Some r | _ => None end) l.

Definition hk_spawns (h : hook) : list activity := spawned (hk_OnStart h).
Definition hk_closes (h : hook) : list resource := closing (hk_OnStop h).

(** ** The order service *)

Module Order.

(** What the loops in their goroutines hold through their components: the
    handlers call the stores, the caches and the spot client, the outbox worker
    its store and the producer, the consumer the compensation and the
    dead-letter topic, the block workers the block store. *)
Definition uses (a : activity) : list resource :=
  match a with
  | GRPCServer => [Tracer; PostgresPool; RedisClient; SpotConnection; Listener]
  | OutboxWorker => [Tracer; PostgresPool; KafkaProducer]
  | MarketConsumer => [Tracer; PostgresPool; RedisClient; KafkaProducer]
  | BlockWorkers => [Tracer; RedisClient]
  | ReadinessWatch => [PostgresPool; RedisClient]
  | MetricsServer | MarketPoller => []
  end.

Definition registerInfrastructure : hook :=
  {| hk_OnStart := []; hk_OnStop := [PClose PostgresPool; PClose RedisClient; PClose SpotConnection] |}.

Definition registerTracing : hook := {| hk_OnStart := [SCheck]; hk_OnStop := [PClose Tracer] |}.

Definition registerMetrics : hook :=
  {| hk_OnStart := [SCheck; SGo MetricsServer]; hk_OnStop := [PDrain MetricsServer] |}.

Definition registerKafkaProducer : hook := {| hk_OnStart := []; hk_OnStop := [PClose KafkaProducer] |}.

Definition registerOutboxWorker : hook :=
  {| hk_OnStart := [SGo OutboxWorker]; hk_OnStop := [PCancel OutboxWorker; PWait OutboxWorker] |}.

(** The group is closed while the consumer still runs: Consume then returns
    ErrClosedConsumerGroup, which ends the consumer, so it is not among what a
    running consumer needs. *)
Definition registerKafkaConsumer : hook :=
  {| hk_OnStart := [SGo MarketConsumer];
     hk_OnStop := [PCancel MarketConsumer; PClose ConsumerGroup; PWait MarketConsumer] |}.

Definition registerReadiness : hook :=
  {| hk_OnStart := [SCheck; SGo ReadinessWatch];
     hk_OnStop := [PCancel ReadinessWatch; PWait ReadinessWatch; PClose HealthServer] |}.

(** OrderService.Start and Close: the queue is closed, its workers drain it. *)
Definition provideOrderService : hook :=
  {| hk_OnStart := [SGo BlockWorkers]; hk_OnStop := [PCancel BlockWorkers; PWait BlockWorkers] |}.

Definition provideListener : hook := {| hk_OnStart := []; hk_OnStop := [PClose Listener] |}.

(** stopGRPCServer: GracefulStop takes no new calls and waits for those that
    run; at the deadline Stop cuts them off, and the hook waits for the rest. *)
Definition startGRPCServer : hook :=
  {| hk_OnStart := [SGo GRPCServer]; hk_OnStop := [PGrace GRPCServer] |}.

(** Sync flushes the log. *)
Definition provideLogger : hook := {| hk_OnStart := []; hk_OnStop := [] |}.

(** In the order of application.Run: the lifecycle's invocations, then the
    server's; a constructor that is needed appends its own hook first (see
    [Injection], where this order is derived). *)
Definition hooks : list hook :=
  [provideLogger; registerInfrastructure; registerTracing; registerMetrics; registerKafkaProducer; registerOutboxWorker;
   registerKafkaConsumer; registerReadiness; provideOrderService; provideListener; startGRPCServer].
End Order.

(** ** The spot service *)

Module Spot.

Definition uses (a : activity) : list resource :=
  match a with
  | GRPCServer => [Tracer; PostgresPool; RedisClient; Listener]
  | OutboxWorker => [Tracer; PostgresPool; KafkaProducer]
  | MarketPoller => [Tracer; PostgresPool; RedisClient]
  | ReadinessWatch => [PostgresPool; RedisClient]
  | MetricsServer | MarketConsumer | BlockWorkers => []
  end.

Definition registerInfrastructure : hook :=
  {| hk_OnStart := []; hk_OnStop := [PClose PostgresPool; PClose RedisClient] |}.

Definition registerTracing : hook := {| hk_OnStart := [SCheck]; hk_OnStop := [PClose Tracer] |}.

Definition registerMetrics : hook :=
  {| hk_OnStart := [SCheck; SGo MetricsServer]; hk_OnStop := [PDrain MetricsServer] |}.

Definition registerKafkaProducer : hook := {| hk_OnStart := []; hk_OnStop := [PClose KafkaProducer] |}.

Definition registerOutboxWorker : hook :=
  {| hk_OnStart := [SGo OutboxWorker]; hk_OnStop := [PCancel OutboxWorker; PWait OutboxWorker] |}.

(** Init loads the cursor and may fail. *)
Definition registerMarketPoller : hook :=
  {| hk_OnStart := [SCheck; SGo MarketPoller]; hk_OnStop := [PCancel MarketPoller; PWait MarketPoller] |}.

Definition registerReadiness : hook :=
  {| hk_OnStart := [SCheck; SGo ReadinessWatch];
     hk_OnStop := [PCancel ReadinessWatch; PWait ReadinessWatch; PClose HealthServer] |}.

Definition provideListener : hook := {| hk_OnStart := []; hk_OnStop := [PClose Listener] |}.

Definition startGRPCServer : hook :=
  {| hk_OnStart := [SGo GRPCServer]; hk_OnStop := [PGrace GRPCServer] |}.

Definition provideLogger : hook := {| hk_OnStart := []; hk_OnStop := [] |}.

Definition hooks : list hook :=
  [provideLogger; registerInfrastructure; registerTracing; registerMetrics; registerKafkaProducer; registerOutboxWorker;
   registerMarketPoller; registerReadiness; provideListener; startGRPCServer].
End Spot.

(** Closing the consumer group returns once the session that the consumer runs
    in it has ended.  Closing a pool or a producer waits for what is in use of
    it, which by then nobody uses (the theorems below). *)
Definition joins (r : resource) : list activity :=
  match r with ConsumerGroup => [MarketConsumer] | _ => [] end.

(** ** Runs *)

Inductive mode :=
| Starting (rest : list start_instr) (current : hook) (todo : list hook)
| Up
| Stopping (rest : list stop_instr)
| Down.

(** [ap_started] is the stack of the hooks that started and have not been
    stopped, the last one first. *)
Record app := {
  ap_mode : mode; ap_started : list hook; ap_active : list activity; ap_cancelled : list activity;
  ap_closed : list resource; ap_expired : bool }.

Section Run.
Variable hooks_after_expiry : bool.

Definition to_mode (m : mode) (s : app) : app := {|
  ap_mode := m; ap_started := ap_started s; ap_active := ap_active s; ap_cancelled := ap_cancelled s;
  ap_closed := ap_closed s; ap_expired := ap_expired s |}.

(** The next hook of a start, or the end of it. *)
Definition start_next (todo : list hook) : mode :=
  match todo with [] => Up | h :: todo => Starting (hk_OnStart h) h todo end.

Definition launch (hooks : list hook) : app := {|
  ap_mode := start_next hooks; ap_started := []; ap_active := []; ap_cancelled := []; ap_closed := [];
  ap_expired := false |}.

Inductive step : app -> app -> Prop :=
(* an activity comes to its end, told to or not *)
| step_finish a s :
    a ∈ ap_active s ->
    step s {| ap_mode := ap_mode s; ap_started := ap_started s; ap_active := filter (.≠ a) (ap_active s);
              ap_cancelled := ap_cancelled s; ap_closed := ap_closed s; ap_expired := ap_expired s |}
(* starting *)
| step_go a rest h todo s :
    ap_mode s = Starting (SGo a :: rest) h todo ->
    step s {| ap_mode := Starting rest h todo; ap_started := ap_started s; ap_active := a :: ap_active s;
              ap_cancelled := ap_cancelled s; ap_closed := ap_closed s; ap_expired := ap_expired s |}
| step_check rest h todo s :
    ap_mode s = Starting (SCheck :: rest) h todo -> step s (to_mode (Starting rest h todo) s)
| step_check_fails rest h todo s :
    ap_mode s = Starting (SCheck :: rest) h todo -> step s (to_mode (Stopping []) s)
| step_started h todo s :
    ap_mode s = Starting [] h todo ->
    step s {| ap_mode := start_next todo; ap_started := h :: ap_started s; ap_active := ap_active s;
              ap_cancelled := ap_cancelled s; ap_closed := ap_closed s; ap_expired := ap_expired s |}
(* the signal that stops the service, and the stop's deadline *)
| step_signal s : ap_mode s = Up -> step s (to_mode (Stopping []) s)
| step_expire rest s :
    ap_mode s = Stopping rest -> ap_expired s = false ->
    step s {| ap_mode := Stopping rest; ap_started := ap_started s; ap_active := ap_active s;
              ap_cancelled := ap_cancelled s; ap_closed := ap_closed s; ap_expired := true |}
(* stopping *)
| step_cancel a rest s :
    ap_mode s = Stopping (PCancel a :: rest) ->
    step s {| ap_mode := Stopping rest; ap_started := ap_started s; ap_active := ap_active s;
              ap_cancelled := a :: ap_cancelled s; ap_closed := ap_closed s; ap_expired := ap_expired s |}
| step_wait a rest s :
    ap_mode s = Stopping (PWait a :: rest) -> a ∉ ap_active s -> step s (to_mode (Stopping rest) s)
| step_wait_expires a rest s :
    ap_mode s = Stopping (PWait a :: rest) -> ap_expired s = true -> step s (to_mode (Stopping []) s)
| step_drain a rest s :
    ap_mode s = Stopping (PDrain a :: rest) -> step s (to_mode (Stopping rest) s)
| step_grace a rest s :
    ap_mode s = Stopping (PGrace a :: rest) -> a ∉ ap_active s -> step s (to_mode (Stopping rest) s)
(* the deadline of a graceful stop: Stop, and then no deadline *)
| step_grace_expires a rest s :
    ap_mode s = Stopping (PGrace a :: rest) -> ap_expired s = true ->
    step s {| ap_mode := Stopping [PJoin a]; ap_started := ap_started s; ap_active := ap_active s;
              ap_cancelled := a :: ap_cancelled s; ap_closed := ap_closed s; ap_expired := ap_expired s |}
| step_join a rest s :
    ap_mode s = Stopping (PJoin a :: rest) -> a ∉ ap_active s -> step s (to_mode (Stopping rest) s)
| step_close r rest s :
    ap_mode s = Stopping (PClose r :: rest) -> Forall (.∉ ap_active s) (joins r) ->
    step s {| ap_mode := Stopping rest; ap_started := ap_started s; ap_active := ap_active s;
              ap_cancelled := ap_cancelled s; ap_closed := r :: ap_closed s; ap_expired := ap_expired s |}
| step_next_hook h started s :
    ap_mode s = Stopping [] -> ap_started s = h :: started -> ap_expired s = false \/ hooks_after_expiry = true ->
    step s {| ap_mode := Stopping (hk_OnStop h); ap_started := started; ap_active := ap_active s;
              ap_cancelled := ap_cancelled s; ap_closed := ap_closed s; ap_expired := ap_expired s |}
| step_down s :
    ap_mode s = Stopping [] -> ap_started s = [] \/ (ap_expired s = true /\ hooks_after_expiry = false) ->
    step s (to_mode Down s).
End Run.

(** The cases of a step, with the mode in which each is taken. *)
Ltac step_cases H :=
  destruct H as [a s Ha|a rest h todo s Hmo|rest h todo s Hmo|rest h todo s Hmo|h todo s Hmo|s Hmo
    |rest s Hmo He|a rest s Hmo|a rest s Hmo Ha|a rest s Hmo He|a rest s Hmo|a rest s Hmo Ha|a rest s Hmo He
    |a rest s Hmo Ha|r rest s Hmo Hj|h started s Hmo Hst He|s Hmo He].

(** ** No resource is used after it was closed *)

(** The checks of a start come before its goroutines. *)
Fixpoint checks_first (l : list start_instr) : bool :=
  match l with
  | [] => true
  | SCheck :: l => checks_first l
  | SGo _ :: l => forallb (λ i, match i with SGo _ => true | SCheck => false end) l
  end.

Section Safety.
Variable uses : activity -> list resource.

(** Each hook waits for the activities it starts, but for the metrics server,
    which is given a time of its own, and closes only what neither they nor
    those of the hooks before it use. *)
Definition hook_ok (before : list activity) (h : hook) : bool :=
  checks_first (hk_OnStart h) &&
  forallb (λ a, bool_decide (a = MetricsServer) || bool_decide (a ∈ awaited (hk_OnStop h))) (hk_spawns h) &&
  forallb (λ r, forallb (λ a, bool_decide (r ∉ uses a)) (before ++ hk_spawns h)) (hk_closes h).

Fixpoint order_ok (before : list activity) (hooks : list hook) : bool :=
  match hooks with
  | [] => true
  | h :: hooks => hook_ok before h && order_ok (before ++ hk_spawns h) hooks
  end.

Definition acts_of (hooks : list hook) : list activity := hooks ≫= hk_spawns.

Lemma order_ok_at before l1 h l2 :
  order_ok before (l1 ++ h :: l2) = true -> hook_ok (before ++ acts_of l1) h = true.
Proof.
  revert before. induction l1 as [|x l1 IH]; intros before; simpl.
  - intros [H _]%andb_true_iff. by rewrite app_nil_r.
  - intros [_ H]%andb_true_iff. apply IH in H. by rewrite <- app_assoc in H.
Qed.

Lemma hook_ok_waits before h a :
  hook_ok before h = true -> a ∈ hk_spawns h -> a <> MetricsServer -> a ∈ awaited (hk_OnStop h).
Proof.
  unfold hook_ok. intros [[_ H]%andb_true_iff _]%andb_true_iff Ha Hu.
  rewrite forallb_forall in H. specialize (H a). rewrite <- list_elem_of_In in H. specialize (H Ha).
  apply orb_true_iff in H as [H|H]; by apply bool_decide_eq_true in H.
Qed.

Lemma hook_ok_closes before h a r :
  hook_ok before h = true -> r ∈ hk_closes h -> a ∈ before \/ a ∈ hk_spawns h -> r ∉ uses a.
Proof.
  unfold hook_ok. intros [_ H]%andb_true_iff Hr Ha. rewrite forallb_forall in H. specialize (H r).
  rewrite <- list_elem_of_In in H. specialize (H Hr). rewrite forallb_forall in H. specialize (H a).
  rewrite <- list_elem_of_In, elem_of_app in H. specialize (H Ha). by apply bool_decide_eq_true in H.
Qed.

Lemma checks_first_spawned pre rest : checks_first (pre ++ SCheck :: rest) = true -> spawned pre = [].
Proof.
  induction pre as [|[|a] pre IH]; simpl; [done|done|].
  rewrite forallb_app. simpl. by rewrite andb_false_r.
Qed.

Variable hooks : list hook.
Hypothesis Hok : order_ok [] hooks = true.

Definition head_acts (tail : list hook) : list activity := match tail with h :: _ => hk_spawns h | [] => [] end.

(** The rest of the hook that is being stopped, the first one of [tail]. *)
Definition in_stop (rest : list stop_instr) (tail : list hook) : Prop :=
  rest = [] \/ (exists a, rest = [PJoin a]) \/
  exists h tail' pre, tail = h :: tail' /\ hk_OnStop h = pre ++ rest.

(** While stopping, [tail] starts with the hook that is being stopped. *)
Definition quiet (s : app) (tail : list hook) : Prop :=
  (forall a r, a ∈ acts_of (ap_started s) \/ a ∈ head_acts tail -> r ∈ ap_closed s -> r ∉ uses a) /\
  (forall a, a ∈ ap_active s -> a <> MetricsServer -> a ∈ acts_of (ap_started s) \/ a ∈ head_acts tail).

Definition sound (s : app) : Prop :=
  exists tail, hooks = rev (ap_started s) ++ tail /\
  match ap_mode s with
  | Starting rest h todo =>
      tail = h :: todo /\ ap_closed s = [] /\ exists pre, hk_OnStart h = pre ++ rest /\
        forall a, a ∈ ap_active s -> a ∈ acts_of (ap_started s) \/ a ∈ spawned pre
  | Up => ap_closed s = [] /\ forall a, a ∈ ap_active s -> a ∈ acts_of (ap_started s)
  | Stopping rest =>
      quiet s tail /\
      in_stop rest tail /\
      (ap_expired s = false -> forall a, a ∈ ap_active s -> a <> MetricsServer ->
         a ∈ acts_of (ap_started s) \/ a ∈ awaited rest)
  | Down =>
      quiet s tail /\
      (ap_expired s = false -> forall a, a ∈ ap_active s -> a = MetricsServer)
  end.

Lemma sound_launch : sound (launch hooks).
Proof.
  exists hooks. split; [done|]. unfold launch, start_next. destruct hooks as [|h todo]; simpl.
  - split; [done|]. set_solver.
  - split_and!; [done|done|]. exists []. split; [done|]. set_solver.
Qed.

Lemma acts_cons h l a : a ∈ acts_of (h :: l) <-> a ∈ hk_spawns h \/ a ∈ acts_of l.
Proof. unfold acts_of. simpl. by rewrite elem_of_app. Qed.

Lemma acts_rev l a : a ∈ acts_of (rev l) <-> a ∈ acts_of l.
Proof.
  assert (Hrev : forall h, h ∈ rev l <-> h ∈ l) by (intros h; rewrite !list_elem_of_In; symmetry; apply in_rev).
  unfold acts_of. rewrite !list_elem_of_bind. split; intros (h & Ha & Hh); exists h; (split; [done|]); by apply Hrev.
Qed.

Lemma hook_at s h tail' : hooks = rev (ap_started s) ++ h :: tail' -> hook_ok (acts_of (rev (ap_started s))) h = true.
Proof. intros H. apply (order_ok_at [] _ h tail'). by rewrite <- H. Qed.

Lemma in_stop_next i rest tail : in_stop (i :: rest) tail -> in_stop rest tail.
Proof.
  intros [|[(a & [= -> ->])|(h & tail' & pre & -> & Hpre)]]; [done|by left|].
  right. right. exists h, tail', (pre ++ [i]). by rewrite <- app_assoc.
Qed.

(** A check that fails: the hook has started nothing yet. *)
Lemma nothing_spawned s h todo pre rest :
  hooks = rev (ap_started s) ++ h :: todo -> hk_OnStart h = pre ++ SCheck :: rest -> spawned pre = [].
Proof.
  intros Hh Hpre. pose proof (hook_at s h todo Hh) as Hk. unfold hook_ok in Hk.
  apply andb_true_iff in Hk as [[Hk _]%andb_true_iff _]. rewrite Hpre in Hk. by eapply checks_first_spawned.
Qed.

Lemma sound_finish a s :
  sound s ->
  sound {| ap_mode := ap_mode s; ap_started := ap_started s; ap_active := filter (.≠ a) (ap_active s);
           ap_cancelled := ap_cancelled s; ap_closed := ap_closed s; ap_expired := ap_expired s |}.
Proof.
  intros (tail & Hh & Hm). exists tail. split; [done|].
  assert (Hf : forall b, b ∈ filter (.≠ a) (ap_active s) -> b ∈ ap_active s)
    by (intros b [_ Hb]%list_elem_of_filter; done).
  unfold quiet in *. cbn. destruct (ap_mode s) as [rest h todo| |rest|].
  - destruct Hm as (? & ? & pre & ? & H). split_and!; [done|done|]. exists pre. auto.
  - destruct Hm as (? & H). auto.
  - destruct Hm as ((? & H1) & ? & H2). split_and!; auto.
  - destruct Hm as ((? & H1) & H2). split_and!; auto.
Qed.

(** Going on to the hook before: its activities are those it waits for. *)
Lemma sound_next h started s :
  sound s -> ap_mode s = Stopping [] -> ap_started s = h :: started -> ap_expired s = false ->
  sound {| ap_mode := Stopping (hk_OnStop h); ap_started := started; ap_active := ap_active s;
           ap_cancelled := ap_cancelled s; ap_closed := ap_closed s; ap_expired := ap_expired s |}.
Proof.
  intros (tail & Hh & Hm) Hmo Hst He. rewrite Hmo in Hm. destruct Hm as ((Hq1 & Hq2) & _ & Hw). rewrite Hst in *.
  assert (Hh' : hooks = rev started ++ h :: tail) by (rewrite Hh; simpl; by rewrite <- app_assoc).
  assert (Hact : forall a, a ∈ ap_active s -> a <> MetricsServer -> a ∈ hk_spawns h \/ a ∈ acts_of started).
  { intros a Ha Hu. destruct (Hw He a Ha Hu) as [H|H]; [by apply acts_cons|by apply elem_of_nil in H]. }
  exists (h :: tail). split; [done|]. unfold quiet. cbn. split_and!.
  - intros a r Ha Hr. apply (Hq1 a r); [|done]. left. rewrite acts_cons. tauto.
  - intros a Ha Hu. destruct (Hact a Ha Hu); tauto.
  - right. right. by exists h, tail, [].
  - intros _ a Ha Hu. destruct (Hact a Ha Hu) as [H|H]; [right|by left].
    eapply hook_ok_waits; [|done|done]. apply (order_ok_at [] (rev started) h tail). by rewrite <- Hh'.
Qed.

Lemma spawned_snoc pre i a : a ∈ spawned pre -> a ∈ spawned (pre ++ [i]).
Proof. unfold spawned. rewrite omap_app. set_solver. Qed.

(** A close: the hook that is being stopped closes nothing that is used. *)
Lemma close_quiet s rest tail a r :
  hooks = rev (ap_started s) ++ tail -> in_stop (PClose r :: rest) tail ->
  a ∈ acts_of (ap_started s) \/ a ∈ head_acts tail -> r ∉ uses a.
Proof.
  intros Hh [|[[? ?]|(h & tail' & pre & -> & Hpre)]] Ha; [done|done|].
  eapply hook_ok_closes; [by eapply hook_at| |by rewrite acts_rev].
  unfold hk_closes, closing. rewrite Hpre, omap_app. simpl. set_solver.
Qed.

(** A wait that is over. *)
Lemma sound_waited a rest s tail :
  hooks = rev (ap_started s) ++ tail -> quiet s tail -> in_stop rest tail -> a ∉ ap_active s ->
  (ap_expired s = false -> forall b, b ∈ ap_active s -> b <> MetricsServer ->
     b ∈ acts_of (ap_started s) \/ b = a \/ b ∈ awaited rest) ->
  sound (to_mode (Stopping rest) s).
Proof.
  intros Hh Hq Hr Ha Hw. exists tail. split; [done|]. split_and!; [done|done|]. cbn.
  intros He b Hb Hu. destruct (Hw He b Hb Hu) as [?|[->|?]]; [by left|done|by right].
Qed.

Lemma sound_start s s' : sound s -> step false s s' ->
  match ap_mode s with Starting _ _ _ | Up => sound s' | _ => True end.
Proof.
  intros Hs Hstep. pose proof Hs as (tail & Hh & Hm).
  step_cases Hstep; [pose proof (sound_finish a s Hs); by destruct (ap_mode s)|..];
    rewrite Hmo in Hm |- *; try done; unfold sound;
    cbn [ap_mode ap_started ap_active ap_closed ap_expired to_mode].
  - (* go *) destruct Hm as (-> & Hc & pre & Hpre & H). exists (h :: todo). split_and!; [done|done|done|].
    exists (pre ++ [SGo a]). split; [by rewrite <- app_assoc|]. intros b [->|Hb]%elem_of_cons.
    + right. unfold spawned. rewrite omap_app. simpl. set_solver.
    + destruct (H b Hb); [by left|right; by apply spawned_snoc].
  - (* check *) destruct Hm as (-> & Hc & pre & Hpre & H). exists (h :: todo). split_and!; [done|done|done|].
    exists (pre ++ [SCheck]). split; [by rewrite <- app_assoc|].
    intros b Hb. destruct (H b Hb); [by left|right; by apply spawned_snoc].
  - (* check fails *) destruct Hm as (-> & Hc & pre & Hpre & H). exists (h :: todo). split; [done|].
    rewrite (nothing_spawned s h todo pre rest) in H by done.
    unfold quiet. cbn. rewrite Hc. split_and!; [set_solver|set_solver|by left|set_solver].
  - (* started *) destruct Hm as (-> & Hc & pre & Hpre & H). exists todo. rewrite app_nil_r in Hpre.
    split; [simpl; by rewrite <- app_assoc|].
    assert (Hact : forall a, a ∈ ap_active s -> a ∈ acts_of (h :: ap_started s)).
    { intros a Ha. rewrite acts_cons. unfold hk_spawns. rewrite Hpre. destruct (H a Ha); tauto. }
    unfold start_next. destruct todo as [|h' todo]; cbn; [done|].
    split_and!; [done|done|]. exists []. auto.
  - (* signal *) destruct Hm as (Hc & H). exists tail. split; [done|]. unfold quiet. cbn. rewrite Hc.
    split_and!; [set_solver|auto|by left|auto].
Qed.

Lemma sound_stop s s' : sound s -> step false s s' ->
  match ap_mode s with Stopping _ | Down => sound s' | _ => True end.
Proof.
  intros Hs Hstep. pose proof Hs as (tail & Hh & Hm).
  step_cases Hstep; [pose proof (sound_finish a s Hs); by destruct (ap_mode s)|..];
    rewrite Hmo in Hm |- *; try done; unfold sound;
    cbn [ap_mode ap_started ap_active ap_closed ap_expired to_mode].
  - (* expire *) exists tail. split; [done|]. destruct Hm as (Hq & Hr & _). by split_and!.
  - (* cancel *) exists tail. split; [done|]. destruct Hm as (Hq & Hr & Hw). by split_and!; [|eapply in_stop_next|].
  - (* wait *) destruct Hm as (Hq & Hr & Hw). apply (sound_waited a rest s tail); [done|done|by eapply in_stop_next|done|].
    intros He b Hb Hu. destruct (Hw He b Hb Hu) as [?|?%elem_of_cons]; tauto.
  - (* wait expires *) exists tail. split; [done|]. destruct Hm as (Hq & _). split_and!; [done|by left|congruence].
  - (* drain *) exists tail. split; [done|]. destruct Hm as (Hq & Hr & Hw). by split_and!; [|eapply in_stop_next|].
  - (* grace *) destruct Hm as (Hq & Hr & Hw). apply (sound_waited a rest s tail); [done|done|by eapply in_stop_next|done|].
    intros He b Hb Hu. destruct (Hw He b Hb Hu) as [?|?%elem_of_cons]; tauto.
  - (* grace expires *) exists tail. split; [done|]. destruct Hm as (Hq & _).
    split_and!; [done|right; left; by exists a|congruence].
  - (* join *) destruct Hm as (Hq & Hr & Hw). apply (sound_waited a rest s tail); [done|done|by eapply in_stop_next|done|].
    intros He b Hb Hu. destruct (Hw He b Hb Hu); auto.
  - (* close *) exists tail. split; [done|]. destruct Hm as ((Hq1 & Hq2) & Hr & Hw).
    split_and!; [split; [|done]|by eapply in_stop_next|done]. cbn. intros a r' Ha [->|Hr']%elem_of_cons; [|by eapply Hq1].
    by eapply (close_quiet s rest tail).
  - (* next hook *) destruct He as [He|]; [|done]. by apply sound_next.
  - (* down *) exists tail. split; [done|]. destruct Hm as (Hq & _ & Hw). split; [done|].
    intros Hexp a Ha. destruct (decide (a = MetricsServer)) as [|Hu]; [done|].
    destruct He as [He|[He _]]; [|congruence]. destruct (Hw Hexp a Ha Hu) as [H|H]; [|by apply elem_of_nil in H].
    rewrite He in H. by apply elem_of_nil in H.
Qed.

Lemma sound_step s s' : sound s -> step false s s' -> sound s'.
Proof.
  intros Hs Hst. pose proof (sound_start s s' Hs Hst). pose proof (sound_stop s s' Hs Hst). by destruct (ap_mode s).
Qed.

Lemma sound_reachable s : rtc (step false) (launch hooks) s -> sound s.
Proof.
  intros H. pose proof sound_launch as H0. revert H0. induction H as [|s1 s2 s3 H12 _ IH]; [done|].
  intros H1. apply IH. by eapply sound_step.
Qed.

Lemma sound_safe s a r :
  uses MetricsServer = [] -> sound s -> a ∈ ap_active s -> r ∈ uses a -> r ∉ ap_closed s.
Proof.
  intros Hmet (tail & _ & Hm) Ha Hr Hc.
  assert (Hu : a <> MetricsServer) by (intros ->; rewrite Hmet in Hr; by apply elem_of_nil in Hr).
  destruct (ap_mode s) as [rest h todo| |rest|].
  - destruct Hm as (_ & Hc' & _). rewrite Hc' in Hc. by apply elem_of_nil in Hc.
  - destruct Hm as (Hc' & _). rewrite Hc' in Hc. by apply elem_of_nil in Hc.
  - destruct Hm as ((Hq1 & Hq2) & _). eapply Hq1; [by eapply Hq2|done|done].
  - destruct Hm as ((Hq1 & Hq2) & _). eapply Hq1; [by eapply Hq2|done|done].
Qed.

Lemma sound_down s a : sound s -> ap_mode s = Down -> ap_expired s = false -> a ∈ ap_active s -> a = MetricsServer.
Proof. intros (tail & _ & Hm) Hmo He Ha. rewrite Hmo in Hm. destruct Hm as [_ H]. auto. Qed.
End Safety.

(** ** Who is told to stop, and when *)

(** No wait of a hook is for an activity that was not told to end before:
    [told] holds those that were. A graceful stop tells the server itself. *)
Fixpoint waits_told (told : list activity) (l : list stop_instr) : bool :=
  match l with
  | [] => true
  | PCancel a :: l => waits_told (a :: told) l
  | PWait a :: l | PJoin a :: l => bool_decide (a ∈ told) && waits_told told l
  | PClose r :: l => forallb (λ a, bool_decide (a ∈ told)) (joins r) && waits_told told l
  | PDrain _ :: l | PGrace _ :: l => waits_told told l
  end.

(** A hook waits for nobody it has not told to end, and tells only those it
    starts; what it waits for with no deadline it has told by then. *)
Definition hook_prompt (h : hook) : Prop :=
  waits_told [] (hk_OnStop h) = true /\
  Forall (.∈ hk_spawns h) (cancelling (hk_OnStop h) ++ awaited (hk_OnStop h)).

#[export] Instance hook_prompt_dec h : Decision (hook_prompt h).
Proof. unfold hook_prompt. apply _. Defined.

Lemma waits_told_mono told told' l :
  (forall a, a ∈ told -> a ∈ told') -> waits_told told l = true -> waits_told told' l = true.
Proof.
  revert told told'. induction l as [|[a|a|a|r|a|a] l IH]; intros told told' Hs; simpl;
    [done|apply IH; set_solver|..]; rewrite ?andb_true_iff, ?bool_decide_eq_true, ?forallb_forall; [|by apply IH| |by apply IH|];
    intros [H1 H2]; (split; [|by eapply IH]); [by apply Hs| |by apply Hs].
  intros b Hb. specialize (H1 b Hb). rewrite bool_decide_eq_true in *. auto.
Qed.

Section Telling.
Variable hooks : list hook.
Hypothesis Hprompt : Forall hook_prompt hooks.

(** While stopping, nobody is waited for who was not told; and those who were
    belong to the hooks that are stopped or being stopped. *)
Definition telling (s : app) : Prop :=
  match ap_mode s with
  | Starting _ _ _ | Up => ap_cancelled s = []
  | Stopping rest => waits_told (ap_cancelled s) rest = true /\
      forall tail, hooks = rev (ap_started s) ++ tail ->
        Forall (.∈ head_acts tail) (cancelling rest ++ awaited rest)
  | Down => True
  end /\
  forall tail, hooks = rev (ap_started s) ++ tail -> forall a, a ∈ ap_cancelled s -> a ∈ acts_of tail.

Lemma telling_launch : telling (launch hooks).
Proof.
  split; [unfold launch, start_next; by destruct hooks|]. intros ? _ a Ha. by apply elem_of_nil in Ha.
Qed.

(** Nothing told, nothing to wait for. *)
Lemma telling_stop s : ap_cancelled s = [] -> telling (to_mode (Stopping []) s).
Proof.
  intros Hc. split; cbn; [split; [done|]; intros; constructor|]. rewrite Hc. intros ? _ a Ha.
  by apply elem_of_nil in Ha.
Qed.

(** One instruction further, with the same activities told. *)
Lemma telling_next i rest s :
  telling s -> ap_mode s = Stopping (i :: rest) -> (forall a, i <> PCancel a) ->
  waits_told (ap_cancelled s) rest = true /\
  forall tail, hooks = rev (ap_started s) ++ tail -> Forall (.∈ head_acts tail) (cancelling rest ++ awaited rest).
Proof.
  intros [Hm _] Hmo Hi. rewrite Hmo in Hm. destruct Hm as [Hw Hf]. split.
  - destruct i as [a|a|a|r|a|a]; simpl in Hw; rewrite ?andb_true_iff in Hw; try tauto. by destruct (Hi a).
  - intros tail Htail. specialize (Hf tail Htail). rewrite Forall_app in Hf |- *.
    destruct i as [a|a|a|r|a|a]; simpl in Hf; rewrite ?Forall_cons in Hf; tauto.
Qed.

Lemma telling_step s s' tail :
  hooks = rev (ap_started s) ++ tail -> telling s -> step false s s' -> telling s'.
Proof.
  intros Hh Ht Hstep. pose proof Ht as [Hm Hc].
  assert (Hon : forall i rest, ap_mode s = Stopping (i :: rest) -> (forall a, i <> PCancel a) ->
    telling (to_mode (Stopping rest) s)).
  { intros i rest Hmo Hi. split; [exact (telling_next i rest s Ht Hmo Hi)|exact Hc]. }
  step_cases Hstep; [split; [exact Hm|exact Hc]|..]; try (by eapply Hon; [exact Hmo|]); rewrite Hmo in Hm.
  - (* go *) by split.
  - (* check *) by split.
  - (* check fails *) by apply telling_stop.
  - (* started *) split; [cbn; unfold start_next; by destruct todo|]. cbn. rewrite Hm.
    intros ? _ a Ha. by apply elem_of_nil in Ha.
  - (* signal *) by apply telling_stop.
  - (* expire *) by split.
  - (* cancel *) destruct Hm as [Hw Hf].
    assert (Hft : forall tl, hooks = rev (ap_started s) ++ tl ->
      a ∈ head_acts tl /\ Forall (.∈ head_acts tl) (cancelling rest ++ awaited rest)).
    { intros tl Htl. specialize (Hf tl Htl). simpl in Hf. by apply Forall_cons in Hf. }
    split; [split; [exact Hw|intros tl Htl; apply (Hft tl Htl)]|]. cbn. intros tl Htl b [->|Hb]%elem_of_cons; [|by apply Hc].
    destruct (Hft tl Htl) as [Ha _]. destruct tl as [|h tl]; [by apply elem_of_nil in Ha|]. apply acts_cons. by left.
  - (* wait expires *) split; [split; [done|]; intros; constructor|exact Hc].
  - (* grace expires *) destruct Hm as [_ Hf]. split; [split|]; cbn.
    + by rewrite bool_decide_true by set_solver.
    + intros; constructor.
    + intros tl Htail b [->|Hb]%elem_of_cons; [|by apply Hc]. specialize (Hf tl Htail).
      rewrite Forall_app in Hf. simpl in Hf. rewrite Forall_cons in Hf. destruct Hf as (_ & Ha & _).
      destruct tl as [|h tl]; [by apply elem_of_nil in Ha|]. apply acts_cons. by left.
  - (* next hook *) rewrite Hst in *. cbn in Hh. rewrite <- app_assoc in Hh. cbn in Hh.
    assert (Hu : forall tail', hooks = rev started ++ tail' -> tail' = h :: tail).
    { intros tail' H. rewrite Hh in H. by apply app_inv_head in H. }
    assert (Hp : hook_prompt h) by (rewrite Forall_forall in Hprompt; apply Hprompt; rewrite Hh; set_solver).
    destruct Hp as [Hw Ho]. split; cbn.
    + split; [eapply (waits_told_mono []); [set_solver|done]|]. by intros ? ->%Hu.
    + intros ? ->%Hu a Ha. apply acts_cons. right. apply Hc; [|done]. rewrite Hh. cbn. by rewrite <- app_assoc.
  - (* down *) split; [done|exact Hc].
Qed.

Lemma telling_reachable uses s :
  order_ok uses [] hooks = true -> rtc (step false) (launch hooks) s -> sound uses hooks s /\ telling s.
Proof.
  intros Hok H. pose proof (sound_launch uses hooks Hok) as H0. pose proof telling_launch as H1. revert H0 H1.
  induction H as [|s1 s2 s3 H12 _ IH]; [by intros; split|]. intros H0 H1. apply IH; [by eapply sound_step|].
  destruct H0 as (tail & Hh & _). by eapply telling_step.
Qed.
End Telling.

(** ** The order in which activities are told *)

(** [a] stands before [b] in [l]. *)
Fixpoint stands_before (a b : activity) (l : list activity) : bool :=
  match l with
  | [] => false
  | x :: l => (bool_decide (x = a) && bool_decide (b ∈ l)) || stands_before a b l
  end.

Lemma stands_before_app a b l1 l2 : a ∈ l1 -> b ∈ l2 -> stands_before a b (l1 ++ l2) = true.
Proof.
  intros Ha Hb. induction l1 as [|x l1 IH]; [by apply elem_of_nil in Ha|]. simpl.
  apply elem_of_cons in Ha as [->|Ha]; [|by rewrite IH, orb_true_r].
  rewrite !bool_decide_true by (done || set_solver). done.
Qed.

(** Each activity of [l] is told only after those before it have ended. *)
Definition told_in_order (l : list activity) (s : app) : Prop :=
  forall l1 b l2 a, l = l1 ++ b :: l2 -> a ∈ l1 -> b ∈ ap_cancelled s -> a ∉ ap_active s.

(** No activity of [l] is started before one that follows it there. *)
Fixpoint started_in_reverse (l started : list activity) : bool :=
  match l with
  | [] => true
  | a :: l => negb (bool_decide (a = MetricsServer)) && negb (bool_decide (a ∈ l)) &&
              forallb (λ b, negb (stands_before a b started)) l && started_in_reverse l started
  end.

Lemma started_in_reverse_at l1 b l2 a started :
  started_in_reverse (l1 ++ b :: l2) started = true -> a ∈ l1 ->
  a <> MetricsServer /\ a <> b /\ stands_before a b started = false.
Proof.
  induction l1 as [|x l1 IH]; [by intros _ ?%elem_of_nil|]. cbn [Datatypes.app started_in_reverse].
  rewrite !andb_true_iff, !negb_true_iff, !bool_decide_eq_false, forallb_forall.
  intros (((H1 & H2) & H3) & H4) [->|Ha]%elem_of_cons; [|by apply IH]. split_and!; [done|set_solver|].
  apply negb_true_iff, H3, list_elem_of_In. set_solver.
Qed.

(** Every hook starts at most one activity. *)
Definition single (h : hook) : Prop := length (hk_spawns h) <= 1.

#[export] Instance single_dec h : Decision (single h).
Proof. unfold single. apply _. Defined.

Lemma sound_in_order uses hooks l s :
  started_in_reverse l (acts_of hooks) = true -> Forall single hooks ->
  sound uses hooks s -> telling hooks s -> told_in_order l s.
Proof.
  intros Hl Hone (tail & Hh & Hm) (Ht & Hc) l1 b l2 a -> Ha Hb Hact.
  destruct (started_in_reverse_at _ _ _ _ _ Hl Ha) as (Hmet & Hab & Hbef).
  assert (Hq : quiet uses s tail).
  { destruct (ap_mode s); [|rewrite Ht in Hb; by apply elem_of_nil in Hb|by destruct Hm|by destruct Hm].
    rewrite Ht in Hb. by apply elem_of_nil in Hb. }
  specialize (Hc tail Hh b Hb). apply not_true_iff_false in Hbef. apply Hbef.
  assert (Hacts : acts_of hooks = acts_of (rev (ap_started s)) ++ acts_of tail)
    by (rewrite Hh at 1; unfold acts_of; by rewrite bind_app).
  rewrite Hacts. destruct Hq as [_ Hq]. destruct (Hq a Hact Hmet) as [Has|Hhd].
  - apply stands_before_app; [by rewrite acts_rev|done].
  - destruct tail as [|h tail]; [by apply elem_of_nil in Hhd|]. simpl in Hhd.
    apply acts_cons in Hc as [Hc|Hc].
    + assert (Hs : single h) by (rewrite Forall_forall in Hone; apply Hone; rewrite Hh; set_solver).
      unfold single in Hs. destruct (hk_spawns h) as [|x [|y rest]]; simpl in Hs; [by apply elem_of_nil in Hhd| |lia].
      apply list_elem_of_singleton in Hhd, Hc. by subst.
    + unfold acts_of at 2. cbn. rewrite app_assoc. apply stands_before_app; [set_solver|done].
Qed.

(** ** Every run ends *)

Section Termination.
Variable hooks_after_expiry : bool.

Definition instr_work (i : stop_instr) : nat := match i with PGrace _ => 2 | _ => 1 end.
Definition total {A} (f : A -> nat) (l : list A) : nat := foldr (λ x n, f x + n) 0 l.
Definition stop_work (h : hook) : nat := 1 + total instr_work (hk_OnStop h).

Definition mode_work (m : mode) : nat :=
  match m with
  | Starting rest h todo =>
      3 + 2 * length rest + stop_work h + total (λ h, 1 + 2 * length (hk_OnStart h) + stop_work h) todo
  | Up => 2
  | Stopping rest => 1 + total instr_work rest
  | Down => 0
  end.

(** What a run still has to do at most. *)
Definition work (s : app) : nat :=
  mode_work (ap_mode s) + total stop_work (ap_started s) + length (ap_active s) + (if ap_expired s then 0 else 1).

Lemma step_work s s' : step hooks_after_expiry s s' -> work s' < work s.
Proof.
  unfold work. intros Hstep.
  step_cases Hstep; rewrite ?Hmo; cbn [ap_mode ap_started ap_active ap_closed ap_expired to_mode mode_work];
    try (simpl; lia).
  - pose proof (length_filter_lt (.≠ a) (ap_active s) a Ha (λ H, H eq_refl)). lia.
  - unfold start_next. destruct todo as [|h' todo]; cbn [mode_work]; unfold total, stop_work; cbn [foldr length]; lia.
  - rewrite He. lia.
  - rewrite Hst. simpl. unfold stop_work. lia.
Qed.

Lemma runs_finite s : Acc (λ s' s, step hooks_after_expiry s s') s.
Proof.
  remember (work s) as n eqn:Hn. revert s Hn. induction (lt_wf n) as [n _ IH]. intros s ->.
  constructor. intros s' Hs%step_work. by apply (IH (work s')).
Qed.
End Termination.

(** ** What a stop can rely on *)

(** A step that the service takes by itself: no activity is hoped to end that
    was not told to; nothing is closed, and nothing waits to be closed, under
    an activity that still uses it; and only a graceful stop of the server,
    which streams may hold up, counts on the stop's deadline. *)
Record dependable (uses : activity -> list resource) (s s' : app) : Prop := {
  dp_told a : a ∈ ap_active s -> a ∉ ap_active s' -> a ∈ ap_cancelled s;
  dp_close r a : r ∈ ap_closed s' -> r ∉ ap_closed s -> a ∈ ap_active s -> r ∉ uses a;
  dp_deadline : ap_expired s = false -> ap_expired s' = true ->
    exists a rest, ap_mode s = Stopping (PGrace a :: rest)
}.

Section Dependable.
Variables (uses : activity -> list resource) (hooks : list hook).
Hypothesis Hok : order_ok uses [] hooks = true.
Hypothesis Hmet : uses MetricsServer = [].

Lemma dependable_quiet s s' :
  (forall a, a ∈ ap_active s -> a ∈ ap_active s') -> ap_closed s' = ap_closed s -> ap_expired s' = ap_expired s ->
  dependable uses s s'.
Proof. intros Ha Hc He. split; [intros a H1 H2; by destruct H2; auto|by rewrite Hc|congruence]. Qed.

Definition goes_on (s : app) : Prop := exists s', step false s s' /\ dependable uses s s'.

Lemma told_goes_on s a : a ∈ ap_active s -> a ∈ ap_cancelled s -> goes_on s.
Proof.
  intros Ha Ht. eexists. split; [by eapply step_finish|]. split; cbn; [|done|congruence].
  intros b Hb Hn. destruct (decide (b = a)) as [->|]; [done|]. destruct Hn. by apply list_elem_of_filter.
Qed.

Ltac by_itself lem := eexists; split; [eapply lem; eauto|apply dependable_quiet; cbn; auto; set_solver].

Lemma stop_goes_on s rest : sound uses hooks s -> telling hooks s -> ap_mode s = Stopping rest -> goes_on s.
Proof.
  intros (tail & Hh & Hm) [Ht _] Hmo. rewrite Hmo in Hm, Ht. destruct Hm as ((_ & Hq) & Hr & _). destruct Ht as [Ht _].
  destruct rest as [|[a|a|a|r|a|a] rest]; simpl in Ht; rewrite ?andb_true_iff, ?bool_decide_eq_true in Ht.
  - destruct (ap_started s) as [|h started] eqn:Es; [by_itself step_down|].
    destruct (ap_expired s) eqn:Ee; [by_itself step_down|by_itself step_next_hook].
  - by_itself step_cancel.
  - destruct (decide (a ∈ ap_active s)); [eapply told_goes_on; [done|apply Ht]|by_itself step_wait].
  - by_itself step_drain.
  - destruct (decide (Forall (.∉ ap_active s) (joins r))) as [Hj|Hj].
    + eexists. split; [by eapply step_close|]. split; cbn; [done| |congruence].
      intros r' a [->|?]%elem_of_cons Hn Ha; [|done]. destruct (decide (a = MetricsServer)) as [->|Hne].
      * rewrite Hmet. apply not_elem_of_nil.
      * eapply close_quiet; [done|done|done|by apply Hq].
    + apply not_Forall_Exists in Hj; [|apply _]. apply Exists_exists in Hj as (a & Hin & Ha).
      apply dec_stable in Ha. eapply told_goes_on; [done|]. destruct Ht as [Ht _]. rewrite forallb_forall in Ht.
      apply (bool_decide_eq_true_1 _ (Ht a (proj1 (list_elem_of_In _ _) Hin))).
  - destruct (decide (a ∈ ap_active s)); [|by_itself step_grace].
    destruct (ap_expired s) eqn:Ee; [by_itself step_grace_expires|].
    eexists. split; [by eapply step_expire|]. split; cbn; [done|done|]. intros _ _. by exists a, rest.
  - destruct (decide (a ∈ ap_active s)); [eapply told_goes_on; [done|apply Ht]|by_itself step_join].
Qed.

Lemma always_goes_on s :
  sound uses hooks s -> telling hooks s -> ap_mode s <> Up -> ap_mode s <> Down -> goes_on s.
Proof.
  intros Hs Ht Hup Hdown. destruct (ap_mode s) as [[|[|a] rest] h todo| |rest|] eqn:E; [..|done|by eapply stop_goes_on|done].
  - by_itself step_started.
  - by_itself step_check.
  - by_itself step_go.
Qed.
End Dependable.

(** ** The two services *)

(** Each hook list is well ordered, waits only for whom it told, and starts the
    activities of a hook one at a time. *)
Definition hooks_fit (uses : activity -> list resource) (hooks : list hook) : Prop :=
  order_ok uses [] hooks = true /\ Forall hook_prompt hooks /\ Forall single hooks.

#[export] Instance hooks_fit_dec uses hooks : Decision (hooks_fit uses hooks).
Proof. unfold hooks_fit. apply _. Defined.

Lemma order_hooks_fit : hooks_fit Order.uses Order.hooks.
Proof. apply (bool_decide_unpack _). vm_compute. exact I. Qed.

Lemma spot_hooks_fit : hooks_fit Spot.uses Spot.hooks.
Proof. apply (bool_decide_unpack _). vm_compute. exact I. Qed.

Lemma fit_reachable uses hooks s :
  hooks_fit uses hooks -> rtc (step false) (launch hooks) s -> sound uses hooks s /\ telling hooks s.
Proof. intros (Hok & Hp & _) Hs. by eapply telling_reachable. Qed.

Lemma fit_safe uses hooks s a r :
  hooks_fit uses hooks -> uses MetricsServer = [] -> rtc (step false) (launch hooks) s ->
  a ∈ ap_active s -> r ∈ uses a -> r ∉ ap_closed s.
Proof. intros Hf Hmet Hs. destruct (fit_reachable _ _ _ Hf Hs) as [Hsd _]. by eapply sound_safe. Qed.

Lemma fit_in_order uses hooks l s :
  hooks_fit uses hooks -> started_in_reverse l (acts_of hooks) = true -> rtc (step false) (launch hooks) s ->
  told_in_order l s.
Proof.
  intros Hf Hl Hs. destruct (fit_reachable _ _ _ Hf Hs) as [Hsd Ht]. by eapply sound_in_order; [|apply Hf|..].
Qed.

(** What the end of a run can rely on: runs are finite; a service that is
    neither up nor down can go on by itself; and one that went down in time has
    only its metrics server left. *)
Record ends (uses : activity -> list resource) (s : app) : Prop := {
  en_finite : Acc (λ s' s, step false s s') s;
  en_goes_on : ap_mode s <> Up -> ap_mode s <> Down -> exists s', step false s s' /\ dependable uses s s';
  en_down a : ap_mode s = Down -> ap_expired s = false -> a ∈ ap_active s -> a = MetricsServer
}.

Lemma fit_ends uses hooks s :
  hooks_fit uses hooks -> uses MetricsServer = [] -> rtc (step false) (launch hooks) s -> ends uses s.
Proof.
  intros Hf Hmet Hs. destruct (fit_reachable _ _ _ Hf Hs) as [Hsd Ht]. pose proof (proj1 Hf) as Hok.
  split; [apply runs_finite|by eapply always_goes_on|intros a; by eapply sound_down].
Qed.

(** In no run of either service, whatever fails at its start, whichever of its
    activities ends early and however long its stop takes, does an activity
    that still runs need a resource that was closed.  This needs that the
    remaining hooks are left out once the deadline of a stop has passed. *)
Theorem shutdown_safe hooks_after_expiry s a r :
  hooks_after_expiry = false ->
  (rtc (step hooks_after_expiry) (launch Order.hooks) s -> a ∈ ap_active s -> r ∈ Order.uses a -> r ∉ ap_closed s) /\
  (rtc (step hooks_after_expiry) (launch Spot.hooks) s -> a ∈ ap_active s -> r ∈ Spot.uses a -> r ∉ ap_closed s).
Proof. intros ->. split; intros Hs; eapply fit_safe; [apply order_hooks_fit|..|apply spot_hooks_fit| |]; done. Qed.

(** C27 Every start and every stop of either service comes to an end by what the
    hooks do: no run goes on for ever, and wherever it is before it is up or
    down there is a step to take that waits for no activity that was not told
    to end, closes nothing that an activity still uses, and lets the stop's
    deadline pass only when it is the graceful stop of the gRPC server that
    takes long.  (What is left to the activities is that each ends after it was
    told to: after the deadline of a graceful stop this is a wait without one.)
    A service that went down in time has no activity left but the metrics
    server.  Remaining hooks are taken to be left out after the deadline. *)
Theorem shutdown_ends hooks_after_expiry s :
  hooks_after_expiry = false ->
  (rtc (step hooks_after_expiry) (launch Order.hooks) s -> ends Order.uses s) /\
  (rtc (step hooks_after_expiry) (launch Spot.hooks) s -> ends Spot.uses s).
Proof.
  intros ->. split; intros Hs; [by apply (fit_ends _ _ _ order_hooks_fit)|by apply (fit_ends _ _ _ spot_hooks_fit)].
Qed.

(** ** Closed instances *)

Ltac run_side :=
  first [reflexivity | by left | by right | apply (bool_decide_unpack _); vm_compute; exact I].
Ltac run_step lem := eapply rtc_l; [eapply lem; run_side|cbn].
Ltac run_start :=
  unfold launch; cbn;
  repeat (first [run_step step_check | run_step step_go | run_step step_started]).
Ltac run_finish a := eapply rtc_l; [eapply (step_finish _ a); run_side|cbn].

(** The order service up to its outbox worker. *)
Definition demo_starting : app := {|
  ap_mode := Starting [] Order.registerOutboxWorker
    [Order.registerKafkaConsumer; Order.registerReadiness; Order.provideOrderService; Order.provideListener;
     Order.startGRPCServer];
  ap_started := [Order.registerKafkaProducer; Order.registerMetrics; Order.registerTracing; Order.registerInfrastructure;
    Order.provideLogger];
  ap_active := [OutboxWorker; MetricsServer]; ap_cancelled := []; ap_closed := []; ap_expired := false |}.

Lemma demo_starting_reached : rtc (step false) (launch Order.hooks) demo_starting.
Proof.
  unfold launch. cbn. run_step step_started. run_step step_started. run_step step_check. run_step step_started.
  run_step step_check. run_step step_go. run_step step_started. run_step step_started. run_step step_go.
  apply rtc_refl.
Qed.

Lemma shutdown_safe_witness : KafkaProducer ∉ ap_closed demo_starting.
Proof.
  refine (proj1 (shutdown_safe false demo_starting OutboxWorker KafkaProducer eq_refl) demo_starting_reached _ _).
  - by left.
  - right. right. by left.
Defined.

(** Were hooks run after the deadline, jobs that are still worked off would
    meet a closed Redis client. *)
Example demo_late_hooks : exists s, rtc (step true) (launch Order.hooks) s /\
  BlockWorkers ∈ ap_active s /\ RedisClient ∈ Order.uses BlockWorkers /\ RedisClient ∈ ap_closed s.
Proof.
  eexists. split.
  - run_start. run_step step_signal. run_step step_next_hook. run_finish GRPCServer. run_step step_grace.
    run_step step_next_hook. run_step step_close. run_step step_next_hook. run_step step_cancel.
    run_step step_expire. run_step step_wait_expires. run_step step_next_hook. run_step step_cancel.
    run_step step_wait_expires. run_step step_next_hook. run_step step_cancel. run_finish MarketConsumer.
    run_step step_close. run_step step_wait. run_step step_next_hook. run_step step_cancel. run_step step_wait_expires.
    run_step step_next_hook. run_step step_close. run_step step_next_hook. run_step step_drain.
    run_step step_next_hook. run_step step_close. run_step step_next_hook. run_step step_close. run_step step_close.
    apply rtc_refl.
  - cbn. split_and!; set_solver.
Qed.

(** A service that found a dependency missing goes down again; its metrics
    server took longer than it was given. *)
Definition demo_failed : app := {|
  ap_mode := Down; ap_started := []; ap_active := [MetricsServer]; ap_cancelled := [OutboxWorker; MarketConsumer];
  ap_closed := [SpotConnection; RedisClient; PostgresPool; Tracer; KafkaProducer; ConsumerGroup]; ap_expired := false |}.

Lemma demo_failed_reached : rtc (step false) (launch Order.hooks) demo_failed.
Proof.
  unfold launch. cbn. run_step step_started. run_step step_started. run_step step_check. run_step step_started.
  run_step step_check. run_step step_go. run_step step_started. run_step step_started. run_step step_go.
  run_step step_started. run_step step_go. run_step step_started. run_step step_check_fails.
  run_step step_next_hook. run_step step_cancel. run_finish MarketConsumer. run_step step_close. run_step step_wait.
  run_step step_next_hook. run_step step_cancel. run_finish OutboxWorker. run_step step_wait.
  run_step step_next_hook. run_step step_close. run_step step_next_hook. run_step step_drain.
  run_step step_next_hook. run_step step_close. run_step step_next_hook.
  run_step step_close. run_step step_close. run_step step_close. run_step step_next_hook. run_step step_down. apply rtc_refl.
Qed.

(** The graceful stop of a server whose streams outlast the deadline: the hook
    waits on, for a server that was cut off. *)
Definition demo_cut_off : app := {|
  ap_mode := Stopping [PJoin GRPCServer];
  ap_started := [Spot.provideListener; Spot.registerReadiness; Spot.registerMarketPoller; Spot.registerOutboxWorker;
    Spot.registerKafkaProducer; Spot.registerMetrics; Spot.registerTracing; Spot.registerInfrastructure;
    Spot.provideLogger];
  ap_active := [GRPCServer; ReadinessWatch; MarketPoller; OutboxWorker; MetricsServer];
  ap_cancelled := [GRPCServer]; ap_closed := []; ap_expired := true |}.

Lemma demo_cut_off_reached : rtc (step false) (launch Spot.hooks) demo_cut_off.
Proof.
  run_start. run_step step_signal. run_step step_next_hook. run_step step_expire. run_step step_grace_expires.
  apply rtc_refl.
Qed.

Lemma shutdown_ends_witness :
  (exists s', step false demo_cut_off s' /\ dependable Spot.uses demo_cut_off s') /\
  (forall a, a ∈ ap_active demo_failed -> a = MetricsServer).
Proof.
  split.
  - exact (en_goes_on _ _ (proj2 (shutdown_ends false demo_cut_off eq_refl) demo_cut_off_reached)
      ltac:(discriminate) ltac:(discriminate)).
  - intros a. exact (en_down _ _ (proj1 (shutdown_ends false demo_failed eq_refl) demo_failed_reached) a eq_refl eq_refl).
Defined.
