(* ===== verification/Injection.v ===== *)
(** * Putting the services together
      (application/order_app.go, spot_instrument_app.go; the fx.Provide and
       fx.Invoke lists and the signatures of the constructors in
       infra_providers.go, service_providers.go, grpc_providers.go and
       lifecycle.go of both services)

    A service is a list of constructors and a list of invocations; the
    container builds what the invocations need.  Of go.uber.org/fx the model
    takes what it documents: the invocations run in their order; before one
    runs, each type it needs directly or through others is built; a
    constructor runs at most once, after its arguments are there, and only when
    something needs it; the first constructor that fails ends the start.  In
    which order constructors run that do not need each other is left open.

    The theorems: each service can always be assembled, with every constructor
    run once; the hooks its parts append come in one of two orders; and under
    both, what the activities of [Lifecycle] reach through their arguments is
    closed only after they have ended, and each part of a service is told to
    stop only after those that rely on it have ended. *)

From S2P Require Import Prelude Lifecycle.

(** ** The container *)

Section Container.
Context {T : Type} `{!EqDecision T}.

(** A constructor: its parameters, its result, the hooks it appends, and
    whether it returns an error besides. *)
Record provider := { pv_In : list T; pv_Out : T; pv_Append : list hook; pv_Fallible : bool }.

Record invocation := { iv_In : list T; iv_Append : list hook }.

(** What fx.New is given: fx.Supply, fx.Provide and fx.Invoke. *)
Record fx_app := { fx_Supply : list T; fx_Provide : list provider; fx_Invoke : list invocation }.

(** fx.Options. *)
Definition Options (l : list fx_app) : fx_app := {|
  fx_Supply := l ≫= fx_Supply; fx_Provide := l ≫= fx_Provide; fx_Invoke := l ≫= fx_Invoke |}.

Variable app : fx_app.

(** What building some types takes. *)
Inductive needed (roots : list T) : T -> Prop :=
| needed_root t : t ∈ roots -> needed roots t
| needed_param c t : c ∈ fx_Provide app -> needed roots (pv_Out c) -> t ∈ pv_In c -> needed roots t.

Record container := {
  fc_Built : list T; fc_Hooks : list hook; fc_Todo : list invocation; fc_Failed : bool }.

Definition fx_New : container := {|
  fc_Built := fx_Supply app; fc_Hooks := []; fc_Todo := fx_Invoke app; fc_Failed := false |}.

(** The constructor of [c] can run next for the invocation [i]. *)
Definition callable (i : invocation) (c : provider) (built : list T) : Prop :=
  c ∈ fx_Provide app /\ needed (iv_In i) (pv_Out c) /\ pv_Out c ∉ built /\ pv_In c ⊆ built.

Inductive build : container -> container -> Prop :=
| build_construct c i built hooks todo :
    callable i c built ->
    build {| fc_Built := built; fc_Hooks := hooks; fc_Todo := i :: todo; fc_Failed := false |}
          {| fc_Built := pv_Out c :: built; fc_Hooks := hooks ++ pv_Append c; fc_Todo := i :: todo; fc_Failed := false |}
| build_fail c i built hooks todo :
    callable i c built -> pv_Fallible c = true ->
    build {| fc_Built := built; fc_Hooks := hooks; fc_Todo := i :: todo; fc_Failed := false |}
          {| fc_Built := built; fc_Hooks := hooks; fc_Todo := i :: todo; fc_Failed := true |}
| build_invoke i built hooks todo :
    iv_In i ⊆ built ->
    build {| fc_Built := built; fc_Hooks := hooks; fc_Todo := i :: todo; fc_Failed := false |}
          {| fc_Built := built; fc_Hooks := hooks ++ iv_Append i; fc_Todo := todo; fc_Failed := false |}.

Definition complete (s : container) : Prop := fc_Todo s = [] /\ fc_Failed s = false.

(** ** What can be computed from an application *)

Definition find_provider (t : T) : option provider :=
  match filter (λ c, pv_Out c = t) (fx_Provide app) with c :: _ => Some c | [] => None end.

(** The types reached from [todo], with [seen] those found before. *)
Fixpoint closure_from (fuel : nat) (seen todo : list T) : list T :=
  match fuel, todo with
  | 0, _ | _, [] => seen
  | S fuel, t :: todo =>
      if bool_decide (t ∈ seen) then closure_from fuel seen todo
      else closure_from fuel (t :: seen) (match find_provider t with Some c => pv_In c | None => [] end ++ todo)
  end.

(** Every type is expanded once: the number of parameters of all constructors
    and of roots is enough fuel. *)
Definition closure (roots : list T) : list T :=
  closure_from (1 + length roots + length (fx_Provide app ≫= pv_In)) [] roots.

(** The length of the longest chain of constructors below a type. *)
Fixpoint depth (fuel : nat) (t : T) : nat :=
  match fuel with
  | 0 => 0
  | S fuel => match find_provider t with
              | None => 0
              | Some c => S (foldr (λ t, max (depth fuel t)) 0 (pv_In c))
              end
  end.

Definition outs : list T := map pv_Out (fx_Provide app).

Definition rank (t : T) : nat := depth (length outs) t.

Definition provided (t : T) : Prop := t ∈ fx_Supply app \/ t ∈ outs.

#[export] Instance provided_dec t : Decision (provided t).
Proof. unfold provided. apply _. Defined.

(** [l] holds the roots and, with a type, what its constructor needs. *)
Definition closed_under (roots l : list T) : Prop :=
  Forall (.∈ l) roots /\ Forall (λ c, pv_Out c ∈ l -> Forall (.∈ l) (pv_In c)) (fx_Provide app).

#[export] Instance closed_under_dec roots l : Decision (closed_under roots l).
Proof. unfold closed_under. apply _. Defined.

(** Nothing is provided twice, everything asked for is provided, and no
    constructor needs itself. *)
Record well_wired : Prop := {
  ww_once : NoDup (fx_Supply app ++ outs);
  ww_params : Forall (λ c, Forall provided (pv_In c)) (fx_Provide app);
  ww_roots : Forall (λ i, Forall provided (iv_In i)) (fx_Invoke app);
  ww_acyclic : Forall (λ c, Forall (λ t, rank t < rank (pv_Out c)) (pv_In c)) (fx_Provide app);
  ww_closed : Forall (λ i, closed_under (iv_In i) (closure (iv_In i))) (fx_Invoke app)
}.

#[export] Instance well_wired_dec : Decision well_wired.
Proof.
  destruct (decide (NoDup (fx_Supply app ++ outs) /\
    Forall (λ c, Forall provided (pv_In c)) (fx_Provide app) /\
    Forall (λ i, Forall provided (iv_In i)) (fx_Invoke app) /\
    Forall (λ c, Forall (λ t, rank t < rank (pv_Out c)) (pv_In c)) (fx_Provide app) /\
    Forall (λ i, closed_under (iv_In i) (closure (iv_In i))) (fx_Invoke app))) as [H|H]; [left|right].
  - abstract (constructor; tauto).
  - abstract (intros [? ? ? ? ?]; tauto).
Defined.

(** The hooks of a complete start: those of the constructors an invocation
    calls, in some order, and then its own. *)
Definition fresh (i : invocation) (before : list T) : list provider :=
  filter (λ c, pv_Out c ∈ closure (iv_In i) /\ pv_Out c ∉ before) (fx_Provide app).

Definition loud (l : list provider) : list provider := filter (λ c, pv_Append c <> []) l.

Fixpoint outcomes (before : list T) (todo : list invocation) : list (list hook) :=
  match todo with
  | [] => [[]]
  | i :: todo =>
      p ← permutations (loud (fresh i before));
      rest ← outcomes (map pv_Out (fresh i before) ++ before) todo;
      [(p ≫= pv_Append) ++ iv_Append i ++ rest]
  end.

(** One way to start: of the constructors that can run, the first that was
    provided. *)
Definition next_call (i : invocation) (built : list T) : option provider :=
  head (filter (λ c, pv_Out c ∈ closure (iv_In i) /\ pv_Out c ∉ built /\ Forall (.∈ built) (pv_In c)) (fx_Provide app)).

Fixpoint start (fuel : nat) (built : list T) (hooks : list hook) (todo : list invocation) : container :=
  let s := {| fc_Built := built; fc_Hooks := hooks; fc_Todo := todo; fc_Failed := false |} in
  match fuel, todo with
  | 0, _ | _, [] => s
  | S fuel, i :: todo' =>
      if bool_decide (Forall (.∈ built) (iv_In i)) then start fuel built (hooks ++ iv_Append i) todo'
      else match next_call i built with
           | Some c => start fuel (pv_Out c :: built) (hooks ++ pv_Append c) todo
           | None => s
           end
  end.

Definition start_all : container :=
  start (length outs + length (fx_Invoke app)) (fx_Supply app) [] (fx_Invoke app).

(** ** Lemmas about the container *)

Hypothesis Hww : well_wired.

Lemma outs_unique c1 c2 :
  c1 ∈ fx_Provide app -> c2 ∈ fx_Provide app -> pv_Out c1 = pv_Out c2 -> c1 = c2.
Proof.
  pose proof (ww_once Hww) as Hn. apply NoDup_app in Hn as (_ & _ & Hn). unfold outs in Hn.
  revert Hn. generalize (fx_Provide app). induction l as [|c l IH]; simpl; intros Hn; [set_solver|].
  apply NoDup_cons in Hn as [Hc Hn]. rewrite !elem_of_cons. intros [-> |H1] [-> |H2] He; [done| | |by apply IH].
  - destruct Hc. rewrite He. by apply (list_elem_of_fmap_2 pv_Out).
  - destruct Hc. rewrite <- He. by apply (list_elem_of_fmap_2 pv_Out).
Qed.

Lemma supply_no_out c : c ∈ fx_Provide app -> pv_Out c ∉ fx_Supply app.
Proof.
  intros Hc Hs. pose proof (ww_once Hww) as Hn. apply NoDup_app in Hn as (_ & Hn & _).
  apply (Hn _ Hs). unfold outs. by apply (list_elem_of_fmap_2 pv_Out).
Qed.

Lemma closure_from_sound roots fuel seen todo t :
  Forall (needed roots) seen -> Forall (needed roots) todo ->
  t ∈ closure_from fuel seen todo -> needed roots t.
Proof.
  revert seen todo. induction fuel as [|fuel IH]; intros seen [|u todo] Hs Ht; cbn;
    try (intros H; by eapply Forall_forall in H).
  inversion_clear Ht as [|? ? Hu Ht']. case_bool_decide; [by apply IH|]. apply IH; [by constructor|].
  apply Forall_app. split; [|done]. unfold find_provider.
  destruct (filter _ _) as [|c l] eqn:Ef; [constructor|].
  assert (Hc : c ∈ filter (λ c, pv_Out c = u) (fx_Provide app)) by (rewrite Ef; by left).
  apply list_elem_of_filter in Hc as [<- Hc]. apply Forall_forall. intros v Hv. by eapply needed_param.
Qed.

(** The computed closure is what is needed. *)
Lemma closure_spec i t : i ∈ fx_Invoke app -> t ∈ closure (iv_In i) <-> needed (iv_In i) t.
Proof.
  intros Hi. pose proof (ww_closed Hww) as Hc. rewrite Forall_forall in Hc. destruct (Hc i Hi) as [Hr Hp].
  rewrite Forall_forall in Hr. rewrite Forall_forall in Hp. split.
  - apply closure_from_sound; [constructor|]. apply Forall_forall. apply needed_root.
  - induction 1 as [t Ht|c t Hc' _ IH Ht]; [auto|]. specialize (Hp c Hc' IH). rewrite Forall_forall in Hp. auto.
Qed.

Lemma needed_provided i t : i ∈ fx_Invoke app -> needed (iv_In i) t -> provided t.
Proof.
  intros Hi [u Hu|c u Hc _ Hu].
  - pose proof (ww_roots Hww) as H. rewrite Forall_forall in H. specialize (H i Hi). rewrite Forall_forall in H. auto.
  - pose proof (ww_params Hww) as H. rewrite Forall_forall in H. specialize (H c Hc). rewrite Forall_forall in H. auto.
Qed.

(** A missing type has a constructor below it that can run. *)
Lemma callable_below i t built :
  i ∈ fx_Invoke app -> fx_Supply app ⊆ built -> needed (iv_In i) t -> t ∉ built ->
  exists c, callable i c built.
Proof.
  intros Hi Hs. remember (rank t) as n eqn:Hn. revert t Hn.
  induction (lt_wf n) as [n _ IH]. intros t -> Ht Hb.
  destruct (needed_provided i t Hi Ht) as [H|H]; [set_solver|].
  apply list_elem_of_fmap in H as (c & -> & Hc).
  destruct (decide (Forall (.∈ built) (pv_In c))) as [H|H].
  - exists c. split_and!; [done|done|done|]. intros u Hu. rewrite Forall_forall in H. auto.
  - apply not_Forall_Exists in H; [|apply _]. apply Exists_exists in H as (u & Hu & Hub).
    pose proof (ww_acyclic Hww) as Ha. rewrite Forall_forall in Ha. specialize (Ha c Hc).
    rewrite Forall_forall in Ha. eapply (IH _ (Ha u Hu) u); [done| |done]. by eapply needed_param.
Qed.

(** ** Runs of the container *)

(** What is built is closed under parameters, and everything is built once. *)
Record good (s : container) : Prop := {
  gd_todo : exists ran, fx_Invoke app = ran ++ fc_Todo s /\ forall i, i ∈ ran -> iv_In i ⊆ fc_Built s;
  gd_supply : fx_Supply app ⊆ fc_Built s;
  gd_closed : forall c, c ∈ fx_Provide app -> pv_Out c ∈ fc_Built s -> pv_In c ⊆ fc_Built s;
  gd_once : NoDup (fc_Built s);
  gd_only : forall t, t ∈ fc_Built s -> provided t
}.

Lemma good_New : good fx_New.
Proof.
  constructor; simpl.
  - exists []. split; [done|]. intros i Hi. by apply elem_of_nil in Hi.
  - done.
  - intros c Hc Hs. by apply supply_no_out in Hc.
  - pose proof (ww_once Hww) as Hn. by apply NoDup_app in Hn as (? & _).
  - by left.
Qed.

Lemma good_build s s' : build s s' -> good s -> good s'.
Proof.
  intros [c i built hooks todo (Hc & _ & Hb & Hp)|c i built hooks todo _ _|i built hooks todo Hi]
    [(ran & Hran & Hr) Hs Hcl Ho Hon]; constructor; simpl in *; try done.
  - exists ran. split; [done|]. intros j Hj. specialize (Hr j Hj). set_solver.
  - set_solver.
  - intros c' Hc' [He|He]%elem_of_cons.
    + apply outs_unique in He as ->; [set_solver|done..].
    + specialize (Hcl c' Hc' He). set_solver.
  - by constructor.
  - intros t [->|Ht]%elem_of_cons; [right; by apply (list_elem_of_fmap_2 pv_Out)|auto].
  - by exists ran.
  - exists (ran ++ [i]). split; [by rewrite <- app_assoc|]. intros j [Hj|Hj]%elem_of_app; [auto|set_solver].
Qed.

Lemma good_run s s' : rtc build s s' -> good s -> good s'.
Proof. induction 1; [done|]. eauto using good_build. Qed.

(** A start that is not over can go on. *)
Lemma build_progress s :
  good s -> fc_Todo s <> [] -> fc_Failed s = false -> exists s', build s s' /\ fc_Failed s' = false.
Proof.
  destruct s as [built hooks [|i todo] []]; simpl; try done. intros [(ran & Hran & _) Hs _ _ _] _ _. simpl in *.
  assert (Hi : i ∈ fx_Invoke app) by (rewrite Hran; set_solver).
  destruct (decide (Forall (.∈ built) (iv_In i))) as [H|H].
  - eexists. split; [apply build_invoke|done]. intros t Ht. rewrite Forall_forall in H. auto.
  - apply not_Forall_Exists in H; [|apply _]. apply Exists_exists in H as (t & Ht & Hb).
    destruct (callable_below i t built Hi Hs (needed_root _ t Ht) Hb) as [c Hc].
    eexists. split; [by apply build_construct|done].
Qed.

Definition to_build (s : container) : nat :=
  length (fc_Todo s) + length (filter (.∉ fc_Built s) outs) + (if fc_Failed s then 0 else 1).

Lemma build_decreases s s' : build s s' -> to_build s' < to_build s.
Proof.
  unfold to_build. intros [c i built hooks todo (Hc & _ & Hb & _)|c i built hooks todo _ _|i built hooks todo _];
    simpl; [|lia..].
  assert (Hlt : length (filter (.∉ pv_Out c :: built) outs) < length (filter (.∉ built) outs)); [|lia].
  assert (Ho : pv_Out c ∈ outs) by (by apply (list_elem_of_fmap_2 pv_Out)). revert Ho.
  assert (Hle : forall l, length (filter (.∉ pv_Out c :: built) l) <= length (filter (.∉ built) l)).
  { induction l as [|u l IH]; [done|]. rewrite !filter_cons. repeat case_decide; simpl; (lia || set_solver). }
  induction outs as [|u l IH]; [set_solver|]. rewrite !filter_cons. intros [<- |Hu]%elem_of_cons.
  - specialize (Hle l). repeat case_decide; simpl; (lia || set_solver).
  - specialize (IH Hu). repeat case_decide; simpl; (lia || set_solver).
Qed.

Lemma builds_finite s : Acc (λ s' s, build s s') s.
Proof.
  remember (to_build s) as n eqn:Hn. revert s Hn. induction (lt_wf n) as [n _ IH]. intros s ->.
  constructor. intros s' Hs%build_decreases. by apply (IH (to_build s')).
Qed.

(** ** The hooks of a run *)

Lemma loud_append l : l ≫= pv_Append = loud l ≫= pv_Append.
Proof.
  unfold loud. induction l as [|c l IH]; [done|]. rewrite filter_cons. cbn. case_decide as Hc; cbn.
  - by rewrite IH.
  - by rewrite Hc, IH.
Qed.

Lemma needed_built i built t :
  iv_In i ⊆ built -> (forall c, c ∈ fx_Provide app -> pv_Out c ∈ built -> pv_In c ⊆ built) ->
  needed (iv_In i) t -> t ∈ built.
Proof. intros Hi Hc. induction 1 as [t Ht|c t Hp _ IH Ht]; [auto|]. by eapply Hc. Qed.

Lemma fresh_NoDup i before : NoDup (fresh i before).
Proof.
  apply NoDup_filter. pose proof (ww_once Hww) as Hn. apply NoDup_app in Hn as (_ & _ & Hn).
  by eapply NoDup_fmap_1.
Qed.

(** The constructors [seq] that ran since [before] for the invocation [i]. *)
Record phase (i : invocation) (before built : list T) (seq : list provider) : Prop := {
  ph_seq : NoDup seq /\ seq ⊆ fresh i before;
  ph_built t : t ∈ built <-> t ∈ before \/ t ∈ map pv_Out seq
}.

Lemma phase_call i before built seq c :
  i ∈ fx_Invoke app -> phase i before built seq -> callable i c built ->
  phase i before (pv_Out c :: built) (seq ++ [c]).
Proof.
  intros Hi [[Hn Hs] Hb] (Hc & Hneed & Hnew & _). rewrite Hb in Hnew. constructor.
  - split.
    + apply NoDup_app. split_and!; [done| |apply NoDup_singleton]. intros c' Hc' ->%list_elem_of_singleton.
      apply Hnew. right. by apply (list_elem_of_fmap_2 pv_Out).
    + intros c' [Hc'| ->%list_elem_of_singleton]%elem_of_app; [auto|]. apply list_elem_of_filter.
      split_and!; [by apply closure_spec| |done]. tauto.
  - intros t. rewrite elem_of_cons, Hb, map_app, elem_of_app. simpl. rewrite list_elem_of_singleton. tauto.
Qed.

Lemma phase_over i before built seq :
  i ∈ fx_Invoke app -> phase i before built seq -> iv_In i ⊆ built ->
  (forall c, c ∈ fx_Provide app -> pv_Out c ∈ built -> pv_In c ⊆ built) -> seq ≡ₚ fresh i before.
Proof.
  intros Hi [[Hn Hs] Hb] Hr Hc. apply NoDup_Permutation; [done|apply fresh_NoDup|]. intros c. split; [apply Hs|].
  intros [[Hcl Hnew] Hp]%list_elem_of_filter. apply closure_spec in Hcl; [|done].
  apply (needed_built i built) in Hcl; [|done..]. apply Hb in Hcl as [?|Hcl]; [done|].
  apply list_elem_of_fmap in Hcl as (c' & He & Hc'). assert (Hp' := Hs c' Hc').
  apply list_elem_of_filter in Hp' as [_ Hp']. by rewrite (outs_unique c c').
Qed.

(** The invocation runs: the next phase starts from what is built. *)
Lemma phase_done i before built seq :
  i ∈ fx_Invoke app -> phase i before built seq -> iv_In i ⊆ built ->
  (forall c, c ∈ fx_Provide app -> pv_Out c ∈ built -> pv_In c ⊆ built) ->
  (seq ≫= pv_Append) ∈ (λ p, p ≫= pv_Append) <$> permutations (loud (fresh i before)) /\
  forall t, t ∈ built <-> t ∈ map pv_Out (fresh i before) ++ before.
Proof.
  intros Hi Hph Hr Hc. pose proof (phase_over i before built seq Hi Hph Hr Hc) as Hseq. split.
  - rewrite loud_append. apply (list_elem_of_fmap_2 (λ p, p ≫= pv_Append)), permutations_Permutation.
    unfold loud. by rewrite Hseq.
  - intros t. rewrite (ph_built _ _ _ _ Hph), elem_of_app. rewrite <- (fmap_Permutation pv_Out _ _ Hseq). tauto.
Qed.

Lemma phase_start i before built : (forall t, t ∈ built <-> t ∈ before) -> phase i before built [].
Proof.
  intros Hb. constructor.
  - split; [constructor|]. intros c Hc. by apply elem_of_nil in Hc.
  - intros t. rewrite Hb. simpl. rewrite elem_of_nil. tauto.
Qed.

Lemma elem_of_outcomes before i todo p rest :
  p ∈ (λ p, p ≫= pv_Append) <$> permutations (loud (fresh i before)) ->
  rest ∈ outcomes (map pv_Out (fresh i before) ++ before) todo ->
  p ++ iv_Append i ++ rest ∈ outcomes before (i :: todo).
Proof.
  intros (q & -> & Hq)%list_elem_of_fmap Hrest. cbn. apply list_elem_of_bind. exists q. split; [|done].
  apply list_elem_of_bind. exists rest. split; [|done]. by left.
Qed.

Lemma failed_over s s' : rtc build s s' -> fc_Failed s = true -> s' = s.
Proof. intros [|s1 s2 s3 [] _]; simpl; congruence. Qed.

(** Where [s] is in its run: which constructors the current invocation has
    called. *)
Definition in_phase (before : list T) (s : container) (seq : list provider) : Prop :=
  match fc_Todo s with [] => seq = [] | i :: _ => phase i before (fc_Built s) seq end.

Lemma run_hooks s s' before seq h :
  rtc build s s' -> good s -> complete s' -> in_phase before s seq -> fc_Hooks s = h ++ (seq ≫= pv_Append) ->
  exists l, l ∈ outcomes before (fc_Todo s) /\ fc_Hooks s' = h ++ l.
Proof.
  intros Hrun. revert before seq h. induction Hrun as [s|s s1 s' Hstep Hrun IH]; intros before seq h Hg Hc Hph Hh.
  - unfold in_phase in Hph. rewrite (proj1 Hc) in *. subst seq. exists []. split; [by left|done].
  - pose proof (good_build _ _ Hstep Hg) as Hg1. unfold in_phase in Hph.
    destruct Hg as [(ran & Hran & _) _ Hcl _ _].
    destruct Hstep as [c i built hooks todo Hcall|c i built hooks todo _ _|i built hooks todo Hi]; simpl in *; subst hooks.
    + apply (IH before (seq ++ [c])); [done|done| |by rewrite bind_app, <- app_assoc; cbn; rewrite app_nil_r].
      unfold in_phase. simpl. apply phase_call; [rewrite Hran; set_solver|done|done].
    + apply failed_over in Hrun as ->; [|done]. by destruct Hc.
    + assert (Hin : i ∈ fx_Invoke app) by (rewrite Hran; set_solver).
      destruct (phase_done i before built seq Hin Hph Hi Hcl) as [Hp Hb].
      destruct (IH (map pv_Out (fresh i before) ++ before) [] (h ++ (seq ≫= pv_Append) ++ iv_Append i))
        as (l & Hl & ->); [done|done| |by cbn; rewrite app_nil_r, <- app_assoc|].
      * unfold in_phase. simpl. destruct todo; [done|]. by apply phase_start.
      * exists ((seq ≫= pv_Append) ++ iv_Append i ++ l). split; [by apply elem_of_outcomes|by rewrite <- !app_assoc].
Qed.

(** The hooks of a complete start are among the outcomes. *)
Lemma complete_hooks s : rtc build fx_New s -> complete s -> fc_Hooks s ∈ outcomes (fx_Supply app) (fx_Invoke app).
Proof.
  intros Hrun Hc. destruct (run_hooks fx_New s (fx_Supply app) [] [] Hrun good_New Hc) as (l & Hl & ->); [|done|done].
  unfold in_phase. simpl. destruct (fx_Invoke app); [done|]. by apply phase_start.
Qed.

Lemma start_build fuel built hooks todo :
  todo ⊆ fx_Invoke app ->
  rtc build {| fc_Built := built; fc_Hooks := hooks; fc_Todo := todo; fc_Failed := false |} (start fuel built hooks todo).
Proof.
  revert built hooks todo. induction fuel as [|fuel IH]; intros built hooks [|i todo] Hi; cbn [start]; try done.
  case_bool_decide as Hr.
  - eapply rtc_l; [apply build_invoke|apply IH; set_solver]. intros t Ht. rewrite Forall_forall in Hr. auto.
  - destruct (next_call i built) as [c|] eqn:Ec; [|done]. apply head_Some_elem_of in Ec.
    apply list_elem_of_filter in Ec as ((Hc & Hb & Hp) & Hin). rewrite Forall_forall in Hp.
    eapply rtc_l; [apply (build_construct c)|by apply IH]. split_and!; [done| |done|done].
    apply closure_spec; [set_solver|done].
Qed.

Lemma start_all_build : rtc build fx_New start_all.
Proof. by apply start_build. Qed.

(** Every constructor that something needs was called. *)
Lemma complete_built s :
  Forall (λ t, Exists (λ i, t ∈ closure (iv_In i)) (fx_Invoke app)) outs ->
  rtc build fx_New s -> complete s -> fc_Built s ≡ₚ fx_Supply app ++ outs.
Proof.
  intros Hall Hrun [Ht _]. destruct (good_run _ _ Hrun good_New) as [(ran & Hran & Hr) Hs Hc Hn Ho].
  rewrite Ht, app_nil_r in Hran. apply NoDup_Permutation; [done|by apply ww_once|].
  intros t. rewrite elem_of_app. split; [apply Ho|]. intros [H|H]; [auto|].
  rewrite Forall_forall in Hall. specialize (Hall t H). apply Exists_exists in Hall as (i & Hi & Hcl).
  apply closure_spec in Hcl; [|done]. eapply needed_built; [|done|done]. apply Hr. by rewrite <- Hran.
Qed.

(** When no constructor fails, the start completes. *)
Lemma completes_from s : good s -> fc_Failed s = false -> exists s', rtc build s s' /\ complete s'.
Proof.
  induction (builds_finite s) as [s _ IH]. intros Hg Hf.
  destruct (decide (fc_Todo s = [])) as [Ht|Ht]; [by exists s|].
  destruct (build_progress s Hg Ht Hf) as (s1 & Hs1 & Hf1).
  destruct (IH s1 Hs1 (good_build _ _ Hs1 Hg) Hf1) as (s' & Hs' & Hc). exists s'. split; [by eapply rtc_l|done].
Qed.

(** What holds of every start of an application: it comes to an end; it is
    stopped only by a constructor that fails; it can complete; and a complete
    one has built each type once and appended one of the given lists. *)
Definition assembled (lists : list (list hook)) : Prop :=
  (forall s, Acc (λ s' s, build s s') s) /\
  (forall s, rtc build fx_New s -> fc_Failed s = false -> fc_Todo s <> [] ->
    exists s', build s s' /\ fc_Failed s' = false) /\
  (exists s, rtc build fx_New s /\ complete s) /\
  (forall s, rtc build fx_New s -> complete s ->
    fc_Built s ≡ₚ fx_Supply app ++ outs /\ fc_Hooks s ∈ lists).

Lemma well_wired_assembled :
  Forall (λ t, Exists (λ i, t ∈ closure (iv_In i)) (fx_Invoke app)) outs ->
  assembled (outcomes (fx_Supply app) (fx_Invoke app)).
Proof.
  intros Hall. split_and!.
  - apply builds_finite.
  - intros s Hrun Hf Ht. apply build_progress; [|done|done]. eapply good_run; [done|apply good_New].
  - apply completes_from; [apply good_New|done].
  - intros s Hrun Hc. split; [by apply complete_built|by apply complete_hooks].
Qed.
End Container.

Arguments provider : clear implicits.
Arguments invocation : clear implicits.
Arguments fx_app : clear implicits.
Arguments container : clear implicits.

(** ** The types of the two services *)

Inductive ty :=
(* given: by fx.Supply, and fx's own *)
| TAppCtx | TConfig | TLifecycle
(* infrastructure *)
| TLogger | TPool | TRedisClient | TCacheStore | TAsyncProducer | TConsumerGroup
| TOrderStore | TOutboxStore | TInboxStore | TBlockStore
| TMarketStore | TCursorStore | TMarketCacheRepository | TMarketByIDCacheRepository
(* services *)
| TRateLimiters | TJWTManager | TRefreshTokenStore | TSessionStore | TAuthService | TKafkaClient | TEventPublisher
| TDLQPublisher | TEventProducer | TOutboxWorker | TCompensationService | TMarketConsumer | TIdempotencyService
| TOrderService | TContainer | TMarketProducer | TSpotService | TMarketPoller
(* tracing and gRPC *)
| TTracingResource | THealthServer | TClientConn | TSpotClient | TMarketViewer | TListener | TGRPCServer.

#[export] Instance ty_eq_dec : EqDecision ty.
Proof. solve_decision. Defined.

(** A constructor that returns only its result, and one that may fail. *)
Definition makes (params : list ty) (t : ty) : provider ty :=
  {| pv_In := params; pv_Out := t; pv_Append := []; pv_Fallible := false |}.
Definition may_make (params : list ty) (t : ty) : provider ty :=
  {| pv_In := params; pv_Out := t; pv_Append := []; pv_Fallible := true |}.

Definition runs (params : list ty) (h : hook) : invocation ty := {| iv_In := params; iv_Append := [h] |}.

(** fx.Options(fx.Provide(...), fx.Invoke(...)). *)
Definition Provide_Invoke (provide : list (provider ty)) (invoke : list (invocation ty)) : fx_app ty :=
  {| fx_Supply := []; fx_Provide := provide; fx_Invoke := invoke |}.

Definition Supply (l : list ty) : fx_app ty := {| fx_Supply := l; fx_Provide := []; fx_Invoke := [] |}.

(** ** The order service *)

Module OrderApp.

(** infra_providers.go *)
Definition provideLogger : provider ty :=
  {| pv_In := [TLifecycle; TConfig]; pv_Out := TLogger; pv_Append := [Order.provideLogger]; pv_Fallible := true |}.
Definition providePostgresPool := may_make [TAppCtx; TConfig] TPool.
Definition provideRedisClient := may_make [TConfig] TRedisClient.
Definition provideCacheStore := makes [TRedisClient] TCacheStore.
Definition provideOrderStore := makes [TPool; TConfig] TOrderStore.
Definition provideOutboxStore := makes [TPool; TLogger; TConfig] TOutboxStore.
Definition provideInboxStore := makes [TPool; TConfig] TInboxStore.
Definition provideBlockStore := makes [TCacheStore; TConfig] TBlockStore.
Definition provideSaramaAsyncProducer := may_make [TConfig] TAsyncProducer.
Definition provideConsumerGroup := may_make [TConfig] TConsumerGroup.

Definition InfraProviders : fx_app ty := Provide_Invoke
  [provideLogger; providePostgresPool; provideRedisClient; provideCacheStore; provideOrderStore; provideOutboxStore;
   provideInboxStore; provideBlockStore; provideSaramaAsyncProducer; provideConsumerGroup] [].

(** service_providers.go *)
Definition provideRateLimiters := makes [TCacheStore; TConfig] TRateLimiters.
Definition provideJWTManager := makes [TConfig] TJWTManager.
Definition provideRefreshTokenStore := makes [TCacheStore; TConfig] TRefreshTokenStore.
Definition provideSessionStore := makes [TCacheStore] TSessionStore.
Definition provideAuthService :=
  makes [TJWTManager; TRefreshTokenStore; TSessionStore; TConfig; TLogger] TAuthService.
Definition provideKafkaClient := makes [TAsyncProducer; TConfig; TLogger] TKafkaClient.
Definition provideKafkaPublisher := makes [TKafkaClient; TConfig] TEventPublisher.
Definition provideDLQPublisher := makes [TKafkaClient; TConfig] TDLQPublisher.
Definition provideEventProducer := makes [TOutboxStore; TLogger] TEventProducer.
Definition provideOutboxWorker := makes [TOutboxStore; TEventPublisher; TConfig; TLogger] TOutboxWorker.
Definition provideCompensationService :=
  makes [TPool; TOrderStore; TInboxStore; TBlockStore; TEventProducer; TLogger; TConfig] TCompensationService.
Definition provideConsumerService :=
  makes [TConsumerGroup; TCompensationService; TDLQPublisher; TConfig; TLogger] TMarketConsumer.
Definition provideIdempotencyService := makes [TCacheStore; TConfig; TLogger] TIdempotencyService.
Definition provideOrderService : provider ty := {|
  pv_In := [TLifecycle; TPool; TOrderStore; TMarketViewer; TBlockStore; TRateLimiters; TEventProducer;
            TIdempotencyService; TLogger; TConfig];
  pv_Out := TOrderService; pv_Append := [Order.provideOrderService]; pv_Fallible := false |}.
Definition provideContainer :=
  makes [TJWTManager; TSessionStore; TRefreshTokenStore; TAuthService; TOrderService] TContainer.

Definition ServiceProviders : fx_app ty := Provide_Invoke
  [provideRateLimiters; provideJWTManager; provideRefreshTokenStore; provideSessionStore; provideAuthService;
   provideKafkaClient; provideKafkaPublisher; provideDLQPublisher; provideEventProducer; provideOutboxWorker;
   provideCompensationService; provideConsumerService; provideIdempotencyService; provideOrderService;
   provideContainer] [].

(** lifecycle.go *)
Definition provideTracingResource := may_make [TConfig] TTracingResource.
Definition registerInfrastructure :=
  runs [TLifecycle; TPool; TRedisClient; TClientConn; TLogger] Order.registerInfrastructure.
Definition registerTracing := runs [TLifecycle; TConfig; TTracingResource; TLogger] Order.registerTracing.
Definition registerMetrics := runs [TAppCtx; TLifecycle; TConfig; TLogger] Order.registerMetrics.
Definition registerKafkaProducer := runs [TLifecycle; TKafkaClient; TLogger] Order.registerKafkaProducer.
Definition registerOutboxWorker := runs [TAppCtx; TLifecycle; TOutboxWorker; TLogger] Order.registerOutboxWorker.
Definition registerKafkaConsumer :=
  runs [TAppCtx; TLifecycle; TMarketConsumer; TConsumerGroup; TLogger; TConfig] Order.registerKafkaConsumer.
Definition registerReadiness :=
  runs [TAppCtx; TLifecycle; THealthServer; TPool; TRedisClient; TLogger; TConfig] Order.registerReadiness.

Definition Lifecycle : fx_app ty := Provide_Invoke [provideTracingResource]
  [registerInfrastructure; registerTracing; registerMetrics; registerKafkaProducer; registerOutboxWorker;
   registerKafkaConsumer; registerReadiness].

(** grpc_providers.go *)
Definition health_NewServer := makes [] THealthServer.
Definition provideClientConnection := may_make [TConfig] TClientConn.
Definition provideGRPCClient := makes [TClientConn; TConfig; TLogger] TSpotClient.
Definition provideMarketViewer := makes [TSpotClient] TMarketViewer.
Definition provideListener : provider ty :=
  {| pv_In := [TLifecycle; TConfig]; pv_Out := TListener; pv_Append := [Order.provideListener]; pv_Fallible := true |}.
Definition provideGRPCServer := may_make [TContainer; TConfig; TLogger; THealthServer] TGRPCServer.
Definition startGRPCServer := runs [TAppCtx; TLifecycle; TGRPCServer; TListener; TLogger] Order.startGRPCServer.

Definition GRPCProviders : fx_app ty := Provide_Invoke
  [health_NewServer; provideClientConnection; provideGRPCClient; provideMarketViewer; provideListener;
   provideGRPCServer] [startGRPCServer].

(** order_app.go; the lifecycle is fx's own. *)
Definition application : fx_app ty :=
  Options [Supply [TAppCtx; TConfig; TLifecycle]; InfraProviders; ServiceProviders; Lifecycle; GRPCProviders].
End OrderApp.

(** ** The spot service *)

Module SpotApp.

(** infra_providers.go *)
Definition provideLogger : provider ty :=
  {| pv_In := [TLifecycle; TConfig]; pv_Out := TLogger; pv_Append := [Spot.provideLogger]; pv_Fallible := true |}.
Definition providePostgresPool := may_make [TAppCtx; TConfig] TPool.
Definition provideRedisClient := may_make [TConfig] TRedisClient.
Definition provideCacheStore := makes [TRedisClient] TCacheStore.
Definition provideMarketStore := makes [TPool; TConfig] TMarketStore.
Definition provideMarketCursorStore := makes [TPool] TCursorStore.
Definition provideMarketCacheRepository := makes [TCacheStore; TConfig] TMarketCacheRepository.
Definition provideMarketByIDCacheRepository := makes [TCacheStore; TConfig] TMarketByIDCacheRepository.
Definition provideOutboxStore := makes [TPool; TLogger; TConfig] TOutboxStore.
Definition provideSaramaAsyncProducer := may_make [TConfig] TAsyncProducer.

Definition InfraProviders : fx_app ty := Provide_Invoke
  [provideLogger; providePostgresPool; provideRedisClient; provideCacheStore; provideMarketStore;
   provideMarketCursorStore; provideMarketCacheRepository; provideMarketByIDCacheRepository; provideOutboxStore;
   provideSaramaAsyncProducer] [].

(** service_providers.go *)
Definition provideJWTManager := makes [TConfig] TJWTManager.
Definition provideKafkaClient := makes [TAsyncProducer; TConfig; TLogger] TKafkaClient.
Definition provideMarketStateChangedProducer := makes [TKafkaClient; TConfig] TEventPublisher.
Definition provideSpotOutboxWorker := makes [TOutboxStore; TEventPublisher; TConfig; TLogger] TOutboxWorker.
Definition provideMarketEventProducer := makes [TOutboxStore; TCursorStore; TLogger; TConfig] TMarketProducer.
Definition provideSpotService :=
  makes [TMarketStore; TMarketCacheRepository; TMarketByIDCacheRepository; TConfig; TLogger] TSpotService.
Definition provideMarketPoller :=
  makes [TMarketStore; TSpotService; TMarketProducer; TCursorStore; TConfig; TLogger] TMarketPoller.
Definition provideContainer := makes [TJWTManager; TSpotService] TContainer.

Definition ServiceProviders : fx_app ty := Provide_Invoke
  [provideJWTManager; provideKafkaClient; provideMarketStateChangedProducer; provideSpotOutboxWorker;
   provideMarketEventProducer; provideSpotService; provideMarketPoller; provideContainer] [].

(** lifecycle.go *)
Definition provideTracingResource := may_make [TConfig] TTracingResource.
Definition registerInfrastructure := runs [TLifecycle; TPool; TRedisClient; TLogger] Spot.registerInfrastructure.
Definition registerTracing := runs [TLifecycle; TConfig; TTracingResource; TLogger] Spot.registerTracing.
Definition registerMetrics := runs [TAppCtx; TLifecycle; TConfig; TLogger] Spot.registerMetrics.
Definition registerOutboxWorker := runs [TAppCtx; TLifecycle; TOutboxWorker; TLogger] Spot.registerOutboxWorker.
Definition registerMarketPoller :=
  runs [TAppCtx; TLifecycle; TMarketPoller; TLogger; TConfig] Spot.registerMarketPoller.
Definition registerKafkaProducer := runs [TLifecycle; TKafkaClient; TLogger] Spot.registerKafkaProducer.
Definition registerReadiness :=
  runs [TAppCtx; TLifecycle; TPool; TRedisClient; THealthServer; TLogger; TConfig] Spot.registerReadiness.

Definition Lifecycle : fx_app ty := Provide_Invoke [provideTracingResource]
  [registerInfrastructure; registerTracing; registerMetrics; registerKafkaProducer; registerOutboxWorker;
   registerMarketPoller; registerReadiness].

(** grpc_providers.go *)
Definition health_NewServer := makes [] THealthServer.
Definition provideListener : provider ty :=
  {| pv_In := [TLifecycle; TConfig]; pv_Out := TListener; pv_Append := [Spot.provideListener]; pv_Fallible := true |}.
Definition provideGRPCServer := may_make [TContainer; TConfig; TLogger; THealthServer] TGRPCServer.
Definition startGRPCServer := runs [TAppCtx; TLifecycle; TGRPCServer; TListener; TLogger] Spot.startGRPCServer.

Definition GRPCProviders : fx_app ty :=
  Provide_Invoke [health_NewServer; provideListener; provideGRPCServer] [startGRPCServer].

(** spot_instrument_app.go *)
Definition application : fx_app ty :=
  Options [Supply [TAppCtx; TConfig; TLifecycle]; InfraProviders; ServiceProviders; Lifecycle; GRPCProviders].
End SpotApp.

Lemma order_well_wired : well_wired OrderApp.application.
Proof. apply (bool_decide_unpack _). vm_compute. exact I. Qed.

Lemma spot_well_wired : well_wired SpotApp.application.
Proof. apply (bool_decide_unpack _). vm_compute. exact I. Qed.

Lemma order_all_needed : Forall (λ t, Exists (λ i, t ∈ closure OrderApp.application (iv_In i))
  (fx_Invoke OrderApp.application)) (outs OrderApp.application).
Proof. apply (bool_decide_unpack _). vm_compute. exact I. Qed.

Lemma spot_all_needed : Forall (λ t, Exists (λ i, t ∈ closure SpotApp.application (iv_In i))
  (fx_Invoke SpotApp.application)) (outs SpotApp.application).
Proof. apply (bool_decide_unpack _). vm_compute. exact I. Qed.

(** The order service's hooks when fx makes the listener before the service. *)
Definition order_hooks_listener_first : list hook :=
  [Order.provideLogger; Order.registerInfrastructure; Order.registerTracing; Order.registerMetrics;
   Order.registerKafkaProducer; Order.registerOutboxWorker; Order.registerKafkaConsumer; Order.registerReadiness;
   Order.provideListener; Order.provideOrderService; Order.startGRPCServer].

(** C25 Both services can be assembled.  In whatever order fx calls constructors
    that do not need each other: a start comes to an end, it only ends early
    when a constructor fails, and one that completes has called every
    constructor exactly once and appended the hooks of [Lifecycle] in their
    order, but for the order service's listener, whose hook may come before
    that of OrderService. *)
Theorem services_assemble :
  assembled OrderApp.application [Order.hooks; order_hooks_listener_first] /\
  assembled SpotApp.application [Spot.hooks].
Proof.
  split.
  - exact (well_wired_assembled _ order_well_wired order_all_needed).
  - exact (well_wired_assembled _ spot_well_wired spot_all_needed).
Qed.

(** ** What activities reach *)

(** The type that stands for a resource that can be closed; the tracer is a
    global of its package, and the health server can be used after its
    Shutdown, which only changes what it answers. *)
Definition resource_type (r : resource) : option ty :=
  match r with
  | Tracer => None
  | PostgresPool => Some TPool
  | RedisClient => Some TRedisClient
  | SpotConnection => Some TClientConn
  | KafkaProducer => Some TKafkaClient
  | ConsumerGroup => Some TConsumerGroup
  | HealthServer => None
  | Listener => Some TListener
  end.

Definition resources : list resource :=
  [Tracer; PostgresPool; RedisClient; SpotConnection; KafkaProducer; ConsumerGroup; HealthServer; Listener].

(** The arguments of the functions that start [a], which its goroutine holds,
    and what their hooks close themselves. *)
Definition spawners (app : fx_app ty) (a : activity) : list (list ty * list hook) :=
  filter (λ p, a ∈ p.2 ≫= hk_spawns)
    (((λ c, (pv_In c, pv_Append c)) <$> fx_Provide app) ++ ((λ i, (iv_In i, iv_Append i)) <$> fx_Invoke app)).

(** What [a] can get at through its arguments, without what its own hook closes
    (the consumer group, whose close ends the session it is used in). *)
Definition reaches (app : fx_app ty) (a : activity) : list resource :=
  let from := closure app (spawners app a ≫= fst) in
  let own := spawners app a ≫= λ p, p.2 ≫= hk_closes in
  filter (λ r, match resource_type r with Some t => bool_decide (t ∈ from) | None => false end = true /\ r ∉ own)
    resources.

Definition order_uses (a : activity) : list resource := Order.uses a ++ reaches OrderApp.application a.
Definition spot_uses (a : activity) : list resource := Spot.uses a ++ reaches SpotApp.application a.

Lemma order_outcomes_fit : Forall (hooks_fit order_uses) [Order.hooks; order_hooks_listener_first].
Proof. apply (bool_decide_unpack _). vm_compute. exact I. Qed.

Lemma spot_outcomes_fit : Forall (hooks_fit spot_uses) [Spot.hooks].
Proof. apply (bool_decide_unpack _). vm_compute. exact I. Qed.

(** The activities of each service that must end one before the other. *)
Definition order_sequence : list activity := [GRPCServer; BlockWorkers; MarketConsumer; OutboxWorker].
Definition spot_sequence : list activity := [GRPCServer; MarketPoller; OutboxWorker].

Lemma order_outcomes_reverse : Forall (λ hooks, started_in_reverse order_sequence (acts_of hooks) = true)
  [Order.hooks; order_hooks_listener_first].
Proof. apply (bool_decide_unpack _). vm_compute. exact I. Qed.

Lemma spot_outcomes_reverse : Forall (λ hooks, started_in_reverse spot_sequence (acts_of hooks) = true) [Spot.hooks].
Proof. apply (bool_decide_unpack _). vm_compute. exact I. Qed.

(** What is promised of a running service: nobody uses what was closed, and the
    activities of [l] are told to end one after the other. *)
Definition stops_safely (uses : activity -> list resource) (l : list activity) (s : app) : Prop :=
  (forall a r, a ∈ ap_active s -> r ∈ uses a -> r ∉ ap_closed s) /\ told_in_order l s.

(** A service that was assembled runs safely. *)
Lemma assembled_safe (app : fx_app ty) lists uses l (c : container ty) s :
  assembled app lists -> Forall (hooks_fit uses) lists ->
  Forall (λ hooks, started_in_reverse l (acts_of hooks) = true) lists -> uses MetricsServer = [] ->
  rtc (build app) (fx_New app) c -> complete c -> rtc (step false) (launch (fc_Hooks c)) s ->
  stops_safely uses l s.
Proof.
  intros (_ & _ & _ & H) Hfit Hrev Hmet Hc Hcc Hs. destruct (H c Hc Hcc) as [_ Hh]. rewrite Forall_forall in Hfit, Hrev.
  split; [intros a r; eapply fit_safe; [by apply Hfit|done..]|eapply fit_in_order; [by apply Hfit|by apply Hrev|done]].
Qed.

(** C26 From the container to the shutdown.  However fx assembles a service, in
    no run of it, whatever fails at its start, whichever of its activities ends
    early and however long its stop takes, does an activity that still runs
    hold a resource that was closed: none of those [Lifecycle] says it uses,
    and none that its goroutine can get at through the arguments it was
    constructed from, down to the database pool, the Redis client, the Kafka
    producer and the connection to the spot service.  And the parts are told to
    stop one after the other: OrderService's block workers only after the gRPC
    server's handlers have ended, the consumer only after these, and the outbox
    worker only after the consumer; in the spot service the poller after the
    handlers and the outbox worker after the poller.  This needs that the
    remaining hooks are left out once the deadline of a stop has passed. *)
Theorem assembled_shutdown_safe hooks_after_expiry (c : container ty) s :
  hooks_after_expiry = false -> complete c -> rtc (step hooks_after_expiry) (launch (fc_Hooks c)) s ->
  (rtc (build OrderApp.application) (fx_New OrderApp.application) c ->
   stops_safely order_uses [GRPCServer; BlockWorkers; MarketConsumer; OutboxWorker] s) /\
  (rtc (build SpotApp.application) (fx_New SpotApp.application) c ->
   stops_safely spot_uses [GRPCServer; MarketPoller; OutboxWorker] s).
Proof.
  intros -> Hc Hs. split; intros Hb.
  - eapply assembled_safe; [|apply order_outcomes_fit|apply order_outcomes_reverse|done..].
    exact (well_wired_assembled _ order_well_wired order_all_needed).
  - eapply assembled_safe; [|apply spot_outcomes_fit|apply spot_outcomes_reverse|done..].
    exact (well_wired_assembled _ spot_well_wired spot_all_needed).
Qed.

(** ** Closed instances *)

Definition demo_started : container ty := start_all OrderApp.application.

(** This start makes OrderService first. *)
Example demo_started_hooks : fc_Hooks demo_started = Order.hooks /\ fc_Todo demo_started = [].
Proof. split; vm_compute; reflexivity. Qed.

(** It is up, and then stopped: the handlers have ended, the block workers were
    told to and still run; they hold the Redis client. *)
Definition demo_stopping : app := {|
  ap_mode := Stopping [PWait BlockWorkers];
  ap_started := [Order.registerReadiness; Order.registerKafkaConsumer;
    Order.registerOutboxWorker; Order.registerKafkaProducer; Order.registerMetrics; Order.registerTracing;
    Order.registerInfrastructure; Order.provideLogger];
  ap_active := [BlockWorkers; ReadinessWatch; MarketConsumer; OutboxWorker; MetricsServer];
  ap_cancelled := [BlockWorkers]; ap_closed := [Listener]; ap_expired := false |}.

Lemma demo_stopping_reached : rtc (step false) (launch (fc_Hooks demo_started)) demo_stopping.
Proof.
  rewrite (proj1 demo_started_hooks). run_start. run_step step_signal. run_step step_next_hook. run_finish GRPCServer.
  run_step step_grace. run_step step_next_hook. run_step step_close. run_step step_next_hook. run_step step_cancel.
  apply rtc_refl.
Qed.

Lemma assembled_shutdown_safe_witness : RedisClient ∉ ap_closed demo_stopping /\ GRPCServer ∉ ap_active demo_stopping.
Proof.
  assert (Hc : complete demo_started) by (split; vm_compute; reflexivity).
  destruct (proj1 (assembled_shutdown_safe false demo_started demo_stopping eq_refl Hc demo_stopping_reached)
    (start_all_build _ order_well_wired)) as [Hsafe Htold]. split.
  - apply (Hsafe BlockWorkers); [by left|]. apply (bool_decide_unpack _). vm_compute. exact I.
  - by apply (Htold [GRPCServer] BlockWorkers [MarketConsumer; OutboxWorker]); [|left|left].
Defined.
