(* ===== verification/ConsumerCorrect.v ===== *)
(** * Market events end to end
      (orderService/internal/services/consumer/market_consumer.go,
       application/order/lifecycle.go)

    The market consumer is the Kafka consumer of [KafkaConsumer] around the
    compensation of [Compensation].  A message is marked as consumed only when
    its event is in the inbox as processed or the message is in the
    dead-letter topic.  A mark moves the offset of the group past every message
    before it: all of them are accounted for too, as long as a claim goes no
    further than a message it left; messages are marked in order as long as no
    context ends. *)

From stdpp Require Import sorting.
From S2P Require Import Prelude GoStrings GoErrors Effects Redis Pg Kafka KafkaConsumer Outbox Domain Events OrderDb MarketBlock OrderService OrderCorrect Compensation.
Local Open Scope string_scope.
Local Open Scope list_scope.
Local Open Scope Z_scope.

(** ** MarketConsumer and its restart loop *)

Section Service.
Context {St R : Type} `{HRd : Redis R} `{PT : PgTypes} `{DL : DecimalLib} `{PC : PriceColumn}
  `{U : GoLib} `{L : LuaNumbers} `{TT : PbTime} `{PB : !ProtoCodec} `{O : Otel}.
Context `{HD : !Has (pg OrderDB) St} `{HR : !Has R St} `{HK : !Has kafka St}.
Variables (blockTtl : Z) (consumerGroup : string) (cfg : consumer_config).

(** The handler MarketConsumer.Run passes to Consume. *)
Definition market_handler : MessageHandler St := λ msg,
  let! r := handleMarketStateChanged blockTtl consumerGroup (msg_Topic msg) (msg_Value msg) in
  mret (Returns match r with Ok _ => None | Err err => Some err end).

(** Runs of group sessions. *)
Notation sessions := (list (@group_session St)).

Definition consumer_Run (s : sessions) : M St (option (option error)) :=
  Consume (provideConsumerService cfg) s market_handler.

(** lifecycle.go: run the consumer again after every error until its context
    ends; one list of sessions per run. *)
Fixpoint consumer_service (runs : list sessions) : M St unit :=
  match runs with
  | [] => mret tt
  | s :: runs =>
      let! r := consumer_Run s in
      match r with
      | None | Some None => mret tt
      | Some (Some _) =>
          let! c := ctx_Err in
          match c with
          | Some _ => mret tt
          | None =>
              let! c := ctx_Err in
              match c with Some _ => mret tt | None => consumer_service runs end
          end
      end
  end.
End Service.

(** ** The errors of processing an event *)

(** Errors of the protobuf library are none of the consumer's. *)
Class ForeignCodec `{TT : PbTime} (PB : ProtoCodec) := {
  fc_unmarshal s e : unmarshal_MarketStateChanged s = Err e -> foreign e;
  fc_marshal m e : marshal_OrderStatusUpdated m = Err e -> foreign e;
  fc_time t e : ts_CheckValid t = Some e -> foreign e
}.

(** Every error inside a value is foreign. *)
Class Errs (A : Type) := errs_ok : A -> Prop.

#[export] Instance Errs_result A : Errs (result A) :=
  λ r, match r with Ok _ => True | Err e => foreign e end.
#[export] Instance Errs_option : Errs (option error) :=
  λ r, match r with None => True | Some e => foreign e end.
#[export] Instance Errs_pair : Errs (bool * option error) := λ r, errs_ok r.2.
#[export] Instance Errs_unit : Errs unit := λ _, True.
#[export] Instance Errs_Z : Errs Z := λ _, True.
#[export] Instance Errs_N : Errs N := λ _, True.
#[export] Instance Errs_event : Errs OutboxEvent := λ _, True.

(** In a foreign environment all errors a run returns are foreign. *)
Definition clean {St A} `{Errs A} (m : M St A) : Prop :=
  forall w, foreign_env (w_env w) -> wp m (λ a w', errs_ok a /\ foreign_env (w_env w')) w.

Section Clean.
Context {St : Type}.

Lemma clean_ret {A} `{Errs A} (a : A) : errs_ok a -> clean (St := St) (mret a).
Proof. intros Ha w Hw. by apply wp_ret. Qed.

Lemma clean_bind {A B} `{Errs A} `{Errs B} (m : M St A) (k : A -> M St B) :
  clean m -> (forall a, errs_ok a -> clean (k a)) -> clean (mbind m k).
Proof.
  intros Hm Hk w Hw. apply wp_bind. eapply wp_mono; [by apply Hm|].
  intros a w1 [Ha Hw1]. by apply Hk.
Qed.

Lemma clean_ask {A} `{Errs A} (q : env -> nat -> A) :
  (forall e n, errs_ok (q e n)) -> clean (St := St) (ask q).
Proof. intros Hq w Hw. by apply wp_ask. Qed.

Lemma clean_pg {D A} `{HD : !Has (pg D) St} (op : Z -> fault -> pg D -> result A * pg D) :
  (forall t f p, (forall e, f = FBefore e \/ f = FAfter e -> foreign e) -> errs_ok (op t f p).1) ->
  clean (lift_pg op).
Proof.
  intros Hop w Hw. apply wp_pg_env. intros t f w' Hf He _. split; [|by rewrite He].
  apply Hop. intros e [->| ->]; apply (proj1 Hw (e_tick (w_env w))); auto.
Qed.

Lemma clean_ticks {A} `{Errs A} (m : M St A) : (forall a, errs_ok a) -> ticks m -> clean m.
Proof.
  intros Ha Hm w Hw. eapply wp_mono; [by apply ticks_wp|]. intros a w' [n Hn]. split; [done|].
  rewrite Hn. by apply foreign_env_ticks.
Qed.

Lemma clean_for_each {X} (l : list X) (body : X -> M St (option error)) :
  (forall x, clean (body x)) -> clean (for_each l body).
Proof.
  intros Hb. induction l as [|x l IH]; simpl; [by apply clean_ret|].
  apply clean_bind; [done|]. intros [e|] He; [by apply clean_ret|done].
Qed.

(** A statement whose own errors are the server's. *)
Definition server_stmt {D A} (s : stmt D A) : Prop := forall now d, errs_ok (s now d).1.

Context {D : Type} `{HD : !Has (pg D) St}.

Lemma clean_tx_Exec {A} (s : stmt D A) : server_stmt s -> clean (tx_Exec s).
Proof.
  intros Hs. apply clean_pg. intros t f p Hf. unfold pg_exec. destruct (pg_tx p) as [|now d|]; [done| |done].
  destruct f as [|e|e]; simpl; [|by apply Hf; auto..].
  specialize (Hs now d). by destruct (s now d).
Qed.

Lemma clean_pool_Exec {A} (s : stmt D A) : server_stmt s -> clean (pool_Exec s).
Proof.
  intros Hs. apply clean_pg. intros t f p Hf. unfold faulty, pg_pool. specialize (Hs t (pg_db p)).
  destruct f as [|e|e]; simpl; [by destruct (s _ _)|by apply Hf; auto..].
Qed.

Lemma clean_tx_Begin : clean tx_Begin.
Proof. apply clean_pg. intros t [|e|e] p Hf; simpl; [done|by apply Hf; auto..]. Qed.

Lemma clean_tx_Commit : clean tx_Commit.
Proof. apply clean_pg. intros t f p Hf. unfold pg_commit. destruct (pg_tx p), f; simpl; try done; apply Hf; auto. Qed.

Lemma clean_tx_Rollback : clean tx_Rollback.
Proof. apply clean_pg. intros t f p Hf. unfold pg_rollback. destruct (pg_tx p), f; simpl; try done; apply Hf; auto. Qed.
End Clean.

Create HintDb clean.
#[export] Hint Resolve clean_tx_Begin clean_tx_Commit clean_tx_Rollback : clean.

(** Walk through a function for a [clean] goal. *)
Ltac clean_step :=
  match goal with
  | |- clean (mret _) => apply clean_ret; simpl; try (by apply foreign_wrap); try done
  | |- clean (mbind _ _) => apply clean_bind; [|intros [] ?]
  | |- clean (ask _) => by apply clean_ask
  | |- clean time_Now => by apply clean_ask
  | |- clean uuid_New => by apply clean_ask
  | |- clean (tx_Exec _) => apply clean_tx_Exec
  | |- clean (pool_Exec _) => apply clean_pool_Exec
  | |- clean (match ?x with _ => _ end) => destruct x eqn:?
  | |- clean _ => solve [eauto with clean]
  end.

Section Errors.
Context {St R : Type} `{HRd : Redis R} `{PT : PgTypes} `{DL : DecimalLib} `{PC : PriceColumn}
  `{U : GoLib} `{L : LuaNumbers} `{TT : PbTime} `{PB : !ProtoCodec} `{FC : !ForeignCodec PB}.
Context `{HD : !Has (pg OrderDB) St} `{HR : !Has R St}.
Variables (blockTtl : Z) (event : MarketStateChangedEvent) (consumerGroup : string).

Lemma clean_rollback : clean (rollbackTransaction (St := St)).
Proof. unfold rollbackTransaction. repeat clean_step. Qed.

Lemma clean_commit : clean (commitTransaction (St := St)).
Proof. unfold commitTransaction. repeat clean_step. Qed.
#[local] Hint Resolve clean_rollback clean_commit : clean.

Lemma foreign_map_err {A} op (r : result A) : errs_ok r -> errs_ok (map_err (wrap op) r).
Proof. destruct r; [done|]. intros H. by apply foreign_wrap. Qed.

Lemma foreign_expect op verb r : errs_ok r -> errs_ok (expect_row op verb r).
Proof. destruct r as [n|e]; simpl; [by destruct (n =? 1)|]. intros H. by apply foreign_wrap. Qed.

Lemma clean_BeginProcessing ev : clean (BeginProcessing (St := St) ev).
Proof.
  assert (H1 : clean (tryStartProcessing (St := St) ev)).
  { unfold tryStartProcessing. apply clean_bind.
    - apply clean_tx_Exec. intros now d. unfold sql_begin_inbox. by repeat case_match.
    - intros [[|]|] Ha; apply clean_ret; try done; by apply foreign_wrap. }
  assert (H2 : forall id g, clean (getCurrentStatus (St := St) id g)).
  { intros id g. unfold getCurrentStatus. apply clean_bind; [by apply clean_tx_Exec|].
    intros [[|]|] Ha; apply clean_ret; try done; by apply foreign_wrap. }
  unfold BeginProcessing. apply clean_bind; [done|]. intros [[]|e] Ha; [by apply clean_ret|].
  destruct (is_sent _ e); [|by apply clean_ret, foreign_wrap].
  apply clean_bind; [done|]. intros [s|e'] He'; apply clean_ret; [done|by apply foreign_wrap].
Qed.

Lemma clean_apply : clean (applyCompensationTransaction (St := St) event).
Proof.
  unfold applyCompensationTransaction. destruct (negb _); [by apply clean_ret|].
  apply clean_bind.
  { unfold CancelActiveOrdersByMarket. apply clean_bind; [by apply clean_tx_Exec|].
    intros r Hr. by apply clean_ret, foreign_map_err. }
  intros [ids|e] He; [|by apply clean_ret]. apply clean_bind.
  2: { intros [e|] He'; by apply clean_ret. }
  apply clean_for_each. intros id. apply clean_bind; [by apply clean_ask|]. intros eid _.
  apply clean_bind; [by apply clean_ask|]. intros now _. apply clean_bind.
  2: { intros [[]|e] He'; apply clean_ret; [done|by apply foreign_wrap]. }
  unfold ProduceOrderStatusUpdated, MarshalOrderStatusUpdated.
  destruct (marshal_OrderStatusUpdated _) as [p|e] eqn:Em; simpl.
  2: { apply clean_ret, foreign_wrap, foreign_wrap. by eapply fc_marshal. }
  apply clean_bind.
  { unfold buildOrderStatusUpdatedOutboxEvent. apply clean_bind; [by apply clean_ask|]. intros; by apply clean_ret. }
  intros oe _. apply clean_bind; [|intros r Hr; by apply clean_ret, foreign_map_err].
  unfold SaveOutboxEvent. apply clean_bind.
  - apply clean_tx_Exec. intros t d. unfold on_outbox, sql_insert. by repeat case_match; simplify_eq.
  - intros r Hr. by apply clean_ret, foreign_map_err.
Qed.

Lemma clean_fail op ev e : foreign e -> clean (failProcessing (St := St) op ev e).
Proof.
  intros He. unfold failProcessing. apply clean_bind; [apply clean_rollback|]. intros _ _. apply clean_bind.
  - unfold SaveFailed. apply clean_bind; [|intros r Hr; by apply clean_ret, foreign_expect].
    apply clean_pool_Exec. intros now d. unfold sql_save_failed. by repeat case_match.
  - intros [[]|e'] _; apply clean_ret; [by apply foreign_wrap|]. unfold errs_ok, Errs_result, foreign.
    by rewrite has_wrap.
Qed.

Lemma clean_synchronize : clean (trySynchronizeMarketBlockState (St := St) blockTtl event).
Proof.
  apply clean_ticks; [done|apply ticks_trySynchronize].
Qed.

Lemma clean_process topic payload :
  clean (ProcessMarketStateChanged (St := St) blockTtl topic consumerGroup payload event).
Proof.
  unfold ProcessMarketStateChanged. apply clean_bind; [apply clean_tx_Begin|].
  intros [[]|e] He; [|by apply clean_ret, foreign_wrap]. apply clean_bind; [by apply clean_ask|]. intros id _.
  apply clean_bind; [apply clean_BeginProcessing|]. intros [[[] st]|e'] He'; simpl.
  - apply clean_bind; [apply clean_apply|]. intros [[]|e1] H1; [|by apply clean_fail].
    apply clean_bind.
    { unfold MarkProcessed. apply clean_bind; [|intros r Hr; by apply clean_ret, foreign_expect].
      apply clean_tx_Exec. intros now d. unfold sql_mark_processed. by repeat case_match. }
    intros [[]|e2] H2; [|by apply clean_fail]. apply clean_bind; [apply clean_commit|].
    intros [[]|e3] H3; apply clean_bind; [apply clean_synchronize| |apply clean_rollback|];
      intros _ _; apply clean_ret; [done|by apply foreign_wrap].
  - apply (clean_bind (A := bool * option error)).
    + unfold handleSkippedEvent. apply clean_bind; [apply clean_commit|].
      intros [[]|e3] H3; [|by apply clean_ret, foreign_wrap]. apply clean_bind; [|intros; by apply clean_ret].
      repeat case_match; first [apply clean_synchronize|by apply clean_ret].
    + intros [closed err] Herr. apply clean_bind.
      * destruct closed; [by apply clean_ret|apply clean_rollback].
      * intros _ _. apply clean_ret. by destruct err.
  - by apply clean_fail.
Qed.

Lemma ticks_process topic payload :
  ticks (ProcessMarketStateChanged (St := St) blockTtl topic consumerGroup payload event).
Proof.
  unfold ProcessMarketStateChanged, BeginProcessing, tryStartProcessing, getCurrentStatus, failProcessing,
    SaveFailed, handleSkippedEvent, applyCompensationTransaction, CancelActiveOrdersByMarket,
    publishCancelledOrderEvents, ProduceOrderStatusUpdated, buildOrderStatusUpdatedOutboxEvent,
    SaveOutboxEvent, MarkProcessed, rollbackTransaction, commitTransaction,
    trySynchronizeMarketBlockState, synchronizeMarketBlockState, SynchronizeState,
    invalidateCorruptedState, cache_Delete, redis_call, tx_Begin, tx_Exec, tx_Commit, tx_Rollback, pool_Exec,
    lift_pg, uuid_New, time_Now.
  tick_solve.
Qed.

(** Errors of decoding a payload. *)
Lemma foreign_unmarshal s e : UnmarshalMarketStateChanged s = Err e -> foreign e.
Proof.
  unfold UnmarshalMarketStateChanged. destruct (unmarshal_MarketStateChanged s) as [m|e'] eqn:Eu.
  2: { intros [= <-]. apply foreign_wrap. by eapply fc_unmarshal. }
  simpl. unfold res_bind, parseUUIDRequired, fromProtoTimestamp, fromProtoTimestampOptional.
  intros H. repeat (case_match; simplify_eq); try done; apply foreign_wrap; try done; by eapply fc_time.
Qed.
End Errors.

(** ** A claim of market events *)

(** The messages a claim's loop takes until it ends by itself. *)
Fixpoint arm_messages (arms : list claim_arm) : list ConsumerMessage :=
  match arms with
  | ArmMessage m :: arms => m :: arm_messages arms
  | _ => []
  end.

Section Claims.
Context {St R : Type} `{HRd : Redis R} `{PT : PgTypes} `{!PgTypesLaws PT} `{DL : DecimalLib}
  `{PC : PriceColumn} `{U : GoLib} `{L : LuaNumbers} `{TT : PbTime} `{PB : !ProtoCodec}
  `{FC : !ForeignCodec PB} `{O : Otel}.
Context `{HD : !Has (pg OrderDB) St} `{HR : !Has R St} `{HK : !Has kafka St} `{HS : !Has session St}.
Context `{A1 : !Apart R (pg OrderDB) St} `{A2 : !Apart R kafka St} `{A3 : !Apart R session St}
  `{A4 : !Apart (pg OrderDB) kafka St} `{A5 : !Apart (pg OrderDB) session St}
  `{A6 : !Apart kafka (pg OrderDB) St} `{A7 : !Apart kafka session St}
  `{A8 : !Apart session (pg OrderDB) St} `{A9 : !Apart session kafka St}.
Variables (blockTtl : Z) (consumerGroup : string) (cfg : consumer_config).

Definition db (s : St) : OrderDB := db_of s.
Definition log (s : St) : list krecord := k_log (prj s).
Definition sess (s : St) : session := prj s.
Definition marked (s : St) : list ConsumerMessage := se_marked (sess s).

(** A later session of the group does not see the message again. *)
Definition passed (m : ConsumerMessage) (s : St) : Prop :=
  exists o, se_offsets (sess s) !! partition_of m = Some o /\ cm_Offset m < o.

(** The message's event is processed, or the message is in the dead-letter
    topic, or there is no such topic and it cannot be decoded. *)
Definition accounted (m : ConsumerMessage) (s : St) : Prop :=
  (exists event, UnmarshalMarketStateChanged (cm_Value m) = Ok event /\
     processed (event_key event consumerGroup) (db s)) \/
  (cc_DLQEnabled cfg = true /\ exists r, r ∈ log s /\ kr_topic r = cc_DLQTopic cfg /\
     kr_key r = cm_Key m /\ kr_value r = cm_Value m) \/
  (cc_DLQEnabled cfg = false /\ is_Ok (UnmarshalMarketStateChanged (cm_Value m)) = false).

(** Between two events of the claim: no open transaction, and every inbox row
    processed or failed. *)
Definition inbox_final (d : OrderDB) : Prop := map_Forall (λ _ row,
  ie_Status row = InboxEventStatusProcessed \/ ie_Status row = InboxEventStatusFailed) (db_inbox d).

Definition idle (s : St) : Prop := tx_of (D := OrderDB) s = TxNone /\ inbox_final (db s).

(** What never gets lost. *)
Definition grows (s s' : St) : Prop :=
  (forall key, processed key (db s) -> processed key (db s')) /\ log s `prefix_of` log s'.

Lemma accounted_grows m s s' : grows s s' -> accounted m s -> accounted m s'.
Proof.
  intros [Hp Hl] [(ev & Hu & Hd)|[(Hc & r & Hr & Hrest)|H]].
  - left. exists ev. auto.
  - right. left. split; [done|]. exists r. split; [|done]. destruct Hl as [k ->].
    apply elem_of_app. by left.
  - right. by right.
Qed.

Lemma grows_refl s : grows s s.
Proof. by split. Qed.

Lemma grows_trans s1 s2 s3 : grows s1 s2 -> grows s2 s3 -> grows s1 s3.
Proof. intros [H1 H2] [H3 H4]. split; [auto|by etrans]. Qed.

(** What one call of the handler leaves behind. *)
Definition after_call (m : ConsumerMessage) (last : returned) (s : St) : Prop :=
  match last with
  | Returns None => exists event, UnmarshalMarketStateChanged (cm_Value m) = Ok event /\
      processed (event_key event consumerGroup) (db s)
  | Returns (Some e) => foreign e \/
      exists e', UnmarshalMarketStateChanged (cm_Value m) = Err e' /\ foreign e' /\
        e = ENonRetryable (wrap op_handleMarket e')
  | Panics _ => False
  end.

Definition since (s0 s : St) : Prop := idle s /\ grows s0 s /\ sess s = sess s0 /\ log s = log s0.

Lemma frames_process {X} `{HX : !Has X St} `{!Apart R X St} `{!Apart (pg OrderDB) X St} topic payload ev :
  frames (prj (X := X)) (ProcessMarketStateChanged blockTtl topic consumerGroup payload ev).
Proof.
  unfold ProcessMarketStateChanged, BeginProcessing, tryStartProcessing, getCurrentStatus, failProcessing,
    SaveFailed, handleSkippedEvent, applyCompensationTransaction, CancelActiveOrdersByMarket,
    publishCancelledOrderEvents, ProduceOrderStatusUpdated, buildOrderStatusUpdatedOutboxEvent,
    SaveOutboxEvent, MarkProcessed, rollbackTransaction, commitTransaction,
    trySynchronizeMarketBlockState, synchronizeMarketBlockState, SynchronizeState,
    invalidateCorruptedState, cache_Delete, tx_Begin, tx_Exec, tx_Commit, tx_Rollback, pool_Exec.
  frame_solve.
Qed.

Lemma process_grows ev d r d' e : comp_outcome ev consumerGroup e d r d' -> inbox_final d ->
  (forall key, processed key d -> processed key d') /\ inbox_final d' /\
  (r = Ok tt -> processed (event_key ev consumerGroup) d').
Proof.
  intros Ho Hs.
  assert (Hins : forall d2 row, db_inbox d2 = <[event_key ev consumerGroup := row]> (db_inbox d) ->
    ie_Status row = InboxEventStatusProcessed \/ ie_Status row = InboxEventStatusFailed -> inbox_final d2).
  { intros d2 row Hi Hst. unfold inbox_final. rewrite Hi. by apply map_Forall_insert_2. }
  assert (Hc : compensated ev consumerGroup d d' -> (forall key, processed key d -> processed key d') /\
    inbox_final d' /\ processed (event_key ev consumerGroup) d').
  { intros Hc. pose proof Hc as [_ _ (row & Hi & Hst) _]. split_and!.
    - intros key. by apply processed_step, (db_compensated _ _ ev consumerGroup).
    - eapply Hins; [done|by left].
    - exists row. by rewrite Hi, lookup_insert_eq. }
  destruct r as [[]|err]; simpl in Ho.
  - destruct Ho as [Ho|[-> (row & Hrow & Hne)]]; [destruct (Hc Ho) as (? & ? & ?); by split_and!|].
    split_and!; [done|done|]. intros _. exists row. split; [done|]. by destruct (Hs _ _ Hrow).
  - destruct Ho as [->|[Hf|[_ Ho]]]; [by split_and!| |destruct (Hc Ho) as (? & ? & ?); by split_and!].
    pose proof Hf as [_ _ (row & Hi & Hst) _]. split_and!; [|by eapply Hins; [|by right]|done].
    intros key. by apply processed_step, (db_failed _ _ ev consumerGroup).
Qed.

(** The handler, from the state at the start of the message. *)
Lemma handler_since m s0 e0 w : foreign_env e0 -> since s0 (w_st w) -> runs_from e0 w ->
  wp (market_handler blockTtl consumerGroup (received m))
    (λ r w', since s0 (w_st w') /\ after_call m r (w_st w') /\ runs_from e0 w') w.
Proof.
  intros He (Hidle & Hg & Hm & Hl) [n Hn]. unfold market_handler, handleMarketStateChanged.
  simpl. destruct (UnmarshalMarketStateChanged (cm_Value m)) as [ev|e] eqn:Eu.
  2: { apply wp_bind. do 2 apply wp_ret. split_and!; try done; [|by exists n]. right. exists e.
       split_and!; try done. by eapply foreign_unmarshal. }
  apply wp_bind, wp_bind. destruct Hidle as [Htx Hfin].
  assert (Hf : foreign_env (w_env w)) by (rewrite Hn; by apply foreign_env_ticks).
  set (run := ProcessMarketStateChanged _ _ _ _ _).
  assert (H1 := process_spec blockTtl ev consumerGroup (cm_Topic m) (cm_Value m) w Htx).
  assert (H2 := clean_process blockTtl ev consumerGroup (cm_Topic m) (cm_Value m) w Hf).
  assert (H3 := frames_process (X := kafka) (cm_Topic m) (cm_Value m) ev w).
  assert (H4 := frames_process (X := session) (cm_Topic m) (cm_Value m) ev w).
  assert (H5 := ticks_wp _ w (ticks_process blockTtl ev consumerGroup (cm_Topic m) (cm_Value m))).
  fold run in H1, H2, H3, H4, H5. clearbody run.
  eapply wp_mono; [exact (wp_conj _ _ _ _ (wp_conj _ _ _ _ (wp_conj _ _ _ _ (wp_conj _ _ _ _ H1 H2) H3) H4) H5)|].
  simpl. intros r w1 ((((Hpost & Hclean & _) & Hk) & Hs) & [k Hk1]). do 2 apply wp_ret.
  destruct Hpost as [Htx1 Ho]. destruct (process_grows _ _ _ _ _ Ho Hfin) as (Hp1 & Hfin1 & Hok).
  assert (Hlog : log (w_st w1) = log (w_st w)) by (unfold log; by rewrite Hk).
  split_and!.
  - split; [done|]. split_and!; [|unfold sess in *; by rewrite Hs|by rewrite Hlog].
    eapply grows_trans; [done|]. split; [done|]. by rewrite Hlog.
  - destruct r as [[]|e]; simpl; [exists ev; auto|]. left. by apply foreign_wrap.
  - exists (k + n)%nat. by rewrite Hk1, Hn, Nat.iter_add.
Qed.

(** Marks and dead-letter records leave the rest alone. *)
Lemma mark_frame m s :
  prj (X := pg OrderDB) (mark m s) = prj s /\ log (mark m s) = log s /\
  sess (mark m s) = mark_message m (sess s).
Proof. unfold mark, log, sess. rewrite prj_upd. split_and!; [apply prj_apart| |done]. by rewrite prj_apart. Qed.

Lemma append_frame r s :
  prj (X := pg OrderDB) (append_log r s) = prj s /\ log (append_log r s) = log s ++ [r] /\
  sess (append_log r s) = sess s.
Proof.
  unfold append_log, log, sess. rewrite prj_upd. split_and!; [apply prj_apart|done|]. by rewrite prj_apart.
Qed.

Lemma same_pg s s' : prj (X := pg OrderDB) s' = prj s -> db s' = db s /\ (idle s -> idle s').
Proof. intros H. unfold idle, db, db_of, tx_of. by rewrite H. Qed.

Lemma grows_same s s' k : prj (X := pg OrderDB) s' = prj s -> log s' = log s ++ k -> grows s s'.
Proof. intros H Hl. destruct (same_pg _ _ H) as [Hd _]. split; [by rewrite Hd|]. rewrite Hl. by exists k. Qed.

(** The answer to one message. *)
Definition settled_message (e0 : env) (m : ConsumerMessage) (s : St) (r : returned) (s' : St) : Prop :=
  (r = Returns None /\ sess s' = mark_message m (sess s) /\ accounted m s') \/
  (sess s' = sess s /\
   ((exists e, r = Returns (Some e)) \/ (r = Returns None /\ exists n c, e_ctx e0 n = Some c))).

Lemma delivered_settled m e0 last s0 s1 r s' :
  since s0 s1 -> after_call m last s1 -> delivered cfg m e0 last s1 r s' ->
  idle s' /\ grows s0 s' /\ settled_message e0 m s0 r s'.
Proof.
  intros (Hi & Hg & Hm & Hl) Hlast Hd. unfold settled_message.
  destruct Hd as [->|e x n Hc ->|e -> Hn Hc|Hstop|e|e x n Hc].
  - destruct (mark_frame m s1) as (Hp & Hlm & Hmm). destruct (same_pg _ _ Hp) as [Hd Hid].
    split_and!; [auto| |].
    + eapply grows_trans; [done|]. apply (grows_same _ _ []); [done|]. by rewrite app_nil_r.
    + left. rewrite Hmm, Hm. split_and!; [done|done|]. left. by rewrite Hd.
  - destruct (append_frame (dlq_record cfg m x n) s1) as (Hp1 & Hl1 & Hm1).
    destruct (mark_frame m (append_log (dlq_record cfg m x n) s1)) as (Hp & Hlm & Hmm).
    rewrite Hp1 in Hp. rewrite Hl1 in Hlm. rewrite Hm1, Hm in Hmm. destruct (same_pg _ _ Hp) as [Hd Hid].
    split_and!; [auto|by eapply grows_trans, grows_same|]. left. split_and!; [done|done|].
    right. left. split; [done|]. exists (dlq_record cfg m x n). split; [rewrite Hlm; set_solver|].
    unfold dlq_record, producer_record, publish_topic. simpl.
    destruct (buildDLQMessage_keeps (received m) x n (cc_DLQMaxMessageBytes cfg)) as (-> & -> & ->).
    by rewrite bool_decide_true.
  - destruct (mark_frame m s1) as (Hp & Hlm & Hmm). destruct (same_pg _ _ Hp) as [Hd Hid].
    split_and!; [auto| |].
    + eapply grows_trans; [done|]. apply (grows_same _ _ []); [done|]. by rewrite app_nil_r.
    + left. rewrite Hmm, Hm. split_and!; [done|done|]. right. right. simpl in Hlast.
      destruct Hlast as [Hf|(e' & Hu & Hf & ->)]; [by rewrite foreign_retryable in Hn|].
      rewrite Hu. split; [|done]. destruct (cc_DLQEnabled cfg); [|done].
      change (IsControlFlowError (ENonRetryable (wrap op_handleMarket e'))) with
        (IsControlFlowError (wrap op_handleMarket e')) in Hc.
      rewrite foreign_control in Hc by (by apply foreign_wrap). by discriminate Hc.
  - split_and!; [done|done|]. right. split; [done|]. right. split; [done|].
    destruct Hstop as [Hstop|(e & -> & He)]; [done|]. simpl in Hlast.
    destruct Hlast as [Hf|(e' & _ & Hf & ->)].
    + by rewrite foreign_sent in He by (done || set_solver).
    + change (is_sent ErrStopConsumeClaim (wrap op_handleMarket e') = true) in He.
      by rewrite foreign_sent in He by (set_solver || by apply foreign_wrap).
  - split_and!; [done|done|]. right. split; [done|]. left. by exists e.
  - destruct (append_frame (dlq_record cfg m x n) s1) as (Hp1 & Hl1 & Hm1).
    destruct (same_pg _ _ Hp1) as [Hd Hid]. split_and!; [auto|by eapply grows_trans, grows_same|].
    right. rewrite Hm1. split; [done|]. left. by exists e.
Qed.

Notation pipeline := (wrapped cfg (market_handler blockTtl consumerGroup)).

Lemma message_settled e0 m w :
  cc_MaxRetries cfg < max_i64 -> foreign_env e0 -> runs_from e0 w -> idle (w_st w) ->
  wp (handleMessage pipeline m) (λ r w', runs_from e0 w' /\ idle (w_st w') /\
    grows (w_st w) (w_st w') /\ settled_message e0 m (w_st w) r (w_st w')) w.
Proof.
  intros Hmax He Hr Hi. eapply wp_mono.
  - eapply (handleMessage_spec cfg (market_handler blockTtl consumerGroup) m (since (w_st w)) (after_call m) e0);
      [done|done| | |done].
    + intros w1 HI Hr1. eapply wp_mono; [by apply (handler_since m (w_st w) e0 w1)|]. simpl. tauto.
    + split_and!; [done|apply grows_refl|done|done].
  - simpl. intros r w' (Hr' & s1 & last & HI & HQ & Hd). split; [done|].
    by eapply delivered_settled.
Qed.

(** What a claim leaves behind. *)
Definition claim_done (e0 : env) (msgs : list ConsumerMessage) (s : St) (r : option returned) (s' : St) : Prop :=
  exists taken, marked s' = marked s ++ taken /\ taken `sublist_of` msgs /\
    Forall (λ m, accounted m s') taken /\
    ((forall n, e_ctx e0 n = None) ->
       match r with
       | Some (Returns (Some _)) => exists m rest, msgs = taken ++ m :: rest
       | _ => taken = msgs
       end).

Lemma claim_spec e0 arms w :
  cc_MaxRetries cfg < max_i64 -> foreign_env e0 -> runs_from e0 w -> idle (w_st w) ->
  wp (ConsumeClaim pipeline arms) (λ r w', runs_from e0 w' /\ idle (w_st w') /\
    grows (w_st w) (w_st w') /\ claim_done e0 (arm_messages arms) (w_st w) r (w_st w')) w.
Proof.
  intros Hmax He. revert w. induction arms as [|[m| |] arms IH]; intros w Hr Hi; cbn [ConsumeClaim arm_messages].
  1,3,4: apply wp_ret; split_and!; [done|done|apply grows_refl|]; exists [];
    (split_and!; [by rewrite app_nil_r|done|constructor|done]).
  apply wp_bind. eapply wp_mono; [by apply message_settled|]. intros r w1 (Hr1 & Hi1 & Hg1 & Hs).
  destruct Hs as [(-> & Hm & Ha)|[Hm [[e ->]|[-> (n & c & Hc)]]]].
  - eapply wp_mono; [by apply IH|]. intros r w2 (Hr2 & Hi2 & Hg2 & taken & Ht & Hsub & Hall & Hctx).
    split_and!; [done|done|by eapply grows_trans|]. exists (m :: taken). split_and!.
    + rewrite Ht. unfold marked. rewrite Hm. simpl. by rewrite <- app_assoc.
    + by apply sublist_skip.
    + constructor; [by eapply accounted_grows|done].
    + intros Hn. specialize (Hctx Hn). destruct r as [[[e|]|v]|]; [|by subst..].
      destruct Hctx as (m' & rest & ->). by exists m', rest.
  - apply wp_ret. split_and!; [done|done|done|]. exists []. split_and!.
    + unfold marked. by rewrite Hm, app_nil_r.
    + apply sublist_nil_l.
    + constructor.
    + intros _. by exists m, (arm_messages arms).
  - eapply wp_mono; [by apply IH|]. intros r w2 (Hr2 & Hi2 & Hg2 & taken & Ht & Hsub & Hall & Hctx).
    split_and!; [done|done|by eapply grows_trans|]. exists taken.
    split_and!; [rewrite Ht; unfold marked; by rewrite Hm| |done|].
    + by apply sublist_cons.
    + intros Hn. by rewrite Hn in Hc.
Qed.
(** A session of the group whose claims receive these arms, and what
    ConsumerGroup.Consume returned. *)
Definition claims_session (run : list (list claim_arm) * option error) : group_session (St := St) :=
  λ handler, for_each run.1 (λ arms, ConsumeClaim handler arms ;;! mret (None (A := unit))) ;;! mret run.2.

(** *** What a broker delivers

    [logs] are the messages of each partition. A claim starts at the group's
    offset, or behind it when the last marks were not committed, and at the
    oldest message when there is none. It gets the following messages one by
    one, and then its session ends. *)
Record delivery := {
  dv_partition : string * Z;
  dv_behind : nat;       (* how far behind the marked offset it starts *)
  dv_count : nat;        (* how many messages arrive before the session ends *)
  dv_end : claim_arm     (* [ArmClosed] or [ArmDone] *)
}.

Section Broker.
Variable logs : string * Z -> list ConsumerMessage.

Record logs_ok : Prop := {
  lo_home p m : m ∈ logs p -> partition_of m = p;
  lo_sorted p : StronglySorted (λ m m', cm_Offset m < cm_Offset m') (logs p)
}.

(** The first offset a claim asks for; [None] is the oldest. *)
Definition claim_start (d : delivery) (s : session) : option Z :=
  (λ o, o - Z.of_nat (dv_behind d)) <$> se_offsets s !! dv_partition d.

Definition at_or_after (start : option Z) (m : ConsumerMessage) : Prop :=
  match start with Some o => o <= cm_Offset m | None => True end.

#[local] Instance at_or_after_dec start m : Decision (at_or_after start m).
Proof. destruct start; simpl; apply _. Defined.

Definition claim_messages (d : delivery) (s : session) : list ConsumerMessage :=
  take (dv_count d) (filter (at_or_after (claim_start d s)) (logs (dv_partition d))).

(** A message was left: the handler returned, and nothing was marked. *)
Definition left_behind (r : returned) (s s' : session) : bool :=
  match r with Returns None => bool_decide (length (se_marked s') = length (se_marked s)) | _ => false end.

(** The arms ConsumeClaim sees from the world [w] on. A message is only left
    when the session has ended; its end is then the next arm. *)
Fixpoint claim_arms (handler : MessageHandler St) (msgs : list ConsumerMessage) (last : claim_arm)
    (w : world St) : list claim_arm :=
  match msgs with
  | [] => [last]
  | m :: msgs =>
      let '(r, w') := handleMessage handler m w in
      ArmMessage m ::
        (if left_behind r (sess (w_st w)) (sess (w_st w')) then [ArmDone]
         else claim_arms handler msgs last w')
  end.

Definition broker_claim (handler : MessageHandler St) (d : delivery) : M St (option returned) := λ w,
  ConsumeClaim handler (claim_arms handler (claim_messages d (sess (w_st w))) (dv_end d) w) w.

Definition broker_session (run : list delivery * option error) : group_session (St := St) :=
  λ handler, for_each run.1 (λ d, broker_claim handler d ;;! mret (None (A := unit))) ;;! mret run.2.

Definition ends (d : delivery) : Prop := dv_end d = ArmClosed \/ dv_end d = ArmDone.

(** Every message below the group's offset is accounted for. *)
Definition none_lost (s : St) : Prop :=
  forall p m, m ∈ logs p -> passed m s -> accounted m s.

Definition none_lost_run (e0 : env) (w : world St) : Prop :=
  runs_from e0 w /\ idle (w_st w) /\ none_lost (w_st w).

Lemma passed_mark m m' s s' :
  sess s' = mark_message m (sess s) -> passed m' s' ->
  passed m' s \/ (partition_of m' = partition_of m /\ cm_Offset m' <= cm_Offset m).
Proof.
  intros Hs (o & Ho & Hlt). unfold passed. rewrite Hs in Ho. simpl in Ho.
  destruct (decide (partition_of m' = partition_of m)) as [Hp|Hp].
  - rewrite Hp, lookup_partial_alter_eq in Ho. injection Ho as <-. rewrite Hp.
    destruct (se_offsets (sess s) !! partition_of m) as [o|]; [|right; split; [done|lia]].
    destruct (decide (cm_Offset m' < o)); [left; by exists o|right; split; [done|lia]].
  - rewrite lookup_partial_alter_ne in Ho by done. left. by exists o.
Qed.

Lemma offsets_differ (l : list ConsumerMessage) m m' :
  StronglySorted (λ m m', cm_Offset m < cm_Offset m') l -> m ∈ l -> m' ∈ l ->
  cm_Offset m = cm_Offset m' -> m = m'.
Proof.
  induction 1 as [|x l _ IH Hx]; [by intros ?%elem_of_nil|]. rewrite Forall_forall in Hx.
  rewrite !elem_of_cons. intros [->|Hm] [->|Hm'] Heq; [done| | |by apply IH].
  - specialize (Hx _ Hm'). lia.
  - specialize (Hx _ Hm). lia.
Qed.

Section Accounting.
Variable e0 : env.
Hypothesis Hlogs : logs_ok.
Hypothesis Hmax : cc_MaxRetries cfg < max_i64.
Hypothesis He : foreign_env e0.

(** The messages of [p] before those still to come are passed or accounted. *)
Definition up_to (p : string * Z) (msgs : list ConsumerMessage) (s : St) : Prop :=
  forall m m', m ∈ msgs -> m' ∈ logs p -> cm_Offset m' < cm_Offset m -> m' ∈ msgs \/ accounted m' s.

Lemma claim_accounted p msgs last w :
  last = ArmClosed \/ last = ArmDone -> (forall m, m ∈ msgs -> m ∈ logs p) ->
  StronglySorted (λ m m', cm_Offset m < cm_Offset m') msgs -> up_to p msgs (w_st w) ->
  none_lost_run e0 w ->
  wp (ConsumeClaim pipeline (claim_arms pipeline msgs last w)) (λ _ w', none_lost_run e0 w') w.
Proof.
  intros Hlast. revert w. induction msgs as [|m msgs IH]; intros w Hin Hsort Hup (Hr & Hi & Hn).
  { simpl. by destruct Hlast as [-> | ->]; apply wp_ret. }
  assert (Hs := message_settled e0 m w Hmax He Hr Hi). unfold wp in Hs. cbn [claim_arms].
  unfold wp. destruct (handleMessage pipeline m w) as [r w1] eqn:Em. simpl in Hs. cbn [ConsumeClaim].
  unfold mbind at 1. rewrite Em. destruct Hs as (Hr1 & Hi1 & Hg1 & Hs).
  assert (Hkeep : sess (w_st w1) = sess (w_st w) -> none_lost_run e0 w1).
  { intros Heq. split_and!; [done|done|]. intros p' m' Hm' (o & Ho & Hlt). eapply accounted_grows; [done|].
    apply (Hn p'); [done|]. exists o. by rewrite <- Heq. }
  apply StronglySorted_inv in Hsort as [Hsort Hhead]. rewrite Forall_forall in Hhead.
  destruct Hs as [(-> & Hm & Ha)|[Hm [[e ->]|[-> _]]]].
  - assert (left_behind (Returns None) (sess (w_st w)) (sess (w_st w1)) = false) as ->.
    { unfold left_behind. rewrite Hm. simpl. rewrite length_app. simpl. apply bool_decide_false. lia. }
    apply (IH w1); [set_solver|done| |].
    + intros x y Hx Hy Hlt. destruct (Hup x y) as [Hy'|Hy']; [by right|done|done| |].
      * apply elem_of_cons in Hy' as [->|Hy']; [by right|by left].
      * right. by eapply accounted_grows.
    + split_and!; [done|done|]. intros p' m' Hm' Hpass. destruct (passed_mark _ _ _ _ Hm Hpass) as [Hp|[Hp Hle]].
      * eapply accounted_grows; [done|]. by apply (Hn p').
      * assert (p' = p) as ->.
        { rewrite <- (lo_home Hlogs p' m' Hm'), Hp. apply (lo_home Hlogs), Hin. by left. }
        destruct (decide (cm_Offset m' = cm_Offset m)) as [Heq|Hne].
        { assert (m' = m) as -> by (eapply offsets_differ; [apply (lo_sorted Hlogs p)|done|apply Hin; by left|done]).
          done. }
        destruct (Hup m m') as [Hy|Hy]; [by left|done|lia| |by eapply accounted_grows].
        apply elem_of_cons in Hy as [->|Hy]; [done|]. specialize (Hhead _ Hy). simpl in Hhead. lia.
  - by apply Hkeep.
  - rewrite Hm. unfold left_behind. rewrite bool_decide_true by done. simpl. by apply Hkeep.
Qed.
(** Sorted messages: those taken come before those that are not. *)
Lemma sorted_take_before n (l : list ConsumerMessage) m m' :
  StronglySorted (λ m m', cm_Offset m < cm_Offset m') l -> m ∈ take n l -> m' ∈ l ->
  cm_Offset m' < cm_Offset m -> m' ∈ take n l.
Proof.
  intros H. revert n. induction H as [|x l _ IH Hx]; intros [|n]; simpl; [by intros ?%elem_of_nil..|].
  rewrite Forall_forall in Hx. rewrite !elem_of_cons. intros [->|Hm] [->|Hm'] Hlt; [by left| |by left|].
  - specialize (Hx _ Hm'). lia.
  - right. by apply IH.
Qed.

Lemma broker_claim_accounted d w : ends d -> none_lost_run e0 w ->
  wp (broker_claim pipeline d) (λ _ w', none_lost_run e0 w') w.
Proof.
  intros Hd Hw. unfold broker_claim, claim_messages.
  set (start := claim_start d (sess (w_st w))). set (p := dv_partition d).
  assert (Hsort := StronglySorted_filter _ (at_or_after start) _ (lo_sorted Hlogs p)).
  apply (claim_accounted p); [done| | | |done].
  - intros m Hm. apply (subseteq_take _ _), list_elem_of_filter in Hm as [_ Hm]. done.
  - by apply StronglySorted_take.
  - intros m m' Hm Hm' Hlt. destruct (decide (at_or_after start m')) as [Ha|Ha].
    + left. eapply sorted_take_before; [done|exact Hm| |done]. by apply list_elem_of_filter.
    + right. destruct Hw as (_ & _ & Hn). apply (Hn p); [done|]. unfold passed.
      rewrite (lo_home Hlogs p m' Hm'). unfold start, claim_start, at_or_after in Ha. fold p in Ha.
      destruct (se_offsets (sess (w_st w)) !! p) as [o|]; simpl in Ha; [|done]. exists o. split; [done|lia].
Qed.

Lemma session_accounted run w : Forall ends run.1 -> none_lost_run e0 w ->
  wp (broker_session run pipeline) (λ _ w', none_lost_run e0 w') w.
Proof.
  intros Hends Hw. unfold broker_session. apply wp_bind. eapply wp_mono.
  - apply (wp_for_each run.1 _ (λ _ w', none_lost_run e0 w') (λ _ w', none_lost_run e0 w')); [done|].
    intros done d rest w1 Heq Hw1. apply wp_bind. eapply wp_mono; [apply broker_claim_accounted; [|exact Hw1]|].
    + rewrite Forall_forall in Hends. apply Hends. rewrite Heq. set_solver.
    + intros r w2 Hw2. by apply wp_ret.
  - intros [[]|] w1 Hw1; by apply wp_ret.
Qed.

Lemma none_lost_tick w : none_lost_run e0 w -> none_lost_run e0 (World (tick (w_env w)) (w_st w)).
Proof. intros (Hr & Hi & Ha). split_and!; [by apply runs_from_tick|done|done]. Qed.

Lemma run_accounted sessions w : Forall (λ run, Forall ends run.1) sessions -> none_lost_run e0 w ->
  wp (consumer_Run blockTtl consumerGroup cfg (map broker_session sessions)) (λ _ w', none_lost_run e0 w') w.
Proof.
  unfold consumer_Run, Consume. fold (wrapped cfg (market_handler blockTtl consumerGroup)).
  intros Hends. revert w. induction Hends as [|run sessions Hrun _ IH]; intros w Hw; simpl; [by apply wp_ret|].
  apply wp_bind. eapply wp_mono; [by apply session_accounted|]. intros [err|] w1 Hw1.
  - destruct (is_sent _ err); [by apply wp_ret|]. destruct (is_sent _ err); [by apply IH|by apply wp_ret].
  - apply wp_bind, wp_ask. apply none_lost_tick in Hw1.
    destruct (e_ctx _ _); [by apply wp_ret|by apply IH].
Qed.
End Accounting.

(** C12 No market event is lost.  However often the consumer is restarted,
    sessions end, claims start again at or behind the group's offset and calls
    fail: every message of a partition's log below the offset up to which the
    group has marked it - so that no later session sees it again - has its
    event in the inbox as processed, or is in the dead-letter topic with its
    key and payload, or - without such a topic - could not be decoded.  This
    is for claims that take the end of their session when a message is left:
    [stopped_claim_passes_over] shows what happens when the select takes
    another message instead. *)
Theorem market_events_not_lost (runs : list (list (list delivery * option error))) w :
  logs_ok -> cc_MaxRetries cfg < max_i64 -> foreign_env (w_env w) -> idle (w_st w) ->
  se_offsets (sess (w_st w)) = ∅ -> Forall (Forall (λ run, Forall ends run.1)) runs ->
  wp (consumer_service blockTtl consumerGroup cfg (map (map broker_session) runs))
    (λ _ w', forall p m, m ∈ logs p -> passed m (w_st w') -> accounted m (w_st w')) w.
Proof.
  intros Hlogs Hmax He Hi Hm Hends. set (e0 := w_env w) in *.
  assert (Hw : none_lost_run e0 w).
  { split_and!; [by exists 0%nat|done|]. intros p m _ (o & Ho & _). rewrite Hm in Ho. by rewrite lookup_empty in Ho. }
  clearbody e0. clear Hi Hm. eapply (wp_mono _ (λ _ w', none_lost_run e0 w')); [|by intros _ w' (_ & _ & ?)].
  revert w Hw. induction Hends as [|l runs Hl _ IH]; intros w Hw; simpl; [by apply wp_ret|].
  apply wp_bind. eapply wp_mono; [by apply run_accounted|]. intros [[err|]|] w1 Hw1; [|by apply wp_ret..].
  apply wp_bind, wp_ask. apply none_lost_tick in Hw1. destruct (e_ctx _ _); [by apply wp_ret|].
  apply wp_bind, wp_ask. apply none_lost_tick in Hw1. destruct (e_ctx _ _); [by apply wp_ret|by apply IH].
Qed.
End Broker.

(** C13 While no context ends, a claim marks its messages in order and stops at
    the first one it cannot account for: the marked messages are a prefix of
    those received, all of them when no error is returned. *)
Theorem market_claim_in_order arms w :
  cc_MaxRetries cfg < max_i64 -> foreign_env (w_env w) -> (forall n, e_ctx (w_env w) n = None) ->
  idle (w_st w) ->
  wp (ConsumeClaim pipeline arms) (λ r w', exists taken,
    marked (w_st w') = marked (w_st w) ++ taken /\ Forall (λ m, accounted m (w_st w')) taken /\
    match r with
    | Some (Returns (Some _)) => exists m rest, arm_messages arms = taken ++ m :: rest
    | _ => taken = arm_messages arms
    end) w.
Proof.
  intros Hmax He Hctx Hi. eapply wp_mono; [apply (claim_spec (w_env w)); [done|done|by exists 0%nat|done]|].
  intros r w' (_ & _ & _ & taken & Ht & _ & Hall & Hr). exists taken. split_and!; [done|done|by apply Hr].
Qed.
End Claims.

(** ** Closed instances *)

Section Witness.
#[local] Existing Instance MemRedis.mem_redis.
#[local] Existing Instance DecLib.
#[local] Existing Instance IntDec.
#[local] Existing Instance IntPrice.
#[local] Existing Instance MicroPg.
#[local] Existing Instance MicroPg_laws.
#[local] Existing Instance IntLua.
#[local] Existing Instance IdTime.
#[local] Existing Instance TextProto.
#[local] Existing Instance IdOtel.

Lemma TextProto_foreign : ForeignCodec TextProto.
Proof.
  split; [|done|done]. intros s e. unfold unmarshal_MarketStateChanged, TextProto.
  destruct (text_decode s); [done|]. by intros [= <-].
Qed.
#[local] Existing Instance TextProto_foreign.

Notation demo_state := (pg OrderDB * (gmap string (string * option Z) * (kafka * session)))%type.

Definition demo_market_message (offset : Z) (value : string) : ConsumerMessage := {|
  cm_Headers := [None; Some (Some "traceparent", "t")]; cm_Timestamp := 0; cm_BlockTimestamp := 0;
  cm_Key := "9"; cm_Value := value; cm_Topic := "markets"; cm_Partition := 0; cm_Offset := offset |}.

(** The event that disables the market of the saved order, and bytes that are
    no event. *)
Definition demo_good : ConsumerMessage :=
  demo_market_message 1 match Marshal demo_event with Ok s => s | Err _ => "" end.
Definition demo_bad : ConsumerMessage := demo_market_message 2 "?".

Definition demo_consumer (e : env) : world demo_state :=
  World e (Pg (db_of (w_st demo_saved)) TxNone, (∅, (Kafka [], {| se_marked := []; se_offsets := ∅ |}))).

Definition demo_env : env := Nat.iter 100 tick quiet_env.

Definition demo_consumer_cfg : consumer_config := {|
  cc_DLQEnabled := true; cc_DLQMaxMessageBytes := 1000; cc_MaxRetries := 1; cc_DLQTopic := "markets.dlq" |}.

Definition demo_logs (p : string * Z) : list ConsumerMessage :=
  if decide (p = ("markets", 0)) then [demo_good; demo_bad] else [].

Definition demo_delivery (n : nat) : delivery := {|
  dv_partition := ("markets", 0); dv_behind := 0; dv_count := n; dv_end := ArmDone |}.

(** The first session ends after one message; the second starts at the group's
    offset. *)
Definition demo_runs : list (list (list delivery * option error)) :=
  [[([demo_delivery 1], None); ([demo_delivery 5], None)]].

Definition demo_service (cfg : consumer_config) : M demo_state unit :=
  consumer_service 60000000000 "g" cfg (map (map (broker_session demo_logs)) demo_runs).

(** The event is compensated and the other message is in the dead-letter
    topic. *)
Example demo_consumed :
  let s := w_st (demo_service demo_consumer_cfg (demo_consumer demo_env)).2 in
  marked s = [demo_good; demo_bad] /\ se_offsets (sess s) = {[("markets", 0) := 3]} /\
  kr_value <$> log s = ["?"] /\
  ie_Status <$> db_inbox (db s) !! (50%N, "g") = Some InboxEventStatusProcessed.
Proof. vm_compute. split_and!; reflexivity. Qed.

Lemma demo_consumer_idle e : idle (w_st (demo_consumer e)).
Proof. split; [done|]. intros k row Hrow. vm_compute in Hrow. discriminate. Qed.

Lemma demo_foreign_env : foreign_env (w_env (demo_consumer demo_env)).
Proof. split; [by intros n x [?|?]|done]. Qed.

Lemma demo_logs_ok : logs_ok demo_logs.
Proof.
  split.
  - intros p m. unfold demo_logs. case_decide as Hp; [|by intros ?%elem_of_nil].
    subst p. rewrite !elem_of_cons, elem_of_nil. by intros [->|[->|[]]].
  - intros p. unfold demo_logs. case_decide; repeat constructor.
Qed.

Lemma market_events_not_lost_witness :
  wp (demo_service demo_consumer_cfg)
    (λ _ w', forall p m, m ∈ demo_logs p -> passed m (w_st w') ->
       accounted "g" demo_consumer_cfg m (w_st w'))
    (demo_consumer demo_env).
Proof.
  apply (market_events_not_lost 60000000000 "g" demo_consumer_cfg demo_logs demo_runs (demo_consumer demo_env)).
  - exact demo_logs_ok.
  - reflexivity.
  - exact demo_foreign_env.
  - apply demo_consumer_idle.
  - reflexivity.
  - repeat first [by right | constructor].
Defined.

Lemma market_claim_in_order_witness :
  wp (ConsumeClaim (wrapped demo_consumer_cfg (market_handler 60000000000 "g"))
        [ArmMessage demo_good; ArmMessage demo_bad]) (λ r w', exists taken,
    marked (w_st w') = marked (w_st (demo_consumer demo_env)) ++ taken /\
    Forall (λ m, accounted "g" demo_consumer_cfg m (w_st w')) taken /\
    match r with
    | Some (Returns (Some _)) => exists m rest, [demo_good; demo_bad] = taken ++ m :: rest
    | _ => taken = [demo_good; demo_bad]
    end) (demo_consumer demo_env).
Proof.
  apply (market_claim_in_order 60000000000 "g" demo_consumer_cfg
    [ArmMessage demo_good; ArmMessage demo_bad] (demo_consumer demo_env)).
  - reflexivity.
  - exact demo_foreign_env.
  - reflexivity.
  - apply demo_consumer_idle.
Defined.

(** When the context ends during a retry the claim goes on to the next arm of
    its select. When that is another message, marking it moves the group's
    offset past the first one, which is not accounted for: here without a
    dead-letter topic and with a message that cannot be decoded. *)
Theorem stopped_claim_passes_over :
  let no_dlq := {| cc_DLQEnabled := false; cc_DLQMaxMessageBytes := 0; cc_MaxRetries := 1; cc_DLQTopic := "" |} in
  let e := Env (λ _, FBefore (ESentinel CtxCanceled)) (λ _, Some (ESentinel CtxCanceled))
             (λ _, 0) (λ _, 0) (λ _, 0) (λ n, N.of_nat n) 0 in
  let s := w_st (consumer_service 60000000000 "g" no_dlq
    (map (map claims_session) [[([[ArmMessage demo_good; ArmMessage demo_bad; ArmDone]], None)]])
    (demo_consumer e)).2 in
  foreign_env e /\ marked s = [demo_bad] /\ passed demo_good s /\ ~ accounted "g" no_dlq demo_good s.
Proof.
  cbv zeta. set (s := w_st _).
  assert (Hs : db s = db_of (w_st demo_saved) /\ marked s = [demo_bad] /\
    se_offsets (sess s) !! partition_of demo_good = Some 3) by (vm_compute; split_and!; reflexivity).
  destruct Hs as (Hd & Hm & Ho). clearbody s. split_and!; [|done| |].
  - split; [intros n x [[= <-]|?]|intros n x [= <-]]; done.
  - by exists 3.
  - intros [(ev & _ & row & Hrow & _)|[[? _]|[_ Hu]]]; [|done|vm_compute in Hu; discriminate].
    rewrite Hd in Hrow. assert (Hn : db_inbox (db_of (D := OrderDB) (w_st demo_saved)) = ∅) by (vm_compute; reflexivity).
    rewrite Hn in Hrow. by rewrite lookup_empty in Hrow.
Qed.
End Witness.
