(* ===== verification/CompensationLive.v ===== *)
(** * Market compensation when nothing fails
      (orderService/internal/services/order/compensation_service.go)

    [Compensation] says what a delivery may leave behind under any failures;
    here its calls are answered, identifiers are new, and processing an event
    that was not processed before succeeds, commits and hands the market's
    state to Redis, where it meets the last-writer-wins register of
    [MarketBlock]. *)

From S2P Require Import Prelude GoStrings GoErrors Effects Redis Pg Kafka Outbox Domain Events OrderDb MarketBlock OrderService OrderCorrect Compensation.
Local Open Scope string_scope.
Local Open Scope list_scope.
Local Open Scope Z_scope.

(** ** The transaction *)

Section Transaction.
Context {St : Type} `{PT : PgTypes} `{!PgTypesLaws PT} `{DL : DecimalLib} `{PC : PriceColumn}
  `{U : GoLib} `{TT : PbTime} `{PB : !ProtoCodec} `{HD : !Has (pg OrderDB) St}.

(** proto.Marshal accepts every status update. *)
Definition status_marshal_total : Prop :=
  forall upd, exists payload, MarshalOrderStatusUpdated upd = Ok payload.

(** The next identifiers are in none of the tables' unique columns. *)
Definition fresh_rows (v : env) (d : OrderDB) : Prop :=
  fresh_ids v (db_outbox d) /\
  forall n, (e_tick v <= n)%nat -> has_inbox_id (e_uuid v n) (db_inbox d) = false.

Lemma fresh_rows_later k v d : fresh_rows v d -> fresh_rows (Nat.iter k tick v) d.
Proof.
  intros [Ho Hi]. split; [by apply fresh_ids_later|]. destruct (iter_tick_clocks k v) as (_ & _ & -> & ->).
  intros n Hn. apply Hi. lia.
Qed.

Lemma publishCancelled_ok event ids d0 now d w :
  status_marshal_total -> no_faults (w_env w) -> prj (w_st w) = Pg d0 (TxOpen now d) ->
  fresh_ids (w_env w) (db_outbox d) ->
  wp (publishCancelledOrderEvents event ids) (λ r w', r = None /\ exists t k,
    prj (w_st w') = Pg d0 (TxOpen now (set_outbox t d)) /\ w_env w' = Nat.iter k tick (w_env w) /\
    fresh_ids (w_env w') t) w.
Proof.
  intros Hmar Hnf Hp Hfr. eapply wp_mono.
  - apply (wp_for_each ids _ (λ _ w', exists t k, prj (w_st w') = Pg d0 (TxOpen now (set_outbox t d)) /\
      w_env w' = Nat.iter k tick (w_env w) /\ fresh_ids (w_env w') t) (λ _ _, False)).
    { exists (db_outbox d), 0%nat. split; [rewrite Hp; by destruct d|done]. }
    intros done id rest w1 _ (t & k & Hp1 & Hk & Hfr1). wp_steps. unfold ProduceOrderStatusUpdated.
    set (upd := Build_OrderStatusUpdatedEvent _ _ _ _ _ _). destruct (Hmar upd) as [payload ->].
    unfold buildOrderStatusUpdatedOutboxEvent, SaveOutboxEvent. do 4 (wp_step; simpl). apply wp_bind, wp_bind.
    set (n := e_tick (w_env w1)) in *. set (u := e_uuid (w_env w1)) in *.
    set (ev := new_outbox_event _ _ _ _ _). destruct Hfr1 as [Hinj Hnew].
    destruct (sql_insert_fresh ev now t) as [t1 Ht1].
    { destruct (t !! oe_ID ev) as [e|] eqn:E; [|done]. exfalso. by destruct (Hnew (S (S n)) _ e ltac:(lia) E). }
    { intros i e He. simpl. apply (Hnew n i e); [lia|done]. }
    pose proof (insert_event_Ok _ _ _ _ Ht1) as (stored & -> & _ & _ & _ & _ & _ & _ & _ & _ & Hst).
    eapply wp_tx_Exec_ok; [by rewrite Hk; apply no_faults_ticks|exact Hp1|unfold on_outbox; simpl; by rewrite Ht1|].
    intros w2 He2 Hw2. wp_steps. exists (<[oe_ID ev := stored]> t), (4 + k)%nat.
    split; [exact Hw2|]. split; [by rewrite He2, Hk|]. rewrite He2. unfold fresh_ids. simpl. fold n u.
    eapply fresh_on_mono; [|apply (fresh_on_insert (λ m, n <= m)%nat u t (S (S n)) n stored); [by split|lia|lia|done]].
    intros m Hm. simpl. lia.
  - intros [e|] w'; [done|]. by split.
Qed.

Lemma applyCompensation_ok event d0 now d w :
  status_marshal_total -> no_faults (w_env w) -> prj (w_st w) = Pg d0 (TxOpen now d) ->
  fresh_ids (w_env w) (db_outbox d) ->
  wp (applyCompensationTransaction event) (λ r w', r = Ok tt /\ exists d1 k,
    prj (w_st w') = Pg d0 (TxOpen now d1) /\ db_inbox d1 = db_inbox d /\
    w_env w' = Nat.iter k tick (w_env w) /\ fresh_ids (w_env w') (db_outbox d1)) w.
Proof.
  intros Hmar Hnf Hp Hfr. unfold applyCompensationTransaction. destruct (negb _).
  { apply wp_ret. split; [done|]. by exists d, 0%nat. }
  unfold CancelActiveOrdersByMarket. apply wp_bind, wp_bind.
  eapply wp_tx_Exec_ok; [done|exact Hp|done|]. intros w1 He1 Hw1. wp_steps.
  eapply wp_mono; [eapply publishCancelled_ok; [done|by rewrite He1|exact Hw1|]|].
  { rewrite He1. by apply (fresh_ids_later 1). }
  intros r w2 (-> & t & k & Hw2 & Hk & Hfr2). wp_steps. split; [done|].
  eexists _, (k + 1)%nat. split_and!; [exact Hw2|done|by rewrite Hk, He1, Nat.iter_add|done].
Qed.

Lemma has_inbox_id_insert (id : UUID) (key : UUID * string) (row : InboxEvent) (t : gmap (UUID * string) InboxEvent) :
  has_inbox_id id (<[key := row]> t) = true -> ie_ID row = id \/ has_inbox_id id t = true.
Proof.
  unfold has_inbox_id. intros (e & He & Hid)%existsb_exists. apply bool_decide_eq_true in Hid.
  rewrite <- list_elem_of_In in He. apply elem_of_values in He as [k Hk].
  apply lookup_insert_Some in Hk as [[_ <-]|[_ Hk]]; [by left|right].
  apply existsb_exists. exists e. rewrite <- list_elem_of_In. split; [apply elem_of_values; by exists k|].
  by apply bool_decide_eq_true.
Qed.

Lemma inbox_id_of (key : UUID * string) (row : InboxEvent) (t : gmap (UUID * string) InboxEvent) :
  t !! key = Some row -> has_inbox_id (ie_ID row) t = true.
Proof.
  intros Hr. apply existsb_exists. exists row. rewrite <- list_elem_of_In.
  split; [apply elem_of_values; by exists key|by apply bool_decide_eq_true].
Qed.

(** The event's row is new or failed, and becomes the row being processed. *)
Definition unprocessed (key : UUID * string) (d : OrderDB) : Prop :=
  forall row, db_inbox d !! key = Some row -> ie_Status row = InboxEventStatusFailed.

Lemma BeginProcessing_ok ev d0 now d w :
  no_faults (w_env w) -> prj (w_st w) = Pg d0 (TxOpen now d) -> unprocessed (inbox_key ev) d ->
  has_inbox_id (ie_ID ev) (db_inbox d) = false ->
  wp (BeginProcessing ev) (λ r w', exists st row, r = Ok (true, st) /\
    prj (w_st w') = Pg d0 (TxOpen now (set_inbox (<[inbox_key ev := row]> (db_inbox d)) d)) /\
    ie_Status row = InboxEventStatusProcessing /\
    (ie_ID row = ie_ID ev \/ has_inbox_id (ie_ID row) (db_inbox d) = true) /\
    w_env w' = tick (w_env w)) w.
Proof.
  intros Hnf Hp Hun Hid. unfold BeginProcessing, tryStartProcessing. apply wp_bind, wp_bind.
  assert (Hs : exists st row, sql_begin_inbox ev now d =
      (Ok [st], set_inbox (<[inbox_key ev := row]> (db_inbox d)) d) /\
      ie_Status row = InboxEventStatusProcessing /\
      (ie_ID row = ie_ID ev \/ has_inbox_id (ie_ID row) (db_inbox d) = true)).
  { unfold sql_begin_inbox. destruct (db_inbox d !! inbox_key ev) as [row|] eqn:Er.
    - rewrite bool_decide_true by by apply Hun. eexists _, _. split; [reflexivity|]. split; [done|]. right.
      exact (inbox_id_of _ _ _ Er).
    - rewrite Hid. eexists _, _. split; [reflexivity|]. split; [done|by left]. }
  destruct Hs as (st & row & Hs & Hst & Hrow).
  eapply wp_tx_Exec_ok; [done|exact Hp|exact Hs|]. intros w1 He1 Hw1. wp_steps. by exists st, row.
Qed.

Lemma MarkProcessed_ok id group row d0 now d w :
  no_faults (w_env w) -> prj (w_st w) = Pg d0 (TxOpen now d) -> db_inbox d !! (id, group) = Some row ->
  ie_Status row = InboxEventStatusProcessing ->
  wp (MarkProcessed id group) (λ r w', r = Ok tt /\ exists row',
    prj (w_st w') = Pg d0 (TxOpen now (set_inbox (<[(id, group) := row']> (db_inbox d)) d)) /\
    ie_ID row' = ie_ID row /\ w_env w' = tick (w_env w)) w.
Proof.
  intros Hnf Hp Hrow Hst. unfold MarkProcessed. apply wp_bind.
  eapply wp_tx_Exec_ok; [done|exact Hp| |].
  { unfold sql_mark_processed. by rewrite Hrow, bool_decide_true by done. }
  intros w1 He1 Hw1. wp_steps. split; [done|]. eexists. by split_and!.
Qed.
End Transaction.

(** ** The block state *)

Section Synchronize.
Context {St R : Type} `{HRd : Redis R} `{!RedisLaws R} `{U : GoLib} `{!UuidLaws U} `{L : LuaNumbers}
  `{!LuaNumbersLaws L} `{HR : !Has R St} `{TT : PbTime} `{PB : !ProtoCodec}.
Variable blockTtl : Z.

(** The time to live in milliseconds. *)
Definition ttl_ms : Z := Z.quot blockTtl 1000000.

(** The write to the market's register. *)
Definition register_after (event : MarketStateChangedEvent) (m : UUID) (s : Lww.register) : Lww.register :=
  if decide (mse_MarketID event = m)
  then Lww.write (UnixMilli (mse_UpdatedAt event)) (unavailable event) s else s.

(** The market's register, known to hold until [D]. *)
Definition register_at (m : UUID) (D : Z) (s : Lww.register) (w : world St) : Prop :=
  tracks (prj (w_st w)) (blockKey m) D (rnow w) s.

Lemma register_later m D s w w' k :
  calm (w_env w) -> w_env w' = Nat.iter k tick (w_env w) -> prj (X := R) (w_st w') = prj (w_st w) ->
  register_at m D s w -> register_at m D s w'.
Proof.
  intros [_ Hmono] Hk Hp Hr. unfold register_at, rnow in *. rewrite Hp, Hk.
  destruct (iter_tick_clocks k (w_env w)) as (-> & _ & _ & ->). eapply block_tracks_later, Hr. apply Hmono. lia.
Qed.

Lemma register_exact m D ts b w : register_at m D (Some (ts, b)) w -> lua_exact ts.
Proof. by intros []. Qed.

(** Past [D] nothing is claimed of a written register. *)
Lemma register_expired event s m D w w' :
  D <= rnow w' -> lua_exact (UnixMilli (mse_UpdatedAt event)) -> mse_MarketID event = m ->
  register_at m D s w -> register_at m D (register_after event m s) w'.
Proof.
  intros HD Hex Hm Hs. unfold register_at, register_after. rewrite decide_True by done.
  destruct s as [[ts b]|]; simpl; [|split; [done|lia]]. destruct Hs as [Hts _].
  destruct (_ <? _); (split; [done|lia]).
Qed.

(** Synchronizing an event of any market moves the register by at most that
    write. *)
Lemma trySynchronize_register event m D s w :
  calm (w_env w) -> 0 < ttl_ms -> lua_exact (UnixMilli (mse_UpdatedAt event)) ->
  D <= rnow w + ttl_ms -> register_at m D s w ->
  wp (trySynchronizeMarketBlockState blockTtl event) (λ _ w',
    (exists k, w_env w' = Nat.iter k tick (w_env w)) /\ register_at m D (register_after event m s) w') w.
Proof.
  intros Hcalm Hpos Hex HD Htr. pose proof Hcalm as [Hnf Hmono].
  unfold trySynchronizeMarketBlockState, synchronizeMarketBlockState, SynchronizeState.
  fold ttl_ms. apply wp_bind, wp_bind, wp_redis_call_ok; [done|]. intros t Ht. fold (rnow w) in Ht. subst t.
  assert (Hnext : rnow w <= e_rnow (w_env w) (S (e_tick (w_env w)))) by (apply Hmono; lia).
  destruct (decide (mse_MarketID event = m /\ rnow w < D)) as [[Hm HtD]|Hother].
  - unfold register_at, register_after in *. rewrite decide_True by done. subst m.
    destruct (script_write ttl_ms (blockKey (mse_MarketID event)) _ (unavailable event) (rnow w)
      (prj (w_st w)) D s Hpos Hex HtD HD Htr) as (n & r' & -> & Htr' & _). wp_steps.
    split; [by exists 1%nat|]. unfold rnow. simpl. rewrite prj_upd. by eapply block_tracks_later, Htr'.
  - set (run := synchronizeStateScript _ _ _ _ _ _).
    assert (Hrest : forall (r' : R) w', (exists k, w_env w' = Nat.iter (S k) tick (w_env w)) ->
      (mse_MarketID event <> m -> view r' (rnow w') (blockKey m) = view run.2 (rnow w') (blockKey m)) ->
      prj (w_st w') = r' -> (exists k, w_env w' = Nat.iter k tick (w_env w)) /\
        register_at m D (register_after event m s) w').
    { intros r' w' [k Hk] Hv Hr'. split; [by eexists|].
      assert (Hlater : rnow w <= rnow w').
      { unfold rnow. rewrite Hk. destruct (iter_tick_clocks (S k) (w_env w)) as (-> & _ & _ & ->). apply Hmono. lia. }
      destruct (decide (mse_MarketID event = m)) as [Hm|Hm].
      { eapply register_expired; [|done|done|exact Htr]. assert (~ rnow w < D) by tauto. lia. }
      unfold register_at, register_after. rewrite decide_False, Hr' by done.
      eapply tracks_same, block_tracks_later, Htr; [|done]. rewrite Hv by done.
      apply synchronize_other; [done|]. by intros ?%blockKey_inj. }
    clearbody run. destruct run as [[n|err] r']; simpl in *.
    { wp_steps. apply (Hrest r' (World _ _)); [by exists 0%nat|done|]. simpl. by rewrite prj_upd. }
    destruct (isCorruptedMarketBlockStateError err); wp_steps.
    + unfold invalidateCorruptedState, cache_Delete. apply wp_bind, wp_redis_call_ok; [done|]. intros t ->. wp_steps.
      eapply (Hrest _ (World _ _)); [by exists 1%nat| |simpl; by rewrite !prj_upd].
      intros Hm. rewrite DEL_view by (apply Hmono; simpl; lia). by rewrite decide_False by by intros ?%blockKey_inj.
    + apply (Hrest r' (World _ _)); [by exists 0%nat|done|]. simpl. by rewrite prj_upd.
Qed.
End Synchronize.

(** ** The whole of a delivery *)

Section Process.
Context {St R : Type} `{HRd : Redis R} `{!RedisLaws R} `{PT : PgTypes} `{!PgTypesLaws PT} `{DL : DecimalLib}
  `{PC : PriceColumn} `{U : GoLib} `{!UuidLaws U} `{L : LuaNumbers} `{!LuaNumbersLaws L} `{TT : PbTime}
  `{PB : !ProtoCodec}.
Context `{HD : !Has (pg OrderDB) St} `{HR : !Has R St} `{HA : !Apart R (pg OrderDB) St}
  `{HA2 : !Apart (pg OrderDB) R St}.
Variables (blockTtl : Z) (event : MarketStateChangedEvent) (consumerGroup : string).

Notation db w := (db_of (D := OrderDB) (w_st w)).

(** Identifiers that are new stay new after the delivery's inbox row. *)
Lemma fresh_inbox_insert (v : env) (n0 k : nat) (key : UUID * string) (row : InboxEvent) (t : gmap (UUID * string) InboxEvent) :
  (forall n m, (e_tick v <= n)%nat -> (e_tick v <= m)%nat -> e_uuid v n = e_uuid v m -> n = m) ->
  (forall n, (e_tick v <= n)%nat -> has_inbox_id (e_uuid v n) t = false) ->
  (e_tick v <= n0 < k + e_tick v)%nat -> ie_ID row = e_uuid v n0 \/ has_inbox_id (ie_ID row) t = true ->
  forall n, (e_tick (Nat.iter k tick v) <= n)%nat ->
    has_inbox_id (e_uuid (Nat.iter k tick v) n) (<[key := row]> t) = false.
Proof.
  destruct (iter_tick_clocks k v) as (_ & _ & -> & ->). intros Hinj Hfr Hn0 Hrow n Hn.
  apply not_true_is_false. intros [Hid|Hid]%has_inbox_id_insert.
  - destruct Hrow as [Hrow|Hrow].
    + rewrite Hrow in Hid. apply Hinj in Hid; lia.
    + rewrite Hid, Hfr in Hrow by lia. done.
  - rewrite Hfr in Hid by lia. done.
Qed.

(** A row inserted, then replaced under the same key. *)
Lemma fresh_inbox_replace (v : env) (key : UUID * string) (row row' : InboxEvent) (t : gmap (UUID * string) InboxEvent) :
  ie_ID row' = ie_ID row ->
  (forall n, (e_tick v <= n)%nat -> has_inbox_id (e_uuid v n) (<[key := row]> t) = false) ->
  forall n, (e_tick v <= n)%nat -> has_inbox_id (e_uuid v n) (<[key := row']> (<[key := row]> t)) = false.
Proof.
  intros Hid Hfr n Hn. specialize (Hfr n Hn). apply not_true_is_false. intros [Hx|Hx]%has_inbox_id_insert; [|congruence].
  assert (Ht : has_inbox_id (ie_ID row) (<[key := row]> t) = true) by (apply (inbox_id_of key), lookup_insert_eq).
  rewrite <- Hid, Hx in Ht. congruence.
Qed.

(** What the delivery is given: nothing fails, the next identifiers are new,
    and the event has not been processed. *)
Record delivery_ready (w : world St) : Prop := {
  dr_calm : calm (w_env w);
  dr_idle : tx_of (D := OrderDB) (w_st w) = TxNone;
  dr_fresh : fresh_rows (w_env w) (db w);
  dr_new : unprocessed (event_key event consumerGroup) (db w)
}.

Lemma wp_framed {A X} (p : St -> X) (m : M St A) P (Q : A -> world St -> Prop) w :
  frames p m -> wp m P w -> (forall a w', P a w' -> p (w_st w') = p (w_st w) -> Q a w') -> wp m Q w.
Proof. intros Hf Hm HQ. eapply wp_mono; [apply wp_conj; [exact Hm|apply Hf]|]. intros a w' [? ?]. by apply HQ. Qed.

Lemma frames_Begin ev : frames (prj (X := R)) (BeginProcessing (St := St) ev).
Proof. unfold BeginProcessing, tryStartProcessing, getCurrentStatus, tx_Exec. frame_solve. Qed.

Lemma frames_apply ev : frames (prj (X := R)) (applyCompensationTransaction (St := St) ev).
Proof.
  unfold applyCompensationTransaction, CancelActiveOrdersByMarket, publishCancelledOrderEvents,
    ProduceOrderStatusUpdated, buildOrderStatusUpdatedOutboxEvent, SaveOutboxEvent, tx_Exec. frame_solve.
Qed.

Lemma frames_Mark id group : frames (prj (X := R)) (MarkProcessed (St := St) id group).
Proof. unfold MarkProcessed, tx_Exec. frame_solve. Qed.

(** The transaction of a delivery succeeds and leaves Redis alone, until the
    block state is synchronized. *)
Lemma process_tx_ok topic payload (Q : result unit -> world St -> Prop) w :
  status_marshal_total -> delivery_ready w ->
  (forall k w1, w_env w1 = Nat.iter k tick (w_env w) -> prj (X := R) (w_st w1) = prj (w_st w) ->
     fresh_rows (w_env w1) (db w1) -> wp (trySynchronizeMarketBlockState blockTtl event ;;! mret (Ok tt)) Q w1) ->
  wp (ProcessMarketStateChanged blockTtl topic consumerGroup payload event) Q w.
Proof.
  intros Hmar [[Hnf _] Hidle [Hfo Hfi] Hnew] HQ. set (d := db w) in *.
  assert (Hp : prj (w_st w) = Pg d (TxNone (D := OrderDB))).
  { unfold d, db_of, tx_of in *. destruct (prj (w_st w)). simpl in *. by subst. }
  unfold ProcessMarketStateChanged. apply wp_bind.
  eapply (wp_framed (prj (X := R)) _ (λ r w1, r = Ok tt /\ exists now, w_env w1 = tick (w_env w) /\
    prj (w_st w1) = Pg d (TxOpen now d))); [apply frames_lift_pg| |].
  { eapply wp_tx_Begin_ok; [done|exact Hp|]. eauto. }
  intros r w1 (-> & now & He1 & Hw1) HR1. wp_steps. set (id := e_uuid (w_env w1) (e_tick (w_env w1))).
  eapply wp_framed; [apply frames_Begin| |].
  { eapply BeginProcessing_ok; [by rewrite He1|exact Hw1|done|].
    unfold id. rewrite He1. apply Hfi. simpl. lia. }
  intros r w2 (st & row & -> & Hw2 & Hst & Hrow & He2) HR2. simpl. apply wp_bind.
  eapply wp_framed; [apply frames_apply| |].
  { eapply applyCompensation_ok; [done|by rewrite He2, He1|exact Hw2|]. rewrite He2, He1. by apply (fresh_ids_later 3). }
  intros r w3 (-> & d1 & k & Hw3 & Hi1 & Hk & Hfr3) HR3. apply wp_bind.
  eapply wp_framed; [apply frames_Mark| |].
  { eapply (MarkProcessed_ok _ _ row); [rewrite Hk, He2, He1; by apply no_faults_ticks|exact Hw3| |done].
    rewrite Hi1. apply lookup_insert_eq. }
  intros r w4 (-> & row' & Hw4 & Hid & He4) HR4. apply wp_bind. unfold commitTransaction.
  eapply (wp_framed (prj (X := R)) _ (λ r w5, r = Ok tt /\ w_env w5 = tick (w_env w4) /\
    prj (w_st w5) = Pg _ (TxNone (D := OrderDB)))); [apply frames_lift_pg| |].
  { eapply wp_tx_Commit_ok; [rewrite He4, Hk, He2, He1; by apply (no_faults_ticks (S k))|exact Hw4|]. eauto. }
  intros r w5 (-> & He5 & Hw5) HR5. assert (He : w_env w5 = Nat.iter (2 + (k + 3)) tick (w_env w)).
  { rewrite Nat.iter_add, Nat.iter_add. simpl. by rewrite He5, He4, Hk, He2, He1. }
  apply (HQ (2 + (k + 3))%nat); [exact He|simpl in *; congruence|]. unfold db_of. rewrite Hw5. split; simpl.
  - rewrite He5, He4. by apply (fresh_ids_later 2).
  - rewrite Hi1, He. apply fresh_inbox_replace; [done|].
    apply (fresh_inbox_insert _ (S (e_tick (w_env w)))); [apply Hfo|exact Hfi|simpl; lia|].
    unfold id in Hrow. by rewrite He1 in Hrow.
Qed.

(** A delivery that nothing disturbs takes effect and leaves its successor the
    same conditions. *)
Lemma process_ok topic payload w :
  status_marshal_total -> delivery_ready w ->
  wp (ProcessMarketStateChanged blockTtl topic consumerGroup payload event) (λ r w', r = Ok tt /\
    tx_of (D := OrderDB) (w_st w') = TxNone /\ fresh_rows (w_env w') (db w') /\
    compensated event consumerGroup (db w) (db w')) w.
Proof.
  intros Hmar Hrd. pose proof Hrd as [Hcalm Hidle _ Hnew].
  assert (Hspec := process_spec blockTtl event consumerGroup topic payload w Hidle).
  assert (Hok : wp (ProcessMarketStateChanged blockTtl topic consumerGroup payload event)
    (λ r w', r = Ok tt /\ fresh_rows (w_env w') (db w')) w).
  { apply process_tx_ok; [done|done|]. intros k w1 He1 _ Hfr. apply wp_bind.
    eapply wp_mono; [apply wp_conj; [apply frames_trySynchronize|apply ticks_wp, ticks_trySynchronize]|].
    intros [] w2 [Hpg [j Hj]]. apply wp_ret. split; [done|]. unfold db_of in *. rewrite Hpg, Hj.
    by apply fresh_rows_later. }
  set (run := ProcessMarketStateChanged _ _ _ _ _) in *. clearbody run.
  eapply wp_mono; [exact (wp_conj _ _ _ _ Hok Hspec)|]. intros r w' [[-> Hfr] [Htx Ho]].
  split; [done|]. split; [done|]. split; [done|]. destruct Ho as [Ho|[_ (row & Hrow & Hne)]]; [done|].
  by rewrite (Hnew _ Hrow) in Hne.
Qed.

(** It moves the register of a market, known to hold until [D], by at most the
    event's write. *)
Lemma process_register topic payload m D s w :
  status_marshal_total -> delivery_ready w -> 0 < ttl_ms blockTtl ->
  lua_exact (UnixMilli (mse_UpdatedAt event)) -> D <= rnow w + ttl_ms blockTtl -> register_at m D s w ->
  wp (ProcessMarketStateChanged blockTtl topic consumerGroup payload event) (λ _ w',
    register_at m D (register_after event m s) w') w.
Proof.
  intros Hmar Hrd Hpos Hex HD0 Hr. apply process_tx_ok; [done|done|]. intros k w1 He1 Hp1 _.
  pose proof (dr_calm _ Hrd) as Hcalm. pose proof Hcalm as [_ Hmono].
  apply wp_bind. eapply wp_mono; [apply (trySynchronize_register blockTtl event m D s)|].
  - rewrite He1. by apply calm_ticks.
  - done.
  - done.
  - assert (rnow w <= rnow w1); [|lia]. unfold rnow. rewrite He1.
    destruct (iter_tick_clocks k (w_env w)) as (-> & _ & _ & ->). apply Hmono. lia.
  - by eapply register_later.
  - intros [] w2 [_ Hr2]. by apply wp_ret.
Qed.
End Process.
