(* ===== verification/EndToEnd.v ===== *)
(** * A market's change from the spot service's tables to the order service's

    The composition of the components: the poller announces the change in the
    outbox ([MarketPoller]), the spot service's worker publishes the row
    ([Outbox]), the order service's consumer takes the record from the log
    ([KafkaConsumer], [ConsumerCorrect]) and compensates ([CompensationLive]).
    When nothing fails, the orders of the markets that became unavailable are
    cancelled and no others, and the markets' block states are theirs. *)

From S2P Require Import Prelude GoStrings GoErrors Effects Redis Pg Kafka KafkaConsumer Outbox Domain Events OrderDb MarketBlock OrderService OrderCorrect Compensation SpotDb MarketView MarketPoller ConsumerCorrect CompensationLive.
Local Open Scope string_scope.
Local Open Scope list_scope.
Local Open Scope Z_scope.

(** ** The effect of several events *)

(** The order is active and of a market one of the events makes unavailable. *)
Definition hit (events : list MarketStateChangedEvent) (row : OrderRow) : bool :=
  existsb (λ event, unavailable event && cancellable (mse_MarketID event) row) events.

Definition hit_row (events : list MarketStateChangedEvent) (row : OrderRow) : OrderRow :=
  if hit events row then cancel_row row else row.

Lemma cancelled_not_hit events row : hit events (cancel_row row) = false.
Proof.
  induction events as [|event events IH]; simpl; [done|]. rewrite IH, orb_false_r.
  unfold cancellable. by rewrite andb_false_r, andb_false_r.
Qed.

Lemma hit_row_cons event events row : hit_row (event :: events) row = hit_row events (hit_row [event] row).
Proof.
  unfold hit_row. simpl. rewrite orb_false_r. destruct (unavailable event && _); simpl; [|done].
  by rewrite cancelled_not_hit.
Qed.

Lemma cancelled_orders_hit event d : cancelled_orders event d = hit_row [event] <$> db_orders d.
Proof.
  unfold cancelled_orders, hit_row, hit. simpl. destruct (unavailable event); simpl.
  - apply map_fmap_ext. intros i row _. by rewrite orb_false_r.
  - symmetry. rewrite <- (map_fmap_id (db_orders d)) at 2. by apply map_fmap_ext.
Qed.

(** ** One message *)

Section Message.
Context {St : Type} `{U : GoLib} `{O : Otel} `{HK : !Has kafka St} `{HS : !Has session St}.
Variables (cfg : consumer_config) (handler : MessageHandler St) (m : ConsumerMessage).

(** A handler that succeeds at once is called once, and its message marked. *)
Lemma handleMessage_ok (Q : world St -> Prop) w :
  cc_MaxRetries cfg < max_i64 ->
  wp (handler (received m)) (λ r w', r = Returns None /\ Q (World (w_env w') (mark m (w_st w')))) w ->
  wp (handleMessage (wrapped cfg handler) m) (λ r w', r = Returns None /\ Q w') w.
Proof.
  intros Hmax Hh. unfold handleMessage. apply wp_bind.
  eapply (wp_mono _ (λ r w', r = Returns None /\ Q (World (w_env w') (mark m (w_st w'))))).
  2: { intros r w' [-> HQ]. unfold handleMessageResult. simpl. unfold MarkMessage. wp_steps. by split. }
  assert (Hretry : wp (RetryMiddleware (cc_MaxRetries cfg) handler (received m))
    (λ r w', r = Returns None /\ Q (World (w_env w') (mark m (w_st w')))) w).
  { unfold RetryMiddleware. rewrite wrap_s64_small by (unfold in_i64, min_i64, max_i64 in *; lia).
    destruct (Z.to_nat (Z.max 0 (cc_MaxRetries cfg) + 1)) as [|n] eqn:E; [lia|]. simpl. apply wp_bind.
    eapply wp_mono; [exact Hh|]. intros r w' [-> HQ]. by apply wp_ret. }
  unfold wrapped, provideConsumerService, New, applyMiddlewares. rewrite foldr_cons, foldr_app.
  unfold PanicRecoveryMiddleware at 1. apply wp_bind. destruct (cc_DLQEnabled cfg); simpl.
  - unfold DLQMiddleware. apply wp_bind. eapply wp_mono; [exact Hretry|]. intros r w' [-> HQ]. by do 2 apply wp_ret.
  - eapply wp_mono; [exact Hretry|]. intros r w' [-> HQ]. by apply wp_ret.
Qed.
End Message.

(** ** A claim of market events *)

Lemma wp_forall {St A X} (m : M St A) (Q : X -> A -> world St -> Prop) w :
  (forall x, wp m (Q x) w) -> wp m (λ a w', forall x, Q x a w') w.
Proof. done. Qed.

Section Claim.
Context {St R : Type} `{HRd : Redis R} `{!RedisLaws R} `{PT : PgTypes} `{!PgTypesLaws PT} `{DL : DecimalLib}
  `{PC : PriceColumn} `{U : GoLib} `{!UuidLaws U} `{L : LuaNumbers} `{!LuaNumbersLaws L} `{TT : PbTime}
  `{PB : !ProtoCodec} `{O : Otel}.
Context `{HD : !Has (pg OrderDB) St} `{HR : !Has R St} `{HK : !Has kafka St} `{HS : !Has session St}.
Context `{A1 : !Apart R (pg OrderDB) St} `{A2 : !Apart (pg OrderDB) R St} `{A3 : !Apart R session St}
  `{A4 : !Apart (pg OrderDB) session St} `{A5 : !Apart session (pg OrderDB) St} `{A6 : !Apart session R St}.
Variables (blockTtl : Z) (consumerGroup : string) (cfg : consumer_config).

Notation db w := (db_of (D := OrderDB) (w_st w)).
Notation marked w := (se_marked (prj (w_st w))).
Notation pipeline := (wrapped cfg (market_handler blockTtl consumerGroup)).

Definition carries_event (m : ConsumerMessage) (event : MarketStateChangedEvent) : Prop :=
  UnmarshalMarketStateChanged (cm_Value m) = Ok event.

Definition new_event (d : OrderDB) (event : MarketStateChangedEvent) : Prop :=
  unprocessed (event_key event consumerGroup) d.

(** The register of a market after the events. *)
Definition registers_after (m : UUID) (s : Lww.register) (events : list MarketStateChangedEvent) : Lww.register :=
  foldl (λ s event, register_after event m s) s events.

(** What a claim of these messages leaves behind. *)
Definition claimed (w : world St) (msgs : list ConsumerMessage) (events : list MarketStateChangedEvent)
    (w' : world St) : Prop :=
  (exists k, w_env w' = Nat.iter k tick (w_env w)) /\ marked w' = marked w ++ msgs /\
  db_orders (db w') = hit_row events <$> db_orders (db w) /\
  forall m D s, 0 < ttl_ms blockTtl -> Forall (λ event, lua_exact (UnixMilli (mse_UpdatedAt event))) events ->
    D <= rnow w + ttl_ms blockTtl -> register_at m D s w -> register_at m D (registers_after m s events) w'.

(** What the consumer is given. *)
Record claim_ready (events : list MarketStateChangedEvent) (w : world St) : Prop := {
  cr_calm : calm (w_env w);
  cr_idle : tx_of (D := OrderDB) (w_st w) = TxNone;
  cr_fresh : fresh_rows (w_env w) (db w);
  cr_new : Forall (new_event (db w)) events;
  cr_distinct : NoDup (mse_EventID <$> events)
}.

Lemma mark_parts m (s : St) :
  prj (X := pg OrderDB) (mark m s) = prj s /\ prj (X := R) (mark m s) = prj s /\
  se_marked (prj (mark m s)) = se_marked (prj s) ++ [m].
Proof. unfold mark. rewrite prj_upd. split_and!; [apply prj_apart|apply prj_apart|done]. Qed.

(** One message: its event takes effect, and the rest stays ready. *)
Lemma handler_ok m event events w :
  status_marshal_total -> carries_event m event -> claim_ready (event :: events) w ->
  wp (market_handler blockTtl consumerGroup (received m)) (λ r w1, r = Returns None /\
    let w' := World (w_env w1) (mark m (w_st w1)) in
    claim_ready events w' /\ claimed w [m] [event] w') w.
Proof.
  intros Hmar Hm [Hcalm Hidle Hfr Hnew Hnd]. apply Forall_cons in Hnew as [Hnew Hrest].
  rewrite fmap_cons in Hnd. apply NoDup_cons in Hnd as [Hnin Hnd].
  assert (Hrd : delivery_ready event consumerGroup w) by by split.
  unfold market_handler, handleMarketStateChanged. simpl. rewrite Hm. apply wp_bind, wp_bind.
  set (run := ProcessMarketStateChanged _ _ _ _ _).
  assert (H1 := process_ok blockTtl event consumerGroup (cm_Topic m) (cm_Value m) w Hmar Hrd).
  assert (H2 := frames_process (X := session) blockTtl consumerGroup (cm_Topic m) (cm_Value m) event w).
  assert (H3 := ticks_wp _ w (ticks_process blockTtl event consumerGroup (cm_Topic m) (cm_Value m))).
  assert (H4 : wp run (λ _ w', forall k D s, 0 < ttl_ms blockTtl -> lua_exact (UnixMilli (mse_UpdatedAt event)) ->
    D <= rnow w + ttl_ms blockTtl -> register_at k D s w -> register_at k D (register_after event k s) w') w).
  { do 3 (apply wp_forall; intros ?). intros ????. by apply process_register. }
  fold run in H1, H2, H3. clearbody run.
  eapply wp_mono; [exact (wp_conj _ _ _ _ (wp_conj _ _ _ _ (wp_conj _ _ _ _ H1 H2) H3) H4)|].
  simpl. intros r w1 [[[(-> & Htx & Hfr1 & Hc) Hs] [k Hk]] Hreg]. do 2 apply wp_ret. split; [done|].
  destruct (mark_parts m (w_st w1)) as (Hpg & Hr & Hmk).
  assert (Hdb : db_of (D := OrderDB) (mark m (w_st w1)) = db w1) by (unfold db_of; by rewrite Hpg).
  split.
  - split; simpl; [rewrite Hk; by apply calm_ticks|unfold tx_of in *; by rewrite Hpg|by rewrite Hdb| |done].
    destruct Hc as [_ _ (row & Hi & _) _]. rewrite Hdb. apply Forall_forall. intros ev Hev.
    rewrite Forall_forall in Hrest. intros row0. rewrite Hi, lookup_insert_ne; [by apply Hrest|].
    intros [= Heq]. apply Hnin. rewrite Heq. by apply list_elem_of_fmap_2.
  - split_and!; simpl.
    + by exists k.
    + by rewrite Hmk, Hs.
    + rewrite Hdb. destruct Hc as [-> _ _ _]. apply cancelled_orders_hit.
    + intros mk D s Hpos [Hex _]%Forall_cons HD0 Hs0. unfold register_at, rnow. simpl. rewrite Hr.
      by apply Hreg.
Qed.

Lemma claimed_app w w1 w2 msgs1 msgs2 events1 events2 :
  calm (w_env w) ->
  claimed w msgs1 events1 w1 -> claimed w1 msgs2 events2 w2 ->
  (forall row, hit_row (events1 ++ events2) row = hit_row events2 (hit_row events1 row)) ->
  claimed w (msgs1 ++ msgs2) (events1 ++ events2) w2.
Proof.
  intros [_ Hmono] ([k Hk] & Hm1 & Ho1 & Hr1) ([k2 Hk2] & Hm2 & Ho2 & Hr2) Hhit. split_and!.
  - exists (k2 + k)%nat. by rewrite Hk2, Hk, Nat.iter_add.
  - by rewrite Hm2, Hm1, app_assoc.
  - rewrite Ho2, Ho1, <- map_fmap_compose. apply map_fmap_ext. intros i row _. by rewrite Hhit.
  - intros m D s Hpos [Hx1 Hx2]%Forall_app HD0 Hs. unfold registers_after. rewrite foldl_app.
    apply Hr2; [done|done| |by apply Hr1].
    assert (rnow w <= rnow w1); [|lia]. unfold rnow. rewrite Hk.
    destruct (iter_tick_clocks k (w_env w)) as (-> & _ & _ & ->). apply Hmono. lia.
Qed.

Lemma claim_ok msgs events w :
  status_marshal_total -> cc_MaxRetries cfg < max_i64 -> Forall2 carries_event msgs events ->
  claim_ready events w ->
  wp (ConsumeClaim pipeline (ArmMessage <$> msgs)) (λ r w', r = None /\ claimed w msgs events w') w.
Proof.
  intros Hmar Hmax Hall. revert w. induction Hall as [|m event msgs events Hm _ IH]; intros w Hrd; simpl.
  { apply wp_ret. split; [done|]. split_and!; [by exists 0%nat|by rewrite app_nil_r| |done].
    symmetry. rewrite <- (map_fmap_id (db_orders (db w))) at 2. by apply map_fmap_ext. }
  apply wp_bind. eapply wp_mono; [apply (handleMessage_ok cfg _ m (λ w',
    claim_ready events w' /\ claimed w [m] [event] w')); [done|];
    by apply (handler_ok m event events w)|].
  simpl. intros r w1 (-> & Hrd1 & Hc1). eapply wp_mono; [by apply IH|].
  intros r w2 [-> Hc2]. split; [done|]. apply (claimed_app w w1 w2 [m] msgs [event] events); try done.
  - by destruct Hrd.
  - intros row. apply hit_row_cons.
Qed.
End Claim.

(** ** The two services *)

Definition market_unavailable (m : Market) : bool :=
  negb (mkt_Enabled m && match mkt_DeletedAt m with None => true | _ => false end).

(** The order is active and of one of the markets that became unavailable. *)
Definition taken_off (ms : list Market) (row : OrderRow) : bool :=
  existsb (λ m, market_unavailable m && cancellable (mkt_ID m) row) ms.

Lemma taken_off_iff ms row :
  taken_off ms row = true <-> exists m, m ∈ ms /\ market_unavailable m = true /\ cancellable (mkt_ID m) row = true.
Proof.
  unfold taken_off. rewrite existsb_exists. split; intros (m & Hin & H); exists m.
  - rewrite list_elem_of_In. by apply andb_true_iff in H.
  - rewrite <- list_elem_of_In, andb_true_iff. tauto.
Qed.

Lemma taken_off_perm ms ms' row : ms ≡ₚ ms' -> taken_off ms row = taken_off ms' row.
Proof.
  intros Hp. apply eq_true_iff_eq. rewrite !taken_off_iff. by setoid_rewrite Hp.
Qed.

Lemma hit_taken_off ms events row : Forall2 event_of ms events -> hit events row = taken_off ms row.
Proof.
  induction 1 as [|m event ms events (Hid & Hen & Hdel & _) _ IH]; [done|].
  simpl. rewrite IH. unfold unavailable, market_unavailable. by rewrite Hid, Hen, Hdel.
Qed.

Lemma registers_cons k s event events :
  registers_after k s (event :: events) = registers_after k (register_after event k s) events.
Proof. done. Qed.

(** Each market is written once. *)
Lemma registers_other ms events k s :
  Forall2 event_of ms events -> k ∉ (mkt_ID <$> ms) -> registers_after k s events = s.
Proof.
  intros H. revert s. induction H as [|m event ms events (Hid & _) _ IH]; intros s Hk; [done|].
  rewrite fmap_cons, not_elem_of_cons in Hk. destruct Hk as [Hne Hk]. rewrite registers_cons, IH by done. unfold register_after. by rewrite decide_False by congruence.
Qed.

Lemma registers_market ms events m s :
  Forall2 event_of ms events -> NoDup (mkt_ID <$> ms) -> m ∈ ms ->
  registers_after (mkt_ID m) s events = Lww.write (UnixMilli (mkt_UpdatedAt m)) (market_unavailable m) s.
Proof.
  intros H. revert s. induction H as [|m0 event ms events (Hid & Hen & Hdel & Hup) Hall IH]; intros s Hnd Hm; [set_solver|].
  rewrite fmap_cons in Hnd. apply NoDup_cons in Hnd as [Hnin Hnd]. rewrite registers_cons.
  apply elem_of_cons in Hm as [->|Hm].
  - rewrite (registers_other ms) by done. unfold register_after. rewrite Hid, decide_True by done.
    unfold unavailable, market_unavailable. by rewrite Hen, Hdel, Hup.
  - unfold register_after. rewrite Hid, decide_False; [by apply IH|].
    intros Heq. apply Hnin. rewrite Heq. by apply list_elem_of_fmap_2.
Qed.

(** The rows just added are the pending ones. *)
Lemma pending_added evs t t' :
  wf t -> wf t' -> pending_list t = [] -> rows_added evs t t' ->
  Forall (λ e, oe_Status e = OutboxEventStatusPending) evs -> pending_list t' ≡ₚ evs.
Proof.
  intros [Hk _ _] [Hk' _ _] Hnone Hadd Hst. apply NoDup_Permutation.
  - eapply NoDup_fmap_1. by apply NoDup_fmap_filter, NoDup_rows.
  - eapply NoDup_fmap_1. by destruct Hadd as (_ & Hnd & _).
  - intros e. rewrite elem_of_pending_list by done. rewrite Forall_forall in Hst. split.
    + intros [He Hs]. destruct (decide (oe_ID e ∈ (oe_ID <$> evs))) as [Hin|Hout].
      * apply list_elem_of_fmap in Hin as (x & Heq & Hx). pose proof (rows_added_new _ _ _ _ Hadd Hx) as Hx'.
        rewrite <- Heq, He in Hx'. by injection Hx' as ->.
      * destruct Hadd as (-> & _). rewrite add_rows_other in He by done.
        assert (Hx : e ∈ pending_list t) by by apply elem_of_pending_list. rewrite Hnone in Hx. by apply elem_of_nil in Hx.
    + intros He. split; [by eapply rows_added_new|by apply Hst].
Qed.

Lemma pending_event_ids t : wf t -> NoDup (oe_EventID <$> pending_list t).
Proof.
  intros Hwf. pose proof (wf_keyed _ Hwf) as Hk. apply NoDup_fmap_2_strong.
  - intros e1 e2 [H1 _]%elem_of_pending_list [H2 _]%elem_of_pending_list Heq; [|done..].
    pose proof (wf_event_ids _ Hwf _ _ _ _ H1 H2 Heq) as Hid. rewrite Hid, H2 in H1. by injection H1.
  - eapply NoDup_fmap_1. by apply NoDup_fmap_filter, NoDup_rows.
Qed.

Lemma Forall2_perm_r {A B} (P : A -> B -> Prop) l k k' :
  Forall2 P l k -> k ≡ₚ k' -> exists l', l' ≡ₚ l /\ Forall2 P l' k'.
Proof.
  intros H%Forall2_flip Hp. destruct (Permutation_Forall2 Hp H) as (l' & Hl & H').
  exists l'. split; [done|]. by apply Forall2_flip.
Qed.

Section System.
Context {Ss So R : Type} `{HRd : Redis R} `{!RedisLaws R} `{PT : PgTypes} `{!PgTypesLaws PT} `{C : Collation}
  `{DL : DecimalLib} `{PC : PriceColumn} `{U : GoLib} `{!UuidLaws U} `{MJ : MarketJson} `{!MarketJsonLaws MJ}
  `{L : LuaNumbers} `{!LuaNumbersLaws L} `{TT : PbTime} `{!PbTimeLaws TT} `{PB : !ProtoCodec}
  `{!ProtoCodecLaws PB} `{O : Otel}.
(* the spot service *)
Context `{SR : !Has R Ss} `{SD : !Has (pg SpotDB) Ss} `{SP : !Has poller Ss} `{SK : !Has kafka Ss}
  `{S1 : !Apart (pg SpotDB) poller Ss} `{S2 : !Apart poller (pg SpotDB) Ss} `{S3 : !Apart R poller Ss}
  `{S4 : !Apart R (pg SpotDB) Ss} `{S5 : !Apart (pg SpotDB) R Ss} `{S6 : !Apart kafka (pg SpotDB) Ss}
  `{S7 : !Apart (pg SpotDB) kafka Ss}.
(* the order service *)
Context `{HD : !Has (pg OrderDB) So} `{HR : !Has R So} `{HK : !Has kafka So} `{HS : !Has session So}.
Context `{A1 : !Apart R (pg OrderDB) So} `{A2 : !Apart (pg OrderDB) R So} `{A3 : !Apart R session So}
  `{A4 : !Apart (pg OrderDB) session So} `{A5 : !Apart session (pg OrderDB) So} `{A6 : !Apart session R So}.
Variables (pcfg : poller_config) (viewer : viewer_config) (fuel : nat).
Variables (topic : string) (wcfg : worker_config) (polls : nat).
Variables (blockTtl : Z) (consumerGroup : string) (ccfg : consumer_config).

(** The spot service before the poll, the worker when it takes over, and the
    order service when it is given the messages. *)
Variables (ws ww : world Ss) (wo : world So) (msgs : list ConsumerMessage).

Notation orders w := (db_orders (db_of (D := OrderDB) (w_st w))).
Notation worker := (Outbox.Run_loop (D := SpotDB) (HP := SpotWorker.publisher topic) wcfg (replicate polls PollTick)).
Notation consume := (ConsumeClaim (wrapped ccfg (market_handler blockTtl consumerGroup)) (ArmMessage <$> msgs)).

(** The broker hands the record over as it is in the log. *)
Definition carries_record (r : krecord) (m : ConsumerMessage) : Prop :=
  cm_Topic m = kr_topic r /\ cm_Key m = kr_key r /\ cm_Value m = kr_value r.

Definition times_fit (m : Market) : Prop :=
  pb_time_range (mkt_UpdatedAt m) /\ forall t, mkt_DeletedAt m = Some t -> pb_time_range t.

Record spot_ready : Prop := {
  sr_poll : poll_ready pcfg viewer fuel ws;
  sr_times : Forall times_fit (pending ws);
  sr_quiet : wf (tab (D := SpotDB) (w_st ws)) /\ pending_list (tab (D := SpotDB) (w_st ws)) = [];
  sr_tables : db_of (D := SpotDB) (w_st ww) = db_of (w_st (poll pcfg fuel ws).2);
  sr_wf : wf (tab (D := SpotDB) (w_st ww));
  sr_calm : no_faults (w_env ww);
  sr_due : ready (HP := SpotWorker.publisher topic) (w_env ww) (tab (D := SpotDB) (w_st ww));
  sr_polls : 1 <= wc_batchSize wcfg /\ (size (pending_ids (tab (D := SpotDB) (w_st ww))) <= polls)%nat;
  sr_delivered : exists recs, log_of (w_st (worker ww).2) = log_of (w_st ww) ++ recs /\
    Forall2 carries_record recs msgs
}.

Record order_ready : Prop := {
  rd_calm : calm (w_env wo);
  rd_idle : tx_of (D := OrderDB) (w_st wo) = TxNone;
  rd_fresh : fresh_rows (w_env wo) (db_of (w_st wo));
  rd_first : forall m event, m ∈ msgs -> carries_event m event ->
    unprocessed (event_key event consumerGroup) (db_of (w_st wo));
  rd_retries : cc_MaxRetries ccfg < max_i64
}.

(** The event an outbox row announces. *)
Definition row_event (m : Market) (ev : OutboxEvent) : MarketStateChangedEvent := {|
  mse_EventID := oe_EventID ev; mse_MarketID := mkt_ID m; mse_Enabled := mkt_Enabled m;
  mse_DeletedAt := mkt_DeletedAt m; mse_UpdatedAt := mkt_UpdatedAt m |}.

Lemma announces_carried ms evs ms0 :
  Forall times_fit ms -> Forall2 announces ms evs ->
  Forall2 carries_record (SpotWorker.event_record topic <$> evs) ms0 ->
  Forall2 carries_event ms0 (zip_with row_event ms evs).
Proof.
  intros Ht Hann. revert ms0. induction Hann as [|m ev ms evs Ha _ IH]; intros ms0 Hc.
  { apply Forall2_nil_inv_l in Hc as ->. constructor. }
  apply Forall_cons in Ht as [[Hu Hdel] Ht].
  rewrite fmap_cons in Hc. apply Forall2_cons_inv_l in Hc as (m0 & ms0' & (_ & _ & Hv) & Hc & ->).
  constructor; [|by apply IH]. unfold carries_event. rewrite Hv.
  destruct Ha as (_ & _ & _ & _ & _ & Hp). by apply (market_event_roundtrip (row_event m ev)).
Qed.

Lemma row_events_of ms evs : length ms = length evs -> Forall2 event_of ms (zip_with row_event ms evs).
Proof.
  revert evs. induction ms as [|m ms IH]; intros [|ev evs] Hl; simpl in *; try done; constructor; [done|].
  apply IH. lia.
Qed.

Lemma row_event_ids ms evs :
  length ms = length evs -> mse_EventID <$> zip_with row_event ms evs = oe_EventID <$> evs.
Proof.
  revert evs. induction ms as [|m ms IH]; intros [|ev evs] Hl; try done.
  cbn [zip_with]. rewrite !fmap_cons. f_equal. apply IH. simpl in Hl. lia.
Qed.

(** Every update pending at the poll arrives, once, as its own event. *)
Lemma events_arrive :
  marshal_total -> spot_ready -> exists ms events, ms ≡ₚ pending ws /\ Forall2 event_of ms events /\
    Forall2 carries_event msgs events /\ NoDup (mse_EventID <$> events).
Proof.
  intros Hmar [Hpoll Ht [Hwf0 Hq] Htab Hwf Hnf Hdue [Hb Hsz] (recs & Hlog & Hc)].
  assert (Hann : announced (pending ws) (db_of (w_st ws)) (db_of (w_st ww))).
  { rewrite Htab. pose proof (poll_complete pcfg viewer fuel ws Hmar Hpoll) as H. unfold wp in H. apply H. }
  destruct Hann as (evs & Hadd & Hrows & _).
  assert (Hp : pending_list (tab (D := SpotDB) (w_st ww)) ≡ₚ evs).
  { eapply pending_added; [exact Hwf0|exact Hwf|exact Hq|exact Hadd|]. clear -Hrows.
    induction Hrows as [|m ev ms evs (_ & _ & _ & Hs & _)]; by constructor. }
  pose proof (drain_aux (HP := SpotWorker.publisher topic) wcfg polls ww Hnf Hwf Hb Hdue Hsz) as Hdrain.
  unfold wp in Hdrain. destruct Hdrain as [(recs' & Hlog' & Hrec) _].
  rewrite Hlog in Hlog'. apply app_inv_head in Hlog' as <-. rewrite Hp in Hrec.
  destruct (Permutation_map_inv _ _ Hrec) as (evs' & -> & Hperm).
  destruct (Forall2_perm_r _ _ _ _ Hrows Hperm) as (ms' & Hms & Hrows').
  assert (Hl : length ms' = length evs') by by eapply Forall2_length.
  exists ms', (zip_with row_event ms' evs'). split_and!.
  - done.
  - by apply row_events_of.
  - apply announces_carried; [by rewrite Hms|done|done].
  - rewrite row_event_ids by done. rewrite <- Hperm, <- Hp. by apply pending_event_ids.
Qed.

(** The consumer takes all of them. *)
Lemma changes_arrive :
  marshal_total -> status_marshal_total -> spot_ready -> order_ready ->
  exists ms events, ms ≡ₚ pending ws /\ Forall2 event_of ms events /\
    wp consume (λ r w', r = None /\ claimed blockTtl wo msgs events w') wo.
Proof.
  intros Hm1 Hm2 Hs [Hcalm Hidle Hfr Hfirst Hmax].
  destruct (events_arrive Hm1 Hs) as (ms & events & Hp & Hev & Hc & Hnd). exists ms, events.
  split_and!; [done|done|]. apply (claim_ok blockTtl consumerGroup ccfg); [done|done|done|]. split; try done.
  eapply Forall2_Forall_r; [exact Hc|]. apply Forall_forall. intros m Hin event. by apply Hfirst.
Qed.

(** C1 A market that becomes unavailable takes its orders off the book, across
    the two services.  When nothing fails, the updates the poller finds pending
    are polled, published and consumed: the consumer takes every message, the
    orders that are active and of a market that is now disabled or deleted are
    cancelled, and every other order is as before. *)
Theorem market_changes_cancel_orders :
  marshal_total -> status_marshal_total -> spot_ready -> order_ready ->
  wp consume (λ r w', r = None /\ se_marked (prj (w_st w')) = se_marked (prj (w_st wo)) ++ msgs /\
    forall id, orders w' !! id =
      (λ row, if taken_off (pending ws) row then cancel_row row else row) <$> orders wo !! id) wo.
Proof.
  intros Hm1 Hm2 Hs Ho. destruct (changes_arrive Hm1 Hm2 Hs Ho) as (ms & events & Hp & Hev & Hw).
  eapply wp_mono; [exact Hw|]. intros r w' (-> & _ & Hmk & Hord & _). split_and!; [done|done|].
  intros id. rewrite Hord, lookup_fmap. apply option_fmap_ext. intros row. unfold hit_row.
  by rewrite (hit_taken_off _ _ _ Hev), (taken_off_perm _ _ _ Hp).
Qed.

(** C2 And no new ones get on it: once the messages are consumed, the order
    service answers for each of those markets whether it is blocked as the
    spot service's change says, until the block state's time to live is over;
    an older state in Redis does not stand against it. *)
Theorem market_changes_block_markets m s :
  marshal_total -> status_marshal_total -> spot_ready -> order_ready -> m ∈ pending ws ->
  0 < ttl_ms blockTtl -> Forall (λ m, lua_exact (UnixMilli (mkt_UpdatedAt m))) (pending ws) ->
  register_at (mkt_ID m) (rnow wo + ttl_ms blockTtl) s wo -> Lww.older (UnixMilli (mkt_UpdatedAt m)) s ->
  wp consume (λ _ w', rnow w' < rnow wo + ttl_ms blockTtl ->
    wp (IsBlocked (mkt_ID m)) (λ r _, r = Ok (market_unavailable m)) w') wo.
Proof.
  intros Hm1 Hm2 Hs Ho Hm Hpos Hex Hreg Hold.
  destruct (changes_arrive Hm1 Hm2 Hs Ho) as (ms & events & Hp & Hev & Hw).
  assert (Hids : NoDup (mkt_ID <$> ms)).
  { rewrite Hp. apply updated_ids. by destruct (sr_poll Hs) as [_ _ [? _] _ _ _]. }
  eapply wp_mono; [exact Hw|]. intros r w' (-> & [k Hk] & _ & _ & Hregs) Hlt.
  specialize (Hregs (mkt_ID m) (rnow wo + ttl_ms blockTtl) s Hpos).
  rewrite (registers_market ms) in Hregs by (done || by rewrite Hp).
  eapply wp_mono; [eapply (IsBlocked_spec _ (rnow wo + ttl_ms blockTtl) (Some (_, market_unavailable m)))|done].
  - rewrite Hk. apply no_faults_ticks, (rd_calm Ho).
  - intros t ->. split; [exact Hlt|]. fold (rnow w'). rewrite <- (Lww.older_write s) by done.
    apply Hregs; [|lia|done]. rewrite <- Hp in Hex.
    eapply Forall2_Forall_r; [exact Hev|]. eapply Forall_impl; [exact Hex|].
    intros m' Hx event (_ & _ & _ & ->). exact Hx.
Qed.
End System.

(** ** A closed instance *)

Section Witness.
#[local] Existing Instance MemRedis.mem_redis.
#[local] Existing Instance MemRedis.mem_redis_laws.
#[local] Existing Instance DecLib.
#[local] Existing Instance DecLib_laws.
#[local] Existing Instance IntDec.
#[local] Existing Instance IntPrice.
#[local] Existing Instance MicroPg.
#[local] Existing Instance MicroPg_laws.
#[local] Existing Instance IntLua.
#[local] Existing Instance IntLua_laws.
#[local] Existing Instance TextJson.
#[local] Existing Instance TextJson_laws.
#[local] Existing Instance CodeOrder.
#[local] Existing Instance IdTime.
#[local] Existing Instance IdTime_laws.
#[local] Existing Instance TextProto.
#[local] Existing Instance TextProto_laws.
#[local] Existing Instance IdOtel.
Notation mem := (gmap string (string * option Z)).
Notation spot_state := (mem * (pg SpotDB * (poller * kafka)))%type.
Notation order_state := (pg OrderDB * (mem * (kafka * session)))%type.

(** Market 9, in which the saved order is, has been disabled. *)
Definition closed_market : Market := {|
  mkt_ID := 9%N; mkt_Name := "BTC-USDT"; mkt_Enabled := false; mkt_DeletedAt := None;
  mkt_UpdatedAt := 5000000 |}.

Definition closed_db : SpotDB := {|
  sdb_markets := {[ 9%N := closed_market ]}; sdb_cursors := ∅; sdb_outbox := ∅ |}.

Definition demo_spot : world spot_state :=
  World quiet_env (∅, (Pg closed_db TxNone, (fresh_poller, Kafka []))).

Definition demo_polled : world spot_state :=
  World quiet_env (w_st (poll demo_poller 3 demo_spot).2).

Definition demo_sent : world spot_state :=
  (Outbox.Run_loop (D := SpotDB) (HP := SpotWorker.publisher "markets") Outbox.demo_cfg (replicate 1 PollTick) demo_polled).2.

Definition taken_record (r : krecord) : ConsumerMessage := {|
  cm_Headers := []; cm_Timestamp := 0; cm_BlockTimestamp := 0; cm_Key := kr_key r; cm_Value := kr_value r;
  cm_Topic := kr_topic r; cm_Partition := 0; cm_Offset := 0 |}.

Lemma taken_records l : Forall2 carries_record l (taken_record <$> l).
Proof. induction l as [|r l IH]; constructor; [by split_and!|exact IH]. Qed.

Definition demo_msgs : list ConsumerMessage := taken_record <$> log_of (w_st demo_sent).

Definition demo_order : world order_state := demo_consumer demo_env.

(** Run: one record, and the order of the market is cancelled. *)
Example demo_delivered :
  (length demo_msgs = 1)%nat /\
  (or_Status <$> db_orders (db_of (w_st (ConsumeClaim (wrapped demo_consumer_cfg
     (market_handler 60000000000 "g")) (ArmMessage <$> demo_msgs) demo_order).2)) !! 2%N)
     = Some OrderStatusCancelled.
Proof. vm_compute. split; reflexivity. Qed.

Lemma demo_pending : pending demo_spot = [closed_market].
Proof. vm_compute. reflexivity. Qed.

Lemma demo_poll_ready : poll_ready demo_poller shop_config 3 demo_spot.
Proof.
  split.
  - exact shop_calm.
  - reflexivity.
  - split; intros id m Hm; change (({[ 9%N := closed_market ]} : gmap UUID Market) !! id = Some m) in Hm;
      apply lookup_singleton_Some in Hm as [<- <-]; (split; [done|]); [done|].
    split_and!; [done|right; unfold in_i64, min_i64, max_i64; simpl; lia|done].
  - split; [reflexivity|]. split; [reflexivity|]. vm_compute. by intuition.
  - split; [intros n m _ _; simpl; lia|]. intros n id ev _ Hev. discriminate Hev.
  - rewrite demo_pending. simpl. lia.
Qed.

(** The poll's only row. *)
Lemma demo_outbox : exists e, tab (D := SpotDB) (w_st demo_polled) = {[ oe_ID e := e ]} /\
  oe_AvailableAt e = 0 /\ oe_Status e = OutboxEventStatusPending /\ wf_row e.
Proof.
  eexists (match map_to_list (tab (D := SpotDB) (w_st demo_polled)) with (_, e) :: _ => e | [] => Outbox.demo_event end).
  split; [vm_compute; reflexivity|]. split; [vm_compute; reflexivity|]. split; [vm_compute; reflexivity|].
  split; [vm_compute; discriminate|]. left. split_and!; vm_compute; reflexivity.
Qed.

Lemma demo_spot_ready :
  spot_ready demo_poller shop_config 3 "markets" Outbox.demo_cfg 1 demo_spot demo_polled demo_msgs.
Proof.
  destruct demo_outbox as (e & He & Ha & Hs & Hr). split.
  - exact demo_poll_ready.
  - rewrite demo_pending. constructor; [|constructor]. split; [unfold pb_time_range; simpl; lia|done].
  - split; [apply wf_empty|vm_compute; reflexivity].
  - vm_compute. reflexivity.
  - rewrite He. split.
    + by intros id x [<- <-]%lookup_singleton_Some.
    + by intros id x [<- <-]%lookup_singleton_Some.
    + by intros i j x y [<- <-]%lookup_singleton_Some [<- <-]%lookup_singleton_Some.
  - apply quiet_env_no_faults.
  - rewrite He. intros id x [<- <-]%lookup_singleton_Some _. split; [|done]. intros k _. by rewrite Ha.
  - split; [vm_compute; discriminate|]. vm_compute. lia.
  - exists (log_of (w_st demo_sent)). split; [vm_compute; reflexivity|]. apply taken_records.
Qed.

Lemma demo_order_ready : order_ready "g" demo_consumer_cfg demo_order demo_msgs.
Proof.
  assert (Hout : bool_decide (map_Forall (λ id ev, (id < 100)%N /\ (oe_EventID ev < 100)%N)
    (db_outbox (db_of (w_st demo_order)))) = true) by (vm_compute; reflexivity).
  apply bool_decide_eq_true in Hout.
  assert (Hin : db_inbox (db_of (w_st demo_order)) = ∅) by (vm_compute; reflexivity).
  assert (Ht : e_tick (w_env demo_order) = 100%nat) by (vm_compute; reflexivity).
  assert (Hu : forall n, e_uuid (w_env demo_order) n = N.of_nat (S n)).
  { intros n. unfold demo_order, demo_consumer, demo_env. cbn [w_env].
    by destruct (iter_tick_clocks 100 quiet_env) as (_ & _ & -> & _). }
  split.
  - split; [apply no_faults_ticks, quiet_env_no_faults|]. intros m n _. vm_compute. discriminate.
  - vm_compute. reflexivity.
  - split.
    + unfold fresh_ids. rewrite Ht. split; [intros n m _ _; rewrite !Hu; lia|]. intros n id ev Hn Hev.
      rewrite Hu. destruct (Hout _ _ Hev) as [H1 H2]. split; intros Heq; [rewrite Heq in H1|rewrite Heq in H2]; lia.
    + intros n _. rewrite Hin. reflexivity.
  - intros m event _ _ row. by rewrite Hin, lookup_empty.
  - reflexivity.
Qed.

Lemma demo_status_total : status_marshal_total.
Proof. intros upd. by eexists. Qed.

Lemma market_changes_cancel_orders_witness :
  wp (ConsumeClaim (wrapped demo_consumer_cfg (market_handler 60000000000 "g")) (ArmMessage <$> demo_msgs))
    (λ r w', r = None /\ se_marked (prj (w_st w')) = se_marked (prj (w_st demo_order)) ++ demo_msgs /\
      forall id, db_orders (db_of (w_st w')) !! id =
        (λ row, if taken_off (pending demo_spot) row then cancel_row row else row) <$>
          db_orders (db_of (w_st demo_order)) !! id) demo_order.
Proof.
  exact (market_changes_cancel_orders demo_poller shop_config 3 "markets" Outbox.demo_cfg 1 60000000000 "g"
    demo_consumer_cfg demo_spot demo_polled demo_order demo_msgs demo_marshal_total demo_status_total
    demo_spot_ready demo_order_ready).
Defined.

Lemma market_changes_block_markets_witness :
  wp (ConsumeClaim (wrapped demo_consumer_cfg (market_handler 60000000000 "g")) (ArmMessage <$> demo_msgs))
    (λ _ w', rnow w' < rnow demo_order + ttl_ms 60000000000 ->
      wp (IsBlocked 9%N) (λ r _, r = Ok (market_unavailable closed_market)) w') demo_order.
Proof.
  apply (market_changes_block_markets demo_poller shop_config 3 "markets" Outbox.demo_cfg 1 60000000000 "g"
    demo_consumer_cfg demo_spot demo_polled demo_order demo_msgs closed_market None).
  - exact demo_marshal_total.
  - exact demo_status_total.
  - exact demo_spot_ready.
  - exact demo_order_ready.
  - rewrite demo_pending. left.
  - reflexivity.
  - rewrite demo_pending. constructor; [|constructor]. by vm_compute.
  - vm_compute. reflexivity.
  - exact I.
Defined.
End Witness.
